(* ===== verification/_CoqProject ===== *)
-Q . S2P
Prelude.v
Errors.v
WireIo.v
Sparse.v
Text.v
ColTypes.v
Json.v
Columns.v
Decode.v
Encode.v
RoundTrip.v
Agree.v
Blocks.v
Render.v
Protocol.v
Packets.v
Requests.v
Exchange.v
Actor.v
ActorRules.v
Sessions.v
Connection.v
Cursor.v
Worker.v
Pool.v
Streams.v
Client.v
Borrowers.v
Lending.v
Handle.v
ParsedTypes.v
Ext.v
Calendar.v
Floats.v
Rounding.v
DynScalars.v
DynEncode.v
FloatDisplay.v
Unified.v
DynSchema.v
InsertWire.v
DynInsert.v
Caching.v
Delivery.v
ReadBack.v
