(* ===== verification/Prelude.v ===== *)
(** * Verification of dfe-clickhouse

    A model of the crate [dfe-clickhouse], a ClickHouse client in Rust that speaks the native
    TCP protocol and, through an upstream crate, HTTP, with the theorems that make it correct. This file
    holds the header of the development and what its files share: text and bytes, results and readers with
    their rules, list lemmas, tactics and hint databases.

    ** The program and its parts

    A caller holds a TCP client ([src/tcp/client.rs]), an upstream HTTP client, or one of the two
    ([src/unified.rs]). The TCP client lends connections from a pool ([src/tcp/pool.rs]); each
    is owned by an actor ([src/tcp/connection_actor.rs]) that writes the packets of a command, takes the
    server's answer from a reader task and replies. Rows go out as blocks cut from RowBinary rows
    ([src/native/encode.rs]) and come back as typed columns ([src/native/decode.rs]); the shapes whose
    types come off the wire are read as cells and rendered as JSON ([src/native/columns.rs]). Above
    it, dynamic inserts ([src/dynamic]) turn JSON objects into such rows against the
    schema the server reports.

    ** Files and sources

    Shared: [Prelude]; [Text] (string functions of the Rust standard library); [Floats] (f64), with [Rounding]
    (reading a decimal is monotone) and [FloatDisplay] (its text).
    Errors and retry: [Errors] for [error.rs], [dynamic/error.rs], [tcp/retry.rs].
    The codec: [WireIo] for [native/io.rs]; [Sparse] for [native/sparse.rs]; [ColTypes], [Columns] and [Json] for
    the types, readers and renderer of [native/columns.rs]; [Decode] for [native/decode.rs]; [Encode] for
    [native/encode.rs]. [RoundTrip], [Agree], [Blocks] and [Render] are theorems over them.
    The protocol: [Protocol] for [tcp/protocol.rs]; [Packets] for [tcp/reader.rs]; [Requests] for [tcp/writer.rs],
    [tcp/client_info.rs] and [tcp/handshake.rs]; [Exchange] is a theorem over them.
    The connection: [Actor] for [tcp/connection_actor.rs], with its rules in [ActorRules], the
    contract of a server in [Sessions] and its guarantees in [Connection]; [Streams] for [tcp/transport.rs], the stream under it; [Cursor] for [tcp/cursor.rs] and [tcp/query.rs];
    [Worker] for [worker.rs] and the handle's [close].
    Clients: [Pool] for [tcp/pool.rs] and [tcp/connect.rs]; [Client] for [tcp/client.rs] and [tls.rs]; [Borrowers] for
    [tcp/client_ext.rs] and the calls of the handle, [Lending] for both when callers leave half-way, [Handle] for the end of a connection's task; [Unified] for [unified.rs].
    Dynamic inserts: [ParsedTypes] for [dynamic/parsed_type.rs]; [Calendar], [DynScalars] and [DynEncode] for
    [dynamic/encode.rs]; [DynSchema] for [dynamic/schema.rs]; [InsertWire] and [DynInsert] for [dynamic/insert.rs];
    [Ext] for [ext.rs]. [Caching], [Delivery] and [ReadBack] are theorems over them: several inserts at once, the codec, and the typed
    reads at the other end.

    Definitions carry the names of the source; where two files of the source use one name, the
    comment above a definition says which function it is.

    ** How the program is modelled

    Integers are [Z] in the range of their width, with wrapping and saturation written out; text and
    buffers are lists of bytes, a float its bit pattern. A reader of the stream is a function from the bytes left to a
    value and the bytes after it, or an error ([Rd]); end of stream is an error like any other. A writer is the bytes
    it appends. The actor is a state record, and its handlers are functions of the state and of a
    script of events (a write finishing or failing, a packet arriving, a timer, a caller leaving,
    another holder poisoning), so every interleaving of the awaits is a script. The network, the allocator, the
    pool library, certificates, the retry library, serde_json's texts, upstream's HTTP client and its escaper, and the
    texts of foreign errors are type classes: what the crate calls and does not define.

    ** What the theorems show

    Values: columns and blocks survive encoding and decoding ([RoundTrip], [Blocks], [Exchange]), the two decoders agree
    ([Agree]), whatever is decoded is well formed and within the caps ([Decode], [Packets], [Columns]), sparse offsets,
    variable-length integers, type names and rendered cells are inverse to their readers ([Sparse], [WireIo],
    [ColTypes], [Render]).
    Protocol: packets are framed, requests and handshakes are understood by a reader of the
    wire's layout, at every revision ([Packets], [Requests]).
    Connections: commands never see each other's answers, an unpoisoned wire is whole packets, poison stops the
    wire, every command is answered, a query completes ([Connection]); rows sent by a server reach the
    caller, and no result set is cut short silently ([Cursor]); a pooled connection is idle when it is lent and a
    statement is not replayed ([Borrowers]); an INSERT belongs to one caller even when callers drop their
    futures at any await ([Lending], a step relation over the pool, the callers and the actor's queue); a closed connection ends
    with an outcome for every caller ([Handle]); opening ends in its budget ([Pool]); settings and pool fit the configuration
    and trust fails closed ([Client]).
    Dynamic inserts: both type parsers agree on the server's names ([ParsedTypes]); dates are the calendar's ([Calendar]); plain decimals
    and integers are written exactly or refused ([DynScalars], [DynEncode]); rows cross the wire ([DynEncode]); the
    cache answers what is fresh ([DynSchema]), also to inserts that interleave at their awaits ([Caching], a step relation); the accepted rows are the rows sent, over either sink, and failures
    are classified by their cause ([DynInsert]); a server that reads those packets finds the cells of the accepted
    objects, all and in order ([Delivery]), and typed reads of its blocks return the very values: integers of every width, booleans, floats, strings, and options of these
    ([ReadBack], whose reads each keep a class that says what the encoder and a typed read owe each other at a column type). A finite
    float survives its JSON text, the shortest decimal there is for it, bit by bit ([FloatDisplay]). The transports read the same blocks ([Unified]).

    Some theorems state what the code does where that is not what it means to do: a default value in a nullable
    LowCardinality column is written as NULL, a nested JSON column cannot be read, an empty setting name changes the request,
    a 256-bit integer is rendered in a base it is not read back in,
    a rejected INSERT costs its connection, an overloaded server is a terminal error over HTTP, a block refused for
    its size takes counted rows with it, a schema that was forgotten comes back with an answer that was in transit.

    ** Bounds and fuel

    Recursion that is not structural runs on fuel, and a lemma says the fuel is enough. A loop over the stream ([rd_loop])
    has the length of the stream and one, for a turn that goes round has consumed a byte; the parsers of type
    names have the length of the name and one, for an argument is shorter than its name; the wrappers of a
    type name likewise; a loop of the actor ([act_loop]) has the length of its script and one, for a turn waits for an
    event; the reader task has the length of the stream and one; the collecting loop of a cursor the number of items and
    one; failover recurses on the number of endpoints; the search for the digits of a float goes down to the unit of the least float,
    where every float is a decimal, from a unit at which every decimal is twice the float or more. The readers of types off the wire recurse on the levels the
    source's depth guard leaves, [MAX_READ_DEPTH + 1].

    ** Not modelled

    Sockets, TLS sessions and tokio's buffers, which are classes. Module roots and
    re-exports. Logging, tracing and derived [Debug] output. The test server and the tests. Channel capacities and the order in which
    a runtime schedules tasks beyond the scripts. The texts of foreign errors, but for the
    [Utf8Error] of the standard library. How a query reaches the upstream HTTP client, whose statements are arguments.
    How serde_json reads a document: a number comes as what its accessors give, and of the double it makes of one
    nothing is assumed but that an integer's stays on its side of 0 and of [2^63].
    What is left of the crate's
    own code beyond these is attributes, imports, derived instances and lines of types that carry no behaviour. *)

From Stdlib Require Export ZArith Lia.
From Stdlib.Strings Require Export Byte.
From coqutil Require Export Byte Word.LittleEndianList.
From stdpp Require Export base list gmap strings numbers countable pretty.

#[global] Open Scope Z_scope.

(** ** Text and bytes

    Rust's [&str], [String], [&[u8]] and [Vec<u8>] are all lists of bytes; a
    Rust string is a list of bytes that is valid UTF-8. *)

Abbreviation text := (list byte).

(** A string literal of the source as bytes. *)
Definition str (s : string) : text := String.list_byte_of_string s.

(** The decimal text an integer formats to with [{}]. *)
Definition show (z : Z) : text := str (pretty z).

(** The value of a byte, [u64::from(b)]. *)
Definition u8 (b : byte) : Z := byte.unsigned b.

#[global] Instance byte_eq_dec : EqDecision byte := Byte.byte_eq_dec.

#[global] Program Instance byte_countable : Countable byte :=
  inj_countable Byte.to_N Byte.of_N _.
Next Obligation. intros b. apply Byte.of_to_N. Qed.

(** Machine-width wrap-around of unsigned and signed integers. *)
Definition wrap (bits z : Z) : Z := z mod 2 ^ bits.

Definition wrap_signed (bits z : Z) : Z :=
  (z + 2 ^ (bits - 1)) mod 2 ^ bits - 2 ^ (bits - 1).

(** ** Results

    Rust's [Result<A, E>], with its [?] as the bind of the monad. *)

Inductive result (E A : Type) : Type :=
| Ok (a : A)
| Err (e : E).
Arguments Ok {E A} a.
Arguments Err {E A} e.

#[global] Instance result_ret {E} : MRet (result E) := fun A a => Ok a.
#[global] Instance result_bind {E} : MBind (result E) := fun A B f m =>
  match m with
  | Ok a => f a
  | Err e => Err e
  end.
#[global] Instance result_fmap {E} : FMap (result E) := fun A B f m =>
  match m with
  | Ok a => Ok (f a)
  | Err e => Err e
  end.

(** [Option::ok_or_else]. *)
Definition ok_or {E A} (o : option A) (e : E) : result E A :=
  match o with
  | Some a => Ok a
  | None => Err e
  end.

(** [Result::ok]. *)
Definition res_ok {E A} (r : result E A) : option A :=
  match r with
  | Ok a => Some a
  | Err _ => None
  end.

(** [Result::map_err]. *)
Definition map_err {E F A} (f : E -> F) (r : result E A) : result F A :=
  match r with
  | Ok a => Ok a
  | Err e => Err (f e)
  end.

Definition is_ok {E A} (r : result E A) : bool :=
  match r with
  | Ok _ => true
  | Err _ => false
  end.

(** [iter.map(f).collect::<Result<Vec<_>>>()]: stops at the first error. *)
Fixpoint map_res {E A B} (f : A -> result E B) (l : list A) : result E (list B) :=
  match l with
  | [] => Ok []
  | a :: l' => b ← f a; bs ← map_res f l'; Ok (b :: bs)
  end.

(** A loop [for a in l { s = f(s, a)?; }] over a state. *)
Fixpoint fold_res {E A S} (f : S -> A -> result E S) (s : S) (l : list A) : result E S :=
  match l with
  | [] => Ok s
  | a :: l' => s' ← f s a; fold_res f s' l'
  end.

(** ** Readers

    An asynchronous reader of the source consumes a byte stream; awaiting is
    invisible to the decoder, so a reader is a state transformer on the bytes
    that are still to come, and it stops at the first error. *)

Definition Rd (E A : Type) : Type := list byte -> result E (A * list byte).

#[global] Instance rd_ret {E} : MRet (Rd E) := fun A a bs => Ok (a, bs).
#[global] Instance rd_bind {E} : MBind (Rd E) := fun A B f m bs =>
  match m bs with
  | Ok (a, bs') => f a bs'
  | Err e => Err e
  end.

Definition rd_fail {E A} (e : E) : Rd E A := fun _ => Err e.

(** Lift a computation that reads nothing. *)
Definition rd_lift {E A} (r : result E A) : Rd E A := fun bs =>
  match r with
  | Ok a => Ok (a, bs)
  | Err e => Err e
  end.

(** [for _ in 0..n { v.push(m.await?) }]. *)
Fixpoint rd_repeat {E A} (n : nat) (m : Rd E A) : Rd E (list A) :=
  match n with
  | O => mret []
  | S n' => a ← m; l ← rd_repeat n' m; mret (a :: l)
  end.

(** [for a in l { v.push(f(a).await?) }]. *)
Definition rd_map {E A B} (f : A -> Rd E B) : list A -> Rd E (list B) :=
  fix go l :=
    match l with
    | [] => mret []
    | a :: l' => b ← f a; bs ← go l'; mret (b :: bs)
    end.

(** The same over two lists, and with a state threaded through the calls. *)
Definition rd_map2 {E A B C} (f : A -> B -> Rd E C) : list A -> list B -> Rd E (list C) :=
  fix go l1 l2 :=
    match l1, l2 with
    | a :: l1', b :: l2' => c ← f a b; cs ← go l1' l2'; mret (c :: cs)
    | _, _ => mret []
    end.

Definition rd_map_st {E S A B} (f : A -> S -> Rd E (B * S)) : list A -> S -> Rd E (list B * S) :=
  fix go l s :=
    match l with
    | [] => mret ([], s)
    | a :: l' => '(b, s) ← f a s; '(bs, s) ← go l' s; mret (b :: bs, s)
    end.

(** [loop { ... }] with the loop's variables in a state: a turn either goes
    round again with a new state or breaks with a value. A turn that goes round
    must have taken something off the stream, so a fuel of the stream's length
    and one is never used up ([rd_loop_fuel]); [dry] is the unreachable result. *)
Fixpoint rd_loop_fuel {E S A} (dry : E) (turn : S -> Rd E (S + A)) (fuel : nat) (s : S) : Rd E A :=
  match fuel with
  | O => rd_fail dry
  | Datatypes.S fuel' =>
      r ← turn s;
      match r with
      | inl s' => rd_loop_fuel dry turn fuel' s'
      | inr a => mret a
      end
  end.

Definition rd_loop {E S A} (dry : E) (turn : S -> Rd E (S + A)) (s : S) : Rd E A :=
  fun bs => rd_loop_fuel dry turn (Datatypes.S (length bs)) s bs.

(** A reader is framed when it consumes a prefix of the stream that does not
    depend on what follows it: success on a stream is success on any extension
    of that stream, with the same value and the extension left over. *)
Definition framed {E A} (m : Rd E A) : Prop :=
  forall bs a rest,
    m bs = Ok (a, rest) ->
    exists used, bs = used ++ rest /\ forall tail, m (used ++ tail) = Ok (a, tail).

(** The reader [m] decodes exactly the bytes [enc] to [a], whatever follows. *)
Definition reads {E A} (m : Rd E A) (enc : list byte) (a : A) : Prop :=
  forall tail, m (enc ++ tail) = Ok (a, tail).

(** Every value the reader [m] can return satisfies [P]. *)
Definition yields {E A} (m : Rd E A) (P : A -> Prop) : Prop :=
  forall bs a rest, m bs = Ok (a, rest) -> P a.

(** A write guarded by a condition, [if cond { w.write(bs) }]. *)
Definition when (cond : bool) (bs : list byte) : list byte := if cond then bs else [].

(** ** Lists *)

(** Offsets [start, start + len) of a byte slice, [&v[a..b]] with [b = a + len]. *)
Definition slice {A} (start len : nat) (l : list A) : list A := take len (drop start l).

(** Rust's [chunks_exact(n)]: consecutive chunks of [n] elements, the tail
    shorter than [n] left out. [k] is the number of chunks. *)
Fixpoint chunks_exact {A} (k n : nat) (l : list A) : list (list A) :=
  match k with
  | O => []
  | S k' => take n l :: chunks_exact k' n (drop n l)
  end.

(** ** Automation *)

Create HintDb framed.
Create HintDb reads.
Create HintDb wire.

(** Case analysis of a bind that returned [Ok]. *)
Ltac bind_ok H :=
  repeat match type of H with
  | mbind _ _ = Ok _ =>
      let E := fresh "Hbind" in
      cbv [mbind result_bind] in H;
      match type of H with
      | match ?m with Ok _ => _ | Err _ => _ end = Ok _ => destruct m eqn:E; [|discriminate H]
      end
  end.

(** A [Forall] over a list written out, element by element. *)
Ltac each := repeat (apply List.Forall_cons); try apply List.Forall_nil.

(** ** Lemmas on results *)

Lemma Ok_inj {E A} (a b : A) : @Ok E A a = Ok b -> a = b.
Proof. congruence. Qed.

Lemma bind_Ok {E A B} (f : A -> result E B) (a : A) : (Ok a ≫= f) = f a.
Proof. reflexivity. Qed.

Lemma bind_Err {E A B} (f : A -> result E B) (e : E) : (Err e ≫= f) = Err e.
Proof. reflexivity. Qed.

Lemma bind_Ok_inv {E A B} (m : result E A) (f : A -> result E B) (b : B) :
  (m ≫= f) = Ok b -> exists a, m = Ok a /\ f a = Ok b.
Proof. destruct m as [a|e]; simpl; intros H; [eauto | discriminate]. Qed.

Lemma map_res_length {E A B} (f : A -> result E B) l l' :
  map_res f l = Ok l' -> length l' = length l.
Proof.
  revert l'; induction l as [|a l IH]; simpl; intros l' H; [by simplify_eq|].
  apply bind_Ok_inv in H as (b & _ & H).
  apply bind_Ok_inv in H as (bs & Hbs & H). simplify_eq; simpl. by rewrite (IH bs).
Qed.

Lemma map_res_Forall2 {E A B} (f : A -> result E B) l l' :
  map_res f l = Ok l' <-> Forall2 (fun a b => f a = Ok b) l l'.
Proof.
  revert l'; induction l as [|a l IH]; simpl; intros l'; split; intros H.
  - simplify_eq. constructor.
  - by inversion H.
  - apply bind_Ok_inv in H as (b & Hb & H).
    apply bind_Ok_inv in H as (bs & Hbs & H). simplify_eq.
    constructor; [done | by apply IH].
  - inversion H as [|? b ? bs Hb Hbs]; subst. rewrite Hb; simpl.
    by rewrite (proj2 (IH bs) Hbs).
Qed.

Lemma map_res_app {E A B} (f : A -> result E B) l1 l2 :
  map_res f (l1 ++ l2) = (a ← map_res f l1; b ← map_res f l2; Ok (a ++ b)).
Proof.
  induction l1 as [|x l1 IH]; simpl; [by destruct (map_res f l2)|].
  destruct (f x); simpl; [|done]. rewrite IH.
  destruct (map_res f l1); simpl; [|done]. by destruct (map_res f l2).
Qed.

Lemma fold_res_app {E A S} (f : S -> A -> result E S) s l1 l2 :
  fold_res f s (l1 ++ l2) = (s' ← fold_res f s l1; fold_res f s' l2).
Proof.
  revert s; induction l1 as [|x l1 IH]; simpl; intros s; [done|].
  destruct (f s x); simpl; [apply IH | done].
Qed.

(** ** Lemmas on readers *)

Lemma rd_bind_eq {E A B} (m : Rd E A) (f : A -> Rd E B) bs :
  (m ≫= f) bs = match m bs with Ok (a, bs') => f a bs' | Err e => Err e end.
Proof. reflexivity. Qed.

Lemma rd_bind_ok {E A B} (m : Rd E A) (f : A -> Rd E B) bs b rest :
  (m ≫= f) bs = Ok (b, rest) ->
  exists a mid, m bs = Ok (a, mid) /\ f a mid = Ok (b, rest).
Proof.
  rewrite rd_bind_eq. destruct (m bs) as [[a mid]|e]; [eauto | discriminate].
Qed.

Lemma rd_ret_ok {E A} (a b : A) bs rest :
  (mret a : Rd E A) bs = Ok (b, rest) -> a = b /\ bs = rest.
Proof. unfold mret, rd_ret. intros H; by simplify_eq. Qed.

Lemma rd_lift_ok {E A} (r : result E A) bs a rest :
  rd_lift r bs = Ok (a, rest) -> r = Ok a /\ bs = rest.
Proof. unfold rd_lift. destruct r; intros H; by simplify_eq. Qed.

(** Invert every bind of a successful reader run. *)
Ltac rd_inv :=
  repeat match goal with
  | H : (_ ≫= _) _ = Ok _ |- _ =>
      let a := fresh "a" in let mid := fresh "mid" in let H1 := fresh "Hrd" in
      apply rd_bind_ok in H as (a & mid & H1 & H)
  | H : mret _ _ = Ok _ |- _ => apply rd_ret_ok in H as [? ?]; subst
  | H : rd_lift _ _ = Ok _ |- _ => apply rd_lift_ok in H as [? ?]; subst
  | H : rd_fail _ _ = Ok _ |- _ => discriminate H
  end.

Lemma framed_ret {E A} (a : A) : framed (mret a : Rd E A).
Proof.
  intros bs b rest H. apply rd_ret_ok in H as [<- <-].
  exists []; split; [done|]. intros tail; reflexivity.
Qed.

Lemma framed_fail {E A} (e : E) : framed (rd_fail e : Rd E A).
Proof. intros bs b rest H. discriminate H. Qed.

Lemma framed_lift {E A} (r : result E A) : framed (rd_lift r).
Proof.
  destruct r; [apply framed_ret | apply framed_fail].
Qed.

Lemma framed_bind {E A B} (m : Rd E A) (f : A -> Rd E B) :
  framed m -> (forall a, framed (f a)) -> framed (m ≫= f).
Proof.
  intros Hm Hf bs b rest H. apply rd_bind_ok in H as (a & mid & H1 & H2).
  apply Hm in H1 as (u1 & -> & H1). apply Hf in H2 as (u2 & -> & H2).
  exists (u1 ++ u2). split; [by rewrite app_assoc|].
  intros tail. rewrite <- app_assoc, rd_bind_eq, H1. apply H2.
Qed.

Lemma framed_repeat {E A} n (m : Rd E A) : framed m -> framed (rd_repeat n m).
Proof.
  intros Hm. induction n as [|n IH]; simpl; [apply framed_ret|].
  apply framed_bind; [done|]; intros a.
  apply framed_bind; [done|]; intros l. apply framed_ret.
Qed.

Lemma framed_map {E A B} (f : A -> Rd E B) l :
  Forall (fun a => framed (f a)) l -> framed (rd_map f l).
Proof.
  induction 1 as [|a l Ha Hl IH]; simpl; [apply framed_ret|].
  apply framed_bind; [done|]; intros b.
  apply framed_bind; [done|]; intros bs. apply framed_ret.
Qed.

Lemma framed_map2 {E A B C} (f : A -> B -> Rd E C) l1 l2 :
  (forall a b, framed (f a b)) -> framed (rd_map2 f l1 l2).
Proof.
  intros Hf. revert l2; induction l1 as [|a l1 IH]; intros [|b l2]; simpl; try apply framed_ret.
  apply framed_bind; [done|]; intros c.
  apply framed_bind; [apply IH|]; intros cs. apply framed_ret.
Qed.

Lemma framed_map_st {E S A B} (f : A -> S -> Rd E (B * S)) l s :
  Forall (fun a => forall s, framed (f a s)) l -> framed (rd_map_st f l s).
Proof.
  intros Hf. revert s; induction Hf as [|a l Ha Hl IH]; intros s; simpl; [apply framed_ret|].
  apply framed_bind; [done|]; intros [b s'].
  apply framed_bind; [apply IH|]; intros [bs s'']. apply framed_ret.
Qed.

#[export] Hint Resolve framed_ret framed_fail framed_lift framed_bind framed_repeat : framed.

(** Every turn that goes round again has shortened the stream. *)
Definition consumes {E S A} (turn : S -> Rd E (S + A)) : Prop :=
  forall s bs s' rest, turn s bs = Ok (inl s', rest) -> (length rest < length bs)%nat.

Lemma rd_loop_fuel_ok {E S A} (dry : E) (turn : S -> Rd E (S + A)) fuel s bs a rest :
  (forall s, framed (turn s)) -> consumes turn ->
  rd_loop_fuel dry turn fuel s bs = Ok (a, rest) ->
  exists used, bs = used ++ rest /\ forall fuel' tail, (length used < fuel')%nat ->
    rd_loop_fuel dry turn fuel' s (used ++ tail) = Ok (a, tail).
Proof.
  intros Hf Hc. revert s bs; induction fuel as [|fuel IH]; intros s bs H; [discriminate|].
  cbn [rd_loop_fuel] in H. apply rd_bind_ok in H as (r & mid & H1 & H2).
  destruct r as [s'|a'].
  - pose proof (Hc _ _ _ _ H1) as Hlt. apply Hf in H1 as (u1 & -> & H1).
    apply IH in H2 as (u2 & -> & H2). exists (u1 ++ u2). split; [by rewrite app_assoc|].
    intros fuel' tail Hfuel. rewrite !length_app in *. destruct fuel' as [|fuel']; [lia|].
    cbn [rd_loop_fuel]. rewrite rd_bind_eq, <- app_assoc, H1. apply H2. lia.
  - apply rd_ret_ok in H2 as [<- <-]. apply Hf in H1 as (u1 & -> & H1).
    exists u1. split; [done|]. intros fuel' tail Hfuel. destruct fuel' as [|fuel']; [lia|].
    cbn [rd_loop_fuel]. by rewrite rd_bind_eq, H1.
Qed.

Lemma framed_loop {E S A} (dry : E) (turn : S -> Rd E (S + A)) s :
  (forall s, framed (turn s)) -> consumes turn -> framed (rd_loop dry turn s).
Proof.
  intros Hf Hc bs a rest H. unfold rd_loop in *. apply rd_loop_fuel_ok in H as (used & -> & H); [|done..].
  exists used. split; [done|]. intros tail. apply H. rewrite length_app. lia.
Qed.

(** A run of the loop, turn by turn. *)
Lemma rd_loop_fuel_reads_break {E S A} (dry : E) (turn : S -> Rd E (S + A)) s enc a fuel tail :
  reads (turn s) enc (inr a) -> (0 < fuel)%nat ->
  rd_loop_fuel dry turn fuel s (enc ++ tail) = Ok (a, tail).
Proof. intros H Hf. destruct fuel; [lia|]. cbn [rd_loop_fuel]. by rewrite rd_bind_eq, H. Qed.

Lemma rd_loop_fuel_reads_turn {E S A} (dry : E) (turn : S -> Rd E (S + A)) s s' enc more fuel tail :
  reads (turn s) enc (inl s') ->
  rd_loop_fuel dry turn (Datatypes.S fuel) s (enc ++ more ++ tail) =
    rd_loop_fuel dry turn fuel s' (more ++ tail).
Proof. intros H. cbn [rd_loop_fuel]. by rewrite rd_bind_eq, H. Qed.

(** Prove that a reader is framed by following its structure. *)
Ltac framed_step :=
  first
    [ solve [auto 1 with framed] | apply framed_ret | apply framed_fail | apply framed_lift
    | apply framed_bind; [|intros ?] | apply framed_repeat
    | match goal with
      | |- framed (match ?x with _ => _ end) => destruct x
      end ].
Ltac framed_auto := repeat framed_step.

Lemma reads_ret {E A} (a : A) : reads (mret a : Rd E A) [] a.
Proof. intros tail; reflexivity. Qed.

Lemma reads_bind {E A B} (m : Rd E A) (f : A -> Rd E B) e1 e2 a b :
  reads m e1 a -> reads (f a) e2 b -> reads (m ≫= f) (e1 ++ e2) b.
Proof.
  intros H1 H2 tail. rewrite <- app_assoc, rd_bind_eq, H1. apply H2.
Qed.

(** A first step that reads nothing, and a last one. *)
Lemma reads_bind_nil {E A B} (m : Rd E A) (f : A -> Rd E B) e a b :
  reads m [] a -> reads (f a) e b -> reads (m ≫= f) e b.
Proof. apply (reads_bind m f [] e). Qed.

Lemma reads_bind_last {E A B} (m : Rd E A) (f : A -> Rd E B) e a b :
  reads m e a -> reads (f a) [] b -> reads (m ≫= f) e b.
Proof. intros H1 H2. rewrite <- (app_nil_r e). by eapply reads_bind. Qed.

(** A read behind a gate, of a write behind the same gate. *)
Lemma reads_gate {E A} (g : bool) (m : Rd E A) (d : A) e a :
  reads m e a -> reads (if g then m else mret d) (when g e) (if g then a else d).
Proof. intros H. destruct g; [exact H|apply reads_ret]. Qed.

Lemma reads_bind_gate {E A B} (g : bool) (m : Rd E A) (d : A) (f : A -> Rd E B) e a rest b :
  reads m e a -> reads (f (if g then a else d)) rest b ->
  reads ((if g then m else mret d) ≫= f) (when g e ++ rest) b.
Proof. intros Hm Hf. eapply reads_bind; [by apply reads_gate|exact Hf]. Qed.

Lemma reads_lift {E A} (r : result E A) a : r = Ok a -> reads (rd_lift r) [] a.
Proof. intros -> tail. reflexivity. Qed.

Lemma reads_map {E A B} (f : A -> Rd E B) (enc : A -> list byte) (dec : A -> B) l :
  (forall a, a ∈ l -> reads (f a) (enc a) (dec a)) ->
  reads (rd_map f l) (concat (map enc l)) (map dec l).
Proof.
  induction l as [|a l IH]; simpl; intros H; [apply reads_ret|].
  eapply reads_bind; [apply H; set_solver|].
  rewrite <- (app_nil_r (concat _)). eapply reads_bind; [|apply reads_ret].
  apply IH. intros x Hx. apply H. set_solver.
Qed.

Lemma reads_repeat {E A X} (m : Rd E A) (enc : X -> list byte) (dec : X -> A) l :
  (forall x, x ∈ l -> reads m (enc x) (dec x)) ->
  reads (rd_repeat (length l) m) (concat (map enc l)) (map dec l).
Proof.
  induction l as [|a l IH]; simpl; intros H; [apply reads_ret|].
  eapply reads_bind; [apply H; set_solver|].
  rewrite <- (app_nil_r (concat _)). eapply reads_bind; [|apply reads_ret].
  apply IH. intros x Hx. apply H. set_solver.
Qed.

(** The same by relation: encodings and values paired up. *)
Lemma reads_repeat2 {E A} (m : Rd E A) n encs vals :
  n = length vals -> Forall2 (fun e a => reads m e a) encs vals ->
  reads (rd_repeat n m) (concat encs) vals.
Proof.
  intros -> Hall. induction Hall as [|e a encs vals Ha Hall IH]; simpl; [apply reads_ret|].
  eapply reads_bind; [exact Ha|]. eapply reads_bind_last; [exact IH|apply reads_ret].
Qed.

(** A framed reader reads its own consumption. *)
Lemma framed_reads {E A} (m : Rd E A) bs a rest :
  framed m -> m bs = Ok (a, rest) -> exists used, bs = used ++ rest /\ reads m used a.
Proof. intros Hm H. apply Hm in H as (used & -> & H). exists used; split; [done|]. exact H. Qed.

Lemma rd_repeat_length {E A} n (m : Rd E A) bs l rest :
  rd_repeat n m bs = Ok (l, rest) -> length l = n.
Proof.
  revert bs l rest; induction n as [|n IH]; simpl; intros bs l rest H; rd_inv; [done|].
  simpl. f_equal. eauto.
Qed.

Lemma rd_map_length {E A B} (f : A -> Rd E B) l bs l' rest :
  rd_map f l bs = Ok (l', rest) -> length l' = length l.
Proof.
  revert bs l' rest; induction l as [|a l IH]; simpl; intros bs l' rest H; rd_inv; [done|].
  simpl. f_equal. eauto.
Qed.

(** *** Postconditions *)

Lemma yields_ret {E A} (a : A) (P : A -> Prop) : P a -> yields (mret a : Rd E A) P.
Proof. intros Ha bs b rest H. by apply rd_ret_ok in H as [<- _]. Qed.

Lemma yields_fail {E A} (e : E) (P : A -> Prop) : yields (rd_fail e) P.
Proof. intros bs b rest H. discriminate H. Qed.

Lemma yields_lift {E A} (r : result E A) (P : A -> Prop) :
  (forall a, r = Ok a -> P a) -> yields (rd_lift r) P.
Proof. intros HP bs b rest H. apply rd_lift_ok in H as [H _]. auto. Qed.

Lemma yields_any {E A} (m : Rd E A) : yields m (fun _ => True).
Proof. done. Qed.

Lemma yields_bind {E A B} (Q : A -> Prop) (m : Rd E A) (f : A -> Rd E B) P :
  yields m Q -> (forall a, Q a -> yields (f a) P) -> yields (m ≫= f) P.
Proof.
  intros Hm Hf bs b rest H. apply rd_bind_ok in H as (a & mid & H1 & H2).
  eapply Hf; [eapply Hm; exact H1 | exact H2].
Qed.

Lemma yields_bind_ {E A B} (m : Rd E A) (f : A -> Rd E B) P :
  (forall a, yields (f a) P) -> yields (m ≫= f) P.
Proof. intros Hf. eapply yields_bind; [apply yields_any|auto]. Qed.

Lemma yields_impl {E A} (m : Rd E A) (P Q : A -> Prop) :
  yields m P -> (forall a, P a -> Q a) -> yields m Q.
Proof. intros Hm HPQ bs a rest H. eauto. Qed.

Lemma yields_repeat {E A} n (m : Rd E A) (P : A -> Prop) :
  yields m P -> yields (rd_repeat n m) (fun l => length l = n /\ Forall P l).
Proof.
  intros Hm. induction n as [|n IH]; simpl; [by apply yields_ret|].
  eapply yields_bind; [exact Hm|]. intros a Ha. eapply yields_bind; [exact IH|].
  intros l [Hl HP]. apply yields_ret. simpl. auto.
Qed.

Lemma yields_map {E A B} (f : A -> Rd E B) (P : A -> B -> Prop) l :
  (forall a, a ∈ l -> yields (f a) (P a)) -> yields (rd_map f l) (Forall2 P l).
Proof.
  intros Hf. induction l as [|a l IH]; simpl; [by apply yields_ret|].
  eapply yields_bind; [apply Hf; set_solver|]. intros b Hb.
  eapply yields_bind; [apply IH; set_solver|]. intros bs Hbs. apply yields_ret. by constructor.
Qed.

Lemma yields_map2 {E A B C} (f : A -> B -> Rd E C) (P : A -> B -> C -> Prop) l1 l2 :
  (forall a b, yields (f a b) (P a b)) -> length l1 = length l2 ->
  yields (rd_map2 f l1 l2) (fun l => length l = length l1 /\ Forall2 (fun ab c => P ab.1 ab.2 c) (zip l1 l2) l).
Proof.
  intros Hf. revert l2; induction l1 as [|a l1 IH]; intros [|b l2] Hl; simpl in *; try lia;
    [by apply yields_ret|].
  eapply yields_bind; [apply Hf|]. intros c Hc.
  eapply yields_bind; [apply IH; lia|]. intros cs [Hlen Hcs]. apply yields_ret.
  split; [simpl; lia|]. by constructor.
Qed.

(** ** Lemmas on lists and integers *)

Lemma chunks_exact_length {A} k n (l : list A) : length (chunks_exact k n l) = k.
Proof. revert l; induction k; simpl; auto. Qed.

Lemma chunks_exact_concat {A} n (ls : list (list A)) :
  Forall (fun l => length l = n) ls -> chunks_exact (length ls) n (concat ls) = ls.
Proof.
  induction 1 as [|l ls Hl Hls IH]; simpl; [done|].
  rewrite take_app_length' by done. rewrite drop_app_length' by done. by rewrite IH.
Qed.

Lemma Forall_mp {A} (P Q : A -> Prop) l :
  Forall (fun a => P a -> Q a) l -> Forall P l -> Forall Q l.
Proof. induction 1; intros Hall; inversion Hall; subst; constructor; auto. Qed.

Lemma Forall2_right {A B} (P : A -> B -> Prop) l1 l2 :
  Forall2 P l1 l2 -> Forall (fun b => exists a, a ∈ l1 /\ P a b) l2.
Proof.
  induction 1 as [|a b l1 l2 Hab Hl IH]; constructor.
  - exists a. split; [apply list_elem_of_here|done].
  - eapply Forall_impl; [exact IH|]. intros b' (a' & Hin & Hp). exists a'.
    split; [by apply list_elem_of_further|done].
Qed.

Lemma u8_range b : 0 <= u8 b < 256.
Proof. apply byte.unsigned_range. Qed.

Lemma u8_inj b1 b2 : u8 b1 = u8 b2 -> b1 = b2.
Proof. apply byte.unsigned_inj. Qed.

Lemma u8_of_Z z : u8 (byte.of_Z z) = z mod 256.
Proof. apply byte.unsigned_of_Z. Qed.

(** [z & (1 << n)] and [z & !(1 << n)] of a value with or without bit [n]. *)
Lemma land_pow2_clear z n : 0 <= n -> 0 <= z < 2 ^ n -> Z.land z (2 ^ n) = 0.
Proof.
  intros Hn Hz. apply Z.bits_inj'; intros i Hi. rewrite Z.land_spec, Z.bits_0, Z.pow2_bits_eqb by done.
  destruct (Z.eqb_spec n i) as [<-|]; [|apply andb_false_r].
  rewrite <- (Z.mod_small z (2 ^ n)) by lia. by rewrite Z.mod_pow2_bits_high by lia.
Qed.

Lemma ldiff_pow2_clear z n : 0 <= n -> 0 <= z < 2 ^ n -> Z.ldiff z (2 ^ n) = z.
Proof.
  intros Hn Hz. apply Z.bits_inj'; intros i Hi. rewrite Z.ldiff_spec, Z.pow2_bits_eqb by done.
  destruct (Z.eqb_spec n i) as [<-|]; simpl; [|apply andb_true_r].
  rewrite <- (Z.mod_small z (2 ^ n)) by lia. by rewrite Z.mod_pow2_bits_high by lia.
Qed.

Lemma land_pow2_set z n : 0 <= n -> Z.land (Z.lor z (2 ^ n)) (2 ^ n) <> 0.
Proof.
  intros Hn H. apply (f_equal (fun x => Z.testbit x n)) in H.
  rewrite Z.land_spec, Z.lor_spec, Z.bits_0, Z.pow2_bits_true, orb_true_r in H by done. discriminate.
Qed.

Lemma ldiff_pow2_set z n : 0 <= n -> 0 <= z < 2 ^ n -> Z.ldiff (Z.lor z (2 ^ n)) (2 ^ n) = z.
Proof.
  intros Hn Hz. rewrite <- (ldiff_pow2_clear z n) at 2 by done.
  apply Z.bits_inj'; intros i Hi. rewrite !Z.ldiff_spec, Z.lor_spec.
  by destruct (Z.testbit z i), (Z.testbit (2 ^ n) i).
Qed.

Lemma wrap_range bits z : 0 <= bits -> 0 <= wrap bits z < 2 ^ bits.
Proof. intros H. apply Z.mod_pos_bound. lia. Qed.

Lemma wrap_small bits z : 0 <= z < 2 ^ bits -> wrap bits z = z.
Proof. apply Z.mod_small. Qed.
