(* ===== verification/Errors.v ===== *)
(** * Errors, their mappings and their retry classification

    Models [src/error.rs], [src/dynamic/error.rs], the classification half of
    [src/tcp/retry.rs] and the retry loop itself. The crate's [Error] is an
    inductive type with one constructor per variant; [io::Error] and upstream's
    error enum appear as far as the crate matches on them. The retry loop runs
    on the [backon] crate, which is an interface here: a record of its two
    operations with the laws its documentation states. *)

From S2P Require Import Prelude.

(** ** Data *)

(** [std::io::ErrorKind], the kinds [is_transient_io_kind] names and the rest. *)
Inductive IoErrorKind :=
| ConnectionRefused | ConnectionReset | ConnectionAborted | NotConnected
| BrokenPipe | IoTimedOut | Interrupted | UnexpectedEof | AddrNotAvailable
| HostUnreachable | NetworkUnreachable | NetworkDown
| PermissionDenied | InvalidInput | InvalidData | IoOther.

#[global] Instance IoErrorKind_eq_dec : EqDecision IoErrorKind.
Proof. solve_decision. Defined.

(** [crate::Error], [DynamicError], the boxed errors they carry, [io::Error]
    and the upstream enum the [From] impl matches on. *)
Inductive Error :=
| InvalidParams (source : BoxedError)
| Network (source : BoxedError)
| Compression (source : BoxedError)
| Decompression (source : BoxedError)
| RowNotFound
| SequenceMustHaveLength
| DeserializeAnyNotSupported
| NotEnoughData
| InvalidUtf8Encoding (valid_up_to : Z)
| InvalidTagEncoding (tag : Z)
| VariantDiscriminatorIsOutOfBound (n : Z)
| Custom (msg : text)
| WorkerExited
| ServerException (code : Z) (name : option text) (message : text)
    (stack_trace : option text)
| BadResponse (msg : text)
| Transient (msg : text)
| Connect (msg : text)
| TimedOut
| InvalidColumnsHeader (source : BoxedError)
| SchemaMismatch (msg : text)
| Unsupported (msg : text)
| Dynamic (source : DynamicError)
| Other (source : BoxedError)
with DynamicError :=
| UnsupportedType (column type_str : text)
| EncodingError (column message : text)
| DynSchemaMismatch (table message : text)
| SchemaFetch (table : text) (source : UpstreamError)
| EmptySchema (table : text)
| Transport (table : text) (source : Error)
with BoxedError :=
| BoxIo (e : IoError)
| BoxUp (e : UpstreamError)
| BoxMsg (msg : text)
with IoError :=
| IoKind (kind : IoErrorKind)
| IoWraps (kind : IoErrorKind) (inner : Error)
with UpstreamError :=
| UpInvalidParams (source : BoxedError)
| UpNetwork (source : BoxedError)
| UpCompression (source : BoxedError)
| UpDecompression (source : BoxedError)
| UpRowNotFound
| UpSequenceMustHaveLength
| UpDeserializeAnyNotSupported
| UpNotEnoughData
| UpInvalidUtf8Encoding (valid_up_to : Z)
| UpInvalidTagEncoding (tag : Z)
| UpVariantDiscriminatorIsOutOfBound (n : Z)
| UpCustom (msg : text)
| UpBadResponse (msg : text)
| UpTimedOut
| UpInvalidColumnsHeader (source : BoxedError)
| UpSchemaMismatch (msg : text)
| UpUnsupported (msg : text)
| UpOther (msg : text).

(** [deadpool::managed::PoolError<Error>]. *)
Inductive PoolError :=
| PoolTimeout (msg : text)
| Backend (e : Error)
| PoolClosed
| NoRuntimeSpecified
| PostCreateHook (msg : text).

Abbreviation Result := (result Error).
Abbreviation Read := (Rd Error).

(** ** Operations *)

(** [impl From<clickhouse::error::Error> for Error]. *)
Definition from_upstream (error : UpstreamError) : Error :=
  match error with
  | UpInvalidParams e => InvalidParams e
  | UpNetwork e => Network e
  | UpCompression e => Compression e
  | UpDecompression e => Decompression e
  | UpRowNotFound => RowNotFound
  | UpSequenceMustHaveLength => SequenceMustHaveLength
  | UpDeserializeAnyNotSupported => DeserializeAnyNotSupported
  | UpNotEnoughData => NotEnoughData
  | UpInvalidUtf8Encoding e => InvalidUtf8Encoding e
  | UpInvalidTagEncoding n => InvalidTagEncoding n
  | UpVariantDiscriminatorIsOutOfBound n => VariantDiscriminatorIsOutOfBound n
  | UpCustom s => Custom s
  | UpBadResponse s => BadResponse s
  | UpTimedOut => TimedOut
  | UpInvalidColumnsHeader e => InvalidColumnsHeader e
  | UpSchemaMismatch s => SchemaMismatch s
  | UpUnsupported s => Unsupported s
  | UpOther _ as other => Other (BoxUp other)
  end.

(** [impl From<Error> for io::Error]: [io::Error::other(error)]. *)
Definition into_io (error : Error) : IoError := IoWraps IoOther error.

(** [impl From<io::Error> for Error]: unwrap a crate error boxed on the way
    out, box anything else. *)
Definition from_io (error : IoError) : Error :=
  match error with
  | IoWraps _ inner => inner
  | IoKind _ as other => Other (BoxIo other)
  end.

(** The codes of [Error::is_retriable_code]. *)
Definition retriable_codes : list Z :=
  [159; 160; 202; 209; 210; 236; 241; 252; 279; 290; 319; 364; 384; 439; 473; 659; 904; 999].

Definition is_retriable_code (code : Z) : bool := bool_decide (code ∈ retriable_codes).

(** [DynamicError::is_retriable]. *)
Definition dynamic_is_retriable (e : DynamicError) : bool :=
  match e with
  | Transport _ _ | SchemaFetch _ _ | DynSchemaMismatch _ _ | EmptySchema _ => true
  | UnsupportedType _ _ | EncodingError _ _ => false
  end.

(** [Error::is_retriable]. *)
Definition is_retriable (e : Error) : bool :=
  match e with
  | Network _ | TimedOut | Transient _ | Connect _ => true
  | ServerException code _ _ _ => is_retriable_code code
  | Dynamic e => dynamic_is_retriable e
  | _ => false
  end.

(** [io::Error::kind]. *)
Definition io_kind (e : IoError) : IoErrorKind :=
  match e with
  | IoKind k | IoWraps k _ => k
  end.

Definition is_transient_io_kind (e : IoError) : bool :=
  match io_kind e with
  | ConnectionRefused | ConnectionReset | ConnectionAborted | NotConnected
  | BrokenPipe | IoTimedOut | Interrupted | UnexpectedEof | AddrNotAvailable
  | HostUnreachable | NetworkUnreachable | NetworkDown => true
  | PermissionDenied | InvalidInput | InvalidData | IoOther => false
  end.

Definition is_retriable_transport (e : Error) : bool :=
  if is_retriable e then true
  else match e with
  | Other (BoxIo io) => is_transient_io_kind io
  | _ => false
  end.

(** ** Texts

    [Display for Error] and [Display for DynamicError]. The texts of upstream's errors and of the kinds of
    [io::Error] are their own; an [io::Error] around another error shows that error. *)

Class ForeignText := {
  io_kind_text : IoErrorKind -> text;
  upstream_text : UpstreamError -> text
}.

Fixpoint error_text `{ForeignText} (e : Error) : text :=
  match e with
  | InvalidParams e => str "invalid params: " ++ boxed_text e
  | Network e => str "network error: " ++ boxed_text e
  | Compression e => str "compression error: " ++ boxed_text e
  | Decompression e => str "decompression error: " ++ boxed_text e
  | RowNotFound => str "no rows returned by a query that expected to return at least one row"
  | SequenceMustHaveLength => str "sequences must have a known size ahead of time"
  | DeserializeAnyNotSupported => str "`deserialize_any` is not supported"
  | NotEnoughData => str "not enough data, probably a row type mismatches a database schema"
  | InvalidUtf8Encoding _ => str "string is not valid utf8"
  | InvalidTagEncoding _ => str "tag for enum is not valid"
  | VariantDiscriminatorIsOutOfBound n => str "max number of types in the Variant data type is 255, got " ++ show n
  | Custom msg => str "a custom error message from serde: " ++ msg
  | WorkerExited => str "background worker task has exited; the inserter is no longer accepting commands"
  | ServerException code _ message _ => str "server error code " ++ show code ++ str ": " ++ message
  | BadResponse msg => str "bad response: " ++ msg
  | Transient msg => str "transient transport failure: " ++ msg
  | Connect msg => str "connect failed: " ++ msg
  | TimedOut => str "timeout expired"
  | InvalidColumnsHeader e => str "error while parsing columns header from the response: " ++ boxed_text e
  | SchemaMismatch msg => str "schema mismatch: " ++ msg
  | Unsupported msg => str "unsupported: " ++ msg
  | Dynamic e => dynamic_text e
  | Other e => boxed_text e
  end
with dynamic_text `{ForeignText} (e : DynamicError) : text :=
  match e with
  | UnsupportedType column type_str => str "unsupported type '" ++ type_str ++ str "' for column '" ++ column ++ str "'"
  | EncodingError column message => str "encoding error for column '" ++ column ++ str "': " ++ message
  | DynSchemaMismatch table message => str "schema mismatch for table '" ++ table ++ str "': " ++ message
  | SchemaFetch table source => str "failed to fetch schema for '" ++ table ++ str "': " ++ upstream_text source
  | EmptySchema table => str "table '" ++ table ++ str "' has no columns or does not exist"
  | Transport table source => str "transport failure inserting into '" ++ table ++ str "': " ++ error_text source
  end
with boxed_text `{ForeignText} (e : BoxedError) : text :=
  match e with
  | BoxIo e => io_text e
  | BoxUp e => upstream_text e
  | BoxMsg msg => msg
  end
with io_text `{ForeignText} (e : IoError) : text :=
  match e with
  | IoKind kind => io_kind_text kind
  | IoWraps _ inner => error_text inner
  end.

(** [serde]'s [custom] constructors, for writing and for reading. *)
Definition ser_custom (msg : text) : Error := Custom msg.
Definition de_custom (msg : text) : Error := Custom msg.

(** The [Display] of the pool conditions that are not backend errors; the
    texts are deadpool's and only travel inside the message. *)
Definition pool_error_text (e : PoolError) : text :=
  match e with
  | PoolTimeout m | PostCreateHook m => m
  | PoolClosed => str "Pool has been closed"
  | NoRuntimeSpecified => str "No runtime specified"
  | Backend _ => []
  end.

Definition map_pool_error (e : PoolError) : Error :=
  match e with
  | Backend err => err
  | other => Transient (str "tcp pool: " ++ pool_error_text other)
  end.

(** ** The retry loop *)

(** [RetryPolicy]; durations in nanoseconds. *)
Record RetryPolicy := {
  max_attempts : Z;
  initial_backoff : Z;
  max_backoff : Z
}.

Definition default_policy : RetryPolicy :=
  {| max_attempts := 3; initial_backoff := 100_000_000; max_backoff := 2_000_000_000 |}.

(** The number of retries [RetryPolicy::schedule] gives [with_max_times]. *)
Definition schedule_times (p : RetryPolicy) : nat := Z.to_nat (Z.max 0 (max_attempts p - 1)).

(** [backon], the crate the loop runs on. An operation is the outcome of each
    of its calls in order; the exponential builder yields a sequence of delays
    and the [Retryable] driver runs the operation, sleeping one delay before
    each further call. The fields ending in [_law] are what its documentation
    says of them. *)
Class Backon := {
  exponential : Z -> Z -> nat -> list Z;
  retry : forall {T}, (nat -> Result T) -> list Z -> (Error -> bool) -> Result T * nat;
  exponential_law : forall lo hi n, length (exponential lo hi n) = n;
  retry_law : forall {T} (op : nat -> Result T) delays when,
    exists k, snd (retry op delays when) = S k /\
      fst (retry op delays when) = op k /\ (k <= length delays)%nat /\
      (forall i, (i < k)%nat -> exists e, op i = Err e /\ when e = true) /\
      (forall e, op k = Err e -> when e = true -> k = length delays)
}.

(** [RetryPolicy::schedule]. *)
Definition schedule `{Backon} (p : RetryPolicy) : list Z :=
  exponential (initial_backoff p) (max_backoff p) (schedule_times p).

(** [retry_with]: the outcome and the number of attempts made, where
    [attempt_once i] is the outcome of the [i]-th call. *)
Definition retry_with `{Backon} {T} (policy : option RetryPolicy)
    (attempt_once : nat -> Result T) : Result T * nat :=
  match policy with
  | Some p =>
      if 1 <? max_attempts p then retry attempt_once (schedule p) is_retriable_transport
      else (attempt_once 0%nat, 1%nat)
  | None => (attempt_once 0%nat, 1%nat)
  end.

(** [run_with_retry]: one attempt acquires a connection, a pool failure mapped
    by [map_pool_error], and runs [op] on it. *)
Definition attempt_once_via_pool {C T} (get : nat -> result PoolError C)
    (op : nat -> C -> Result T) (i : nat) : Result T :=
  conn ← map_err map_pool_error (get i); op i conn.

Definition run_with_retry `{Backon} {C T} (get : nat -> result PoolError C)
    (policy : option RetryPolicy) (op : nat -> C -> Result T) : Result T * nat :=
  retry_with policy (attempt_once_via_pool get op).

(** A concrete driver that follows the documented laws: run until success, an
    error that [when] declines, or the delays run out. *)
Fixpoint reference_retry {T} (op : nat -> Result T) (delays : list Z)
    (when : Error -> bool) : Result T * nat :=
  match op 0%nat, delays with
  | Err e, _ :: delays' =>
      if when e then
        let '(r, k) := reference_retry (fun i => op (S i)) delays' when in (r, S k)
      else (Err e, 1%nat)
  | r, _ => (r, 1%nat)
  end.

Lemma reference_retry_law {T} (op : nat -> Result T) delays when :
  exists k, snd (reference_retry op delays when) = S k /\
    fst (reference_retry op delays when) = op k /\ (k <= length delays)%nat /\
    (forall i, (i < k)%nat -> exists e, op i = Err e /\ when e = true) /\
    (forall e, op k = Err e -> when e = true -> k = length delays).
Proof.
  revert op; induction delays as [|d delays IH]; intros op; simpl.
  - exists 0%nat. destruct (op 0%nat) eqn:E; split_and!; simpl; intros; lia || done.
  - destruct (op 0%nat) as [a|e] eqn:E.
    { exists 0%nat. split_and!; simpl; intros; lia || congruence. }
    destruct (when e) eqn:W.
    + destruct (IH (fun i => op (S i))) as (k & H1 & H2 & H3 & H4 & H5).
      destruct (reference_retry _ delays when) as [r k']; simpl in *; subst.
      exists (S k). split_and!; simpl; intros; [done|done|lia| |].
      * destruct i as [|i]; [eauto | apply H4; lia].
      * f_equal. eauto.
    + exists 0%nat. split_and!; simpl; intros; lia || congruence.
Qed.

Definition reference_backon : Backon := {|
  exponential := fun lo hi n => map (fun i => Z.min hi (lo * 2 ^ Z.of_nat i)) (seq 0 n);
  retry := @reference_retry;
  exponential_law := fun lo hi n => eq_trans (length_map _ _) (length_seq _ _);
  retry_law := @reference_retry_law
|}.

(** ** Theorems *)

(** a crate error survives the trip through [io::Error] with its variant. *)
Lemma from_io_into_io e : from_io (into_io e) = e.
Proof. reflexivity. Qed.

(** C37: the retry loop makes at least one attempt and at most
    [max 1 max_attempts], returns the outcome of its last attempt unchanged,
    only repeats after an error the classification calls retriable, and
    gives up early exactly on an error it does not. *)
Theorem retry_with_spec `{Backon} {T} policy (attempt : nat -> Result T) :
  let bound := match policy with Some p => Z.max 1 (max_attempts p) | None => 1 end in
  exists k, retry_with policy attempt = (attempt k, S k) /\
    Z.of_nat (S k) <= bound /\
    (forall i, (i < k)%nat -> exists e, attempt i = Err e /\ is_retriable_transport e = true) /\
    (forall e, attempt k = Err e -> is_retriable_transport e = true -> Z.of_nat (S k) = bound).
Proof.
  intros bound. unfold retry_with. subst bound.
  destruct policy as [p|].
  2: { exists 0%nat. repeat split; auto with lia. }
  destruct (Z.ltb_spec 1 (max_attempts p)) as [Hp|Hp].
  2: { exists 0%nat. repeat split; auto with lia. }
  destruct (retry_law attempt (schedule p) is_retriable_transport) as (k & H1 & H2 & H3 & H4 & H5).
  unfold schedule in *. rewrite exponential_law in *. unfold schedule_times in *.
  exists k. split; [|split; [lia|split; [done|]]].
  - destruct (retry _ _ _); simpl in *; congruence.
  - intros e He Hw. rewrite (H5 e He Hw). lia.
Qed.

Lemma retry_with_spec_witness :
  let flaky i := match i with O => Err (Transient (str "closed")) | _ => Ok tt end in
  exists k, @retry_with reference_backon unit (Some default_policy) flaky = (flaky k, S k) /\ Z.of_nat (S k) <= 3.
Proof.
  intros flaky.
  destruct (@retry_with_spec reference_backon unit (Some default_policy) flaky) as (k & H1 & H2 & _).
  exists k. split; [exact H1|exact H2].
Defined.
