(* ===== verification/WireIo.v ===== *)
(** * Wire primitives

    Models [src/native/io.rs]: the VarUInt codec and its incremental decoder,
    length-prefixed strings, the string cap, fallible allocation and the
    chunked exact read; and the fixed-width little-endian reads tokio adds to
    the same reader. The target is a 64-bit host, so [usize::try_from(u64)]
    always succeeds. *)

From S2P Require Import Prelude Errors.

(** ** Environment

    The allocator's verdict on a [try_reserve] that needs that many bytes in
    all (a capacity overflow is one of its refusals), and the layout size of
    the one element type whose size the source does not fix. *)
Class Platform := {
  alloc_ok : Z -> bool;
  sizeof_DecodedColumn : Z;
  sizeof_ColumnType : Z
}.

(** The allocator backs every request. *)
Definition alloc_total `{Platform} : Prop := forall n, alloc_ok n = true.

Definition roomy : Platform := {| alloc_ok := fun _ => true; sizeof_DecodedColumn := 64; sizeof_ColumnType := 32 |}.

(** ** Constants *)

Definition MAX_STRING_SIZE : Z := 2 ^ 30.
Definition VAR_UINT_MAX_BYTES : nat := 10.
Definition READ_CHUNK : Z := 64 * 1024.

(** [io::Error] of kind [UnexpectedEof] boxed into [Error::Other]. *)
Definition eof : Error := from_io (IoKind UnexpectedEof).

(** ** VarUInt *)

(** The loop of [encode_var_uint] from buffer position [VAR_UINT_MAX_BYTES - room]. *)
Fixpoint encode_var_uint_loop (room : nat) (value : Z) : list byte :=
  match room with
  | O => []
  | S room' =>
      let byte := Z.land value 0x7F in
      let value := Z.shiftr value 7 in
      let byte := if 0 <? value then Z.lor byte 0x80 else byte in
      byte.of_Z byte ::
        (if value =? 0 then [] else encode_var_uint_loop room' value)
  end.

Definition encode_var_uint (value : Z) : list byte :=
  encode_var_uint_loop VAR_UINT_MAX_BYTES value.

Record VarUintDecoder := { out : Z; index : nat }.

Definition VarUintDecoder_default : VarUintDecoder := {| out := 0; index := 0 |}.

Definition varint_overflow : Error :=
  BadResponse (str "native protocol: varint continues past 10 bytes").

(** [VarUintDecoder::push]. *)
Definition push (self : VarUintDecoder) (octet : byte) : VarUintDecoder * Result (option Z) :=
  let out' := Z.lor (out self)
                (wrap 64 (Z.shiftl (Z.land (u8 octet) 0x7F) (7 * Z.of_nat (index self)))) in
  let self := {| out := out'; index := S (index self) |} in
  (self,
   if Z.land (u8 octet) 0x80 =? 0 then Ok (Some (out self))
   else if (index self =? VAR_UINT_MAX_BYTES)%nat then Err varint_overflow
   else Ok None).

(** The loop of [get_var_uint], [i] the index of the next byte. *)
Fixpoint get_var_uint_loop (d : VarUintDecoder) (i : nat) (bytes : list byte) : Result (Z * nat) :=
  match bytes with
  | [] => Err NotEnoughData
  | octet :: bytes' =>
      let '(d, r) := push d octet in
      done ← r;
      match done with
      | Some value => Ok (value, S i)
      | None => get_var_uint_loop d (S i) bytes'
      end
  end.

Definition get_var_uint (bytes : list byte) : Result (Z * nat) :=
  get_var_uint_loop VarUintDecoder_default 0 bytes.

(** The loop of [ClickHouseRead::read_var_uint]. *)
Fixpoint read_var_uint_loop (d : VarUintDecoder) (bs : list byte) : Result (Z * list byte) :=
  match bs with
  | [] => Err eof
  | octet :: bs' =>
      let '(d, r) := push d octet in
      done ← r;
      match done with
      | Some value => Ok (value, bs')
      | None => read_var_uint_loop d bs'
      end
  end.

Definition read_var_uint : Read Z := read_var_uint_loop VarUintDecoder_default.

(** [read_var_uint_or_eof]: [None] when not even the first byte arrives. *)
Definition read_var_uint_or_eof : Read (option Z) := fun bs =>
  match bs with
  | [] => Ok (None, [])
  | first :: bs' =>
      let '(d, r) := push VarUintDecoder_default first in
      done ← r;
      match done with
      | Some value => Ok (Some value, bs')
      | None => '(value, rest) ← read_var_uint_loop d bs'; Ok (Some value, rest)
      end
  end.

(** ** Fixed-width reads *)

(** [read_exact] into a buffer of [n] bytes. *)
Definition read_exact (n : nat) : Read (list byte) := fun bs =>
  if (n <=? length bs)%nat then Ok (take n bs, drop n bs) else Err eof.

Definition read_le (width : nat) : Read Z := bs ← read_exact width; mret (le_combine bs).
Definition read_u8 : Read Z := read_le 1.
Definition read_u16_le : Read Z := read_le 2.
Definition read_u32_le : Read Z := read_le 4.
Definition read_u64_le : Read Z := read_le 8.
Definition read_i32_le : Read Z := z ← read_le 4; mret (wrap_signed 32 z).

(** ** Allocation and exact reads *)

Section alloc.
Context `{Platform}.

Definition alloc_refused (bytes : Z) : Error :=
  BadResponse (str "native protocol: refused a " ++ show bytes ++
    str "-byte column buffer the allocator could not back").

(** [Vec::try_reserve] of a total of [bytes] bytes; zero bytes never allocate. *)
Definition try_reserve (bytes : Z) : bool := (bytes =? 0) || alloc_ok bytes.

(** [with_cap::<T>(cap)] with [size_of::<T>() = sz]; the message saturates. *)
Definition with_cap (sz cap : Z) : Result unit :=
  if try_reserve (cap * sz) then Ok tt else Err (alloc_refused (Z.min (cap * sz) (2 ^ 64 - 1))).

(** The loop of [read_exact_grown]. [buf] is what has arrived, [left] what is
    still owed. Every turn takes at least one byte off the stream or stops, so
    a fuel of the stream's length and one is never used up. *)
Fixpoint read_exact_grown_loop (fuel : nat) (buf : list byte) (left : Z) : Read (list byte) :=
  match fuel with
  | O => rd_fail eof
  | S fuel' =>
      if 0 <? left then
        let chunk := Z.min left READ_CHUNK in
        let start := Z.of_nat (length buf) in
        if try_reserve (start + chunk) then
          bytes ← read_exact (Z.to_nat chunk);
          read_exact_grown_loop fuel' (buf ++ bytes) (left - chunk)
        else rd_fail (alloc_refused (start + chunk))
      else mret buf
  end.

Definition read_exact_grown (len : Z) : Read (list byte) := fun bs =>
  read_exact_grown_loop (S (length bs)) [] len bs.

(** ** Strings *)

Definition checked_string_len (len : Z) : Result Z :=
  if MAX_STRING_SIZE <? len then
    Err (BadResponse (str "native protocol: string too large: " ++ show len ++
           str " > " ++ show MAX_STRING_SIZE))
  else Ok len.

(** [string_len_usize]: the narrowing to [usize] succeeds on a 64-bit host. *)
Definition string_len_usize (len : Z) : Result Z := checked_string_len len.

(** [ClickHouseRead::read_string]. *)
Definition read_string : Read (list byte) :=
  n ← read_var_uint;
  len ← rd_lift (string_len_usize n);
  read_exact_grown len.

End alloc.

(** [str::from_utf8]: the well-formed byte sequences of the Unicode standard. *)
Definition in_range (lo hi : Z) (b : byte) : bool := (lo <=? u8 b) && (u8 b <=? hi).
Definition is_cont : byte -> bool := in_range 0x80 0xBF.

(** The bounds of the second byte after a three- or four-byte lead. *)
Definition second_of_3 (b0 : byte) : byte -> bool :=
  if u8 b0 =? 0xE0 then in_range 0xA0 0xBF
  else if u8 b0 =? 0xED then in_range 0x80 0x9F
  else is_cont.
Definition second_of_4 (b0 : byte) : byte -> bool :=
  if u8 b0 =? 0xF0 then in_range 0x90 0xBF
  else if u8 b0 =? 0xF4 then in_range 0x80 0x8F
  else is_cont.

Fixpoint utf8_valid (bs : list byte) : bool :=
  match bs with
  | [] => true
  | b0 :: r0 =>
      if u8 b0 <? 0x80 then utf8_valid r0
      else if in_range 0xC2 0xDF b0 then
        match r0 with
        | b1 :: r1 => is_cont b1 && utf8_valid r1
        | _ => false
        end
      else if in_range 0xE0 0xEF b0 then
        match r0 with
        | b1 :: b2 :: r2 => second_of_3 b0 b1 && is_cont b2 && utf8_valid r2
        | _ => false
        end
      else if in_range 0xF0 0xF4 b0 then
        match r0 with
        | b1 :: b2 :: b3 :: r3 =>
            second_of_4 b0 b1 && is_cont b2 && is_cont b3 && utf8_valid r3
        | _ => false
        end
      else false
  end.

(** The length of the longest valid prefix, [Utf8Error::valid_up_to]: the first
    point from which no whole character can be read. *)
Fixpoint valid_up_to_loop (fuel : nat) (bs : list byte) : Z :=
  match fuel, bs with
  | O, _ | _, [] => 0
  | S fuel', _ =>
      if utf8_valid (take 1 bs) then 1 + valid_up_to_loop fuel' (drop 1 bs)
      else if utf8_valid (take 2 bs) then 2 + valid_up_to_loop fuel' (drop 2 bs)
      else if utf8_valid (take 3 bs) then 3 + valid_up_to_loop fuel' (drop 3 bs)
      else if utf8_valid (take 4 bs) then 4 + valid_up_to_loop fuel' (drop 4 bs)
      else 0
  end.
Definition valid_up_to (bs : list byte) : Z := valid_up_to_loop (length bs) bs.

(** [Utf8Error::error_len] of the bytes from that point: how many cannot start a character, [None] when they are the
    beginning of one and the string ends. *)
Definition error_len (bs : list byte) : option Z :=
  match bs with
  | [] => None
  | b0 :: r0 =>
      if in_range 0xC2 0xDF b0 then
        match r0 with
        | [] => None
        | _ => Some 1
        end
      else if in_range 0xE0 0xEF b0 then
        match r0 with
        | [] => None
        | [b1] => if second_of_3 b0 b1 then None else Some 1
        | b1 :: _ => if second_of_3 b0 b1 then Some 2 else Some 1
        end
      else if in_range 0xF0 0xF4 b0 then
        match r0 with
        | [] => None
        | [b1] => if second_of_4 b0 b1 then None else Some 1
        | [b1; b2] => if second_of_4 b0 b1 then (if is_cont b2 then None else Some 2) else Some 1
        | b1 :: b2 :: _ => if second_of_4 b0 b1 then (if is_cont b2 then Some 3 else Some 2) else Some 1
        end
      else Some 1
  end.

(** [Display] of the [Utf8Error] of a string that is not valid. *)
Definition utf8_error_text (bs : list byte) : text :=
  let at_ := valid_up_to bs in
  match error_len (drop (Z.to_nat at_) bs) with
  | Some n => str "invalid utf-8 sequence of " ++ show n ++ str " bytes from index " ++ show at_
  | None => str "incomplete utf-8 byte sequence from index " ++ show at_
  end.

Example utf8_cut : utf8_error_text [x61; xe2; x82] = str "incomplete utf-8 byte sequence from index 1".
Proof. reflexivity. Qed.
Example utf8_torn : utf8_error_text [x61; xe2; x82; x28] = str "invalid utf-8 sequence of 2 bytes from index 1".
Proof. reflexivity. Qed.

(** [ClickHouseRead::read_utf8_string]. *)
Definition read_utf8_string `{Platform} : Read text :=
  bytes ← read_string;
  if utf8_valid bytes then mret bytes
  else rd_fail (BadResponse (str "native protocol: invalid utf8: " ++ utf8_error_text bytes)).

(** ** Writers

    [BufMut] and [AsyncWrite] writers append; a writer is the bytes it appends. *)

Definition put_var_uint (value : Z) : list byte := encode_var_uint value.
Definition put_string (value : list byte) : list byte :=
  put_var_uint (Z.of_nat (length value)) ++ value.
Definition put_le (width : nat) (z : Z) : list byte := le_split width z.

(** The stream writers [write_var_uint] and [write_string] append the same bytes. *)
Definition write_var_uint (value : Z) : list byte := encode_var_uint value.
Definition write_string (value : list byte) : list byte :=
  write_var_uint (Z.of_nat (length value)) ++ value.

#[global] Arguments encode_var_uint : simpl never.
#[global] Arguments read_var_uint : simpl never.
#[global] Arguments put_var_uint : simpl never.
#[global] Arguments put_string : simpl never.
#[global] Arguments get_var_uint : simpl never.

(** ** Lemmas on bits *)

Lemma lor_shiftl_add a b n :
  0 <= n -> 0 <= a < 2 ^ n -> Z.lor a (Z.shiftl b n) = a + b * 2 ^ n.
Proof.
  intros Hn Ha. rewrite <- Z.add_nocarry_lor; [by rewrite Z.shiftl_mul_pow2|].
  apply Z.bits_inj'; intros i Hi. rewrite Z.bits_0, Z.land_spec, Z.shiftl_spec by done.
  destruct (Z.ltb_spec i n).
  - rewrite (Z.testbit_neg_r b) by lia. apply andb_false_r.
  - rewrite <- (Z.mod_small a (2 ^ n)) by lia. by rewrite Z.mod_pow2_bits_high by lia.
Qed.

Lemma land_7F z : Z.land z 0x7F = z mod 128.
Proof. apply (Z.land_ones z 7); lia. Qed.

Lemma lor_80 z : 0 <= z < 128 -> Z.lor z 0x80 = z + 128.
Proof. intros Hz. apply (lor_shiftl_add z 1 7); lia. Qed.

Lemma land_80 b : (Z.land (u8 b) 0x80 =? 0) = (u8 b <? 128).
Proof. destruct b; reflexivity. Qed.

Lemma wrap64_small z : 0 <= z < 2 ^ 64 -> wrap 64 z = z.
Proof. apply wrap_small. Qed.

(** ** Lemmas on [push] *)

(** The decoder's accumulated value fits the groups it has absorbed. *)
Definition push_inv (d : VarUintDecoder) : Prop :=
  0 <= out d < 2 ^ (7 * Z.of_nat (index d)) /\ (index d < VAR_UINT_MAX_BYTES)%nat.

Lemma push_inv_default : push_inv VarUintDecoder_default.
Proof. split; simpl; unfold VAR_UINT_MAX_BYTES; lia. Qed.

Lemma group_bound i z : 0 <= z < 128 -> 0 <= z * 2 ^ (7 * Z.of_nat i) < 2 ^ (7 * Z.of_nat (S i)).
Proof.
  intros Hz. replace (7 * Z.of_nat (S i)) with (7 * Z.of_nat i + 7) by lia.
  rewrite Z.pow_add_r by lia. assert (0 < 2 ^ (7 * Z.of_nat i)) by (apply Z.pow_pos_nonneg; lia).
  split; nia.
Qed.

Lemma pow7_le i : (i <= 9)%nat -> 2 ^ (7 * Z.of_nat i) <= 2 ^ 63.
Proof. intros. apply Z.pow_le_mono_r; lia. Qed.

(** Only the groups above bit 63 of a tenth byte can be cut off. *)
Lemma push_value d b :
  push_inv d ->
  out (push d b).1 = out d + wrap 64 (u8 b mod 128 * 2 ^ (7 * Z.of_nat (index d))).
Proof.
  intros [Hout Hidx]. simpl. rewrite land_7F, Z.shiftl_mul_pow2 by lia.
  set (k := 7 * Z.of_nat (index d)) in *.
  assert (Hk : 0 <= k <= 63) by (unfold k, VAR_UINT_MAX_BYTES in *; lia).
  unfold wrap. replace 64 with (k + (64 - k)) by lia.
  rewrite Z.pow_add_r, (Z.mul_comm _ (2 ^ k)), Z.mul_mod_distr_l by
    (try lia; apply Z.pow_nonzero; lia).
  rewrite (Z.mul_comm (2 ^ k)), <- Z.shiftl_mul_pow2 by lia.
  rewrite lor_shiftl_add by lia. by rewrite Z.shiftl_mul_pow2 by lia.
Qed.

Lemma push_cases d b :
  let d' := (push d b).1 in
  push d b =
    (d', if u8 b <? 128 then Ok (Some (out d'))
         else if (S (index d) =? VAR_UINT_MAX_BYTES)%nat then Err varint_overflow else Ok None).
Proof. unfold push. rewrite land_80. reflexivity. Qed.

Lemma push_inv_next d b : push_inv d -> push d b = ((push d b).1, Ok None) -> push_inv (push d b).1.
Proof.
  intros Hinv Hp. pose proof (push_value d b Hinv) as Hv. destruct Hinv as [Hout Hidx].
  assert (Hne : (S (index d) <> VAR_UINT_MAX_BYTES)%nat).
  { rewrite push_cases in Hp. cbv zeta in Hp. apply (f_equal snd) in Hp. cbn [snd] in Hp.
    repeat case_match; try discriminate. by apply Nat.eqb_neq. }
  split; change (index (push d b).1) with (S (index d)); [|lia]. rewrite Hv.
  unfold VAR_UINT_MAX_BYTES in *.
  pose proof (Z.mod_pos_bound (u8 b) 128 ltac:(lia)) as Hm.
  pose proof (group_bound (index d) (u8 b mod 128) Hm) as Hg.
  rewrite wrap64_small by (pose proof (pow7_le (S (index d)) ltac:(lia)); lia).
  replace (7 * Z.of_nat (S (index d))) with (7 * Z.of_nat (index d) + 7) in * by lia.
  rewrite Z.pow_add_r in * by lia. change (2 ^ 7) with 128 in *. nia.
Qed.

Lemma push_out_range d b : push_inv d -> 0 <= out (push d b).1 < 2 ^ 64.
Proof.
  intros Hinv. rewrite push_value by done. destruct Hinv as [Hout Hidx].
  set (k := 7 * Z.of_nat (index d)) in *.
  assert (Hk : 0 <= k <= 63) by (unfold k, VAR_UINT_MAX_BYTES in *; lia).
  set (g := u8 b mod 128). unfold wrap.
  assert (g * 2 ^ k mod 2 ^ 64 <= 2 ^ 64 - 2 ^ k).
  { replace 64 with (k + (64 - k)) by lia.
    rewrite Z.pow_add_r, (Z.mul_comm g), Z.mul_mod_distr_l by
      (try lia; apply Z.pow_nonzero; lia).
    pose proof (Z.mod_pos_bound g (2 ^ (64 - k)) ltac:(apply Z.pow_pos_nonneg; lia)).
    assert (0 < 2 ^ k) by (apply Z.pow_pos_nonneg; lia). nia. }
  pose proof (Z.mod_pos_bound (g * 2 ^ k) (2 ^ 64) ltac:(lia)). lia.
Qed.

(** ** The VarUInt codec *)

(** A byte that carries the next group [g], its value kept whole. *)
Lemma push_group d b g :
  push_inv d -> u8 b mod 128 = g -> 0 <= g * 2 ^ (7 * Z.of_nat (index d)) < 2 ^ 64 ->
  out (push d b).1 = out d + g * 2 ^ (7 * Z.of_nat (index d)).
Proof. intros Hinv Hg Hfit. rewrite push_value, Hg by done. by rewrite wrap64_small. Qed.

(** With the continuation bit, before the last byte, the decoder wants more. *)
Lemma push_more d b :
  128 <= u8 b -> (S (index d) < VAR_UINT_MAX_BYTES)%nat ->
  push d b = ((push d b).1, Ok None) /\
  2 ^ (7 * Z.of_nat (index (push d b).1)) = 2 ^ (7 * Z.of_nat (index d)) * 128.
Proof.
  intros Hb Hi. split.
  - rewrite push_cases. cbv zeta. rewrite (proj2 (Z.ltb_ge (u8 b) 128)) by lia.
    by rewrite (proj2 (Nat.eqb_neq (S (index d)) VAR_UINT_MAX_BYTES)) by lia.
  - change (index (push d b).1) with (S (index d)).
    replace (7 * Z.of_nat (S (index d))) with (7 * Z.of_nat (index d) + 7) by lia. by rewrite Z.pow_add_r by lia.
Qed.

Lemma read_var_uint_loop_encode room v d tail :
  (0 < room <= VAR_UINT_MAX_BYTES)%nat -> index d = (VAR_UINT_MAX_BYTES - room)%nat ->
  0 <= out d < 2 ^ (7 * Z.of_nat (index d)) ->
  0 <= v -> v * 2 ^ (7 * Z.of_nat (index d)) < 2 ^ 64 ->
  read_var_uint_loop d (encode_var_uint_loop room v ++ tail) =
    Ok (out d + v * 2 ^ (7 * Z.of_nat (index d)), tail).
Proof.
  revert v d; induction room as [|room IH]; intros v d Hroom Hidx Hout Hv Hfit; [lia|].
  assert (Hinv : push_inv d) by (split; [done|lia]).
  cbn [encode_var_uint_loop]. rewrite land_7F, Z.shiftr_div_pow2 by lia. change (2 ^ 7) with 128.
  pose proof (Z.div_mod v 128 ltac:(lia)) as Hdm. pose proof (Z.mod_pos_bound v 128 ltac:(lia)) as Hm.
  assert (Hp : 0 < 2 ^ (7 * Z.of_nat (index d))) by (apply Z.pow_pos_nonneg; lia).
  assert (Hgrp : 0 <= v mod 128 * 2 ^ (7 * Z.of_nat (index d)) < 2 ^ 64) by (pose proof (Z.mod_le v 128 Hv ltac:(lia)); nia).
  destruct (Z.ltb_spec 0 (v / 128)) as [Hq|Hq].
  - (* more groups follow: the byte carries the continuation bit *)
    rewrite (proj2 (Z.eqb_neq (v / 128) 0)), lor_80 by lia. set (b := byte.of_Z _).
    assert (Hb : u8 b = v mod 128 + 128) by (unfold b; rewrite u8_of_Z; apply Z.mod_small; lia).
    assert (Hg : u8 b mod 128 = v mod 128).
    { by rewrite Hb, <- Zplus_mod_idemp_r, Z_mod_same_full, Z.add_0_r, Z.mod_mod by lia. }
    cbn [app read_var_uint_loop].
    assert (Hcap : (S (index d) < VAR_UINT_MAX_BYTES)%nat).
    { destruct (decide (S (index d) = VAR_UINT_MAX_BYTES)) as [E|]; [|lia].
      assert (E9 : index d = 9%nat) by (unfold VAR_UINT_MAX_BYTES in *; lia). rewrite E9 in Hfit.
      change (2 ^ (7 * Z.of_nat 9)) with (2 ^ 63) in Hfit. nia. }
    destruct (push_more d b) as [Hpush Hp']; [lia|done|]. pose proof (push_group d b _ Hinv Hg Hgrp) as Hv1.
    rewrite Hpush. cbn [mbind result_bind]. rewrite IH; rewrite ?Hp', ?Hv1; [|lia| |nia|lia|nia].
    + f_equal. f_equal. nia.
    + change (index (push d b).1) with (S (index d)). lia.
  - (* the last group *)
    assert (Hq0 : v / 128 = 0) by (pose proof (Z.div_pos v 128); lia). rewrite Hq0. cbn [Z.eqb].
    set (b := byte.of_Z _). assert (Hb : u8 b = v mod 128) by (unfold b; rewrite u8_of_Z; apply Z.mod_small; lia).
    cbn [app read_var_uint_loop]. rewrite push_cases. cbv zeta.
    rewrite (proj2 (Z.ltb_lt (u8 b) 128)) by lia. cbn [mbind result_bind].
    rewrite (push_group d b (v mod 128)) by (done || rewrite Hb; by apply Z.mod_mod). do 3 f_equal. nia.
Qed.

(** every 64-bit value survives the VarUInt codec, whatever bytes follow it. *)
Lemma reads_var_uint v : 0 <= v < 2 ^ 64 -> reads read_var_uint (encode_var_uint v) v.
Proof.
  intros Hv tail. unfold read_var_uint, encode_var_uint.
  rewrite read_var_uint_loop_encode; unfold VAR_UINT_MAX_BYTES; simpl; try lia.
  do 2 f_equal. lia.
Qed.

(** The error of the slice decoder for an error of the stream decoder. *)
Definition slice_error (e : Error) : Error :=
  match e with
  | Other _ => NotEnoughData
  | e => e
  end.

Lemma get_read_var_uint_loop d i bs :
  get_var_uint_loop d i bs =
    match read_var_uint_loop d bs with
    | Ok (v, rest) => Ok (v, (i + (length bs - length rest))%nat)
    | Err e => Err (slice_error e)
    end /\
  forall v rest, read_var_uint_loop d bs = Ok (v, rest) -> (length rest < length bs)%nat.
Proof.
  revert d i; induction bs as [|b bs IH]; intros d i; [split; [done | discriminate]|].
  cbn [get_var_uint_loop read_var_uint_loop length]. rewrite push_cases. cbv zeta.
  destruct (u8 b <? 128); cbn [mbind result_bind].
  { split; [f_equal; f_equal; lia|]. intros; simplify_eq; lia. }
  destruct (_ =? _)%nat; cbn [mbind result_bind]; [split; [done|discriminate]|].
  destruct (IH (push d b).1 (S i)) as [-> Hlen]. split.
  - destruct (read_var_uint_loop _ bs) as [[v rest]|e] eqn:E; [|done].
    specialize (Hlen _ _ eq_refl). do 2 f_equal. lia.
  - intros v rest E. specialize (Hlen _ _ E). lia.
Qed.

(** the slice decoder and the stream decoder agree. *)
Lemma get_var_uint_stream bs :
  get_var_uint bs =
    match read_var_uint bs with
    | Ok (v, rest) => Ok (v, (length bs - length rest)%nat)
    | Err e => Err (slice_error e)
    end.
Proof. apply (get_read_var_uint_loop VarUintDecoder_default 0 bs). Qed.

Lemma framed_read_var_uint_loop d : framed (read_var_uint_loop d).
Proof.
  intros bs; revert d; induction bs as [|b bs IH]; intros d v rest; [discriminate|].
  cbn [read_var_uint_loop]. rewrite push_cases. cbv zeta.
  destruct (u8 b <? 128) eqn:E1; cbn [mbind result_bind].
  { intros; simplify_eq. exists [b]. split; [done|]. intros tail.
    cbn [app read_var_uint_loop]. rewrite push_cases. cbv zeta. by rewrite E1. }
  destruct (_ =? _)%nat eqn:E2; cbn [mbind result_bind]; [discriminate|].
  intros H. apply IH in H as (used & -> & H). exists (b :: used). split; [done|].
  intros tail. cbn [app read_var_uint_loop]. rewrite push_cases. cbv zeta. rewrite E1, E2. apply H.
Qed.

Lemma framed_read_var_uint : framed read_var_uint.
Proof. apply framed_read_var_uint_loop. Qed.

Lemma read_var_uint_loop_bounds d bs v rest :
  push_inv d -> read_var_uint_loop d bs = Ok (v, rest) ->
  0 <= v < 2 ^ 64 /\ (length bs - length rest <= VAR_UINT_MAX_BYTES - index d)%nat.
Proof.
  revert d; induction bs as [|b bs IH]; intros d Hinv; [discriminate|].
  cbn [read_var_uint_loop length]. rewrite push_cases. cbv zeta.
  pose proof (push_out_range d b Hinv) as Hout.
  destruct (u8 b <? 128) eqn:E1; cbn [mbind result_bind].
  { intros; simplify_eq. destruct Hinv. split; [done|lia]. }
  destruct (_ =? _)%nat eqn:E2; cbn [mbind result_bind]; [discriminate|].
  intros H. apply IH in H as [Hv Hl].
  - split; [done|]. change (index (push d b).1) with (S (index d)) in Hl.
    apply Nat.eqb_neq in E2. destruct Hinv. lia.
  - apply push_inv_next; [done|]. rewrite push_cases at 1. cbv zeta. by rewrite E1, E2.
Qed.

Lemma read_var_uint_bounds bs v rest :
  read_var_uint bs = Ok (v, rest) ->
  0 <= v < 2 ^ 64 /\ (length rest < length bs <= length rest + 10)%nat.
Proof.
  intros H. pose proof (proj2 (get_read_var_uint_loop _ 0 bs) _ _ H) as Hlt.
  apply read_var_uint_loop_bounds in H as [Hv Hl]; [|apply push_inv_default].
  unfold VAR_UINT_MAX_BYTES, VarUintDecoder_default in *. simpl in Hl. split; [done|lia].
Qed.

Lemma read_var_uint_loop_overflow d bs tail :
  (index d + length bs = VAR_UINT_MAX_BYTES)%nat -> bs <> [] ->
  Forall (fun b => 128 <= u8 b) bs ->
  read_var_uint_loop d (bs ++ tail) = Err varint_overflow.
Proof.
  revert d; induction bs as [|b bs IH]; intros d Hlen Hne Hall; [done|].
  apply Forall_cons in Hall as [Hb Hall]. cbn [app read_var_uint_loop].
  rewrite push_cases. cbv zeta. rewrite (proj2 (Z.ltb_ge (u8 b) 128)) by done.
  destruct bs as [|b' bs].
  - simpl in Hlen. rewrite (proj2 (Nat.eqb_eq (S (index d)) VAR_UINT_MAX_BYTES)); [done|lia].
  - simpl in Hlen. rewrite (proj2 (Nat.eqb_neq (S (index d)) VAR_UINT_MAX_BYTES)) by lia. cbn [mbind result_bind].
    apply IH; [simpl; lia | done | done].
Qed.

Lemma encode_var_uint_length v : (length (encode_var_uint v) <= 10)%nat.
Proof.
  assert (H : forall room w, (length (encode_var_uint_loop room w) <= room)%nat).
  { intros room; induction room as [|room IH]; intros w; simpl; [lia|].
    destruct (_ =? 0); simpl; [lia|]. specialize (IH (Z.shiftr w 7)). lia. }
  apply H.
Qed.

Lemma encode_var_uint_nonempty v : (0 < length (encode_var_uint v))%nat.
Proof. unfold encode_var_uint, VAR_UINT_MAX_BYTES. cbn [encode_var_uint_loop length]. lia. Qed.

#[export] Hint Resolve framed_read_var_uint : framed.

(** ** Fixed-width reads *)

Lemma framed_read_exact n : framed (read_exact n).
Proof.
  intros bs a rest. unfold read_exact. destruct (Nat.leb_spec n (length bs)) as [Hn|]; [|discriminate].
  intros ?; simplify_eq. exists (take n bs). split; [by rewrite take_drop|].
  intros tail. rewrite length_app, length_take_le by done.
  rewrite (proj2 (Nat.leb_le _ _)) by lia.
  by rewrite take_app_length', drop_app_length' by (by rewrite length_take_le).
Qed.

Lemma reads_exact bs : reads (read_exact (length bs)) bs bs.
Proof.
  intros tail. unfold read_exact. rewrite length_app, (proj2 (Nat.leb_le _ _)) by lia.
  by rewrite take_app_length, drop_app_length.
Qed.

Lemma read_exact_length n bs a rest : read_exact n bs = Ok (a, rest) -> length a = n.
Proof.
  unfold read_exact. destruct (Nat.leb_spec n (length bs)); [|discriminate].
  intros ?; simplify_eq. by rewrite length_take_le.
Qed.

(** An exact read that leaves nothing returns all of its input. *)
Lemma read_exact_self n bs a : read_exact n (bs ++ []) = Ok (a, []) -> bs = a.
Proof.
  rewrite app_nil_r. unfold read_exact. destruct (_ <=? _)%nat; [|discriminate].
  intros Hr. injection Hr as Ha Hd. by rewrite <- (take_drop n bs), Hd, app_nil_r.
Qed.

#[export] Hint Resolve framed_read_exact : framed.

Lemma framed_read_le n : framed (read_le n).
Proof. unfold read_le. framed_auto. Qed.

Lemma framed_read_i32_le : framed read_i32_le.
Proof. unfold read_i32_le. framed_auto; apply framed_read_le. Qed.

Lemma le_split_combine_mod n z : le_combine (le_split n z) = z mod 2 ^ (8 * Z.of_nat n).
Proof. rewrite le_combine_split. f_equal. f_equal. lia. Qed.

Lemma reads_le n z : 0 <= z < 2 ^ (8 * Z.of_nat n) -> reads (read_le n) (put_le n z) z.
Proof.
  intros Hz. unfold read_le, put_le. eapply reads_bind_last.
  - rewrite <- (length_le_split n z) at 1. apply reads_exact.
  - intros tail. rewrite le_split_combine_mod, Z.mod_small by done. reflexivity.
Qed.

Lemma read_le_range n bs v rest : read_le n bs = Ok (v, rest) -> 0 <= v < 2 ^ (8 * Z.of_nat n).
Proof.
  intros H. unfold read_le in H. apply rd_bind_ok in H as (a & mid & H1 & H2).
  apply read_exact_length in H1. apply rd_ret_ok in H2 as [<- _]. rewrite <- H1.
  pose proof (le_combine_bound a). replace (8 * Z.of_nat (length a)) with (8 * Z.of_nat (length a)) by lia.
  done.
Qed.

#[export] Hint Resolve framed_read_le framed_read_i32_le : framed.
#[export] Hint Unfold read_u8 read_u16_le read_u32_le read_u64_le : framed.

(** ** The chunked exact read *)

Section grown.
Context `{Platform}.

(** What a successful turn of the loop says: the bytes of the stream it took,
    and that they alone decide the result, whatever the fuel. *)
Lemma read_exact_grown_loop_ok fuel buf left bs v rest :
  read_exact_grown_loop fuel buf left bs = Ok (v, rest) ->
  exists used, bs = used ++ rest /\ v = buf ++ used /\ Z.of_nat (length used) = Z.max 0 left /\
    forall fuel' tail, (length used < fuel')%nat ->
      read_exact_grown_loop fuel' buf left (used ++ tail) = Ok (v, tail).
Proof.
  revert buf left bs; induction fuel as [|fuel IH]; intros buf left bs; [discriminate|].
  cbn [read_exact_grown_loop]. destruct (Z.ltb_spec 0 left) as [Hl|Hl].
  - destruct (try_reserve _) eqn:Eres; [|discriminate]. intros Hr.
    apply rd_bind_ok in Hr as (a & mid & H1 & H2).
    pose proof (read_exact_length _ _ _ _ H1) as Ha.
    apply framed_read_exact in H1 as (u1 & -> & H1).
    pose proof (read_exact_self _ _ _ (H1 [])) as ->.
    apply IH in H2 as (u2 & -> & -> & Hu2 & H2).
    exists (a ++ u2). split_and!; [by rewrite app_assoc | by rewrite app_assoc | |].
    { rewrite length_app. unfold READ_CHUNK in *. lia. }
    intros fuel' tail Hf. rewrite length_app in Hf.
    destruct fuel' as [|fuel']; [lia|]. cbn [read_exact_grown_loop].
    rewrite (proj2 (Z.ltb_lt 0 left)), Eres by done. rewrite rd_bind_eq, <- app_assoc, H1.
    apply H2. unfold READ_CHUNK in *. lia.
  - intros Hr. apply rd_ret_ok in Hr as [<- <-].
    exists []. rewrite app_nil_r. split_and!; [done|done|simpl; lia|].
    intros fuel' tail Hf. destruct fuel' as [|fuel']; [lia|]. cbn [read_exact_grown_loop].
    by rewrite (proj2 (Z.ltb_ge 0 left)).
Qed.

Lemma framed_read_exact_grown len : framed (read_exact_grown len).
Proof.
  intros bs v rest Hr. unfold read_exact_grown in *.
  apply read_exact_grown_loop_ok in Hr as (used & -> & -> & Hlen & Hr).
  exists used. split; [done|]. intros tail. apply Hr. rewrite length_app. lia.
Qed.

Lemma read_exact_grown_length len bs v rest :
  read_exact_grown len bs = Ok (v, rest) -> Z.of_nat (length v) = Z.max 0 len /\ bs = v ++ rest.
Proof.
  intros Hr. apply read_exact_grown_loop_ok in Hr as (used & -> & -> & Hlen & Hr). done.
Qed.

(** The loop under an allocator that backs one chunk more than has arrived. *)
Lemma read_exact_grown_loop_total fuel buf left bs :
  (forall n, 0 <= n <= Z.of_nat (length buf + length bs) + READ_CHUNK -> alloc_ok n = true) ->
  (length bs < fuel)%nat -> 0 <= left ->
  read_exact_grown_loop fuel buf left bs =
    if left <=? Z.of_nat (length bs)
    then Ok (buf ++ take (Z.to_nat left) bs, drop (Z.to_nat left) bs) else Err eof.
Proof.
  revert buf left bs; induction fuel as [|fuel IH]; intros buf left bs Halloc Hf Hl; [lia|].
  cbn [read_exact_grown_loop]. destruct (Z.ltb_spec 0 left) as [Hl'|Hl'].
  2: { assert (left = 0) as -> by lia. rewrite (proj2 (Z.leb_le _ _)) by lia.
       simpl. by rewrite app_nil_r. }
  set (c := Z.min left READ_CHUNK). assert (Hc : 0 < c <= READ_CHUNK) by (unfold c, READ_CHUNK; lia).
  unfold try_reserve. rewrite Halloc by lia. rewrite orb_true_r.
  rewrite rd_bind_eq. unfold read_exact.
  destruct (Nat.leb_spec (Z.to_nat c) (length bs)) as [Hle|Hgt].
  - rewrite IH.
    + rewrite length_drop. destruct (Z.leb_spec left (Z.of_nat (length bs))).
      * rewrite (proj2 (Z.leb_le _ _)) by lia. rewrite <- app_assoc.
        f_equal. f_equal; [f_equal|].
        -- rewrite <- (take_drop (Z.to_nat c) (take (Z.to_nat left) bs)).
           rewrite take_take, skipn_firstn_comm. do 2 f_equal; lia.
        -- rewrite drop_drop. f_equal. lia.
      * rewrite (proj2 (Z.leb_gt _ _)) by lia. done.
    + intros n Hn. apply Halloc. rewrite length_app, length_take_le, length_drop in Hn by done. lia.
    + rewrite length_drop. lia.
    + lia.
  - rewrite (proj2 (Z.leb_gt _ _)) by lia. done.
Qed.

Lemma read_exact_grown_total len bs :
  alloc_total -> 0 <= len ->
  read_exact_grown len bs =
    if len <=? Z.of_nat (length bs)
    then Ok (take (Z.to_nat len) bs, drop (Z.to_nat len) bs) else Err eof.
Proof.
  intros Ha Hl. unfold read_exact_grown. rewrite read_exact_grown_loop_total; [done| |lia|done].
  intros n _. apply Ha.
Qed.

Lemma reads_exact_grown bs :
  alloc_total -> reads (read_exact_grown (Z.of_nat (length bs))) bs bs.
Proof.
  intros Ha tail. rewrite read_exact_grown_total by (done || lia).
  rewrite length_app, (proj2 (Z.leb_le _ _)) by lia.
  by rewrite Nat2Z.id, take_app_length, drop_app_length.
Qed.

#[local] Hint Resolve framed_read_exact_grown : framed.

Lemma framed_read_string : framed read_string.
Proof. unfold read_string. framed_auto. Qed.

Lemma framed_read_utf8_string : framed read_utf8_string.
Proof. unfold read_utf8_string, read_string. framed_auto. Qed.

Lemma reads_string s :
  alloc_total -> Z.of_nat (length s) <= MAX_STRING_SIZE -> reads read_string (put_string s) s.
Proof.
  intros Ha Hs. unfold read_string, put_string, put_var_uint.
  eapply reads_bind; [apply reads_var_uint; unfold MAX_STRING_SIZE in *; lia|].
  eapply reads_bind_nil; [apply reads_lift | by apply reads_exact_grown].
  unfold string_len_usize, checked_string_len. by rewrite (proj2 (Z.ltb_ge _ _)) by done.
Qed.

Lemma reads_utf8_string s :
  alloc_total -> Z.of_nat (length s) <= MAX_STRING_SIZE -> utf8_valid s = true ->
  reads read_utf8_string (put_string s) s.
Proof.
  intros Ha Hs Hu. unfold read_utf8_string.
  eapply reads_bind_last; [by apply reads_string|]. rewrite Hu. apply reads_ret.
Qed.

Lemma read_string_length bs s rest :
  read_string bs = Ok (s, rest) -> Z.of_nat (length s) <= MAX_STRING_SIZE.
Proof.
  unfold read_string, string_len_usize, checked_string_len. intros Hr.
  apply rd_bind_ok in Hr as (n & m1 & H1 & Hr). apply rd_bind_ok in Hr as (l & m2 & H2 & Hr).
  apply read_var_uint_bounds in H1 as [? _]. apply rd_lift_ok in H2 as [H2 ->].
  destruct (Z.ltb_spec MAX_STRING_SIZE n); [discriminate|]. simplify_eq.
  apply read_exact_grown_length in Hr as [? _]. lia.
Qed.

End grown.

#[export] Hint Resolve framed_read_exact_grown framed_read_string framed_read_utf8_string : framed.

(** ** Properties *)

(** [encode_var_uint] writes any [u64] in at most ten bytes,
    and both the stream reader and the slice decoder give it back with exactly
    those bytes consumed, whatever follows them. *)
Theorem var_uint_roundtrip v tail :
  0 <= v < 2 ^ 64 ->
  (length (encode_var_uint v) <= 10)%nat /\
  read_var_uint (encode_var_uint v ++ tail) = Ok (v, tail) /\
  get_var_uint (encode_var_uint v ++ tail) = Ok (v, length (encode_var_uint v)).
Proof.
  intros Hv. split_and!; [apply encode_var_uint_length | by apply reads_var_uint|].
  rewrite get_var_uint_stream, (reads_var_uint v Hv tail), length_app. do 2 f_equal. lia.
Qed.

Lemma var_uint_roundtrip_witness :
  read_var_uint (encode_var_uint (2 ^ 63) ++ [x05]) = Ok (2 ^ 63, [x05]).
Proof. apply (var_uint_roundtrip (2 ^ 63) [x05]). lia. Defined.

(** on any input, hostile or not, the VarUInt readers are total and
    agree; a value is in range and took at most ten bytes, and a tenth
    continuation byte is refused, so no value is truncated. *)
Theorem var_uint_reader_safe bs :
  get_var_uint bs =
    match read_var_uint bs with
    | Ok (v, rest) => Ok (v, (length bs - length rest)%nat)
    | Err e => Err (slice_error e)
    end /\
  (forall v rest, read_var_uint bs = Ok (v, rest) ->
     0 <= v < 2 ^ 64 /\ (length rest < length bs <= length rest + 10)%nat) /\
  ((10 <= length bs)%nat -> Forall (fun b => 128 <= u8 b) (take 10 bs) ->
     read_var_uint bs = Err varint_overflow).
Proof.
  split_and!; [apply get_var_uint_stream | intros; by eapply read_var_uint_bounds|].
  intros Hlen Hall. rewrite <- (take_drop 10 bs). apply read_var_uint_loop_overflow; [|intros E|done].
  - rewrite length_take_le by lia. done.
  - apply (f_equal length) in E. rewrite length_take_le in E by lia. done.
Qed.

(** at a block boundary the end of the stream is [None]; anywhere inside a
    value it is an error, and otherwise this reader is [read_var_uint]. *)
Theorem read_var_uint_or_eof_spec bs :
  read_var_uint_or_eof bs =
    match bs with
    | [] => Ok (None, [])
    | _ => match read_var_uint bs with
           | Ok (v, rest) => Ok (Some v, rest)
           | Err e => Err e
           end
    end.
Proof.
  destruct bs as [|b bs]; [done|]. unfold read_var_uint_or_eof, read_var_uint.
  cbn [read_var_uint_loop]. destruct (push VarUintDecoder_default b) as [d r].
  destruct r as [[v|]|e]; cbn [mbind result_bind]; [done| |done].
  by destruct (read_var_uint_loop d bs) as [[v rest]|e].
Qed.

(** [read_exact_grown] asks the allocator for no more than one chunk beyond
    the bytes that really arrived, whatever length the peer declared: backing
    that much is enough for it to return exactly [len] bytes, or an
    unexpected end of file when they are not there. *)
Theorem read_exact_grown_bounded `{Platform} len bs :
  0 <= len ->
  (forall n, 0 <= n <= Z.of_nat (length bs) + READ_CHUNK -> alloc_ok n = true) ->
  read_exact_grown len bs =
    if len <=? Z.of_nat (length bs)
    then Ok (take (Z.to_nat len) bs, drop (Z.to_nat len) bs) else Err eof.
Proof.
  intros Hl Ha. unfold read_exact_grown. rewrite read_exact_grown_loop_total; [done| |lia|done].
  intros n Hn. apply Ha. simpl in Hn. done.
Qed.

(** A platform with 70,000 bytes of memory refuses no declared length of 2^40
    outright: the stream runs dry first. *)
Lemma read_exact_grown_bounded_witness :
  let p := {| alloc_ok := fun n => n <=? 70000; sizeof_DecodedColumn := 64; sizeof_ColumnType := 32 |} in
  @read_exact_grown p (2 ^ 40) [x01; x02] = Err eof.
Proof.
  intros p. refine (eq_trans (@read_exact_grown_bounded p (2 ^ 40) [x01; x02] _ _) _); [lia| |reflexivity].
  intros n Hn. apply Z.leb_le. unfold READ_CHUNK in Hn. simpl in Hn. lia.
Defined.

(** a string of at most [MAX_STRING_SIZE] bytes survives [put_string] and
    [read_string], and [read_utf8_string] too when it is UTF-8; a longer
    declared length is refused before any of it is read. *)
Theorem string_roundtrip `{Platform} s tail :
  alloc_total -> Z.of_nat (length s) < 2 ^ 64 ->
  (Z.of_nat (length s) <= MAX_STRING_SIZE ->
     read_string (put_string s ++ tail) = Ok (s, tail) /\
     (utf8_valid s = true -> read_utf8_string (put_string s ++ tail) = Ok (s, tail))) /\
  (MAX_STRING_SIZE < Z.of_nat (length s) ->
     exists e, read_string (put_string s ++ tail) = Err e).
Proof.
  intros Ha Hs. split; intros Hlen.
  - split; [by apply reads_string | intros; by apply reads_utf8_string].
  - unfold read_string, put_string, put_var_uint. rewrite <- app_assoc, rd_bind_eq.
    rewrite reads_var_uint by lia. unfold string_len_usize, checked_string_len.
    rewrite (proj2 (Z.ltb_lt _ _)) by done. eexists; reflexivity.
Qed.

Lemma string_roundtrip_witness :
  @read_string roomy (put_string (str "db") ++ [x09]) = Ok (str "db", [x09]).
Proof.
  refine (proj1 (proj1 (@string_roundtrip roomy (str "db") [x09] (fun _ => eq_refl) _) _));
    unfold MAX_STRING_SIZE; simpl; lia.
Defined.
