(* ===== verification/Sparse.v ===== *)
(** * Sparse serialization

    Models [src/native/sparse.rs]: the offsets stream of a sparse column, with
    the state one read hands to the next. The writer of that stream is the
    server; the encoding the module's documentation gives is the reference the
    reader is proved against. *)

From S2P Require Import Prelude Errors WireIo.

Definition END_OF_GRANULE_FLAG : Z := 2 ^ 62.

Record SparseDeserializeState := {
  num_trailing_defaults : Z;
  has_value_after_defaults : bool
}.

Definition SparseDeserializeState_default : SparseDeserializeState :=
  {| num_trailing_defaults := 0; has_value_after_defaults := false |}.

(** The variables of the loop in [read_sparse_offsets]. *)
Record SparseLoop := {
  offsets : list Z;
  current_position : Z;
  state : SparseDeserializeState
}.

(** The state carried over from the previous read. *)
Definition sparse_carry (num_rows : Z) (state : SparseDeserializeState) : SparseLoop :=
  let current_position :=
    if 0 <? num_trailing_defaults state then wrap 64 (num_trailing_defaults state) else 0 in
  if has_value_after_defaults state then
    {| offsets := if current_position <? num_rows then [current_position] else [];
       current_position := wrap 64 (current_position + 1);
       state := {| num_trailing_defaults := 0; has_value_after_defaults := false |} |}
  else
    {| offsets := []; current_position := current_position;
       state := {| num_trailing_defaults := 0; has_value_after_defaults := false |} |}.

(** One turn of the loop: read one group size. *)
Definition sparse_turn (num_rows : Z) (s : SparseLoop)
    : Read (SparseLoop + (list Z * SparseDeserializeState)) :=
  group_size ← read_var_uint;
  let is_end_of_granule := negb (Z.land group_size END_OF_GRANULE_FLAG =? 0) in
  let actual_group_size := Z.ldiff group_size END_OF_GRANULE_FLAG in
  let pos := wrap 64 (current_position s + actual_group_size) in
  if is_end_of_granule then
    mret (inr (offsets s,
      if num_rows <? pos then
        {| num_trailing_defaults := pos - num_rows;
           has_value_after_defaults := has_value_after_defaults (state s) |}
      else state s))
  else if pos <? num_rows then
    mret (inl {| offsets := offsets s ++ [pos]; current_position := wrap 64 (pos + 1);
                 state := state s |})
  else
    mret (inl {| offsets := offsets s; current_position := pos;
                 state := {| num_trailing_defaults := num_trailing_defaults (state s);
                             has_value_after_defaults := true |} |}).

(** [read_sparse_offsets]: the positions of the non-default values. *)
Definition read_sparse_offsets (num_rows : Z) (state : SparseDeserializeState)
    : Read (list Z * SparseDeserializeState) :=
  rd_loop eof (sparse_turn num_rows) (sparse_carry num_rows state).

(** ** The reference encoding

    One flag per row, [true] for a value that is not the default. *)

(** The group sizes: the run of defaults before each value, and the trailing
    run with the end marker. *)
Fixpoint sparse_groups (gap : Z) (flags : list bool) : list Z :=
  match flags with
  | [] => [Z.lor gap END_OF_GRANULE_FLAG]
  | false :: flags' => sparse_groups (gap + 1) flags'
  | true :: flags' => gap :: sparse_groups 0 flags'
  end.

Definition sparse_encode (flags : list bool) : list byte :=
  concat (map encode_var_uint (sparse_groups 0 flags)).

(** The positions of the values. *)
Fixpoint value_positions (i : Z) (flags : list bool) : list Z :=
  match flags with
  | [] => []
  | true :: flags' => i :: value_positions (i + 1) flags'
  | false :: flags' => value_positions (i + 1) flags'
  end.

(** ** Lemmas *)

Lemma framed_sparse_turn num_rows s : framed (sparse_turn num_rows s).
Proof. unfold sparse_turn. framed_auto. Qed.

Lemma sparse_turn_consumes num_rows : consumes (sparse_turn num_rows).
Proof.
  intros s bs s' rest H. unfold sparse_turn in H. apply rd_bind_ok in H as (g & mid & H1 & H2).
  apply read_var_uint_bounds in H1. repeat case_match; apply rd_ret_ok in H2 as [_ <-]; lia.
Qed.

Lemma framed_read_sparse_offsets num_rows st : framed (read_sparse_offsets num_rows st).
Proof. apply framed_loop; [apply framed_sparse_turn | apply sparse_turn_consumes]. Qed.

#[export] Hint Resolve framed_read_sparse_offsets : framed.

(** A turn on a plain group, and on the group that ends the granule. *)
Lemma reads_sparse_group num_rows s g :
  0 <= g < 2 ^ 62 -> 0 <= current_position s -> current_position s + g < num_rows ->
  num_rows < 2 ^ 62 ->
  reads (sparse_turn num_rows s) (encode_var_uint g)
    (inl {| offsets := offsets s ++ [current_position s + g];
            current_position := current_position s + g + 1; state := state s |}).
Proof.
  intros Hg Hc Hn Hr. unfold sparse_turn.
  eapply reads_bind_last; [apply reads_var_uint; lia|].
  unfold END_OF_GRANULE_FLAG. rewrite land_pow2_clear, ldiff_pow2_clear by lia.
  rewrite !wrap_small by lia. cbn [Z.eqb negb]. rewrite (proj2 (Z.ltb_lt _ _)) by done. apply reads_ret.
Qed.

Lemma reads_sparse_end num_rows s g :
  0 <= g < 2 ^ 62 -> 0 <= current_position s -> current_position s + g = num_rows ->
  num_rows < 2 ^ 62 ->
  reads (sparse_turn num_rows s) (encode_var_uint (Z.lor g END_OF_GRANULE_FLAG))
    (inr (offsets s, state s)).
Proof.
  intros Hg Hc Hn Hr. unfold sparse_turn, END_OF_GRANULE_FLAG.
  assert (Hlor : Z.lor g (2 ^ 62) = g + 2 ^ 62).
  { change (2 ^ 62) with (Z.shiftl 1 62) at 1. rewrite lor_shiftl_add by lia. lia. }
  eapply reads_bind_last; [apply reads_var_uint; rewrite Hlor; lia|].
  rewrite (proj2 (Z.eqb_neq _ _)) by (by apply land_pow2_set). cbn [negb].
  rewrite ldiff_pow2_set, wrap_small by lia. rewrite (proj2 (Z.ltb_ge _ _)) by lia. apply reads_ret.
Qed.

Lemma sparse_loop_encode num_rows flags fuel gap s tail :
  0 <= gap -> 0 <= current_position s ->
  current_position s + gap + Z.of_nat (length flags) = num_rows -> num_rows < 2 ^ 62 ->
  (length (concat (map encode_var_uint (sparse_groups gap flags))) < fuel)%nat ->
  rd_loop_fuel eof (sparse_turn num_rows) fuel s
      (concat (map encode_var_uint (sparse_groups gap flags)) ++ tail) =
    Ok ((offsets s ++ value_positions (current_position s + gap) flags, state s), tail).
Proof.
  revert fuel gap s; induction flags as [|f flags IH]; intros fuel gap s Hgap Hc Hn Hr Hf.
  - cbn [sparse_groups map concat value_positions] in *. rewrite !app_nil_r in *. simpl in Hn.
    eapply rd_loop_fuel_reads_break; [apply reads_sparse_end|]; lia.
  - cbn [length] in Hn. destruct f; cbn [sparse_groups map concat value_positions] in *.
    + rewrite length_app in Hf. destruct fuel as [|fuel]; [lia|].
      rewrite <- app_assoc. erewrite rd_loop_fuel_reads_turn by (apply reads_sparse_group; lia).
      pose proof (encode_var_uint_nonempty gap) as Hpos.
      rewrite IH; cbn [offsets current_position state]; try lia.
      replace (current_position s + gap + 1 + 0) with (current_position s + gap + 1) by lia.
      by rewrite <- app_assoc.
    + rewrite IH by lia. by replace (current_position s + (gap + 1)) with (current_position s + gap + 1) by lia.
Qed.

(** Every offset a run of the loop adds is a row of the block. *)
Lemma sparse_loop_in_range num_rows fuel s bs offs st rest :
  rd_loop_fuel eof (sparse_turn num_rows) fuel s bs = Ok ((offs, st), rest) ->
  Forall (fun p => 0 <= p < num_rows) (offsets s) -> Forall (fun p => 0 <= p < num_rows) offs.
Proof.
  revert s bs; induction fuel as [|fuel IH]; intros s bs H Hall; [discriminate|].
  cbn [rd_loop_fuel] in H. apply rd_bind_ok in H as (r & mid & H1 & H2).
  unfold sparse_turn in H1. apply rd_bind_ok in H1 as (g & mid' & Hg & H1).
  set (pos := wrap 64 (current_position s + Z.ldiff g END_OF_GRANULE_FLAG)) in *.
  assert (Hpos : 0 <= pos) by (unfold pos; apply wrap_range; lia).
  destruct (negb _); [|destruct (Z.ltb_spec pos num_rows)].
  - apply rd_ret_ok in H1 as [<- <-]. apply rd_ret_ok in H2 as [Heq _]. by simplify_eq.
  - apply rd_ret_ok in H1 as [<- <-]. eapply IH; [exact H2|].
    apply Forall_app. split; [done|]. apply Forall_singleton. lia.
  - apply rd_ret_ok in H1 as [<- <-]. by eapply IH.
Qed.

Lemma sparse_carry_in_range num_rows st :
  Forall (fun p => 0 <= p < num_rows) (offsets (sparse_carry num_rows st)).
Proof.
  unfold sparse_carry. repeat case_match; simpl; constructor; try constructor; try lia.
  pose proof (wrap_range 64 (num_trailing_defaults st)). lia.
Qed.

(** ** Properties *)

(** reading the sparse encoding of a column of any shape yields exactly the
    positions of its values, leaves nothing pending and consumes exactly the
    offsets stream. *)
Theorem sparse_offsets_roundtrip flags tail :
  Z.of_nat (length flags) < 2 ^ 62 ->
  read_sparse_offsets (Z.of_nat (length flags)) SparseDeserializeState_default
      (sparse_encode flags ++ tail) =
    Ok ((value_positions 0 flags, SparseDeserializeState_default), tail).
Proof.
  intros Hn. unfold read_sparse_offsets, rd_loop, sparse_encode.
  rewrite sparse_loop_encode; try (simpl; lia); [done|]. rewrite length_app. lia.
Qed.

(** The column of the module's example, [0,0,5,0,3,0,0,0]. *)
Lemma sparse_offsets_roundtrip_witness :
  let flags := [false; false; true; false; true; false; false; false] in
  read_sparse_offsets 8 SparseDeserializeState_default (sparse_encode flags ++ [x2a]) =
    Ok (([2; 4], SparseDeserializeState_default), [x2a]).
Proof. intros flags. refine (sparse_offsets_roundtrip flags [x2a] _). simpl. lia. Defined.

(** on any stream and any carried state, the positions returned are rows of
    this block, and the bytes consumed do not depend on what follows. *)
Theorem sparse_offsets_safe num_rows st bs offs st' rest :
  read_sparse_offsets num_rows st bs = Ok ((offs, st'), rest) ->
  Forall (fun p => 0 <= p < num_rows) offs /\
  exists used, bs = used ++ rest /\ forall tail,
    read_sparse_offsets num_rows st (used ++ tail) = Ok ((offs, st'), tail).
Proof.
  intros H. split; [|by apply framed_read_sparse_offsets].
  unfold read_sparse_offsets, rd_loop in H. eapply sparse_loop_in_range; [exact H|].
  apply sparse_carry_in_range.
Qed.

Lemma sparse_offsets_safe_witness :
  Forall (fun p => 0 <= p < 3) [1].
Proof.
  apply (sparse_offsets_safe 3 SparseDeserializeState_default
    (sparse_encode [false; true; false]) [1] SparseDeserializeState_default []).
  vm_compute. reflexivity.
Defined.
