(* ===== verification/Text.v ===== *)
(** * Text

    The operations of Rust's [str] the crate uses, on UTF-8 bytes. They are the
    standard library's, so nothing here stands for a line of the crate; the
    components that slice type names, setting values and error texts share
    them, and the lemmas about them. *)

From S2P Require Import Prelude.

(** ** Definitions *)

Definition beq (a b : byte) : bool := Byte.eqb a b.

(** [s.strip_prefix(p)], [s.starts_with(p)]. *)
Fixpoint strip_prefix (s p : text) : option text :=
  match p, s with
  | [], _ => Some s
  | c :: p', d :: s' => if beq c d then strip_prefix s' p' else None
  | _ :: _, [] => None
  end.

Definition starts_with (s p : text) : bool :=
  match strip_prefix s p with
  | Some _ => true
  | None => false
  end.

(** [s.strip_suffix(c)] and [s.strip_suffix(p)]. *)
Definition strip_suffix (s p : text) : option text :=
  match strip_prefix (rev s) (rev p) with
  | Some r => Some (rev r)
  | None => None
  end.

(** The code points of the Unicode [White_Space] property, by their encoding. *)
Definition ws1 (b : byte) : bool := ((9 <=? u8 b) && (u8 b <=? 13)) || (u8 b =? 32).
Definition ws2 (b0 b1 : byte) : bool := (u8 b0 =? 0xC2) && ((u8 b1 =? 0x85) || (u8 b1 =? 0xA0)).
Definition ws3 (b0 b1 b2 : byte) : bool :=
  ((u8 b0 =? 0xE1) && (u8 b1 =? 0x9A) && (u8 b2 =? 0x80))
  || ((u8 b0 =? 0xE2) && (u8 b1 =? 0x80) &&
      (((0x80 <=? u8 b2) && (u8 b2 <=? 0x8A)) || (u8 b2 =? 0xA8) || (u8 b2 =? 0xA9) || (u8 b2 =? 0xAF)))
  || ((u8 b0 =? 0xE2) && (u8 b1 =? 0x81) && (u8 b2 =? 0x9F))
  || ((u8 b0 =? 0xE3) && (u8 b1 =? 0x80) && (u8 b2 =? 0x80)).

(** Drop leading white space, reading the bytes of a code point in the order
    [ord] gives them: forwards, or backwards in a reversed text. *)
Fixpoint trim_with (two : byte -> byte -> bool) (three : byte -> byte -> byte -> bool)
    (s : text) : text :=
  match s with
  | [] => []
  | b0 :: r0 =>
      if ws1 b0 then trim_with two three r0
      else match r0 with
           | b1 :: r1 =>
               if two b0 b1 then trim_with two three r1
               else match r1 with
                    | b2 :: r2 => if three b0 b1 b2 then trim_with two three r2 else s
                    | [] => s
                    end
           | [] => s
           end
  end.

Definition trim_start : text -> text := trim_with ws2 ws3.
Definition trim_end (s : text) : text :=
  rev (trim_with (fun b1 b0 => ws2 b0 b1) (fun b2 b1 b0 => ws3 b0 b1 b2) (rev s)).
Definition trim (s : text) : text := trim_end (trim_start s).

(** [s.trim_matches(c)] for one ASCII character. *)
Fixpoint drop_while (f : byte -> bool) (s : text) : text :=
  match s with
  | [] => []
  | b :: r => if f b then drop_while f r else s
  end.
Definition trim_matches (c : byte) (s : text) : text :=
  rev (drop_while (beq c) (rev (drop_while (beq c) s))).

(** Decimal digits. *)
Definition is_digit (b : byte) : bool := (48 <=? u8 b) && (u8 b <=? 57).
Definition digit (b : byte) : Z := u8 b - 48.

Fixpoint parse_digits (acc : Z) (s : text) : option Z :=
  match s with
  | [] => Some acc
  | b :: r => if is_digit b then parse_digits (acc * 10 + digit b) r else None
  end.

Definition parse_nat_digits (s : text) : option Z :=
  match s with
  | [] => None
  | _ => parse_digits 0 s
  end.

(** [s.parse::<uN>()]: an optional [+], at least one digit, no overflow. *)
Definition parse_unsigned (bits : Z) (s : text) : option Z :=
  let body := match s with
              | b :: r => if beq b "+"%byte then r else s
              | [] => s
              end in
  v ← parse_nat_digits body;
  if v <? 2 ^ bits then Some v else None.

(** [s.parse::<iN>()]. *)
Definition parse_signed (bits : Z) (s : text) : option Z :=
  match s with
  | b :: r =>
      if beq b "-"%byte then
        v ← parse_nat_digits r; if v <=? 2 ^ (bits - 1) then Some (- v) else None
      else
        v ← parse_nat_digits (if beq b "+"%byte then r else s);
        if v <? 2 ^ (bits - 1) then Some v else None
  | [] => None
  end.

(** [s.split_once(c)]. *)
Fixpoint split_once (c : byte) (s : text) : option (text * text) :=
  match s with
  | [] => None
  | b :: r =>
      if beq c b then Some ([], r)
      else '(a, z) ← split_once c r; Some (b :: a, z)
  end.

(** [s.split(c)]. *)
Fixpoint split_char (c : byte) (s : text) : list text :=
  match s with
  | [] => [[]]
  | b :: r =>
      if beq c b then [] :: split_char c r
      else match split_char c r with
           | p :: ps => (b :: p) :: ps
           | [] => [[b]]
           end
  end.

(** [s.find(p)], the byte offset of the first match. *)
Fixpoint find_sub (p s : text) : option nat :=
  if starts_with s p then Some 0%nat
  else match s with
       | [] => None
       | _ :: r => S <$> find_sub p r
       end.

Definition contains (s p : text) : bool :=
  match find_sub p s with
  | Some _ => true
  | None => false
  end.

(** [a.join(sep)]. *)
Fixpoint join (sep : text) (l : list text) : text :=
  match l with
  | [] => []
  | [a] => a
  | a :: l' => a ++ sep ++ join sep l'
  end.

(** [s.eq_ignore_ascii_case(t)], [s.to_ascii_lowercase()]. *)
Definition ascii_lower (b : byte) : byte :=
  if (65 <=? u8 b) && (u8 b <=? 90) then byte.of_Z (u8 b + 32) else b.
Definition to_ascii_lowercase (s : text) : text := map ascii_lower s.
Definition eq_ignore_ascii_case (s t : text) : bool :=
  bool_decide (to_ascii_lowercase s = to_ascii_lowercase t).

(** Byte-wise order of strings, [Ord for str]. *)
Fixpoint text_le (a b : text) : bool :=
  match a, b with
  | [], _ => true
  | _ :: _, [] => false
  | x :: a', y :: b' => (u8 x <? u8 y) || ((u8 x =? u8 y) && text_le a' b')
  end.

(** ** Lemmas *)

Lemma beq_refl b : beq b b = true.
Proof. by destruct b. Qed.

Lemma beq_eq a b : beq a b = true <-> a = b.
Proof. split; [apply Byte.byte_dec_bl | apply Byte.byte_dec_lb]. Qed.

Lemma strip_prefix_app p s : strip_prefix (p ++ s) p = Some s.
Proof. induction p as [|c p IH]; simpl; [by destruct s|]. by rewrite beq_refl. Qed.

Lemma strip_prefix_Some s p r : strip_prefix s p = Some r -> s = p ++ r.
Proof.
  revert s; induction p as [|c p IH]; intros [|d s]; simpl; intros H; simplify_eq; try done.
  destruct (beq c d) eqn:E; [|done]. apply beq_eq in E as ->. by rewrite (IH s H).
Qed.

Lemma strip_suffix_app s p : strip_suffix (s ++ p) p = Some s.
Proof. unfold strip_suffix. by rewrite rev_app_distr, strip_prefix_app, rev_involutive. Qed.

Lemma strip_suffix_Some s p r : strip_suffix s p = Some r -> s = r ++ p.
Proof.
  unfold strip_suffix. destruct (strip_prefix _ _) as [q|] eqn:E; [|done].
  intros [= <-]. apply strip_prefix_Some in E. rewrite <- (rev_involutive s), E.
  by rewrite rev_app_distr, rev_involutive.
Qed.

(** Visible ASCII at both ends: nothing to trim. *)
Definition visible (b : byte) : bool := (33 <=? u8 b) && (u8 b <? 127).

Lemma visible_range b : visible b = true -> 33 <= u8 b < 127.
Proof. unfold visible. intros H. lia. Qed.

Lemma ws1_visible b : visible b = true -> ws1 b = false.
Proof. intros H%visible_range. unfold ws1. lia. Qed.

Lemma trim_start_visible b s : visible b = true -> trim_start (b :: s) = b :: s.
Proof.
  intros Hb. unfold trim_start. cbn [trim_with]. rewrite ws1_visible by done.
  apply visible_range in Hb. unfold ws2, ws3. destruct s as [|b1 s]; [done|].
  rewrite (proj2 (Z.eqb_neq (u8 b) 0xC2)) by lia. cbn [andb].
  destruct s as [|b2 s]; [done|]. rewrite !(proj2 (Z.eqb_neq (u8 b) _)) by lia. done.
Qed.

Lemma trim_end_visible s b : visible b = true -> trim_end (s ++ [b]) = s ++ [b].
Proof.
  intros Hb. unfold trim_end. rewrite rev_app_distr. cbn [rev app trim_with].
  rewrite ws1_visible by done. apply visible_range in Hb.
  destruct (rev s) as [|b1 r] eqn:E.
  { apply (f_equal (@rev byte)) in E. rewrite rev_involutive in E. by subst. }
  unfold ws2. rewrite !(proj2 (Z.eqb_neq (u8 b) _)) by lia. rewrite andb_false_r.
  rewrite <- (rev_involutive s), E. cbn [rev].
  destruct r as [|b2 r]; [done|]. unfold ws3.
  rewrite (proj2 (Z.leb_gt 0x80 (u8 b))) by lia.
  rewrite !(proj2 (Z.eqb_neq (u8 b) _)) by lia. cbn [andb orb]. rewrite !andb_false_r. done.
Qed.

(** A text that starts and ends with a visible character. *)
Definition tight (s : text) : Prop :=
  exists b m, s = b :: m /\ visible b = true /\ exists l e, s = l ++ [e] /\ visible e = true.

Lemma trim_tight s : tight s -> trim s = s.
Proof.
  intros (b & m & -> & Hb & l & e & He & Hve). unfold trim.
  rewrite trim_start_visible by done. rewrite He. by apply trim_end_visible.
Qed.

Lemma trim_space s : trim (x20 :: s) = trim s.
Proof. reflexivity. Qed.

Lemma tight_nonempty s : tight s -> s <> [].
Proof. by intros (b & m & -> & _). Qed.

Lemma tight_app a b : tight a -> tight b -> tight (a ++ b).
Proof.
  intros (x & m & -> & Hx & _) (y & n & -> & Hy & l & e & He & Hve).
  exists x, (m ++ y :: n). split; [done|]. split; [done|].
  exists ((x :: m) ++ l), e. split; [by rewrite He, app_assoc | done].
Qed.

Lemma tight_wrap a m b : tight a -> tight b -> tight (a ++ m ++ b).
Proof.
  intros (x & a' & -> & Hx & _) (y & n & -> & Hy & l & e & He & Hve).
  exists x, (a' ++ m ++ y :: n). split; [done|]. split; [done|].
  exists ((x :: a') ++ m ++ l), e. split; [by rewrite He, !app_assoc | done].
Qed.

(** Decide tightness of a concrete text. *)
Definition tightb (s : text) : bool :=
  match s, rev s with
  | b :: _, e :: _ => visible b && visible e
  | _, _ => false
  end.

Lemma tightb_tight s : tightb s = true -> tight s.
Proof.
  unfold tightb. destruct s as [|b m]; [done|]. destruct (rev (b :: m)) as [|e r] eqn:E; [done|].
  intros [Hb He]%andb_true_iff. exists b, m. split; [done|]. split; [done|].
  exists (rev r), e. split; [|done]. by rewrite <- (rev_involutive (b :: m)), E.
Qed.

(** Decimal printing and parsing. *)
Lemma parse_digits_app acc s1 s2 :
  parse_digits acc (s1 ++ s2) = (v ← parse_digits acc s1; parse_digits v s2).
Proof. revert acc; induction s1 as [|b s1 IH]; intros acc; simpl; [done|]. by destruct (is_digit b). Qed.

Lemma str_cons a s : str (String.String a s) = Ascii.byte_of_ascii a :: str s.
Proof. unfold str, String.list_byte_of_string. reflexivity. Qed.

Lemma pretty_digit x :
  (x < 10)%N ->
  is_digit (Ascii.byte_of_ascii (pretty_N_char x)) = true /\
  digit (Ascii.byte_of_ascii (pretty_N_char x)) = Z.of_N x.
Proof.
  intros Hx. assert (x = 0 \/ x = 1 \/ x = 2 \/ x = 3 \/ x = 4 \/ x = 5 \/ x = 6 \/ x = 7 \/ x = 8 \/ x = 9)%N
    as Hc by lia.
  repeat destruct Hc as [->|Hc]; [by vm_compute..|subst; by vm_compute].
Qed.

(** The digits [pretty_N_go] puts in front of its accumulator. *)
Lemma pretty_N_go_digits x s :
  exists ds, str (pretty_N_go x s) = ds ++ str s /\ Forall (fun b => is_digit b = true) ds /\
    (x <> 0%N -> ds <> []) /\
    forall acc, exists p, parse_digits acc ds = Some (acc * p + Z.of_N x) /\ 0 < p.
Proof.
  revert s. induction (N.lt_wf_0 x) as [x _ IH]; intros s.
  destruct (decide (x = 0)%N) as [->|Hx].
  { exists []. rewrite pretty_N_go_0. split_and!; [done|constructor|done|].
    intros acc. exists 1. simpl. split; [f_equal; lia|lia]. }
  rewrite pretty_N_go_step by lia.
  destruct (IH (x `div` 10)%N ltac:(apply N.div_lt; lia) (String.String (pretty_N_char (x `mod` 10)) s))
    as (ds & -> & Hall & _ & Hp).
  destruct (pretty_digit (x `mod` 10)) as [Hd1 Hd2]; [apply N.mod_lt; lia|].
  exists (ds ++ [Ascii.byte_of_ascii (pretty_N_char (x `mod` 10))]).
  rewrite str_cons. split_and!; [by rewrite <- app_assoc | | by destruct ds|].
  { apply Forall_app. split; [done|]. by apply Forall_singleton. }
  intros acc. destruct (Hp acc) as (p & Hp1 & Hp2). exists (p * 10).
  rewrite parse_digits_app, Hp1. cbn [mbind option_bind parse_digits]. rewrite Hd1, Hd2.
  split; [|lia]. f_equal. pose proof (N.div_mod x 10). lia.
Qed.

Lemma show_digits z :
  0 <= z ->
  show z <> [] /\ Forall (fun b => is_digit b = true) (show z) /\ parse_digits 0 (show z) = Some z.
Proof.
  intros Hz. unfold show.
  assert (Hp : pretty z = pretty (Z.to_N z)).
  { destruct z as [|p|p]; [reflexivity|reflexivity|lia]. }
  rewrite Hp. unfold pretty, pretty_N. destruct (decide (Z.to_N z = 0)%N) as [E|E].
  - assert (z = 0) as -> by lia. vm_compute. split_and!; [done|by repeat constructor|done].
  - destruct (pretty_N_go_digits (Z.to_N z) "") as (ds & -> & Hall & Hne & Hd).
    unfold str at 1 2 3. simpl. rewrite app_nil_r. split_and!; [auto|done|].
    destruct (Hd 0) as (p & -> & _). f_equal. lia.
Qed.

Lemma parse_nat_digits_show z : 0 <= z -> parse_nat_digits (show z) = Some z.
Proof.
  intros Hz. destruct (show_digits z Hz) as (Hne & _ & Hp). unfold parse_nat_digits.
  by destruct (show z).
Qed.

Lemma is_digit_not_sign b : is_digit b = true -> beq b "+"%byte = false /\ beq b "-"%byte = false.
Proof.
  unfold is_digit. intros H. split; apply not_true_is_false; intros E; apply beq_eq in E as ->;
    by vm_compute in H.
Qed.

Lemma parse_unsigned_show bits z : 0 <= z < 2 ^ bits -> parse_unsigned bits (show z) = Some z.
Proof.
  intros Hz. pose proof (parse_nat_digits_show z ltac:(lia)) as Hp.
  destruct (show_digits z ltac:(lia)) as (Hne & Hall & _). unfold parse_unsigned.
  destruct (show z) as [|b r]; [done|]. apply Forall_cons in Hall as [Hb _].
  rewrite (proj1 (is_digit_not_sign b Hb)), Hp. cbn [mbind option_bind].
  by rewrite (proj2 (Z.ltb_lt _ _)) by lia.
Qed.

Lemma visible_all_tight s : s <> [] -> Forall (fun b => visible b = true) s -> tight s.
Proof.
  intros Hne Hall. destruct s as [|b m]; [done|].
  exists b, m. split; [done|]. split; [by apply Forall_cons in Hall as [? _]|].
  destruct (exists_last Hne) as (l & e & He). exists l, e. split; [done|].
  rewrite He in Hall. apply Forall_app in Hall as [_ Hall]. by apply Forall_cons in Hall as [? _].
Qed.

Lemma digit_visible b : is_digit b = true -> visible b = true.
Proof. unfold is_digit, visible. lia. Qed.

Lemma show_tight z : 0 <= z -> tight (show z).
Proof.
  intros Hz. destruct (show_digits z Hz) as (Hne & Hall & _). apply visible_all_tight; [done|].
  eapply Forall_impl; [exact Hall | intros b; apply digit_visible].
Qed.

(** Integers as text, read at a width. *)
Lemma show_negative p : show (Z.neg p) = "-"%byte :: show (Z.pos p).
Proof. reflexivity. Qed.

Lemma trim_show z : trim (show z) = show z.
Proof.
  apply trim_tight. destruct z as [|p|p]; [by apply show_tight|by apply show_tight|].
  rewrite show_negative. apply visible_all_tight; [done|]. constructor; [done|].
  destruct (show_digits (Z.pos p)) as (_ & Hall & _); [lia|]. eapply Forall_impl; [exact Hall | intros b; apply digit_visible].
Qed.

Lemma parse_unsigned_shown bits z :
  parse_unsigned bits (show z) = if (0 <=? z) && (z <? 2 ^ bits) then Some z else None.
Proof.
  destruct z as [|p|p]; [| |by rewrite show_negative].
  - destruct (Z.ltb_spec 0 (2 ^ bits)) as [Hb|Hb]; [by apply parse_unsigned_show|].
    change (show 0) with (str "0"). unfold parse_unsigned. cbn. by rewrite (proj2 (Z.ltb_ge _ _)).
  - destruct (Z.ltb_spec (Z.pos p) (2 ^ bits)) as [Hb|Hb]; [by apply parse_unsigned_show|].
    pose proof (parse_nat_digits_show (Z.pos p) ltac:(lia)) as Hp. destruct (show_digits (Z.pos p)) as (Hne & Hall & _); [lia|].
    unfold parse_unsigned. destruct (show (Z.pos p)) as [|b r]; [done|]. apply Forall_cons in Hall as [Hd _].
    rewrite (proj1 (is_digit_not_sign b Hd)), Hp. cbn [mbind option_bind]. by rewrite (proj2 (Z.ltb_ge _ _)) by lia.
Qed.

Lemma parse_signed_shown bits z :
  parse_signed bits (show z) = if (- 2 ^ (bits - 1) <=? z) && (z <? 2 ^ (bits - 1)) then Some z else None.
Proof.
  assert (Hpow : 0 <= 2 ^ (bits - 1)) by (apply Z.pow_nonneg; lia). destruct (Z_lt_le_dec z 0) as [Hz|Hz].
  - destruct z as [|p|p]; try lia. rewrite show_negative. cbn [parse_signed]. change (beq "-"%byte "-"%byte) with true. cbv iota.
    rewrite parse_nat_digits_show by lia. cbn [mbind option_bind]. rewrite (proj2 (Z.ltb_lt (Z.neg p) _)), andb_true_r by lia.
    destruct (Z.leb_spec (Z.pos p) (2 ^ (bits - 1))), (Z.leb_spec (- 2 ^ (bits - 1)) (Z.neg p)); done || lia.
  - pose proof (parse_nat_digits_show z Hz) as Hp. destruct (show_digits z Hz) as (Hne & Hall & _). rewrite (proj2 (Z.leb_le _ z)) by lia.
    destruct (show z) as [|b r]; [done|]. apply Forall_cons in Hall as [Hd _]. cbn [parse_signed].
    destruct (is_digit_not_sign b Hd) as [-> ->]. by rewrite Hp.
Qed.

(** A byte that is not in a text's alphabet is not in the text. *)
Lemma show_not_in c z : 0 <= z -> is_digit c = false -> c ∉ show z.
Proof.
  intros Hz Hc Hin. destruct (show_digits z Hz) as (_ & Hall & _).
  rewrite Forall_forall in Hall. apply Hall in Hin. congruence.
Qed.
