(* ===== verification/ColTypes.v ===== *)
(** * Column types

    Models the type half of [src/native/columns.rs]: the [ColumnType] enum, the
    parser of the server's type names with its helpers, and the fixed wire
    widths. *)

From S2P Require Import Prelude Text.

Module Ct.

(** ** Data *)

Inductive ColumnType :=
| UInt8 | UInt16 | UInt32 | UInt64
| Int8 | Int16 | Int32 | Int64
| Int128 | UInt128 | Int256 | UInt256
| Float32 | Float64 | BFloat16
| Decimal32 (precision scale : Z)
| Decimal64 (precision scale : Z)
| Decimal128 (precision scale : Z)
| Decimal256 (precision scale : Z)
| String
| FixedString (n : Z)
| Uuid | IPv4 | IPv6
| Date | Date32 | DateTime
| DateTime64 (precision : Z) (timezone : option text)
| Time | Time64
| Nullable (inner : ColumnType)
| LowCardinality (inner : ColumnType)
| Enum8 | Enum16
| SimpleAggregateFunction (inner : ColumnType)
| Array (inner : ColumnType)
| Tuple (fields : list ColumnType)
| Map (key value : ColumnType)
| Json
| Point
| Variant (types : list ColumnType)
| NewJson
| Dynamic.

(** Induction that reaches the fields of tuples and the arms of variants. *)
Section induction.
Variable P : ColumnType -> Prop.
Hypothesis leaf : forall t,
  match t with
  | Nullable _ | LowCardinality _ | SimpleAggregateFunction _ | Array _ | Tuple _ | Map _ _
  | Variant _ => False
  | _ => True
  end -> P t.
Hypothesis wrap_nullable : forall t, P t -> P (Nullable t).
Hypothesis wrap_lc : forall t, P t -> P (LowCardinality t).
Hypothesis wrap_saf : forall t, P t -> P (SimpleAggregateFunction t).
Hypothesis wrap_array : forall t, P t -> P (Array t).
Hypothesis wrap_tuple : forall ts, Forall P ts -> P (Tuple ts).
Hypothesis wrap_map : forall k v, P k -> P v -> P (Map k v).
Hypothesis wrap_variant : forall ts, Forall P ts -> P (Variant ts).

Fixpoint column_ind (t : ColumnType) : P t :=
  let fix all (ts : list ColumnType) : Forall P ts :=
    match ts with
    | [] => List.Forall_nil P
    | t :: ts' => List.Forall_cons P t ts' (column_ind t) (all ts')
    end in
  match t with
  | Nullable t => wrap_nullable t (column_ind t)
  | LowCardinality t => wrap_lc t (column_ind t)
  | SimpleAggregateFunction t => wrap_saf t (column_ind t)
  | Array t => wrap_array t (column_ind t)
  | Tuple ts => wrap_tuple ts (all ts)
  | Map k v => wrap_map k v (column_ind k) (column_ind v)
  | Variant ts => wrap_variant ts (all ts)
  | t => leaf t I
  end.
End induction.

(** The same with the type under a [Nullable] inside [LowCardinality], which
    the dictionary is read at. *)
Section lc_induction.
Variable P : ColumnType -> Prop.
Hypothesis leaf : forall t,
  match t with
  | Nullable _ | LowCardinality _ | SimpleAggregateFunction _ | Array _ | Tuple _ | Map _ _
  | Variant _ => False
  | _ => True
  end -> P t.
Hypothesis wrap_nullable : forall t, P t -> P (Nullable t).
Hypothesis wrap_lc : forall t, P t -> (forall u, t = Nullable u -> P u) -> P (LowCardinality t).
Hypothesis wrap_saf : forall t, P t -> P (SimpleAggregateFunction t).
Hypothesis wrap_array : forall t, P t -> P (Array t).
Hypothesis wrap_tuple : forall ts, Forall P ts -> P (Tuple ts).
Hypothesis wrap_map : forall k v, P k -> P v -> P (Map k v).
Hypothesis wrap_variant : forall ts, Forall P ts -> P (Variant ts).

Lemma column_lc_ind t : P t.
Proof.
  enough (P t /\ forall u, t = Nullable u -> P u) by tauto.
  induction t as [t Ht|t [IH _]|t [IH IHn]|t [IH _]|t [IH _]|ts IH|k v [IHk _] [IHv _]|ts IH]
    using column_ind; (split; [|intros u Hu; first [discriminate | by subst t | congruence]]); auto.
  - apply wrap_tuple. eapply Forall_impl; [exact IH|]. by intros ? [? _].
  - apply wrap_variant. eapply Forall_impl; [exact IH|]. by intros ? [? _].
Qed.
End lc_induction.

End Ct.

Abbreviation ColumnType := Ct.ColumnType.

(** ** Helpers of the parser *)

Definition MAX_TYPE_PARSE_DEPTH : nat := 32.

(** [strip_outer]: the contents of [name(...)]. *)
Definition strip_outer (s name : text) : option text :=
  s ← strip_prefix s name;
  s ← strip_prefix s (str "(");
  strip_suffix s (str ")").

(** The loop of [max_paren_depth]. *)
Fixpoint max_paren_depth_loop (depth mx : nat) (s : text) : nat :=
  match s with
  | [] => mx
  | b :: s' =>
      if beq b "("%byte then max_paren_depth_loop (S depth) (max mx (S depth)) s'
      else if beq b ")"%byte then max_paren_depth_loop (depth - 1) mx s'
      else max_paren_depth_loop depth mx s'
  end.
Definition max_paren_depth (s : text) : nat := max_paren_depth_loop 0 0 s.

(** The loop of [split_type_args]; [cur] is [s[start..i]]. *)
Fixpoint split_type_args_loop (depth : nat) (cur s : text) : list text :=
  match s with
  | [] => let tail := trim cur in
          match tail with
          | [] => []
          | _ => [tail]
          end
  | c :: s' =>
      if beq c "("%byte then split_type_args_loop (S depth) (cur ++ [c]) s'
      else if beq c ")"%byte then split_type_args_loop (depth - 1) (cur ++ [c]) s'
      else if beq c ","%byte && (depth =? 0)%nat then trim cur :: split_type_args_loop depth [] s'
      else split_type_args_loop depth (cur ++ [c]) s'
  end.
Definition split_type_args (s : text) : list text := split_type_args_loop 0 [] s.

(** [find_first_comma_at_depth0]. *)
Fixpoint find_comma_loop (depth : nat) (i : nat) (s : text) : option nat :=
  match s with
  | [] => None
  | c :: s' =>
      if beq c "("%byte then find_comma_loop (S depth) (S i) s'
      else if beq c ")"%byte then find_comma_loop (depth - 1) (S i) s'
      else if beq c ","%byte && (depth =? 0)%nat then Some i
      else find_comma_loop depth (S i) s'
  end.
Definition find_first_comma_at_depth0 (s : text) : option nat := find_comma_loop 0 0 s.

(** ** The parser *)

(** The types named by a bare word. *)
Definition simple_types : list (text * ColumnType) :=
  [(str "Bool", Ct.UInt8); (str "UInt8", Ct.UInt8); (str "UInt16", Ct.UInt16);
   (str "UInt32", Ct.UInt32); (str "UInt64", Ct.UInt64);
   (str "Int8", Ct.Int8); (str "Int16", Ct.Int16); (str "Int32", Ct.Int32); (str "Int64", Ct.Int64);
   (str "Int128", Ct.Int128); (str "UInt128", Ct.UInt128);
   (str "Int256", Ct.Int256); (str "UInt256", Ct.UInt256);
   (str "Float32", Ct.Float32); (str "Float64", Ct.Float64); (str "BFloat16", Ct.BFloat16);
   (str "String", Ct.String); (str "UUID", Ct.Uuid); (str "IPv4", Ct.IPv4); (str "IPv6", Ct.IPv6);
   (str "Date", Ct.Date); (str "Date32", Ct.Date32); (str "DateTime", Ct.DateTime);
   (str "Time", Ct.Time); (str "JSON", Ct.NewJson); (str "Dynamic", Ct.Dynamic);
   (str "Object('json')", Ct.Json); (str "Point", Ct.Point)].

Fixpoint lookup_type (s : text) (l : list (text * ColumnType)) : option ColumnType :=
  match l with
  | [] => None
  | (name, t) :: l' => if bool_decide (s = name) then Some t else lookup_type s l'
  end.

(** [s.trim().parse::<u8>().unwrap_or(0)]. *)
Definition scale_of (s : text) : Z := default 0 (parse_unsigned 8 (trim s)).

(** The [Decimal(precision, scale)] arm. *)
Definition parse_decimal (args_str : text) : option ColumnType :=
  match split_type_args args_str with
  | [a0; a1] =>
      precision ← parse_unsigned 8 (trim a0);
      scale ← parse_unsigned 8 (trim a1);
      Some (if precision <=? 9 then Ct.Decimal32 precision scale
            else if precision <=? 18 then Ct.Decimal64 precision scale
            else if precision <=? 38 then Ct.Decimal128 precision scale
            else Ct.Decimal256 precision scale)
  | _ => None
  end.

(** The [DateTime64(precision[, 'timezone'])] arm. *)
Definition parse_datetime64 (args_str : text) : ColumnType :=
  let args := split_type_args args_str in
  let precision := default 0 (s ← args !! 0%nat; parse_unsigned 8 (trim s)) in
  let timezone :=
    s ← args !! 1%nat;
    match trim_matches "'"%byte (trim s) with
    | [] => None
    | tz => Some tz
    end in
  Ct.DateTime64 precision timezone.

(** The [Tuple] and [Variant] arms: [filter_map], accepted when nothing was dropped. *)
Definition parse_all (parse : text -> option ColumnType) (args_str : text)
    : option (list ColumnType) :=
  let arg_strings := split_type_args args_str in
  let fields := omap parse arg_strings in
  match fields with
  | [] => None
  | _ => if (length fields =? length arg_strings)%nat then Some fields else None
  end.

(** The [SimpleAggregateFunction(func, T)] arm; [rest] follows the parenthesis. *)
Definition parse_saf (parse : text -> option ColumnType) (rest : text) : option ColumnType :=
  comma_pos ← find_first_comma_at_depth0 rest;
  let inner_str := trim (drop (S comma_pos) rest) in
  let inner_str := default inner_str (strip_suffix inner_str (str ")")) in
  Ct.SimpleAggregateFunction <$> parse inner_str.

(** The arms of [ColumnType::parse] after the depth guard, over the parser of
    the nested names. *)
Definition parse_arms (parse : text -> option ColumnType) (type_str : text) : option ColumnType :=
  if strip_outer type_str (str "Nullable") is Some inner then Ct.Nullable <$> parse inner
  else if strip_outer type_str (str "LowCardinality") is Some inner then
    Ct.LowCardinality <$> parse inner
  else if strip_outer type_str (str "FixedString") is Some n_str then
    Ct.FixedString <$> parse_unsigned 64 n_str
  else if strip_outer type_str (str "DateTime64") is Some args_str then
    Some (parse_datetime64 args_str)
  else if starts_with type_str (str "DateTime(") then Some Ct.DateTime
  else if starts_with type_str (str "Time64(") then Some Ct.Time64
  else if strip_outer type_str (str "Decimal32") is Some args then
    Some (Ct.Decimal32 9 (scale_of args))
  else if strip_outer type_str (str "Decimal64") is Some args then
    Some (Ct.Decimal64 18 (scale_of args))
  else if strip_outer type_str (str "Decimal128") is Some args then
    Some (Ct.Decimal128 38 (scale_of args))
  else if strip_outer type_str (str "Decimal256") is Some args then
    Some (Ct.Decimal256 76 (scale_of args))
  else if strip_outer type_str (str "Decimal") is Some args_str then parse_decimal args_str
  else if starts_with type_str (str "Enum8(") then Some Ct.Enum8
  else if starts_with type_str (str "Enum16(") then Some Ct.Enum16
  else if strip_outer type_str (str "Array") is Some inner_str then Ct.Array <$> parse inner_str
  else if strip_outer type_str (str "Tuple") is Some args_str then
    Ct.Tuple <$> parse_all parse args_str
  else if strip_outer type_str (str "Map") is Some args_str then
    match split_type_args args_str with
    | [a0; a1] => k ← parse a0; v ← parse a1; Some (Ct.Map k v)
    | _ => None
    end
  else if strip_prefix type_str (str "SimpleAggregateFunction(") is Some rest then
    parse_saf parse rest
  else if strip_outer type_str (str "Variant") is Some args_str then
    Ct.Variant <$> parse_all parse args_str
  else if starts_with type_str (str "Dynamic(") then Some Ct.Dynamic
  else lookup_type type_str simple_types.

(** [ColumnType::parse]. Every nested name is shorter than the name it is cut
    from, so a fuel of the length and one is never used up. *)
Fixpoint parse_fuel (fuel : nat) (type_str : text) : option ColumnType :=
  match fuel with
  | O => None
  | S fuel' =>
      let type_str := trim type_str in
      if (MAX_TYPE_PARSE_DEPTH <? max_paren_depth type_str)%nat then None
      else parse_arms (parse_fuel fuel') type_str
  end.

Definition parse (type_str : text) : option ColumnType :=
  parse_fuel (S (length type_str)) type_str.

(** [ColumnType::fixed_size]. *)
Definition fixed_size (t : ColumnType) : option Z :=
  match t with
  | Ct.UInt8 | Ct.Int8 | Ct.Enum8 => Some 1
  | Ct.BFloat16 | Ct.UInt16 | Ct.Int16 | Ct.Date | Ct.Enum16 => Some 2
  | Ct.UInt32 | Ct.Int32 | Ct.Float32 | Ct.DateTime | Ct.Date32 | Ct.Decimal32 _ _ | Ct.IPv4
  | Ct.Time => Some 4
  | Ct.UInt64 | Ct.Int64 | Ct.Float64 | Ct.DateTime64 _ _ | Ct.Decimal64 _ _ | Ct.Time64 => Some 8
  | Ct.Int128 | Ct.UInt128 | Ct.Uuid | Ct.IPv6 | Ct.Decimal128 _ _ => Some 16
  | Ct.Int256 | Ct.UInt256 | Ct.Decimal256 _ _ => Some 32
  | Ct.FixedString n => Some n
  | Ct.String | Ct.Json | Ct.Nullable _ | Ct.LowCardinality _ | Ct.SimpleAggregateFunction _
  | Ct.Array _ | Ct.Tuple _ | Ct.Map _ _ | Ct.Variant _ | Ct.NewJson | Ct.Dynamic | Ct.Point => None
  end.

(** The derived [Debug] text of a type. A time zone name is quoted as [str] is:
    the ASCII escapes are written out, other characters stand for themselves. *)
Definition debug_char (b : byte) : text :=
  if u8 b =? 34 then [byte.of_Z 92; b]
  else if u8 b =? 92 then [b; b]
  else if u8 b =? 0 then str "\0" else if u8 b =? 9 then str "\t"
  else if u8 b =? 10 then str "\n" else if u8 b =? 13 then str "\r"
  else if (u8 b <? 32) || (u8 b =? 127) then
    str "\u{" ++ (if u8 b <? 16 then [] else [byte.of_Z (48 + u8 b / 16)]) ++
    [byte.of_Z (let d := u8 b mod 16 in if d <? 10 then 48 + d else 87 + d)] ++ str "}"
  else [b].
Definition debug_str (s : text) : text :=
  [byte.of_Z 34] ++ concat (map debug_char s) ++ [byte.of_Z 34].

Definition debug_decimal (name : text) (precision scale : Z) : text :=
  name ++ str " { precision: " ++ show precision ++ str ", scale: " ++ show scale ++ str " }".

Fixpoint debug (t : ColumnType) : text :=
  match t with
  | Ct.UInt8 => str "UInt8" | Ct.UInt16 => str "UInt16" | Ct.UInt32 => str "UInt32"
  | Ct.UInt64 => str "UInt64" | Ct.Int8 => str "Int8" | Ct.Int16 => str "Int16"
  | Ct.Int32 => str "Int32" | Ct.Int64 => str "Int64" | Ct.Int128 => str "Int128"
  | Ct.UInt128 => str "UInt128" | Ct.Int256 => str "Int256" | Ct.UInt256 => str "UInt256"
  | Ct.Float32 => str "Float32" | Ct.Float64 => str "Float64" | Ct.BFloat16 => str "BFloat16"
  | Ct.Decimal32 p s => debug_decimal (str "Decimal32") p s
  | Ct.Decimal64 p s => debug_decimal (str "Decimal64") p s
  | Ct.Decimal128 p s => debug_decimal (str "Decimal128") p s
  | Ct.Decimal256 p s => debug_decimal (str "Decimal256") p s
  | Ct.String => str "String"
  | Ct.FixedString n => str "FixedString(" ++ show n ++ str ")"
  | Ct.Uuid => str "Uuid" | Ct.IPv4 => str "IPv4" | Ct.IPv6 => str "IPv6"
  | Ct.Date => str "Date" | Ct.Date32 => str "Date32" | Ct.DateTime => str "DateTime"
  | Ct.DateTime64 p tz =>
      str "DateTime64 { precision: " ++ show p ++ str ", timezone: " ++
        match tz with
        | None => str "None"
        | Some z => str "Some(" ++ debug_str z ++ str ")"
        end ++ str " }"
  | Ct.Time => str "Time" | Ct.Time64 => str "Time64"
  | Ct.Nullable t => str "Nullable(" ++ debug t ++ str ")"
  | Ct.LowCardinality t => str "LowCardinality(" ++ debug t ++ str ")"
  | Ct.Enum8 => str "Enum8" | Ct.Enum16 => str "Enum16"
  | Ct.SimpleAggregateFunction t => str "SimpleAggregateFunction(" ++ debug t ++ str ")"
  | Ct.Array t => str "Array(" ++ debug t ++ str ")"
  | Ct.Tuple ts => str "Tuple([" ++ join (str ", ") (map debug ts) ++ str "])"
  | Ct.Map k v => str "Map(" ++ debug k ++ str ", " ++ debug v ++ str ")"
  | Ct.Json => str "Json" | Ct.Point => str "Point"
  | Ct.Variant ts => str "Variant([" ++ join (str ", ") (map debug ts) ++ str "])"
  | Ct.NewJson => str "NewJson" | Ct.Dynamic => str "Dynamic"
  end.

(** ** The reference printer

    The names a server prints, one canonical name per type. *)

Fixpoint type_name (t : ColumnType) : text :=
  match t with
  | Ct.UInt8 => str "UInt8" | Ct.UInt16 => str "UInt16" | Ct.UInt32 => str "UInt32"
  | Ct.UInt64 => str "UInt64" | Ct.Int8 => str "Int8" | Ct.Int16 => str "Int16"
  | Ct.Int32 => str "Int32" | Ct.Int64 => str "Int64" | Ct.Int128 => str "Int128"
  | Ct.UInt128 => str "UInt128" | Ct.Int256 => str "Int256" | Ct.UInt256 => str "UInt256"
  | Ct.Float32 => str "Float32" | Ct.Float64 => str "Float64" | Ct.BFloat16 => str "BFloat16"
  | Ct.Decimal32 p s | Ct.Decimal64 p s | Ct.Decimal128 p s | Ct.Decimal256 p s =>
      str "Decimal(" ++ (show p ++ str ", " ++ show s) ++ str ")"
  | Ct.String => str "String"
  | Ct.FixedString n => str "FixedString(" ++ show n ++ str ")"
  | Ct.Uuid => str "UUID" | Ct.IPv4 => str "IPv4" | Ct.IPv6 => str "IPv6"
  | Ct.Date => str "Date" | Ct.Date32 => str "Date32" | Ct.DateTime => str "DateTime"
  | Ct.DateTime64 p None => str "DateTime64(" ++ show p ++ str ")"
  | Ct.DateTime64 p (Some tz) =>
      str "DateTime64(" ++ (show p ++ str ", " ++ (str "'" ++ tz ++ str "'")) ++ str ")"
  | Ct.Time => str "Time" | Ct.Time64 => str "Time64(3)"
  | Ct.Nullable t => str "Nullable(" ++ type_name t ++ str ")"
  | Ct.LowCardinality t => str "LowCardinality(" ++ type_name t ++ str ")"
  | Ct.Enum8 => str "Enum8('a' = 1)" | Ct.Enum16 => str "Enum16('a' = 1)"
  | Ct.SimpleAggregateFunction t =>
      str "SimpleAggregateFunction(" ++ (str "sum" ++ str ", " ++ type_name t) ++ str ")"
  | Ct.Array t => str "Array(" ++ type_name t ++ str ")"
  | Ct.Tuple ts => str "Tuple(" ++ join (str ", ") (map type_name ts) ++ str ")"
  | Ct.Map k v => str "Map(" ++ (type_name k ++ str ", " ++ type_name v) ++ str ")"
  | Ct.Json => str "Object('json')" | Ct.Point => str "Point"
  | Ct.Variant ts => str "Variant(" ++ join (str ", ") (map type_name ts) ++ str ")"
  | Ct.NewJson => str "JSON" | Ct.Dynamic => str "Dynamic"
  end.

(** The parenthesis depth of a printed name. *)
Fixpoint name_depth (t : ColumnType) : nat :=
  match t with
  | Ct.Decimal32 _ _ | Ct.Decimal64 _ _ | Ct.Decimal128 _ _ | Ct.Decimal256 _ _
  | Ct.FixedString _ | Ct.DateTime64 _ _ | Ct.Time64 | Ct.Enum8 | Ct.Enum16 | Ct.Json => 1
  | Ct.Nullable t | Ct.LowCardinality t | Ct.SimpleAggregateFunction t | Ct.Array t =>
      S (name_depth t)
  | Ct.Tuple ts | Ct.Variant ts => S (foldr max 0%nat (map name_depth ts))
  | Ct.Map k v => S (max (name_depth k) (name_depth v))
  | _ => 0
  end.

(** A byte of a time zone name: visible, and none of the delimiters. *)
Definition zone_byte (b : byte) : bool :=
  visible b && negb (beq b "("%byte) && negb (beq b ")"%byte) && negb (beq b ","%byte)
  && negb (beq b "'"%byte).

(** The values the parser can produce from a printed name. *)
Fixpoint wf_type (t : ColumnType) : Prop :=
  match t with
  | Ct.Decimal32 p s => 0 <= p <= 9 /\ 0 <= s < 256
  | Ct.Decimal64 p s => 9 < p <= 18 /\ 0 <= s < 256
  | Ct.Decimal128 p s => 18 < p <= 38 /\ 0 <= s < 256
  | Ct.Decimal256 p s => 38 < p < 256 /\ 0 <= s < 256
  | Ct.FixedString n => 0 <= n < 2 ^ 64
  | Ct.DateTime64 p tz =>
      0 <= p < 256 /\ match tz with
                      | Some z => z <> [] /\ Forall (fun b => zone_byte b = true) z
                      | None => True
                      end
  | Ct.Nullable t | Ct.LowCardinality t | Ct.SimpleAggregateFunction t | Ct.Array t => wf_type t
  | Ct.Tuple ts | Ct.Variant ts =>
      ts <> [] /\ (fix all ts := match ts with [] => True | t :: ts => wf_type t /\ all ts end) ts
  | Ct.Map k v => wf_type k /\ wf_type v
  | _ => True
  end.

(** The recursion depth a type costs the readers. *)
Fixpoint nesting (t : ColumnType) : nat :=
  match t with
  | Ct.Nullable t | Ct.LowCardinality t | Ct.SimpleAggregateFunction t | Ct.Array t => S (nesting t)
  | Ct.Tuple ts | Ct.Variant ts => S (foldr max 0%nat (map nesting ts))
  | Ct.Map k v => S (max (nesting k) (nesting v))
  | _ => 0
  end.

(** ** The parser terminates: its nested names shrink *)

Lemma strip_outer_Some s name inner :
  strip_outer s name = Some inner -> s = name ++ str "(" ++ inner ++ str ")".
Proof.
  unfold strip_outer. intros H. destruct (strip_prefix s name) as [s1|] eqn:E1; [|done].
  cbn [mbind option_bind] in H. destruct (strip_prefix s1 _) as [s2|] eqn:E2; [|done].
  apply strip_prefix_Some in E1 as ->. apply strip_prefix_Some in E2 as ->.
  by apply strip_suffix_Some in H as ->.
Qed.

Lemma strip_outer_shorter s name inner :
  strip_outer s name = Some inner -> (length inner < length s)%nat.
Proof. intros ->%strip_outer_Some. rewrite !length_app. simpl. lia. Qed.

Lemma drop_while_length f s : (length (drop_while f s) <= length s)%nat.
Proof. induction s; simpl; [done|]. destruct (f _); simpl; lia. Qed.

Lemma trim_with_length two three s : (length (trim_with two three s) <= length s)%nat.
Proof.
  remember (length s) as n eqn:En. assert (Hn : (length s <= n)%nat) by lia. clear En.
  revert s Hn; induction n as [|n IH]; intros [|b0 s] Hn; simpl in *; try lia.
  destruct (ws1 b0); [specialize (IH s); lia|].
  destruct s as [|b1 s]; simpl in *; [lia|]. destruct (two b0 b1); [specialize (IH s); lia|].
  destruct s as [|b2 s]; simpl in *; [lia|]. destruct (three b0 b1 b2); [specialize (IH s); lia|].
  simpl. lia.
Qed.

Lemma trim_length s : (length (trim s) <= length s)%nat.
Proof.
  unfold trim, trim_end, trim_start. rewrite length_rev.
  etransitivity; [apply trim_with_length|]. rewrite length_rev. apply trim_with_length.
Qed.

Lemma split_type_args_shorter depth cur s a :
  a ∈ split_type_args_loop depth cur s -> (length a <= length cur + length s)%nat.
Proof.
  revert depth cur; induction s as [|c s IH]; intros depth cur; cbn [split_type_args_loop length].
  - pose proof (trim_length cur). destruct (trim cur); [by intros ?%elem_of_nil|].
    intros ->%list_elem_of_singleton. lia.
  - repeat case_match.
    3: { intros [->|Hin]%elem_of_cons; [pose proof (trim_length cur); lia|]. apply IH in Hin. simpl in Hin. lia. }
    all: intros Hin%IH; rewrite length_app in Hin; simpl in Hin; lia.
Qed.

Lemma split_type_args_length s a : a ∈ split_type_args s -> (length a <= length s)%nat.
Proof. intros H%split_type_args_shorter. simpl in H. lia. Qed.

Lemma omap_ext_in {A B} (f g : A -> option B) (l : list A) :
  (forall a, a ∈ l -> f a = g a) -> omap f l = omap g l.
Proof.
  induction l as [|a l IH]; intros H; [done|]. cbn. rewrite (H a) by set_solver.
  rewrite IH by set_solver. done.
Qed.

Lemma parse_all_ext (p q : text -> option ColumnType) s :
  (forall a, (length a <= length s)%nat -> p a = q a) -> parse_all p s = parse_all q s.
Proof.
  intros H. unfold parse_all. rewrite (omap_ext_in p q); [done|].
  intros a Ha. by apply H, split_type_args_length.
Qed.

Lemma parse_saf_ext (p q : text -> option ColumnType) s :
  (forall a, (length a <= length s)%nat -> p a = q a) -> parse_saf p s = parse_saf q s.
Proof.
  intros H. unfold parse_saf. destruct (find_first_comma_at_depth0 s) as [i|]; [|done].
  cbn [mbind option_bind].
  set (r := trim _). assert (Hr : (length r <= length s)%nat).
  { unfold r. etransitivity; [apply trim_length|]. rewrite length_drop. lia. }
  rewrite H; [done|]. destruct (strip_suffix r _) as [t|] eqn:E; [|done].
  apply strip_suffix_Some in E. rewrite E, length_app in Hr. simpl in *. lia.
Qed.

Lemma parse_arms_ext (p q : text -> option ColumnType) s :
  (forall a, (length a < length s)%nat -> p a = q a) -> parse_arms p s = parse_arms q s.
Proof.
  intros H. unfold parse_arms.
  repeat match goal with
  | |- context [match strip_outer s ?n with _ => _ end] =>
      let E := fresh "E" in
      destruct (strip_outer s n) eqn:E; [apply strip_outer_shorter in E|clear E]
  | |- context [match strip_prefix s ?n with _ => _ end] =>
      let E := fresh "E" in
      destruct (strip_prefix s n) eqn:E;
        [apply strip_prefix_Some, (f_equal length) in E; rewrite length_app in E; simpl in E|clear E]
  | |- context [if starts_with s ?n then _ else _] => destruct (starts_with s n); [done|]
  end;
  try done;
  try (by rewrite H by done);
  try (by rewrite (parse_all_ext p q) by (intros; apply H; lia));
  try (apply parse_saf_ext; intros; apply H; lia).
  all: match goal with E : (length ?l < _)%nat |- context [split_type_args ?l] =>
      destruct (split_type_args l) as [|a0 [|a1 [|]]] eqn:Es; try done end.
  all: assert (Hin : forall a, a ∈ [a0; a1] -> p a = q a)
      by (intros a Ha; rewrite <- Es in Ha; apply split_type_args_length in Ha; apply H; lia).
  all: by rewrite (Hin a0), (Hin a1) by set_solver.
Qed.

(** More fuel than the length of the name changes nothing. *)
Lemma parse_fuel_enough n m s :
  (length s < n)%nat -> (length s < m)%nat -> parse_fuel n s = parse_fuel m s.
Proof.
  revert m s; induction n as [|n IH]; intros [|m] s Hn Hm; try lia. cbn [parse_fuel].
  destruct (_ <? _)%nat; [done|]. apply parse_arms_ext. intros a Ha.
  pose proof (trim_length s). apply IH; lia.
Qed.

(** The recursion equation of the source. *)
Lemma parse_eq s :
  parse s =
    if (MAX_TYPE_PARSE_DEPTH <? max_paren_depth (trim s))%nat then None
    else parse_arms parse (trim s).
Proof.
  unfold parse at 1. cbn [parse_fuel]. destruct (_ <? _)%nat; [done|].
  apply parse_arms_ext. intros a Ha. pose proof (trim_length s). apply parse_fuel_enough; lia.
Qed.

(** ** Scanning printed names *)

(** How the three scanners pass over [s]: it is balanced, nests [d] deep, and
    has commas outside its own parentheses only if [comma]. *)
Definition scans (comma : bool) (d : nat) (s : text) : Prop :=
  (forall k mx rest, (k <= mx)%nat ->
     max_paren_depth_loop k mx (s ++ rest) = max_paren_depth_loop k (max mx (k + d)) rest) /\
  (forall k cur rest, (comma = false \/ 0 < k)%nat ->
     split_type_args_loop k cur (s ++ rest) = split_type_args_loop k (cur ++ s) rest) /\
  (forall k i rest, (comma = false \/ 0 < k)%nat ->
     find_comma_loop k i (s ++ rest) = find_comma_loop k (i + length s) rest).

Definition plain_byte (b : byte) : bool :=
  negb (beq b "("%byte) && negb (beq b ")"%byte) && negb (beq b ","%byte).

Lemma scans_nil : scans false 0 [].
Proof.
  split_and!; intros; simpl; rewrite ?app_nil_r; f_equal; lia.
Qed.

Lemma scans_app c1 d1 s1 c2 d2 s2 :
  scans c1 d1 s1 -> scans c2 d2 s2 -> scans (c1 || c2) (max d1 d2) (s1 ++ s2).
Proof.
  intros (A1 & B1 & C1) (A2 & B2 & C2). split_and!; intros k x rest Hk; rewrite <- app_assoc.
  - rewrite A1, A2 by lia. f_equal. lia.
  - rewrite B1, B2 by (destruct c1, c2; simpl in Hk; intuition discriminate || auto). by rewrite app_assoc.
  - rewrite C1, C2 by (destruct c1, c2; simpl in Hk; intuition discriminate || auto).
    f_equal. rewrite length_app. lia.
Qed.

Lemma scans_plain s : Forall (fun b => plain_byte b = true) s -> scans false 0 s.
Proof.
  induction 1 as [|b s Hb Hs IH]; [apply scans_nil|].
  change (b :: s) with ([b] ++ s). apply (scans_app false 0 [b] false 0 s); [|done].
  unfold plain_byte in Hb. apply andb_true_iff in Hb as [[H1 H2]%andb_true_iff H3].
  apply negb_true_iff in H1, H2, H3.
  split_and!; intros k x rest Hk; cbn [app max_paren_depth_loop split_type_args_loop find_comma_loop];
    rewrite H1, H2, ?H3; simpl; f_equal; lia.
Qed.

Lemma scans_comma : scans true 0 (str ",").
Proof.
  split_and!; intros k x rest Hk.
  - unfold str. simpl. f_equal. lia.
  - destruct Hk as [|Hk]; [done|]. destruct k; [lia|]. reflexivity.
  - destruct Hk as [|Hk]; [done|]. destruct k; [lia|]. cbn. f_equal. lia.
Qed.

Lemma scans_paren c d s : scans c d s -> scans false (S d) (str "(" ++ s ++ str ")").
Proof.
  intros (A & B & C). split_and!; intros k x rest Hk; rewrite <- !app_assoc.
  - cbn [str String.list_byte_of_string app]. change (str "(" ++ ?r) with ("("%byte :: r).
    cbn [max_paren_depth_loop]. change (beq "("%byte "("%byte) with true. cbv iota.
    rewrite A by lia. cbn -[max]. rewrite Nat.sub_0_r. f_equal. lia.
  - change (str "(" ++ ?r) with ("("%byte :: r).
    cbn [split_type_args_loop]. change (beq "("%byte "("%byte) with true. cbv iota.
    rewrite B by lia. cbn. rewrite Nat.sub_0_r. f_equal. by rewrite <- !app_assoc.
  - change (str "(" ++ ?r) with ("("%byte :: r).
    cbn [find_comma_loop]. change (beq "("%byte "("%byte) with true. cbv iota.
    rewrite C by lia. cbn. rewrite Nat.sub_0_r. f_equal. rewrite length_app. simpl. lia.
Qed.

Lemma forallb_Forall {A} (f : A -> bool) l : forallb f l = true -> Forall (fun a => f a = true) l.
Proof. rewrite forallb_forall, List.Forall_forall. done. Qed.

(** A printed name of the form [Word(args)]. *)
Lemma scans_call w name c d s :
  name = w ++ str "(" -> forallb plain_byte w = true -> scans c d s ->
  scans false (S d) (name ++ s ++ str ")").
Proof.
  intros -> Hn Hs. rewrite <- app_assoc. apply (scans_app false 0 _ false (S d)); [|by eapply scans_paren].
  by apply scans_plain, forallb_Forall.
Qed.

(** Two arguments, with the separator the server prints. *)
Lemma scans_sep c1 d1 s1 c2 d2 s2 :
  scans c1 d1 s1 -> scans c2 d2 s2 -> scans true (max d1 d2) (s1 ++ str ", " ++ s2).
Proof.
  intros H1 H2. assert (Hsp : scans false 0 (str " ")) by (apply scans_plain; by repeat constructor).
  pose proof (scans_app _ _ _ _ _ _ scans_comma (scans_app _ _ _ _ _ _ Hsp H2)) as H3.
  pose proof (scans_app _ _ _ _ _ _ H1 H3) as H4. rewrite orb_true_l, orb_true_r in H4. exact H4.
Qed.

(** A name of any type scans as one argument of its own depth. *)
Lemma scans_join l :
  Forall (fun p => scans false p.1 p.2) l ->
  exists c, scans c (foldr max 0%nat (map fst l)) (join (str ", ") (map snd l)).
Proof.
  induction 1 as [|[d s] l Hs Hl [c IH]]; [exists false; apply scans_nil|].
  destruct l as [|q l]; simpl in *.
  - exists false. by rewrite Nat.max_0_r.
  - exists true. eapply scans_sep; [done|exact IH].
Qed.

Lemma wf_all ts :
  (fix all ts := match ts with [] => True | t :: ts => wf_type t /\ all ts end) ts <->
  Forall wf_type ts.
Proof.
  induction ts as [|t ts IH]; [done|]. rewrite IH. by rewrite Forall_cons.
Qed.

Lemma show_plain z : 0 <= z -> scans false 0 (show z).
Proof.
  intros Hz. apply scans_plain. destruct (show_digits z Hz) as (_ & Hall & _).
  eapply Forall_impl; [exact Hall|]. intros b Hb. unfold is_digit in Hb. unfold plain_byte.
  destruct (beq b "(") eqn:E; [apply beq_eq in E; by subst|].
  destruct (beq b ")") eqn:E1; [apply beq_eq in E1; by subst|].
  destruct (beq b ",") eqn:E2; [apply beq_eq in E2; by subst|]. done.
Qed.

Lemma zone_scans z :
  Forall (fun b => zone_byte b = true) z -> scans false 0 (str "'" ++ z ++ str "'").
Proof.
  intros Hz. apply scans_plain. apply Forall_app; split; [by repeat constructor|].
  apply Forall_app; split; [|by repeat constructor]. eapply Forall_impl; [exact Hz|].
  intros b. unfold zone_byte, plain_byte. rewrite !andb_true_iff. tauto.
Qed.

Lemma type_name_tight t : wf_type t -> tight (type_name t).
Proof.
  destruct t; intros Hwf; cbn [type_name];
    try (apply tightb_tight; reflexivity);
    try (apply tight_wrap; apply tightb_tight; reflexivity).
  destruct timezone; apply tight_wrap; apply tightb_tight; reflexivity.
Qed.

(** Printed names scan as one argument, as deep as [name_depth] says. *)
Lemma type_name_scans t : wf_type t -> scans false (name_depth t) (type_name t).
Proof.
  induction t as [t Ht|t IH|t IH|t IH|t IH|ts IH|k v IHk IHv|ts IH] using Ct.column_ind;
    intros Hwf; cbn [type_name name_depth wf_type] in *.
  - destruct t; try done; cbn [type_name name_depth wf_type] in *;
      try (apply scans_plain, forallb_Forall; reflexivity).
    1-4: eapply (scans_call (str "Decimal")); [reflexivity..|];
      apply (scans_sep false 0 _ false 0); apply show_plain; lia.
    + eapply (scans_call (str "FixedString")); [reflexivity..|]. apply show_plain; lia.
    + destruct Hwf as [Hp Hz]. destruct timezone as [z|];
        (eapply (scans_call (str "DateTime64")); [reflexivity..|]).
      * apply (scans_sep false 0 _ false 0); [apply show_plain; lia | apply zone_scans, Hz].
      * apply show_plain; lia.
    + apply (scans_call (str "Time64") (str "Time64(") false 0 (str "3")); [done..|]. by apply scans_plain, forallb_Forall.
    + apply (scans_call (str "Enum8") (str "Enum8(") false 0 (str "'a' = 1")); [done..|]. by apply scans_plain, forallb_Forall.
    + apply (scans_call (str "Enum16") (str "Enum16(") false 0 (str "'a' = 1")); [done..|]. by apply scans_plain, forallb_Forall.
    + apply (scans_call (str "Object") (str "Object(") false 0 (str "'json'")); [done..|]. by apply scans_plain, forallb_Forall.
  - eapply (scans_call (str "Nullable")); [reflexivity..|auto].
  - eapply (scans_call (str "LowCardinality")); [reflexivity..|auto].
  - eapply (scans_call (str "SimpleAggregateFunction")); [reflexivity..|].
    apply (scans_sep false 0 _ false (name_depth t)); [by apply scans_plain, forallb_Forall | auto].
  - eapply (scans_call (str "Array")); [reflexivity..|auto].
  - destruct Hwf as [_ Hall%wf_all]. destruct (scans_join (map (fun t => (name_depth t, type_name t)) ts)) as [c Hc].
    { by apply Forall_map, (Forall_mp wf_type). }
    rewrite !map_map in Hc. eapply (scans_call (str "Tuple")); [reflexivity..|exact Hc].
  - destruct Hwf as [Hk Hv]. eapply (scans_call (str "Map")); [reflexivity..|].
    eapply scans_sep; [apply IHk | apply IHv]; done.
  - destruct Hwf as [_ Hall%wf_all]. destruct (scans_join (map (fun t => (name_depth t, type_name t)) ts)) as [c Hc].
    { by apply Forall_map, (Forall_mp wf_type). }
    rewrite !map_map in Hc. eapply (scans_call (str "Variant")); [reflexivity..|exact Hc].
Qed.

(** ** Parsing printed names *)

Lemma strip_outer_call w s : strip_outer ((w ++ str "(") ++ s ++ str ")") w = Some s.
Proof.
  unfold strip_outer. rewrite <- app_assoc, strip_prefix_app. cbn [mbind option_bind].
  rewrite strip_prefix_app. cbn [mbind option_bind]. apply strip_suffix_app.
Qed.

Lemma strip_outer_none s name : strip_prefix s (name ++ str "(") = None -> strip_outer s name = None.
Proof.
  intros H. destruct (strip_outer s name) as [inner|] eqn:E; [|done]. apply strip_outer_Some in E as ->.
  rewrite (app_assoc name), strip_prefix_app in H. discriminate.
Qed.

Lemma split_type_args_join c l :
  Forall (fun s => exists e, scans false e s) l -> Forall tight l ->
  (c = [] \/ c = str " ") -> l <> [] ->
  split_type_args_loop 0 c (join (str ", ") l) = l.
Proof.
  intros Hs Ht Hc Hl. revert c Hc. induction l as [|s l IH]; intros c Hc; [done|].
  apply Forall_cons in Hs as [Hs Hs']. apply Forall_cons in Ht as [Ht Ht'].
  assert (Hb : forall rest, split_type_args_loop 0 c (s ++ rest) = split_type_args_loop 0 (c ++ s) rest).
  { intros rest. destruct Hs as [e (_ & Hs & _)]; apply Hs; auto. }
  assert (Htrim : trim (c ++ s) = s).
  { destruct Hc as [->| ->]; [by apply trim_tight|]. change (str " " ++ s) with (x20 :: s).
    rewrite trim_space. by apply trim_tight. }
  destruct l as [|s' l].
  - cbn [join]. rewrite <- (app_nil_r s) at 1. rewrite Hb. cbn [split_type_args_loop]. rewrite Htrim.
    destruct s; [by apply tight_nonempty in Ht|done].
  - change (join (str ", ") (s :: s' :: l)) with (s ++ str "," ++ str " " ++ join (str ", ") (s' :: l)).
    rewrite Hb. change (str "," ++ ?r) with (","%byte :: r). cbn [split_type_args_loop].
    change (beq "," "(") with false. change (beq "," ")") with false. change (beq "," ",") with true.
    cbn [andb Nat.eqb]. rewrite Htrim. f_equal.
    change (str " " ++ ?r) with (" "%byte :: r). cbn [split_type_args_loop].
    change (beq " " "(") with false. change (beq " " ")") with false. change (beq " " ",") with false.
    cbn [andb]. apply IH; auto.
Qed.

Lemma split_names ts :
  Forall wf_type ts -> ts <> [] ->
  split_type_args (join (str ", ") (map type_name ts)) = map type_name ts.
Proof.
  intros Hall Hne. apply split_type_args_join; [| |by left|by destruct ts].
  - apply Forall_map. eapply Forall_impl; [exact Hall|]. intros t Ht. eexists.
    by apply type_name_scans.
  - apply Forall_map. eapply Forall_impl; [exact Hall|]. intros t Ht. by apply type_name_tight.
Qed.

(** Rule out the arms of another name, take the arm of this one. *)
Ltac skip_arms :=
  repeat match goal with
  | |- context [match strip_outer ?s ?n with _ => _ end] =>
      rewrite (strip_outer_none s n) by reflexivity
  | |- context [match strip_prefix ?s ?n with _ => _ end] =>
      replace (strip_prefix s n) with (@None text) by reflexivity
  | |- context [if starts_with ?s ?n then _ else _] =>
      replace (starts_with s n) with false by reflexivity
  end.
Ltac take_arm w :=
  match goal with
  | |- context [strip_outer (?name ++ ?s ++ str ")") (str w)] =>
      rewrite (strip_outer_call (str w) s : strip_outer (name ++ s ++ str ")") (str w) = Some s)
  end; cbv iota beta.

Lemma parse_fields ts :
  ts <> [] -> Forall wf_type ts -> Forall (fun t => parse (type_name t) = Some t) ts ->
  parse_all parse (join (str ", ") (map type_name ts)) = Some ts.
Proof.
  intros Hne Hwf Hp. unfold parse_all. rewrite split_names by done.
  assert (Ho : omap parse (map type_name ts) = ts).
  { clear Hne Hwf. induction Hp as [|t ts Ht Hts IH]; [done|].
    cbn [map omap list_omap]. rewrite Ht. by f_equal. }
  rewrite Ho, length_map, Nat.eqb_refl. by destruct ts.
Qed.

Lemma parse_decimal_show p s :
  0 <= p < 256 -> 0 <= s < 256 ->
  parse_decimal (show p ++ str ", " ++ show s) =
    Some (if p <=? 9 then Ct.Decimal32 p s
          else if p <=? 18 then Ct.Decimal64 p s
          else if p <=? 38 then Ct.Decimal128 p s
          else Ct.Decimal256 p s).
Proof.
  intros Hp Hs. unfold parse_decimal.
  change (show p ++ str ", " ++ show s) with (join (str ", ") [show p; show s]).
  assert (Ht : Forall tight [show p; show s]) by (each; apply show_tight; lia).
  unfold split_type_args. rewrite split_type_args_join;
    [|each; eexists; apply show_plain; lia|done|by left|done].
  rewrite !trim_tight by (apply show_tight; lia).
  rewrite !parse_unsigned_show by lia. reflexivity.
Qed.

Lemma drop_while_none f s : Forall (fun b => f b = false) s -> drop_while f s = s.
Proof. destruct 1 as [|b s Hb Hs]; [done|]. simpl. by rewrite Hb. Qed.

Lemma trim_matches_quoted c z :
  Forall (fun b => beq c b = false) z -> trim_matches c ([c] ++ z ++ [c]) = z.
Proof.
  intros Hz. unfold trim_matches. cbn [app drop_while]. rewrite beq_refl.
  assert (Hd : drop_while (beq c) (z ++ [c]) = z ++ (if z is [] then [] else [c])).
  { destruct Hz as [|b z Hb Hz]; simpl; [by rewrite beq_refl|]. by rewrite Hb. }
  rewrite Hd. destruct z as [|b z]; [done|]. rewrite rev_app_distr. cbn [rev app drop_while].
  rewrite beq_refl. change (rev z ++ [b]) with (rev (b :: z)).
  rewrite drop_while_none; [apply rev_involutive|]. by apply List.Forall_rev.
Qed.

Lemma parse_datetime64_some p z :
  0 <= p < 256 -> z <> [] -> Forall (fun b => zone_byte b = true) z ->
  parse_datetime64 (show p ++ str ", " ++ (str "'" ++ z ++ str "'")) = Ct.DateTime64 p (Some z).
Proof.
  intros Hp Hne Hz. unfold parse_datetime64.
  set (q := str "'" ++ z ++ str "'").
  change (show p ++ str ", " ++ q) with (join (str ", ") [show p; q]).
  assert (Hq : tight q) by (apply tight_wrap; apply tightb_tight; reflexivity).
  assert (Ht : Forall tight [show p; q]).
  { each; [apply show_tight; lia|done]. }
  unfold split_type_args. rewrite split_type_args_join; [| |done|by left|done].
  2: { each; eexists; [apply show_plain; lia|by apply zone_scans]. }
  cbn [lookup list_lookup]. cbn [mbind option_bind].
  rewrite (trim_tight (show p)) by (apply show_tight; lia). rewrite parse_unsigned_show by lia.
  rewrite (trim_tight q) by done. change q with (["'"%byte] ++ z ++ ["'"%byte]).
  rewrite trim_matches_quoted.
  - by destruct z.
  - eapply Forall_impl; [exact Hz|]. intros b. unfold zone_byte. rewrite !andb_true_iff, negb_true_iff.
    intros [_ Hb]. destruct (beq "'" b) eqn:E; [|done]. apply beq_eq in E; subst. discriminate.
Qed.

Lemma parse_datetime64_none p : 0 <= p < 256 -> parse_datetime64 (show p) = Ct.DateTime64 p None.
Proof.
  intros Hp. unfold parse_datetime64.
  change (show p) with (join (str ", ") [show p]).
  assert (Ht : tight (show p)) by (apply show_tight; lia).
  unfold split_type_args.
  rewrite split_type_args_join; [|each; eexists; apply show_plain; lia|by each|by left|done].
  cbn [lookup list_lookup]. cbn [mbind option_bind].
  rewrite (trim_tight (show p)) by done. rewrite parse_unsigned_show by lia. reflexivity.
Qed.

Lemma parse_saf_name t :
  wf_type t -> parse (type_name t) = Some t ->
  parse_saf parse ((str "sum" ++ str ", " ++ type_name t) ++ str ")") =
    Some (Ct.SimpleAggregateFunction t).
Proof.
  intros Hwf Hp. unfold parse_saf.
  assert (Hf : find_first_comma_at_depth0 ((str "sum" ++ str ", " ++ type_name t) ++ str ")") = Some 3%nat)
    by reflexivity.
  rewrite Hf. cbn [mbind option_bind].
  change (drop 4 ((str "sum" ++ str ", " ++ type_name t) ++ str ")"))
    with (x20 :: (type_name t ++ str ")")).
  rewrite trim_space, trim_tight by (apply tight_app; [by apply type_name_tight|by apply tightb_tight]).
  rewrite strip_suffix_app. cbn [default option_fmap from_option]. unfold id. by rewrite Hp.
Qed.

(** The guard, decided by the depth of the printed name. *)
Lemma parse_name_guard t :
  wf_type t ->
  parse (type_name t) =
    if (name_depth t <=? MAX_TYPE_PARSE_DEPTH)%nat then parse_arms parse (type_name t) else None.
Proof.
  intros Hwf. pose proof (type_name_scans t Hwf) as (Hd & _).
  assert (Hdepth : max_paren_depth (type_name t) = name_depth t).
  { unfold max_paren_depth. rewrite <- (app_nil_r (type_name t)), Hd by lia. simpl. lia. }
  rewrite parse_eq, trim_tight, Hdepth by (by apply type_name_tight).
  rewrite Nat.leb_antisym. by destruct (_ <? _)%nat.
Qed.

Lemma foldr_max_le l n : (foldr max 0 l <= n)%nat -> Forall (fun x => (x <= n)%nat) l.
Proof. induction l as [|x l IH]; simpl; intros H; constructor; [lia|apply IH; lia]. Qed.

Lemma parse_leaf t :
  match t with
  | Ct.Nullable _ | Ct.LowCardinality _ | Ct.SimpleAggregateFunction _ | Ct.Array _ | Ct.Tuple _
  | Ct.Map _ _ | Ct.Variant _ => False
  | _ => True
  end -> wf_type t -> parse_arms parse (type_name t) = Some t.
Proof.
  intros Ht Hwf; destruct t; try done; cbn [type_name wf_type] in *;
    lazymatch goal with |- context [show _] => idtac | |- _ => vm_compute; reflexivity end.
  1-4: unfold parse_arms; skip_arms; take_arm "Decimal"; rewrite parse_decimal_show by lia;
    repeat (match goal with |- context [?a <=? ?b] => destruct (Z.leb_spec a b) end); done || lia.
  - unfold parse_arms; skip_arms; take_arm "FixedString". by rewrite parse_unsigned_show.
  - unfold parse_arms. destruct Hwf as [Hp Hz]. destruct timezone as [z|]; skip_arms; take_arm "DateTime64".
    + destruct Hz. by rewrite parse_datetime64_some.
    + by rewrite parse_datetime64_none.
Qed.

(** The induction hypothesis of a list of types, under its bounds. *)
Lemma parse_list_IH ts :
  Forall (fun t => wf_type t -> (name_depth t <= MAX_TYPE_PARSE_DEPTH)%nat ->
                   parse (type_name t) = Some t) ts ->
  Forall wf_type ts -> (S (foldr max 0 (map name_depth ts)) <= MAX_TYPE_PARSE_DEPTH)%nat ->
  Forall (fun t => parse (type_name t) = Some t) ts.
Proof.
  intros IH Hwf Hd. apply (Forall_mp (fun t => (name_depth t <= MAX_TYPE_PARSE_DEPTH)%nat)).
  - eapply Forall_mp; [exact IH|exact Hwf].
  - apply (Forall_map name_depth (fun d => (d <= MAX_TYPE_PARSE_DEPTH)%nat)), foldr_max_le. lia.
Qed.

Lemma parse_name_ok t :
  wf_type t -> (name_depth t <= MAX_TYPE_PARSE_DEPTH)%nat -> parse (type_name t) = Some t.
Proof.
  induction t as [t Ht|t IH|t IH|t IH|t IH|ts IH|k v IHk IHv|ts IH] using Ct.column_ind;
    intros Hwf Hd; rewrite parse_name_guard, (proj2 (Nat.leb_le _ _)) by done; [by apply parse_leaf|..];
    cbn [type_name name_depth wf_type] in *; unfold parse_arms; skip_arms.
  - take_arm "Nullable". by rewrite IH by (done || lia).
  - take_arm "LowCardinality". by rewrite IH by (done || lia).
  - change (strip_prefix ?s (str "SimpleAggregateFunction(")) with
      (Some ((str "sum" ++ str ", " ++ type_name t) ++ str ")")). cbv iota beta.
    apply parse_saf_name; [done|]. apply IH; [done|lia].
  - take_arm "Array". by rewrite IH by (done || lia).
  - destruct Hwf as [Hne Hall%wf_all]. take_arm "Tuple".
    by rewrite parse_fields by (done || by apply parse_list_IH).
  - destruct Hwf as [Hk Hv]. take_arm "Map".
    change (type_name k ++ str ", " ++ type_name v) with (join (str ", ") (map type_name [k; v])).
    rewrite split_names by (by each || done). cbn [map]. rewrite IHk, IHv by (done || lia). done.
  - destruct Hwf as [Hne Hall%wf_all]. take_arm "Variant".
    by rewrite parse_fields by (done || by apply parse_list_IH).
Qed.

(** ** A name the guard does not see

    The comment on the guard says the parenthesis depth bounds the recursion.
    It does not: [DateTime(] is accepted by its prefix alone, so the closing
    parentheses behind it are not paired with anything the parser opened, and
    the siblings that follow start at a depth lower than their nesting. *)
Definition unbalanced_level (arrays closers : nat) (inner : text) : text :=
  Nat.iter arrays (fun s => str "Array(" ++ s ++ str ")")
    (str "Tuple(DateTime(" ++ concat (repeat (str ")") closers) ++ str ", " ++ inner ++ str ")").

Definition unbalanced_name : text := unbalanced_level 24 26 (unbalanced_level 24 25 (str "UInt8")).

(** the guard of the parser does not bound the nesting it accepts: the name
    below measures 26 levels of parentheses, under the limit of 32, and parses
    to a type nested 50 deep. *)
Theorem guard_admits_deeper_nesting :
  max_paren_depth unbalanced_name = 26%nat /\ nesting <$> parse unbalanced_name = Some 50%nat.
Proof. vm_compute. done. Qed.

(** ** Properties *)

(** C30: the parser inverts the server's type names: every type it can
    represent comes back from its own name, exactly when the name nests no
    deeper than the parser's bound, and deeper names are refused. *)
Theorem parse_type_name t :
  wf_type t ->
  parse (type_name t) = if (name_depth t <=? MAX_TYPE_PARSE_DEPTH)%nat then Some t else None.
Proof.
  intros Hwf. destruct (Nat.leb_spec (name_depth t) MAX_TYPE_PARSE_DEPTH) as [Hd|Hd].
  - by apply parse_name_ok.
  - by rewrite parse_name_guard, (proj2 (Nat.leb_gt _ _)) by done.
Qed.

Lemma parse_type_name_witness :
  let t := Ct.Map Ct.String (Ct.Array (Ct.Tuple [Ct.DateTime64 3 (Some (str "Australia/Sydney"));
             Ct.Nullable (Ct.Decimal128 38 10)])) in
  parse (type_name t) = Some t.
Proof.
  intros t. refine (parse_type_name t _). simpl.
  split_and!; (done || lia || by apply forallb_Forall).
Defined.

(** [ColumnType::parse] terminates on every input, hostile ones included:
    any fuel above the length of the name gives the same result, and that
    result obeys the source's recursion. *)
Theorem parse_terminates s :
  (forall n, (length s < n)%nat -> parse_fuel n s = parse s) /\
  parse s =
    (let type_str := trim s in
     if (MAX_TYPE_PARSE_DEPTH <? max_paren_depth type_str)%nat then None
     else parse_arms parse type_str).
Proof. split; [intros n Hn; apply parse_fuel_enough; lia | apply parse_eq]. Qed.
