(* ===== verification/Json.v ===== *)
(** * RowBinary cells as JSON

    Models the rendering half of [src/native/columns.rs]: a cell of the
    [Variant], [Dynamic] and [JSON] readers is turned from RowBinary bytes into
    JSON text. The decimal text of a float is the standard library's [Display],
    an argument here, which [FloatDisplay] supplies; everything else is written out. *)

From S2P Require Import Prelude Text Errors WireIo ColTypes.

(** [format!("{v}")] of a finite [f64], by its bit pattern. *)
Class FloatText := display_f64 : Z -> text.

(** ** Number formats *)

(** [{z:0width$x}]. *)
Definition hex_digit (d : Z) : byte := byte.of_Z (if d <? 10 then 48 + d else 87 + d).
Fixpoint hex_pad (width : nat) (z : Z) : text :=
  match width with
  | O => []
  | S w => hex_pad w (z / 16) ++ [hex_digit (z mod 16)]
  end.

(** [{z:x}] of a 16-bit value. *)
Definition hex16 (z : Z) : text :=
  if z <? 0x10 then hex_pad 1 z else if z <? 0x100 then hex_pad 2 z
  else if z <? 0x1000 then hex_pad 3 z else hex_pad 4 z.

(** IEEE-754 fields. *)
Definition f64_is_finite (bits : Z) : bool := negb (Z.land (Z.shiftr bits 52) 0x7FF =? 0x7FF).

(** [f64::from(f32)] on bit patterns: widen the exponent, normalise a subnormal. *)
Definition f32_to_f64 (bits : Z) : Z :=
  let sign := Z.shiftl (Z.shiftr bits 31) 63 in
  let e := Z.land (Z.shiftr bits 23) 0xFF in
  let m := Z.land bits 0x7FFFFF in
  if e =? 0xFF then sign + Z.shiftl 0x7FF 52 + Z.shiftl m 29
  else if e =? 0 then
    if m =? 0 then sign
    else let k := Z.log2 m in
         sign + Z.shiftl (k - 149 + 1023) 52 + Z.shiftl (m - 2 ^ k) (52 - k)
  else sign + Z.shiftl (e - 127 + 1023) 52 + Z.shiftl m 29.

(** [format_float_json]. *)
Definition format_float_json `{FloatText} (v : Z) : text :=
  if f64_is_finite v then display_f64 v else str "null".

(** ** Addresses *)

(** [Display for Ipv4Addr]. *)
Definition ipv4_text (v : Z) : text :=
  join (str ".") (map (fun i => show (Z.land (Z.shiftr v i) 0xFF)) [24; 16; 8; 0]).

(** The eight segments of an [Ipv6Addr], network order. *)
Fixpoint segments (bs : list byte) : list Z :=
  match bs with
  | h :: l :: bs' => u8 h * 256 + u8 l :: segments bs'
  | _ => []
  end.

(** The longest run of zero segments, the first of equals: its start and length. *)
Fixpoint zero_run (i cur_start cur_len best_start best_len : nat) (segs : list Z) : nat * nat :=
  match segs with
  | [] => (best_start, best_len)
  | s :: segs' =>
      if s =? 0 then
        let cur_start := if (cur_len =? 0)%nat then i else cur_start in
        let cur_len := S cur_len in
        if (best_len <? cur_len)%nat then zero_run (S i) cur_start cur_len cur_start cur_len segs'
        else zero_run (S i) cur_start cur_len best_start best_len segs'
      else zero_run (S i) 0 0 best_start best_len segs'
  end.

(** [Display for Ipv6Addr]: the IPv4-mapped form, or RFC 5952 compression. *)
Definition ipv6_text (bs : list byte) : text :=
  let segs := segments bs in
  if bool_decide (take 6 segs = [0; 0; 0; 0; 0; 0xFFFF]) then
    str "::ffff:" ++ ipv4_text (le_combine (rev (drop 12 bs)))
  else
    let '(start, len) := zero_run 0 0 0 0 0 segs in
    if (1 <? len)%nat then
      join (str ":") (map hex16 (take start segs)) ++ str "::" ++
      join (str ":") (map hex16 (drop (start + len) segs))
    else join (str ":") (map hex16 segs).

(** The hyphenated form of a UUID from its two halves. *)
Definition uuid_text (hi lo : Z) : text :=
  let hex := hex_pad 16 hi ++ hex_pad 16 lo in
  join (str "-") [slice 0 8 hex; slice 8 4 hex; slice 12 4 hex; slice 16 4 hex; slice 20 12 hex].

(** ** Quoting *)

Definition quote : byte := byte.of_Z 34.

(** [json_quote_bytes]. *)
Definition json_escape (b : byte) : text :=
  if u8 b =? 34 then [byte.of_Z 92; quote]
  else if u8 b =? 92 then [byte.of_Z 92; byte.of_Z 92]
  else if u8 b =? 10 then byte.of_Z 92 :: str "n"
  else if u8 b =? 13 then byte.of_Z 92 :: str "r"
  else if u8 b =? 9 then byte.of_Z 92 :: str "t"
  else if u8 b <=? 0x1F then byte.of_Z 92 :: str "u" ++ hex_pad 4 (u8 b)
  else [b].
Definition json_quote_bytes (bytes : list byte) : text := [quote] ++ concat (map json_escape bytes) ++ [quote].
Definition quoted (s : text) : text := [quote] ++ s ++ [quote].

(** ** Cells *)

Abbreviation Cell := (result unit (text * nat)).

(** [slice_var_uint] and [head::<N>]. *)
Definition slice_var_uint (bytes : list byte) : result unit (Z * nat) :=
  map_err (fun _ => tt) (get_var_uint bytes).
Definition head (n : nat) (bytes : list byte) : result unit (list byte) :=
  if (n <=? length bytes)%nat then Ok (take n bytes) else Err tt.

(** The [fixed!] macro at an unsigned and at a signed type. *)
Definition fixed_u (n : nat) (bytes : list byte) : Cell :=
  b ← head n bytes; Ok (show (le_combine b), n).
Definition fixed_i (n : nat) (bytes : list byte) : Cell :=
  b ← head n bytes; Ok (show (wrap_signed (8 * Z.of_nat n) (le_combine b)), n).

(** The end of a length-prefixed run that stays inside the cell. *)
Definition prefixed (bytes : list byte) : result unit (list byte * nat) :=
  '(len, hdr) ← slice_var_uint bytes;
  if Z.of_nat hdr + len <=? Z.of_nat (length bytes)
  then Ok (slice hdr (Z.to_nat len) bytes, (hdr + Z.to_nat len)%nat) else Err tt.

(** The element loops of the [Array] and [Map] arms: [k] turns are left, [i]
    were taken. *)
Definition json_elems (elem : list byte -> Cell) (bytes : list byte) :=
  fix go (k i pos : nat) (json : text) : Cell :=
    match k with
    | O => Ok (json, pos)
    | S k' =>
        let json := if (0 <? i)%nat then json ++ str "," else json in
        '(e, consumed) ← elem (drop pos bytes);
        go k' (S i) (pos + consumed)%nat (json ++ e)
    end.

Definition json_pairs (key value : list byte -> Cell) (bytes : list byte) :=
  fix go (k i pos : nat) (json : text) : Cell :=
    match k with
    | O => Ok (json, pos)
    | S k' =>
        let json := if (0 <? i)%nat then json ++ str "," else json in
        '(kj, kc) ← key (drop pos bytes);
        '(vj, vc) ← value (drop (pos + kc) bytes);
        go k' (S i) (pos + kc + vc)%nat (json ++ kj ++ str ":" ++ vj)
    end.

(** The field loop of the [Tuple] arm. *)
Definition json_fields {T} (field : T -> list byte -> Cell) (bytes : list byte) :=
  fix go (fields : list T) (i pos : nat) (json : text) : Cell :=
    match fields with
    | [] => Ok (json, pos)
    | f :: fields' =>
        let json := if (0 <? i)%nat then json ++ str "," else json in
        '(e, consumed) ← field f (drop pos bytes);
        go fields' (S i) (pos + consumed)%nat (json ++ e)
    end.

Section json.
Context `{FloatText}.

(** [rowbinary_to_json_inner]: the JSON and the bytes it consumed. *)
Fixpoint rowbinary_to_json_inner (col_type : ColumnType) (bytes : list byte) : Cell :=
  match col_type with
  | Ct.UInt8 => fixed_u 1 bytes
  | Ct.UInt16 | Ct.Date => fixed_u 2 bytes
  | Ct.UInt32 | Ct.Time => fixed_u 4 bytes
  | Ct.UInt64 => fixed_u 8 bytes
  | Ct.Int8 | Ct.Enum8 => fixed_i 1 bytes
  | Ct.Int16 | Ct.Enum16 => fixed_i 2 bytes
  | Ct.Int32 | Ct.Decimal32 _ _ | Ct.Date32 => fixed_i 4 bytes
  | Ct.Int64 | Ct.Time64 | Ct.Decimal64 _ _ => fixed_i 8 bytes
  | Ct.Int128 | Ct.Decimal128 _ _ => fixed_i 16 bytes
  | Ct.UInt128 => fixed_u 16 bytes
  | Ct.Int256 | Ct.UInt256 | Ct.Decimal256 _ _ =>
      raw ← head 32 bytes;
      Ok (quoted (concat (map (fun b => hex_pad 2 (u8 b)) (rev raw))), 32%nat)
  | Ct.Float32 => b ← head 4 bytes; Ok (format_float_json (f32_to_f64 (le_combine b)), 4%nat)
  | Ct.Float64 => b ← head 8 bytes; Ok (format_float_json (le_combine b), 8%nat)
  | Ct.BFloat16 =>
      b ← head 2 bytes;
      Ok (format_float_json (f32_to_f64 (Z.shiftl (le_combine b) 16)), 2%nat)
  | Ct.DateTime => fixed_u 4 bytes
  | Ct.DateTime64 _ _ => fixed_i 8 bytes
  | Ct.Uuid =>
      hi ← head 8 bytes;
      lo ← head 8 (drop 8 bytes);
      Ok (quoted (uuid_text (le_combine hi) (le_combine lo)), 16%nat)
  | Ct.IPv4 => b ← head 4 bytes; Ok (quoted (ipv4_text (le_combine b)), 4%nat)
  | Ct.IPv6 => b ← head 16 bytes; Ok (quoted (ipv6_text b), 16%nat)
  | Ct.Point =>
      x ← head 8 bytes;
      y ← head 8 (drop 8 bytes);
      Ok (str "[" ++ format_float_json (le_combine x) ++ str "," ++
            format_float_json (le_combine y) ++ str "]", 16%nat)
  | Ct.String | Ct.Json => '(body, fin) ← prefixed bytes; Ok (json_quote_bytes body, fin)
  | Ct.FixedString width =>
      if width <=? Z.of_nat (length bytes)
      then Ok (json_quote_bytes (take (Z.to_nat width) bytes), Z.to_nat width) else Err tt
  | Ct.Nullable inner =>
      match bytes with
      | [] => Err tt
      | flag :: rest =>
          if negb (u8 flag =? 0) then Ok (str "null", 1%nat)
          else '(json, consumed) ← rowbinary_to_json_inner inner rest; Ok (json, S consumed)
      end
  | Ct.LowCardinality inner => rowbinary_to_json_inner inner bytes
  | Ct.SimpleAggregateFunction inner => rowbinary_to_json_inner inner bytes
  | Ct.Array inner =>
      '(count, hdr) ← slice_var_uint bytes;
      '(json, pos) ←
        json_elems (rowbinary_to_json_inner inner) bytes (Z.to_nat count) 0 hdr (str "[");
      Ok (json ++ str "]", pos)
  | Ct.Tuple fields =>
      '(json, pos) ← json_fields rowbinary_to_json_inner bytes fields 0 0 (str "[");
      Ok (json ++ str "]", pos)
  | Ct.Map key_type val_type =>
      '(count, hdr) ← slice_var_uint bytes;
      '(json, pos) ←
        json_pairs (rowbinary_to_json_inner key_type) (rowbinary_to_json_inner val_type) bytes
          (Z.to_nat count) 0 hdr (str "{");
      Ok (json ++ str "}", pos)
  | Ct.Dynamic | Ct.NewJson | Ct.Variant _ => prefixed bytes
  end.

(** [rowbinary_to_json]. *)
Definition rowbinary_to_json (bytes : list byte) (col_type : ColumnType) : text :=
  match rowbinary_to_json_inner col_type bytes with
  | Ok (json, _) => json
  | Err _ => str "null"
  end.

(** [cell_to_json]. *)
Definition cell_to_json (cell : option (list byte)) (col_type : ColumnType) : text :=
  match cell with
  | Some c => rowbinary_to_json c col_type
  | None => str "null"
  end.

End json.
