(* ===== verification/Columns.v ===== *)
(** * Native columns as RowBinary cells

    Models the readers of [src/native/columns.rs]: each turns the columnar
    bytes of one type into one RowBinary cell per row, and the [Variant],
    [Dynamic] and [JSON] shapes into one JSON document per row. The type names
    of the last three come off the wire, so the recursion is bounded by the
    depth guard of the source and not by the type: [left] is the number of
    levels the guard still allows, [MAX_READ_DEPTH + 1 - depth]. *)

From S2P Require Import Prelude Text Errors WireIo ColTypes Json.

(** ** Data and constants *)

Abbreviation ColumnData := (list (list byte)).

Definition MAX_READ_DEPTH : nat := 32.
Definition MAX_VARIANT_TYPES : Z := 255.
Definition MAX_WIRE_TYPES : Z := 254.
Definition MAX_JSON_PATHS : Z := 2 ^ 16.
Definition JSON_SERIALIZATION_STRING : Z := 1.
Definition NULL_DISCRIMINATOR : nat := 255.
Definition VARIANT_MODE_BASIC : Z := 0.
Definition DYNAMIC_FLATTENED : Z := 3.
Definition SHARED_VARIANT : text := str "SharedVariant".

(** [size_of] of the element types of the vectors reserved below. *)
Definition sizeof_Vec : Z := 24.
Definition sizeof_u64 : Z := 8.

Record DynamicHeader := { type_names : list text }.

Definition depth_of (left : nat) : nat := (S MAX_READ_DEPTH - left)%nat.

Definition nesting_error : Error :=
  BadResponse (str "native protocol: column type nesting exceeds " ++
    show (Z.of_nat MAX_READ_DEPTH) ++ str " levels").

(** ** Shared pieces *)

(** [rowbinary_string]. *)
Definition rowbinary_string (bytes : list byte) : list byte := put_string bytes.

(** [wire_type]. *)
Definition wire_type (name : text) : Result ColumnType :=
  if bool_decide (name = SHARED_VARIANT) then Ok Ct.String
  else ok_or (parse name)
         (BadResponse (str "native protocol: unsupported nested column type '" ++ name ++ str "'")).

(** [index_width]. *)
Definition index_width (slots : Z) : Z :=
  if slots <=? 255 then 1 else if slots <=? 65535 then 2 else if slots <? 2 ^ 32 then 4 else 8.

(** [checked_span]; [what] names the column in the message. *)
Definition checked_span (fin prev available : Z) (what : text) : Result Z :=
  if (fin <? prev) || (available <? fin) then
    Err (BadResponse (str "native protocol: " ++ what ++ str " column offset " ++ show fin ++
           str " is outside " ++ show prev ++ str "..=" ++ show available))
  else Ok fin.

(** [type_names.sort()]. *)
Fixpoint insert_name (name : text) (l : list text) : list text :=
  match l with
  | [] => [name]
  | x :: l' => if text_le name x then name :: l else x :: insert_name name l'
  end.
Definition sort_names (l : list text) : list text := foldr insert_name [] l.

(** The counts loop: rows per slot, discriminators past the slots left out. *)
Definition tally (k : nat) (discriminators : list nat) : list Z :=
  fold_left (fun counts d => alter Z.succ d counts) discriminators (replicate k 0).

Section readers.
Context `{Platform} `{FloatText}.

Definition reserve (sz cap : Z) : Read unit := rd_lift (with_cap sz cap).

(** [read_index]. *)
Definition read_index (width : Z) : Read Z :=
  if width =? 1 then read_u8 else if width =? 2 then read_u16_le
  else if width =? 4 then read_u32_le else if width =? 8 then read_u64_le
  else rd_fail (BadResponse (str "native protocol: " ++ show width ++
         str "-byte index width is not a wire width")).

(** [read_capped_count]. *)
Definition read_capped_count (cap : Z) (what : text) : Read Z :=
  raw ← read_var_uint;
  if cap <? raw then
    rd_fail (BadResponse (str "native protocol: " ++ what ++ str " count " ++ show raw ++
      str " is above the " ++ show cap ++ str " cap"))
  else mret raw.

(** [read_variant_mode]. *)
Definition read_variant_mode : Read unit :=
  mode ← read_u64_le;
  if mode =? VARIANT_MODE_BASIC then mret tt
  else rd_fail (BadResponse (str "native protocol: Variant discriminator serialization mode " ++
         show mode ++ str " is not supported (only basic, 0)")).

(** [read_offsets]. *)
Definition read_offsets (n : Z) : Read (list Z) :=
  _ ← reserve sizeof_u64 n;
  rd_repeat (Z.to_nat n) read_u64_le.

(** ** Leaf readers *)

Definition read_fixed_column (n size : Z) : Read ColumnData :=
  _ ← reserve sizeof_Vec n;
  rd_repeat (Z.to_nat n) (read_exact_grown size).

Definition read_string_column (n : Z) : Read ColumnData :=
  _ ← reserve sizeof_Vec n;
  rd_repeat (Z.to_nat n) (s ← read_string; mret (rowbinary_string s)).

Definition read_point_column (n : Z) : Read ColumnData :=
  x_col ← read_fixed_column n 8;
  y_col ← read_fixed_column n 8;
  mret (zip_with app x_col y_col).

(** ** Composite readers, over the reader of the nested columns *)

Section composites.
Variable rec : ColumnType -> Z -> Read ColumnData.

(** The cell of one row of a Nullable column. *)
Definition nullable_cell (flag : byte) (value : list byte) : list byte :=
  if negb (u8 flag =? 0) then [x01] else x00 :: value.

Definition read_nullable_column (n : Z) (inner : ColumnType) : Read ColumnData :=
  null_flags ← read_exact_grown n;
  inner_data ← rec inner n;
  _ ← reserve sizeof_Vec n;
  mret (zip_with nullable_cell null_flags inner_data).

(** One row of a LowCardinality column from its dictionary index. *)
Definition lc_cell (dict : ColumnData) (is_nullable_inner : bool) (idx : Z) : Result (list byte) :=
  let out_of_range :=
    BadResponse (str "native protocol: LowCardinality index " ++ show idx ++
      str " out of range (dict size " ++ show (Z.of_nat (length dict)) ++ str ")") in
  if is_nullable_inner then
    if idx =? 0 then Ok [x01]
    else value ← ok_or (dict !! Z.to_nat idx) out_of_range; Ok (x00 :: value)
  else ok_or (dict !! Z.to_nat idx) out_of_range.

(** The dictionary type and whether index 0 is NULL. *)
Definition lc_dict_type (inner : ColumnType) : ColumnType * bool :=
  match inner with
  | Ct.Nullable t => (t, true)
  | _ => (inner, false)
  end.

Definition lc_global_dict : Error := BadResponse (str
  "native protocol: LowCardinality global dictionary is not supported on the client-server path (only per-block additional keys)").
Definition lc_no_keys : Error := BadResponse (str
  "native protocol: LowCardinality block set neither the additional-keys nor the global-dictionary flag").

(** The width of the index type code, the two low bits of the flags. *)
Definition lc_index_bytes (index_type : Z) : Z := 2 ^ index_type.

Definition read_low_cardinality_column (n : Z) (inner : ColumnType) : Read ColumnData :=
  state ← read_u64_le;
  let index_type := Z.land state 0x03 in
  let has_global_dict := negb (Z.land state 0x100 =? 0) in
  let has_additional_keys := negb (Z.land state 0x200 =? 0) in
  let '(dict_type, is_nullable_inner) := lc_dict_type inner in
  if has_global_dict then rd_fail lc_global_dict
  else if negb has_additional_keys then rd_fail lc_no_keys
  else
    additional_keys_size ← read_u64_le;
    dict ← rec dict_type additional_keys_size;
    num_indices ← read_u64_le;
    if negb (num_indices =? n) then
      rd_fail (BadResponse (str "native protocol: LowCardinality index count " ++ show num_indices ++
        str " != row count " ++ show n))
    else
      _ ← reserve sizeof_Vec n;
      rd_repeat (Z.to_nat n)
        (idx ← read_index (lc_index_bytes index_type); rd_lift (lc_cell dict is_nullable_inner idx)).

(** The rows of an Array or Map column from its end-offsets and the cells
    behind them. *)
Fixpoint span_rows (what : text) (prev : Z) (cells : ColumnData) (offsets : list Z)
    : Result ColumnData :=
  match offsets with
  | [] => Ok []
  | fin :: offsets' =>
      fin ← checked_span fin prev (Z.of_nat (length cells)) what;
      let row := put_var_uint (fin - prev) ++
        concat (slice (Z.to_nat prev) (Z.to_nat (fin - prev)) cells) in
      rows ← span_rows what fin cells offsets';
      Ok (row :: rows)
  end.

Definition read_array_column (n : Z) (inner : ColumnType) : Read ColumnData :=
  offsets ← read_offsets n;
  let total := default 0 (last offsets) in
  all_values ← rec inner total;
  _ ← reserve sizeof_Vec n;
  rd_lift (span_rows (str "Array") 0 all_values offsets).

Definition read_map_column (n : Z) (key_type val_type : ColumnType) : Read ColumnData :=
  offsets ← read_offsets n;
  let total := default 0 (last offsets) in
  keys ← rec key_type total;
  vals ← rec val_type total;
  _ ← reserve sizeof_Vec n;
  rd_lift (span_rows (str "Map") 0 (zip_with app keys vals) offsets).

(** The field loop: each field's cells appended to the rows. *)
Fixpoint tuple_rows (n : Z) (rows : ColumnData) (fields : list ColumnType) : Read ColumnData :=
  match fields with
  | [] => mret rows
  | field_type :: fields' =>
      field_data ← rec field_type n;
      tuple_rows n (zip_with app rows field_data) fields'
  end.

Definition read_tuple_column (n : Z) (fields : list ColumnType) : Read ColumnData :=
  _ ← reserve sizeof_Vec n;
  tuple_rows n (replicate (Z.to_nat n) []) fields.

(** The row loop of the Variant and Dynamic readers: [cursors] holds, per slot,
    the next of its values; [cell idx cursor] is the JSON of that value. *)
Fixpoint variant_rows (is_null : nat -> bool) (cell : nat -> nat -> text) (cursors : list nat)
    (discriminators : list nat) : ColumnData :=
  match discriminators with
  | [] => []
  | d :: ds =>
      if is_null d then rowbinary_string (str "null") :: variant_rows is_null cell cursors ds
      else
        let cursor := cursors !!! d in
        rowbinary_string (cell d cursor) :: variant_rows is_null cell (alter S d cursors) ds
  end.

(** The values of one sub-column per slot, sized by the tally. *)
Definition read_slots (types : list ColumnType) (counts : list Z) : Read (list ColumnData) :=
  _ ← reserve sizeof_Vec (Z.of_nat (length types));
  rd_map2 rec types counts.

(** The JSON of value [cursor] of slot [idx]. *)
Definition slot_cell (types : list ColumnType) (values : list ColumnData) (idx cursor : nat) : text :=
  cell_to_json ((values !!! idx) !! cursor) (default Ct.String (types !! idx)).

Definition discriminator_bytes (bytes : list byte) : list nat := map (fun b => Z.to_nat (u8 b)) bytes.

Definition read_variant_column (n : Z) (variant_types : list ColumnType) : Read ColumnData :=
  let k := length variant_types in
  if MAX_VARIANT_TYPES <? Z.of_nat k then
    rd_fail (BadResponse (str "native protocol: Variant declares " ++ show (Z.of_nat k) ++
      str " arms, above the " ++ show MAX_VARIANT_TYPES ++ str " cap"))
  else
    bytes ← read_exact_grown n;
    let discriminators := discriminator_bytes bytes in
    type_values ← read_slots variant_types (tally k discriminators);
    _ ← reserve sizeof_Vec n;
    mret (variant_rows (fun d => (d =? NULL_DISCRIMINATOR)%nat || (k <=? d)%nat)
            (slot_cell variant_types type_values) (replicate k 0%nat) discriminators).

(** ** Dynamic *)

Definition read_names (cap : Z) (what : text) (spare : Z) : Read (list text) :=
  count ← read_capped_count cap what;
  _ ← reserve sizeof_Vec (count + spare);
  rd_repeat (Z.to_nat count) read_utf8_string.

Definition read_dynamic_v1v2_prefix (has_max_types : bool) : Read DynamicHeader :=
  _ ← (if has_max_types then read_var_uint else mret 0);
  names ← read_names MAX_WIRE_TYPES (str "Dynamic type") 1;
  _ ← read_variant_mode;
  mret {| type_names := sort_names (names ++ [SHARED_VARIANT]) |}.

Definition read_dynamic_v1v2_body (n : Z) (header : DynamicHeader) : Read ColumnData :=
  col_types ← rd_lift (map_res wire_type (type_names header));
  let k := length col_types in
  bytes ← read_exact_grown n;
  let discriminators := discriminator_bytes bytes in
  type_values ← read_slots col_types (tally k discriminators);
  _ ← reserve sizeof_Vec n;
  mret (variant_rows (fun d => (d =? NULL_DISCRIMINATOR)%nat || (k <=? d)%nat)
          (fun idx cursor =>
             if bool_decide (type_names header !! idx = Some SHARED_VARIANT) then str "null"
             else slot_cell col_types type_values idx cursor)
          (replicate k 0%nat) discriminators).

Definition read_dynamic_v1v2_column (n : Z) (has_max_types : bool) : Read ColumnData :=
  header ← read_dynamic_v1v2_prefix has_max_types;
  read_dynamic_v1v2_body n header.

Definition read_flat_wire_types : Read (list ColumnType) :=
  count ← read_capped_count MAX_VARIANT_TYPES (str "Dynamic type");
  _ ← reserve sizeof_ColumnType count;
  rd_repeat (Z.to_nat count) (name ← read_utf8_string; rd_lift (wire_type name)).

Definition read_discriminators (n : Z) (slots : nat) (width : Z) : Read (list nat * list Z) :=
  _ ← reserve sizeof_u64 n;
  discriminators ← rd_repeat (Z.to_nat n) (d ← read_index width; mret (Z.to_nat d));
  mret (discriminators, tally slots discriminators).

Definition read_dynamic_flattened_column (n : Z) : Read ColumnData :=
  col_types ← read_flat_wire_types;
  let total_types := length col_types in
  '(discriminators, type_counts) ←
    read_discriminators n total_types (index_width (Z.of_nat total_types));
  type_values ← read_slots col_types type_counts;
  _ ← reserve sizeof_Vec n;
  mret (variant_rows (fun d => (total_types <=? d)%nat) (slot_cell col_types type_values)
          (replicate total_types 0%nat) discriminators).

Definition read_dynamic_column (n : Z) : Read ColumnData :=
  version ← read_u64_le;
  if version =? 1 then read_dynamic_v1v2_column n true
  else if version =? 2 then read_dynamic_v1v2_column n false
  else if version =? 3 then read_dynamic_flattened_column n
  else rd_fail (BadResponse (str "native protocol: unsupported Dynamic serialization version: " ++
         show version)).

(** ** JSON objects *)

(** One dynamic path with what its rows are rendered from: the discriminators
    and their NULL test, the slots whose values are opaque, the JSON of a value. *)
Record JsonPath := {
  path_name : text;
  path_discriminators : list nat;
  path_slots : nat;
  path_null : nat -> bool;
  path_opaque : nat -> bool;
  path_cell : nat -> nat -> text
}.

(** The path loop of one row: the members appended so far, whether any was, and
    the cursors of the remaining paths. *)
Fixpoint object_members (row_i : nat) (paths : list JsonPath) (cursors : list (list nat))
    (json : text) (first : bool) : text * list (list nat) :=
  match paths, cursors with
  | p :: paths', c :: cursors' =>
      let disc := path_discriminators p !!! row_i in
      if path_null p disc then
        let '(json, cs) := object_members row_i paths' cursors' json first in (json, c :: cs)
      else
        let cursor := c !!! disc in
        let c := alter S disc c in
        if path_opaque p disc then
          let '(json, cs) := object_members row_i paths' cursors' json first in (json, c :: cs)
        else
          let json := (if first then json else (json ++ str ",")) ++
            json_quote_bytes (path_name p) ++ str ":" ++ path_cell p disc cursor in
          let '(json, cs) := object_members row_i paths' cursors' json false in (json, c :: cs)
  | _, _ => (json, cursors)
  end.

(** The row loop, [rows] rows from row [row_i]. *)
Fixpoint object_rows (rows row_i : nat) (paths : list JsonPath) (cursors : list (list nat))
    : ColumnData :=
  match rows with
  | O => []
  | S rows' =>
      let '(json, cursors) := object_members row_i paths cursors (str "{") true in
      rowbinary_string (json ++ str "}") :: object_rows rows' (S row_i) paths cursors
  end.

Definition fresh_cursors (paths : list JsonPath) : list (list nat) :=
  map (fun p => replicate (path_slots p) 0%nat) paths.

(** The header of one path of the v2 form: its sorted slots. *)
Definition read_v2_path_types (path_name : text) : Read (list (text * ColumnType)) :=
  dyn_version ← read_u64_le;
  _ ← (if dyn_version =? 1 then _ ← read_var_uint; mret tt
       else if dyn_version =? 2 then mret tt
       else rd_fail (BadResponse (str "native protocol: unexpected Dynamic version " ++
              show dyn_version ++ str " in JSON v2 path " ++ quoted path_name)));
  names ← read_names MAX_WIRE_TYPES (str "Dynamic type") 1;
  _ ← read_variant_mode;
  rd_lift (map_res (fun name => ct ← wire_type name; Ok (name, ct))
             (sort_names (names ++ [SHARED_VARIANT]))).

(** The data of one path of the v2 form. *)
Definition read_v2_path_data (n : Z) (name : text) (types : list (text * ColumnType)) : Read JsonPath :=
  let k := length types in
  bytes ← read_exact_grown n;
  let discriminators := discriminator_bytes bytes in
  col_values ← read_slots (map snd types) (tally k discriminators);
  mret {| path_name := name; path_discriminators := discriminators; path_slots := k;
          path_null := fun d => (d =? NULL_DISCRIMINATOR)%nat || (k <=? d)%nat;
          path_opaque := fun d => bool_decide (fst <$> types !! d = Some SHARED_VARIANT);
          path_cell := slot_cell (map snd types) col_values |}.

Definition read_json_object_v2_column (n : Z) : Read ColumnData :=
  path_names ← read_names MAX_JSON_PATHS (str "JSON dynamic path") 0;
  let num_paths := Z.of_nat (length path_names) in
  _ ← reserve sizeof_Vec num_paths;
  path_sorted_types ← rd_map read_v2_path_types path_names;
  _ ← reserve sizeof_Vec num_paths;
  _ ← reserve sizeof_Vec num_paths;
  paths ← rd_map2 (read_v2_path_data n) path_names path_sorted_types;
  shared_offsets ← read_offsets n;
  let spilled := default 0 (last shared_offsets) in
  _ ← rec Ct.String spilled;
  _ ← rec Ct.String spilled;
  _ ← reserve sizeof_Vec n;
  mret (object_rows (Z.to_nat n) 0 paths (fresh_cursors paths)).

(** The header and the data of one path of the flattened form. *)
Definition read_flat_path_types : Read (list ColumnType) :=
  dyn_version ← read_u64_le;
  if negb (dyn_version =? DYNAMIC_FLATTENED) then
    rd_fail (BadResponse (str "native protocol: unexpected Dynamic version " ++ show dyn_version ++
      str " in a JSON v3 path"))
  else read_flat_wire_types.

Definition read_flat_path_data (n : Z) (name : text) (col_types : list ColumnType) : Read JsonPath :=
  let total_types := length col_types in
  '(discriminators, type_counts) ←
    read_discriminators n total_types (index_width (Z.of_nat total_types));
  col_values ← read_slots col_types type_counts;
  mret {| path_name := name; path_discriminators := discriminators; path_slots := total_types;
          path_null := fun d => (total_types <=? d)%nat; path_opaque := fun _ => false;
          path_cell := slot_cell col_types col_values |}.

Definition read_json_object_flattened_column (n : Z) : Read ColumnData :=
  path_names ← read_names MAX_JSON_PATHS (str "JSON dynamic path") 0;
  let num_paths := Z.of_nat (length path_names) in
  _ ← reserve sizeof_Vec num_paths;
  path_col_types ← rd_repeat (length path_names) read_flat_path_types;
  _ ← reserve sizeof_Vec num_paths;
  _ ← reserve sizeof_Vec num_paths;
  paths ← rd_map2 (read_flat_path_data n) path_names path_col_types;
  _ ← reserve sizeof_Vec n;
  mret (object_rows (Z.to_nat n) 0 paths (fresh_cursors paths)).

(** [read_json_body_at], and [read_json_column] in front of it. *)
Definition read_json_body_at (n version : Z) : Read ColumnData :=
  if version =? JSON_SERIALIZATION_STRING then read_string_column n
  else if version =? 2 then read_json_object_v2_column n
  else if version =? 3 then read_json_object_flattened_column n
  else rd_fail (BadResponse (str "native protocol: unsupported JSON serialization version: " ++
         show version)).

Definition read_json_column (n : Z) : Read ColumnData :=
  version ← read_u64_le;
  read_json_body_at n version.

End composites.

(** ** The dispatch *)

(** [read_column_at] at depth [depth_of left]. *)
Fixpoint read_column_at (left : nat) (col_type : ColumnType) (num_rows : Z) : Read ColumnData :=
  match left with
  | O => rd_fail nesting_error
  | S left' =>
      let rec := read_column_at left' in
      let n := num_rows in
      if (depth_of left =? 0)%nat && (num_rows =? 0) then mret []
      else match col_type with
      | Ct.UInt8 | Ct.Int8 | Ct.Enum8 | Ct.BFloat16 | Ct.UInt16 | Ct.Int16 | Ct.Enum16 | Ct.UInt32
      | Ct.Int32 | Ct.Float32 | Ct.Date | Ct.Date32 | Ct.DateTime | Ct.Decimal32 _ _ | Ct.IPv4
      | Ct.Time | Ct.UInt64 | Ct.Int64 | Ct.Float64 | Ct.DateTime64 _ _ | Ct.Decimal64 _ _ | Ct.Time64
      | Ct.Uuid | Ct.Int128 | Ct.UInt128 | Ct.IPv6 | Ct.Decimal128 _ _ | Ct.Int256 | Ct.UInt256
      | Ct.Decimal256 _ _ =>
          size ← rd_lift (ok_or (fixed_size col_type)
                   (BadResponse (str "native protocol: " ++ debug col_type ++ str " has no fixed wire width")));
          read_fixed_column n size
      | Ct.Point => read_point_column n
      | Ct.String | Ct.Json => read_string_column n
      | Ct.FixedString size => read_fixed_column n size
      | Ct.Nullable inner => read_nullable_column rec n inner
      | Ct.LowCardinality inner => read_low_cardinality_column rec n inner
      | Ct.SimpleAggregateFunction inner => rec inner num_rows
      | Ct.Array inner => read_array_column rec n inner
      | Ct.Tuple fields => read_tuple_column rec n fields
      | Ct.Map key_type val_type => read_map_column rec n key_type val_type
      | Ct.Variant variant_types => read_variant_column rec n variant_types
      | Ct.NewJson => read_json_column rec n
      | Ct.Dynamic => read_dynamic_column rec n
      end
  end.

(** [read_column_data] and [read_json_body], at depth 0. *)
Definition read_column_data : ColumnType -> Z -> Read ColumnData := read_column_at (S MAX_READ_DEPTH).
Definition read_json_body (n version : Z) : Read ColumnData :=
  read_json_body_at (read_column_at MAX_READ_DEPTH) n version.

(** [read_dynamic_v1v2_body] at [depth]. *)
Definition read_dynamic_body_at (n : Z) (header : DynamicHeader) (depth : nat) : Read ColumnData :=
  read_dynamic_v1v2_body (read_column_at (MAX_READ_DEPTH - depth)%nat) n header.

End readers.

(** ** The RowBinary grammar

    The reference: the byte sequences that are one RowBinary value of a type. *)

Definition rb_all2 (P : ColumnType -> list byte -> Prop) :=
  fix go (ts : list ColumnType) (cells : list (list byte)) : Prop :=
    match ts, cells with
    | [], [] => True
    | t :: ts', c :: cells' => P t c /\ go ts' cells'
    | _, _ => False
    end.

Fixpoint rb_cell (t : ColumnType) (b : list byte) : Prop :=
  match t with
  | Ct.Nullable t => b = [x01] \/ exists v, b = x00 :: v /\ rb_cell t v
  | Ct.LowCardinality t | Ct.SimpleAggregateFunction t => rb_cell t b
  | Ct.Array t =>
      exists cells, b = put_var_uint (Z.of_nat (length cells)) ++ concat cells /\
        Forall (rb_cell t) cells /\ Z.of_nat (length cells) < 2 ^ 64
  | Ct.Tuple ts => exists cells, b = concat cells /\ rb_all2 rb_cell ts cells
  | Ct.Map k v =>
      exists keys vals, length keys = length vals /\
        b = put_var_uint (Z.of_nat (length keys)) ++ concat (zip_with app keys vals) /\
        Forall (rb_cell k) keys /\ Forall (rb_cell v) vals /\ Z.of_nat (length keys) < 2 ^ 64
  | Ct.String | Ct.Json =>
      exists s, b = put_string s /\ Z.of_nat (length s) <= MAX_STRING_SIZE
  | Ct.Variant _ | Ct.NewJson | Ct.Dynamic => exists s, b = put_string s
  | Ct.Point => length b = 16%nat
  | _ =>
      match fixed_size t with
      | Some k => Z.of_nat (length b) = Z.max 0 k
      | None => False
      end
  end.

(** ** Framing *)

Section framing.
Context `{Platform} `{FloatText}.

Lemma framed_reserve sz cap : framed (reserve sz cap).
Proof. apply framed_lift. Qed.

Lemma framed_read_index w : framed (read_index w).
Proof. unfold read_index, read_u8, read_u16_le, read_u32_le, read_u64_le. framed_auto. Qed.

Lemma framed_read_capped_count cap what : framed (read_capped_count cap what).
Proof. unfold read_capped_count. framed_auto. Qed.

Lemma framed_read_variant_mode : framed read_variant_mode.
Proof. unfold read_variant_mode, read_u64_le. framed_auto. Qed.

#[local] Hint Resolve framed_reserve framed_read_index framed_read_capped_count
  framed_read_variant_mode : framed.

Lemma framed_read_offsets n : framed (read_offsets n).
Proof. unfold read_offsets, read_u64_le. framed_auto. Qed.

Lemma framed_read_fixed_column n size : framed (read_fixed_column n size).
Proof. unfold read_fixed_column. framed_auto. Qed.

Lemma framed_read_string_column n : framed (read_string_column n).
Proof. unfold read_string_column. framed_auto. Qed.

#[local] Hint Resolve framed_read_offsets framed_read_fixed_column framed_read_string_column : framed.

Lemma framed_read_point_column n : framed (read_point_column n).
Proof. unfold read_point_column. framed_auto. Qed.

Lemma framed_read_names cap what spare : framed (read_names cap what spare).
Proof. unfold read_names. framed_auto. Qed.

#[local] Hint Resolve framed_read_point_column framed_read_names : framed.

Lemma framed_read_dynamic_prefix b : framed (read_dynamic_v1v2_prefix b).
Proof. unfold read_dynamic_v1v2_prefix. framed_auto. Qed.

Lemma framed_read_flat_wire_types : framed read_flat_wire_types.
Proof. unfold read_flat_wire_types. framed_auto. Qed.

Lemma framed_read_discriminators n slots width : framed (read_discriminators n slots width).
Proof. unfold read_discriminators. framed_auto. Qed.

Lemma framed_read_v2_path_types name : framed (read_v2_path_types name).
Proof. unfold read_v2_path_types, read_u64_le. framed_auto. Qed.

#[local] Hint Resolve framed_read_dynamic_prefix framed_read_flat_wire_types
  framed_read_discriminators framed_read_v2_path_types : framed.

Lemma framed_read_flat_path_types : framed read_flat_path_types.
Proof. unfold read_flat_path_types, read_u64_le. framed_auto. Qed.

#[local] Hint Resolve framed_read_flat_path_types : framed.

Variable rec : ColumnType -> Z -> Read ColumnData.
Hypothesis framed_rec : forall t n, framed (rec t n).
#[local] Hint Resolve framed_rec : framed.

Lemma framed_read_slots types counts : framed (read_slots rec types counts).
Proof. unfold read_slots. framed_auto. apply framed_map2. auto. Qed.

#[local] Hint Resolve framed_read_slots : framed.

Lemma framed_tuple_rows n rows fields : framed (tuple_rows rec n rows fields).
Proof. revert rows; induction fields; intros rows; cbn [tuple_rows]; framed_auto. Qed.

#[local] Hint Resolve framed_tuple_rows : framed.

Lemma framed_read_low_cardinality n inner : framed (read_low_cardinality_column rec n inner).
Proof. unfold read_low_cardinality_column, read_u64_le. framed_auto. Qed.

Lemma framed_read_composites n inner k v ts :
  framed (read_nullable_column rec n inner) /\ framed (read_array_column rec n inner) /\
  framed (read_map_column rec n k v) /\ framed (read_tuple_column rec n ts) /\
  framed (read_variant_column rec n ts).
Proof.
  unfold read_nullable_column, read_array_column, read_map_column, read_tuple_column,
    read_variant_column. split_and!; framed_auto.
Qed.

Lemma framed_read_dynamic_body n header : framed (read_dynamic_v1v2_body rec n header).
Proof. unfold read_dynamic_v1v2_body. framed_auto. Qed.

#[local] Hint Resolve framed_read_dynamic_body : framed.

Lemma framed_read_dynamic_column n : framed (read_dynamic_column rec n).
Proof.
  unfold read_dynamic_column, read_dynamic_v1v2_column, read_dynamic_flattened_column, read_u64_le.
  framed_auto.
Qed.

Lemma framed_read_v2_path_data n name types : framed (read_v2_path_data rec n name types).
Proof. unfold read_v2_path_data. framed_auto. Qed.

Lemma framed_read_flat_path_data n name types : framed (read_flat_path_data rec n name types).
Proof. unfold read_flat_path_data. framed_auto. Qed.

Lemma framed_read_json_body_at n version : framed (read_json_body_at rec n version).
Proof.
  unfold read_json_body_at, read_json_object_v2_column, read_json_object_flattened_column.
  framed_auto.
  - apply framed_map, Forall_forall. auto with framed.
  - apply framed_map2. intros. apply framed_read_v2_path_data.
  - apply framed_map2. intros. apply framed_read_flat_path_data.
Qed.

#[local] Hint Resolve framed_read_json_body_at : framed.

Lemma framed_read_json_column n : framed (read_json_column rec n).
Proof. unfold read_json_column, read_u64_le. framed_auto. Qed.

End framing.

Section framed_columns.
Context `{Platform} `{FloatText}.

Lemma framed_read_column_at left t n : framed (read_column_at left t n).
Proof.
  revert t n; induction left as [|left IH]; intros t n; cbn [read_column_at]; [apply framed_fail|].
  destruct (_ && _); [apply framed_ret|].
  pose proof (fun inner k v ts => framed_read_composites (read_column_at left) IH n inner k v ts) as Hc.
  destruct t; try apply IH; try apply (Hc _ Ct.Point Ct.Point []); try apply (Hc Ct.Point _ _ []);
    try apply (Hc Ct.Point Ct.Point Ct.Point);
    try (apply framed_bind; [apply framed_lift|intros; apply framed_read_fixed_column]).
  - apply framed_read_string_column.
  - apply framed_read_fixed_column.
  - by apply framed_read_low_cardinality.
  - apply framed_read_string_column.
  - apply framed_read_point_column.
  - by apply framed_read_json_column.
  - by apply framed_read_dynamic_column.
Qed.

Lemma framed_read_column_data t n : framed (read_column_data t n).
Proof. apply framed_read_column_at. Qed.

Lemma framed_read_json_body n version : framed (read_json_body n version).
Proof. apply framed_read_json_body_at, framed_read_column_at. Qed.

Lemma framed_read_dynamic_body_at n header depth : framed (read_dynamic_body_at n header depth).
Proof. apply framed_read_dynamic_body, framed_read_column_at. Qed.

End framed_columns.

#[export] Hint Resolve framed_reserve framed_read_variant_mode framed_read_dynamic_prefix
  framed_read_column_data framed_read_json_body framed_read_dynamic_body_at : framed.

(** ** Every cell is one RowBinary value *)

(** The postcondition of a reader of [n] rows of type [t]. *)
Definition cells_of (t : ColumnType) (n : Z) (cells : ColumnData) : Prop :=
  Z.of_nat (length cells) = n /\ Forall (rb_cell t) cells.

Lemma Forall_zip_with {A B C} (P : A -> Prop) (Q : B -> Prop) (R : C -> Prop) (f : A -> B -> C) l1 l2 :
  (forall a b, P a -> Q b -> R (f a b)) -> Forall P l1 -> Forall Q l2 -> Forall R (zip_with f l1 l2).
Proof.
  intros Hf H1. revert l2; induction H1 as [|a l1 Ha H1 IH]; intros l2 H2; [constructor|].
  destruct H2 as [|b l2 Hb H2]; simpl; constructor; auto.
Qed.

Lemma slice_length {A} (l : list A) start len :
  (start + len <= length l)%nat -> length (slice start len l) = len.
Proof. intros Hl. unfold slice. rewrite length_take, length_drop. lia. Qed.

Lemma Forall_slice {A} (P : A -> Prop) start len l : Forall P l -> Forall P (slice start len l).
Proof. intros Hl. unfold slice. by apply Forall_take, Forall_drop. Qed.

Lemma slice_zip_with {A B C} (f : A -> B -> C) start len l1 l2 :
  slice start len (zip_with f l1 l2) = zip_with f (slice start len l1) (slice start len l2).
Proof. unfold slice. by rewrite zip_with_drop, zip_with_take. Qed.

Section cells.
Context `{Platform} `{FloatText}.

Lemma yields_read_le n : yields (read_le n) (fun v => 0 <= v < 2 ^ (8 * Z.of_nat n)).
Proof. intros bs v rest Hr. by eapply read_le_range. Qed.

Lemma yields_read_exact_grown n : yields (read_exact_grown n) (fun b => Z.of_nat (length b) = Z.max 0 n).
Proof. intros bs v rest Hr. by apply read_exact_grown_length in Hr as [? _]. Qed.

Lemma yields_read_offsets n :
  0 <= n ->
  yields (read_offsets n) (fun l => Z.of_nat (length l) = n /\ Forall (fun x => 0 <= x < 2 ^ 64) l).
Proof.
  intros Hn. apply yields_bind_; intros _.
  eapply yields_impl; [apply yields_repeat, (yields_read_le 8)|]. cbn. intros l [Hl Hall].
  split; [lia|done].
Qed.

Lemma yields_fixed_column n size :
  0 <= n ->
  yields (read_fixed_column n size)
    (fun cs => Z.of_nat (length cs) = n /\ Forall (fun b => Z.of_nat (length b) = Z.max 0 size) cs).
Proof.
  intros Hn. apply yields_bind_; intros _.
  eapply yields_impl; [apply yields_repeat, yields_read_exact_grown|]. cbn. intros l [Hl Hall].
  split; [lia|done].
Qed.

Lemma yields_string_column n :
  0 <= n -> yields (read_string_column n) (cells_of Ct.String n).
Proof.
  intros Hn. apply yields_bind_; intros _.
  eapply yields_impl; [apply yields_repeat|].
  - eapply yields_bind; [intros bs s rest Hs; exact (read_string_length _ _ _ Hs)|].
    intros s Hs. apply yields_ret. instantiate (1 := rb_cell Ct.String). exists s. done.
  - intros l [Hl Hall]. split; [lia|done].
Qed.

Lemma yields_point_column n : 0 <= n -> yields (read_point_column n) (cells_of Ct.Point n).
Proof.
  intros Hn. eapply yields_bind; [by apply yields_fixed_column|]. cbv beta; intros xs [Hx Hxs].
  eapply yields_bind; [by apply yields_fixed_column|]. cbv beta; intros ys [Hy Hys].
  apply yields_ret. split; [rewrite length_zip_with; lia|].
  eapply Forall_zip_with; [|exact Hxs|exact Hys]. simpl. intros a b Ha Hb. rewrite length_app. lia.
Qed.

(** The rows behind a list of end-offsets. *)
Lemma span_rows_ok what prev cells offsets rows :
  0 <= prev -> Forall (fun x => 0 <= x < 2 ^ 64) offsets ->
  span_rows what prev cells offsets = Ok rows ->
  Forall2 (fun _ row => exists start len : nat,
    (start + len <= length cells)%nat /\ Z.of_nat len < 2 ^ 64 /\
    row = put_var_uint (Z.of_nat len) ++ concat (slice start len cells)) offsets rows.
Proof.
  intros Hprev Hoff. revert prev Hprev rows; induction Hoff as [|fin offsets Hf Hoff IH];
    intros prev Hprev rows; cbn [span_rows]; [intros; simplify_eq; constructor|].
  intros Hr. apply bind_Ok_inv in Hr as (fin' & Hc & Hr). unfold checked_span in Hc.
  destruct (Z.ltb_spec fin prev), (Z.ltb_spec (Z.of_nat (length cells)) fin); simpl in Hc; try discriminate.
  injection Hc as <-. apply bind_Ok_inv in Hr as (rs & Hrs & Hr). apply Ok_inj in Hr as <-.
  constructor; [|by eapply IH; [|exact Hrs]; lia].
  exists (Z.to_nat prev), (Z.to_nat (fin - prev)). split_and!; [lia|lia|].
  by rewrite Z2Nat.id by lia.
Qed.

Lemma variant_rows_cells is_null cell cursors ds :
  length (variant_rows is_null cell cursors ds) = length ds /\
  Forall (fun b => exists s, b = put_string s) (variant_rows is_null cell cursors ds).
Proof.
  revert cursors; induction ds as [|d ds IH]; intros cursors; [done|]. cbn [variant_rows].
  destruct (is_null d); [destruct (IH cursors)|destruct (IH (alter S d cursors))]; (split; [simpl; lia|]);
    constructor; try done; eexists; reflexivity.
Qed.

Lemma object_rows_cells rows row_i paths cursors :
  length (object_rows rows row_i paths cursors) = rows /\
  Forall (fun b => exists s, b = put_string s) (object_rows rows row_i paths cursors).
Proof.
  revert row_i cursors; induction rows as [|rows IH]; intros row_i cursors; [done|].
  cbn [object_rows]. destruct (object_members _ _ _ _ _) as [json cs].
  destruct (IH (S row_i) cs). split; [simpl; lia|]. constructor; [|done]. eexists; reflexivity.
Qed.

Lemma discriminator_bytes_length bytes : length (discriminator_bytes bytes) = length bytes.
Proof. apply length_map. Qed.

Variable rec : ColumnType -> Z -> Read ColumnData.
Hypothesis rec_cells : forall t n, 0 <= n -> yields (rec t n) (cells_of t n).

Lemma yields_nullable n inner :
  0 <= n -> yields (read_nullable_column rec n inner) (cells_of (Ct.Nullable inner) n).
Proof.
  intros Hn. eapply yields_bind; [apply yields_read_exact_grown|]. cbv beta; intros flags Hf.
  eapply yields_bind; [by apply rec_cells|]. cbv beta; intros cs [Hl Hcs].
  apply yields_bind_; intros _. apply yields_ret. split; [rewrite length_zip_with; lia|].
  eapply (Forall_zip_with (fun _ => True)); [|by apply Forall_true|exact Hcs].
  intros flag v _ Hv. unfold nullable_cell. destruct (negb _); [by left|]. right. eauto.
Qed.

Lemma lc_cell_ok dict dict_type is_nullable idx cell inner :
  lc_dict_type inner = (dict_type, is_nullable) -> Forall (rb_cell dict_type) dict ->
  lc_cell dict is_nullable idx = Ok cell -> rb_cell (Ct.LowCardinality inner) cell.
Proof.
  intros Hd Hall. unfold lc_cell.
  assert (Hlk : forall e c, ok_or (dict !! Z.to_nat idx) e = @Ok Error _ c -> rb_cell dict_type c).
  { intros e c. destruct (dict !! Z.to_nat idx) as [v|] eqn:E; [|discriminate]. intros; simplify_eq/=.
    by eapply Forall_lookup_1. }
  destruct inner; simpl in Hd; simplify_eq; cbn [rb_cell]; try apply Hlk.
  destruct (idx =? 0); [intros; simplify_eq; by left|].
  intros Hr. apply bind_Ok_inv in Hr as (v & Hv & Hr). simplify_eq. right. eauto.
Qed.

Lemma yields_low_cardinality n inner :
  0 <= n -> yields (read_low_cardinality_column rec n inner) (cells_of (Ct.LowCardinality inner) n).
Proof.
  intros Hn. apply yields_bind_; intros st. cbv zeta.
  destruct (lc_dict_type inner) as [dict_type is_nullable] eqn:Hd.
  destruct (negb (Z.land st 0x100 =? 0)); [apply yields_fail|].
  destruct (negb (negb (Z.land st 0x200 =? 0))); [apply yields_fail|].
  eapply yields_bind; [apply (yields_read_le 8)|]. cbv beta; intros size Hsize.
  eapply yields_bind; [apply rec_cells; lia|]. cbv beta; intros dict [_ Hdict].
  apply yields_bind_; intros num. destruct (negb _); [apply yields_fail|].
  apply yields_bind_; intros _. eapply yields_impl; [apply yields_repeat|].
  - apply yields_bind_; intros idx. apply yields_lift. intros cell Hc.
    exact (lc_cell_ok _ _ _ _ _ _ Hd Hdict Hc).
  - intros l [Hl Hall]. split; [lia|exact Hall].
Qed.

Lemma last_range (l : list Z) : Forall (fun x => 0 <= x < 2 ^ 64) l -> 0 <= default 0 (last l).
Proof.
  intros Hl. destruct (last l) as [x|] eqn:E; simpl; [|lia].
  apply last_Some_elem_of in E. rewrite Forall_forall in Hl. apply Hl in E. lia.
Qed.

Lemma yields_array n inner :
  0 <= n -> yields (read_array_column rec n inner) (cells_of (Ct.Array inner) n).
Proof.
  intros Hn. eapply yields_bind; [by apply yields_read_offsets|]. cbv beta; intros offs [Hl Hoff].
  eapply yields_bind; [by apply rec_cells, last_range|]. cbv beta; intros cs [_ Hcs].
  apply yields_bind_; intros _. apply yields_lift. intros rows Hr.
  apply span_rows_ok in Hr; [|lia|done]. split; [by rewrite <- (Forall2_length _ _ _ Hr)|].
  apply Forall2_right in Hr.
  eapply Forall_impl; [exact Hr|]. intros row (? & _ & start & len & Hsl & Hlen & ->).
  exists (slice start len cs). rewrite slice_length by done. split; [done|].
  split; [by apply Forall_slice|done].
Qed.

Lemma yields_map_column n k v :
  0 <= n -> yields (read_map_column rec n k v) (cells_of (Ct.Map k v) n).
Proof.
  intros Hn. eapply yields_bind; [by apply yields_read_offsets|]. cbv beta; intros offs [Hl Hoff].
  eapply yields_bind; [by apply rec_cells, last_range|]. cbv beta; intros ks [Hkl Hks].
  eapply yields_bind; [by apply rec_cells, last_range|]. cbv beta; intros vs [Hvl Hvs].
  apply yields_bind_; intros _. apply yields_lift. intros rows Hr.
  apply span_rows_ok in Hr; [|lia|done]. split; [by rewrite <- (Forall2_length _ _ _ Hr)|].
  apply Forall2_right in Hr.
  eapply Forall_impl; [exact Hr|]. intros row (? & _ & start & len & Hsl & Hlen & ->).
  rewrite length_zip_with in Hsl. rewrite slice_zip_with.
  exists (slice start len ks), (slice start len vs). rewrite !slice_length by lia.
  split_and!; [done|done|by apply Forall_slice..|done].
Qed.

Lemma tuple_rows_ok n rows fields :
  Z.of_nat (length rows) = n ->
  yields (tuple_rows rec n rows fields) (fun rows' =>
    Forall2 (fun r r' => exists cs, r' = r ++ concat cs /\ rb_all2 rb_cell fields cs) rows rows').
Proof.
  revert rows; induction fields as [|t fields IH]; intros rows Hl; cbn [tuple_rows].
  - apply yields_ret. induction rows as [|r rows IHr] in n, Hl |- *; constructor; [|by eapply IHr].
    exists []. simpl. by rewrite app_nil_r.
  - eapply yields_bind; [apply rec_cells; lia|]. cbv beta; intros data [Hd Hall].
    eapply yields_impl; [apply IH; rewrite length_zip_with; lia|]. cbn. intros rows' Hrows.
    clear IH. revert data rows' Hd Hall Hrows. induction rows as [|r rows IHr] in n, Hl |- *;
      intros [|c data] rows' Hd Hall Hrows; simpl in *; try lia.
    + by apply Forall2_nil_inv_l in Hrows as ->.
    + apply Forall2_cons_inv_l in Hrows as (r' & rs' & (cs & -> & Hcs) & Hrs & ->).
      apply Forall_cons in Hall as [Hc Hall]. constructor.
      * exists (c :: cs). simpl. by rewrite <- app_assoc.
      * eapply (IHr (n - 1)); [lia| |exact Hall|exact Hrs]. lia.
Qed.

Lemma yields_tuple n ts :
  0 <= n -> yields (read_tuple_column rec n ts) (cells_of (Ct.Tuple ts) n).
Proof.
  intros Hn. apply yields_bind_; intros _.
  eapply yields_impl; [apply tuple_rows_ok; rewrite length_replicate; lia|]. cbn. intros rows Hr.
  split; [apply Forall2_length in Hr; rewrite length_replicate in Hr; lia|].
  apply Forall2_right in Hr.
  eapply Forall_impl; [exact Hr|]. intros row (r & Hin & cs & -> & Hcs).
  apply elem_of_replicate in Hin as [-> _]. by exists cs.
Qed.

Lemma yields_variant n ts :
  0 <= n -> yields (read_variant_column rec n ts) (cells_of (Ct.Variant ts) n).
Proof.
  intros Hn. unfold read_variant_column. cbv zeta. destruct (_ <? _); [apply yields_fail|].
  eapply yields_bind; [apply yields_read_exact_grown|]. cbv beta; intros bytes Hb.
  apply yields_bind_; intros values. apply yields_bind_; intros _. apply yields_ret.
  match goal with |- cells_of _ _ (variant_rows ?a ?b ?c ?d) =>
    destruct (variant_rows_cells a b c d) as [Hl Hall] end.
  rewrite discriminator_bytes_length in Hl. split; [lia|exact Hall].
Qed.

Lemma yields_dynamic_body n header :
  0 <= n -> yields (read_dynamic_v1v2_body rec n header) (cells_of Ct.Dynamic n).
Proof.
  intros Hn. unfold read_dynamic_v1v2_body. apply yields_bind_; intros types. cbv zeta.
  eapply yields_bind; [apply yields_read_exact_grown|]. cbv beta; intros bytes Hb.
  apply yields_bind_; intros values. apply yields_bind_; intros _. apply yields_ret.
  match goal with |- cells_of _ _ (variant_rows ?a ?b ?c ?d) =>
    destruct (variant_rows_cells a b c d) as [Hl Hall] end.
  rewrite discriminator_bytes_length in Hl. split; [lia|exact Hall].
Qed.

Lemma yields_discriminators n slots width :
  0 <= n -> yields (read_discriminators n slots width) (fun dc => Z.of_nat (length dc.1) = n).
Proof.
  intros Hn. apply yields_bind_; intros _.
  eapply yields_bind; [apply yields_repeat, yields_any|]. cbv beta; intros ds [Hl _].
  apply yields_ret. simpl. lia.
Qed.

Lemma yields_dynamic n : 0 <= n -> yields (read_dynamic_column rec n) (cells_of Ct.Dynamic n).
Proof.
  intros Hn. apply yields_bind_; intros version.
  destruct (version =? 1); [by apply yields_bind_; intros header; apply yields_dynamic_body|].
  destruct (version =? 2); [by apply yields_bind_; intros header; apply yields_dynamic_body|].
  destruct (version =? 3); [|apply yields_fail].
  apply yields_bind_; intros types. cbv zeta.
  eapply yields_bind; [by apply yields_discriminators|]. cbv beta; intros [ds counts] Hd.
  apply yields_bind_; intros values. apply yields_bind_; intros _. apply yields_ret.
  match goal with |- cells_of _ _ (variant_rows ?a ?b ?c ?d) =>
    destruct (variant_rows_cells a b c d) as [Hl Hall] end.
  simpl in Hd. split; [lia|exact Hall].
Qed.

Lemma yields_object_rows n paths cursors :
  0 <= n -> yields (mret (object_rows (Z.to_nat n) 0 paths cursors) : Read _) (cells_of Ct.NewJson n).
Proof.
  intros Hn. apply yields_ret. destruct (object_rows_cells (Z.to_nat n) 0 paths cursors).
  split; [lia|done].
Qed.

Lemma yields_json_body n version :
  0 <= n -> yields (read_json_body_at rec n version) (cells_of Ct.NewJson n).
Proof.
  intros Hn. unfold read_json_body_at. destruct (version =? JSON_SERIALIZATION_STRING).
  { eapply yields_impl; [by apply yields_string_column|]. intros cs [Hl Hall]. split; [done|].
    eapply Forall_impl; [exact Hall|]. intros c (s & -> & _). by exists s. }
  destruct (version =? 2); [|destruct (version =? 3); [|apply yields_fail]];
    repeat (apply yields_bind_; intros ?; cbv zeta); by apply yields_object_rows.
Qed.

End cells.

Lemma yields_sized `{Platform} n k e :
  0 <= n ->
  yields (size ← rd_lift (ok_or (Some k) e); read_fixed_column n size)
    (fun cs => Z.of_nat (length cs) = n /\ Forall (fun b => Z.of_nat (length b) = Z.max 0 k) cs).
Proof.
  intros Hn. eapply (yields_bind (fun s => s = k)); [apply yields_lift; intros a Ha; by apply Ok_inj in Ha|].
  intros a ->. by apply yields_fixed_column.
Qed.

Lemma yields_read_column_at `{Platform} `{FloatText} left t n :
  0 <= n -> yields (read_column_at left t n) (cells_of t n).
Proof.
  revert t n; induction left as [|left IH]; intros t n Hn; cbn [read_column_at]; [apply yields_fail|].
  cbv zeta. destruct (_ && (n =? 0)) eqn:E0.
  { apply andb_true_iff in E0 as [_ ->%Z.eqb_eq]. by apply yields_ret. }
  destruct t; cbn [fixed_size]; try by apply yields_sized.
  - by apply yields_string_column.
  - by apply yields_fixed_column.
  - by apply yields_nullable.
  - by apply yields_low_cardinality.
  - eapply yields_impl; [by apply IH|]. intros cs [Hl Hall]. split; [done|exact Hall].
  - by apply yields_array.
  - by apply yields_tuple.
  - by apply yields_map_column.
  - by apply yields_string_column.
  - by apply yields_point_column.
  - by apply yields_variant.
  - apply yields_bind_; intros version. by apply yields_json_body.
  - by apply yields_dynamic.
Qed.

(** ** Properties *)

(** whatever bytes arrive, a column reader that succeeds has produced exactly
    one cell per row, and every cell is one RowBinary value of the column's
    type: what [rowbinary] deserialises and [rb_advance] steps over. *)
Theorem read_column_cells `{Platform} `{FloatText} t n bs cells rest :
  0 <= n -> read_column_data t n bs = Ok (cells, rest) ->
  Z.of_nat (length cells) = n /\ Forall (rb_cell t) cells.
Proof. intros Hn Hr. by eapply yields_read_column_at. Qed.

Definition no_floats : FloatText := fun _ => [].

Lemma read_column_cells_witness :
  Forall (rb_cell (Ct.Tuple [Ct.Nullable Ct.UInt8; Ct.String])) [[x00; x05; x02; x68; x69]].
Proof.
  refine (proj2 (@read_column_cells roomy no_floats
    (Ct.Tuple [Ct.Nullable Ct.UInt8; Ct.String]) 1 [x00; x05; x02; x68; x69] _ [] _ _)); [lia|].
  vm_compute. reflexivity.
Defined.

(** a column reader consumes exactly the bytes of its column: what follows on
    the stream changes neither the cells nor the bytes taken, so the next
    column of the block starts where this one ends. *)
Theorem read_column_framed `{Platform} `{FloatText} t n bs cells rest :
  read_column_data t n bs = Ok (cells, rest) ->
  exists used, bs = used ++ rest /\
    forall tail, read_column_data t n (used ++ tail) = Ok (cells, tail).
Proof. exact (framed_read_column_data t n bs cells rest). Qed.

Lemma read_column_framed_witness :
  exists used, [x00; x05; x02; x68; x69; xff] = used ++ [xff] /\
    forall tail, @read_column_data roomy no_floats (Ct.Tuple [Ct.Nullable Ct.UInt8; Ct.String]) 1
      (used ++ tail) = Ok ([[x00; x05; x02; x68; x69]], tail).
Proof.
  refine (@read_column_framed roomy no_floats (Ct.Tuple [Ct.Nullable Ct.UInt8; Ct.String]) 1
    [x00; x05; x02; x68; x69; xff] [[x00; x05; x02; x68; x69]] [xff] _).
  vm_compute. reflexivity.
Defined.
