(* ===== verification/Decode.v ===== *)
(** * The block decoder

    Models [src/native/decode.rs]: the runtime-typed column, its row count and
    sparse expansion, the typed reads of a block, and the decoder of a Native
    block off the wire. Integers are [Z] in the range of their width, floats
    their bit patterns. [decode_column] recurses on the type; the only types
    that come off the wire inside it are read by [Columns]. The revision it
    passes down in the source is read by none of its arms and is left out. *)

From S2P Require Import Prelude Text Errors WireIo Sparse ColTypes Json Columns.

Module Dc.

Inductive DecodedColumn :=
| UInt8 (v : list Z) | UInt16 (v : list Z) | UInt32 (v : list Z) | UInt64 (v : list Z)
| Int8 (v : list Z) | Int16 (v : list Z) | Int32 (v : list Z) | Int64 (v : list Z)
| Int128 (v : list Z) | UInt128 (v : list Z)
| Int256 (v : list (list byte)) | UInt256 (v : list (list byte))
| Float32 (v : list Z) | Float64 (v : list Z)
| Decimal32 (precision scale : Z) (values : list Z)
| Decimal64 (precision scale : Z) (values : list Z)
| Decimal128 (precision scale : Z) (values : list Z)
| Decimal256 (precision scale : Z) (values : list (list byte))
| String (v : list (list byte))
| Json (v : list (list byte))
| FixedString (width : Z) (bytes : list byte)
| Date (v : list Z) | Date32 (v : list Z) | DateTime (v : list Z)
| DateTime64 (precision : Z) (timezone : option text) (values : list Z)
| Uuid (v : list (list byte)) | Ipv4 (v : list Z) | Ipv6 (v : list (list byte))
| Nullable (mask : list byte) (child : DecodedColumn)
| Array (offsets : list Z) (child : DecodedColumn)
| LowCardinality (dict indices : DecodedColumn) (is_nullable_inner : bool)
| Tuple (fields : list DecodedColumn)
| Map (offsets : list Z) (keys values : DecodedColumn)
| Unsupported (label : text).

End Dc.

Abbreviation DecodedColumn := Dc.DecodedColumn.

(** ** Constants and error texts *)

Definition MAX_DECODE_DEPTH : nat := 32.
Definition MAX_BLOCK_ROWS : Z := 2 ^ 28.
Definition MAX_BLOCK_COLUMNS : Z := 2 ^ 16.
Definition DBMS_MIN_PROTOCOL_VERSION_WITH_CUSTOM_SERIALIZATION : Z := 54454.

Definition refused (what : text) (got cap : Z) : Error :=
  BadResponse (str "native: block declares " ++ show got ++ str " " ++ what ++ str ", above the " ++
    show cap ++ str " cap").

Definition decode_nesting_error : Error :=
  BadResponse (str "native: column type nesting exceeds " ++ show (Z.of_nat MAX_DECODE_DEPTH) ++
    str " levels").

(** ** The decoded column *)

(** [DecodedColumn::row_count]. *)
Fixpoint row_count (c : DecodedColumn) : Z :=
  match c with
  | Dc.UInt8 v | Dc.UInt16 v | Dc.UInt32 v | Dc.UInt64 v | Dc.Int8 v | Dc.Int16 v | Dc.Int32 v
  | Dc.Int64 v | Dc.Int128 v | Dc.UInt128 v | Dc.Float32 v | Dc.Float64 v | Dc.Date v
  | Dc.Date32 v | Dc.DateTime v | Dc.Ipv4 v => Z.of_nat (length v)
  | Dc.Int256 v | Dc.UInt256 v | Dc.Uuid v | Dc.Ipv6 v => Z.of_nat (length v)
  | Dc.Decimal32 _ _ values | Dc.Decimal64 _ _ values | Dc.Decimal128 _ _ values
  | Dc.DateTime64 _ _ values => Z.of_nat (length values)
  | Dc.Decimal256 _ _ values => Z.of_nat (length values)
  | Dc.String v | Dc.Json v => Z.of_nat (length v)
  | Dc.FixedString width bytes => if width =? 0 then 0 else Z.of_nat (length bytes) / width
  | Dc.Nullable mask _ => Z.of_nat (length mask)
  | Dc.Array offsets _ | Dc.Map offsets _ _ => Z.of_nat (length offsets)
  | Dc.LowCardinality _ indices _ => row_count indices
  | Dc.Tuple fields => match fields with [] => 0 | f :: _ => row_count f end
  | Dc.Unsupported _ => 0
  end.

(** [DecodedColumn::type_label]. *)
Definition type_label (c : DecodedColumn) : text :=
  match c with
  | Dc.Nullable _ _ => str "a Nullable column"
  | Dc.Array _ _ => str "an Array column"
  | Dc.LowCardinality _ _ _ => str "a LowCardinality column"
  | Dc.Tuple _ => str "a Tuple column"
  | Dc.Map _ _ _ => str "a Map column"
  | Dc.Unsupported _ => str "an unsupported column"
  | _ => str "this column"
  end.

Section sparse.
Context `{Platform}.

(** [scatter_values], [sz] the size of an element. *)
Definition scatter_values {T} (sz : Z) (values : list T) (positions : list Z) (num_rows : Z)
    (default : T) : Result (list T) :=
  _ ← with_cap sz num_rows;
  Ok (fold_left (fun out '(value, row) => <[Z.to_nat row := value]> out) (zip values positions)
        (replicate (Z.to_nat num_rows) default)).

(** The copy loop of the [FixedString] arm: the [width] bytes of value [i] over
    those of row [positions[i]]. *)
Fixpoint scatter_bytes (width : nat) (bytes : list byte) (positions : list Z) (out : list byte)
    : list byte :=
  match positions with
  | [] => out
  | row :: positions' =>
      let at_ := (Z.to_nat row * width)%nat in
      scatter_bytes width (drop width bytes) positions'
        (take at_ out ++ take width bytes ++ drop (at_ + width) out)
  end.

Definition zeros (n : nat) : list byte := replicate n x00.

(** [DecodedColumn::expand_sparse]. *)
Definition expand_sparse (c : DecodedColumn) (positions : list Z) (num_rows : Z)
    : Result DecodedColumn :=
  if negb (row_count c =? Z.of_nat (length positions)) then
    Err (BadResponse (str "native: sparse column has " ++ show (row_count c) ++ str " values for " ++
           show (Z.of_nat (length positions)) ++ str " positions"))
  else match List.find (fun p => num_rows <=? p) positions with
  | Some past =>
      Err (BadResponse (str "native: sparse position " ++ show past ++ str " is past the block's " ++
             show num_rows ++ str " rows"))
  | None =>
    let ints sz v := scatter_values sz v positions num_rows 0 in
    let raws sz v zero := scatter_values sz v positions num_rows zero in
    match c with
    | Dc.UInt8 v => Dc.UInt8 <$> ints 1 v
    | Dc.UInt16 v => Dc.UInt16 <$> ints 2 v
    | Dc.UInt32 v => Dc.UInt32 <$> ints 4 v
    | Dc.UInt64 v => Dc.UInt64 <$> ints 8 v
    | Dc.Int8 v => Dc.Int8 <$> ints 1 v
    | Dc.Int16 v => Dc.Int16 <$> ints 2 v
    | Dc.Int32 v => Dc.Int32 <$> ints 4 v
    | Dc.Int64 v => Dc.Int64 <$> ints 8 v
    | Dc.Int128 v => Dc.Int128 <$> ints 16 v
    | Dc.UInt128 v => Dc.UInt128 <$> ints 16 v
    | Dc.Int256 v => Dc.Int256 <$> raws 32 v (zeros 32)
    | Dc.UInt256 v => Dc.UInt256 <$> raws 32 v (zeros 32)
    | Dc.Float32 v => Dc.Float32 <$> ints 4 v
    | Dc.Float64 v => Dc.Float64 <$> ints 8 v
    | Dc.String v => Dc.String <$> raws sizeof_Vec v []
    | Dc.Json v => Dc.Json <$> raws sizeof_Vec v []
    | Dc.Date v => Dc.Date <$> ints 2 v
    | Dc.Date32 v => Dc.Date32 <$> ints 4 v
    | Dc.DateTime v => Dc.DateTime <$> ints 4 v
    | Dc.Ipv4 v => Dc.Ipv4 <$> ints 4 v
    | Dc.Uuid v => Dc.Uuid <$> raws 16 v (zeros 16)
    | Dc.Ipv6 v => Dc.Ipv6 <$> raws 16 v (zeros 16)
    | Dc.Decimal32 precision scale values => Dc.Decimal32 precision scale <$> ints 4 values
    | Dc.Decimal64 precision scale values => Dc.Decimal64 precision scale <$> ints 8 values
    | Dc.Decimal128 precision scale values => Dc.Decimal128 precision scale <$> ints 16 values
    | Dc.Decimal256 precision scale values =>
        Dc.Decimal256 precision scale <$> raws 32 values (zeros 32)
    | Dc.DateTime64 precision timezone values => Dc.DateTime64 precision timezone <$> ints 8 values
    | Dc.FixedString width bytes =>
        let total := num_rows * width in
        if 2 ^ 64 <=? total then
          Err (BadResponse (str "native: sparse FixedString byte length overflows usize"))
        else
          _ ← with_cap 1 total;
          Ok (Dc.FixedString width
                (scatter_bytes (Z.to_nat width) bytes positions (zeros (Z.to_nat total))))
    | other => Err (BadResponse (str "native: " ++ type_label other ++ str " cannot be sparse-serialised"))
    end
  end.

End sparse.

(** ** The decoded block and its typed reads *)

Record DecodedBlock := {
  columns : list DecodedColumn;
  schema : list (text * text);
  num_rows : Z
}.

(** [iter().position(|(n, _)| n == name)]. *)
Fixpoint position_of (name : text) (schema : list (text * text)) : option nat :=
  match schema with
  | [] => None
  | (n, _) :: schema' => if bool_decide (n = name) then Some 0%nat else S <$> position_of name schema'
  end.

(** [DecodedBlock::column]. *)
Definition column (b : DecodedBlock) (name : text) : option DecodedColumn :=
  index ← position_of name (schema b); columns b !! index.

(** The trait [FromColumn]: the values of a column as [T], given the column's
    name and type name for the mismatch error. *)
Class FromColumn (T : Type) := from_column : DecodedColumn -> text -> text -> Result (list T).

Definition wrong_type (name type_name expected : text) : Error :=
  SchemaMismatch (str "native: column '" ++ name ++ str "' is " ++ type_name ++
    str ", which does not read as " ++ expected).

(** [std::str::from_utf8(v)?.to_owned()]. *)
Definition utf8_text (v : list byte) : Result text :=
  if utf8_valid v then Ok v else Err (InvalidUtf8Encoding (valid_up_to v)).

(** [impl FromColumn for String] and [for Vec<u8>]. *)
Definition from_column_string : FromColumn text := fun column name type_name =>
  match column with
  | Dc.String values | Dc.Json values => map_res utf8_text values
  | _ => Err (wrong_type name type_name (str "String"))
  end.
Definition from_column_bytes : FromColumn (list byte) := fun column name type_name =>
  match column with
  | Dc.String values | Dc.Json values => Ok values
  | _ => Err (wrong_type name type_name (str "String"))
  end.

(** The rows of [from_column_backing!]: [backing] lists the variants a route reads. *)
Definition from_backing {T} (backing : DecodedColumn -> option (list T)) (label : text)
    : FromColumn T := fun column name type_name =>
  ok_or (backing column) (wrong_type name type_name label).

Definition from_column_u8 : FromColumn Z := from_backing
  (fun c => match c with Dc.UInt8 v => Some v | _ => None end) (str "UInt8").
Definition from_column_u16 : FromColumn Z := from_backing
  (fun c => match c with Dc.UInt16 v | Dc.Date v => Some v | _ => None end) (str "UInt16").
Definition from_column_u32 : FromColumn Z := from_backing
  (fun c => match c with Dc.UInt32 v | Dc.DateTime v | Dc.Ipv4 v => Some v | _ => None end) (str "UInt32").
Definition from_column_u64 : FromColumn Z := from_backing
  (fun c => match c with Dc.UInt64 v => Some v | _ => None end) (str "UInt64").
Definition from_column_u128 : FromColumn Z := from_backing
  (fun c => match c with Dc.UInt128 v => Some v | _ => None end) (str "UInt128").
Definition from_column_i8 : FromColumn Z := from_backing
  (fun c => match c with Dc.Int8 v => Some v | _ => None end) (str "Int8").
Definition from_column_i16 : FromColumn Z := from_backing
  (fun c => match c with Dc.Int16 v => Some v | _ => None end) (str "Int16").
Definition from_column_i32 : FromColumn Z := from_backing
  (fun c => match c with Dc.Int32 v | Dc.Date32 v | Dc.Decimal32 _ _ v => Some v | _ => None end)
  (str "Int32").
Definition from_column_i64 : FromColumn Z := from_backing
  (fun c => match c with Dc.Int64 v | Dc.DateTime64 _ _ v | Dc.Decimal64 _ _ v => Some v | _ => None end)
  (str "Int64").
Definition from_column_i128 : FromColumn Z := from_backing
  (fun c => match c with Dc.Int128 v | Dc.Decimal128 _ _ v => Some v | _ => None end) (str "Int128").
Definition from_column_f32 : FromColumn Z := from_backing
  (fun c => match c with Dc.Float32 v => Some v | _ => None end) (str "Float32").
Definition from_column_f64 : FromColumn Z := from_backing
  (fun c => match c with Dc.Float64 v => Some v | _ => None end) (str "Float64").
Definition from_column_256 : FromColumn (list byte) := from_backing
  (fun c => match c with Dc.Int256 v | Dc.UInt256 v | Dc.Decimal256 _ _ v => Some v | _ => None end)
  (str "a 256-bit column").
Definition from_column_16 : FromColumn (list byte) := from_backing
  (fun c => match c with Dc.Uuid v | Dc.Ipv6 v => Some v | _ => None end) (str "a 16-byte column").

(** [impl FromColumn for bool] and [for Option<T>]. *)
Definition from_column_bool : FromColumn bool := fun column name type_name =>
  match column with
  | Dc.UInt8 values => Ok (map (fun b => negb (b =? 0)) values)
  | _ => Err (wrong_type name type_name (str "Bool"))
  end.
#[export] Instance from_column_option {T} `{FromColumn T} : FromColumn (option T) :=
  fun column name type_name =>
  match column with
  | Dc.Nullable mask child =>
      values ← from_column child name type_name;
      Ok (zip_with (fun is_null v => if u8 is_null =? 0 then Some v else None) mask values)
  | _ => Err (wrong_type name type_name (str "a Nullable column"))
  end.

(** [DecodedBlock::column_as]. *)
Definition column_as {T} `{FromColumn T} (b : DecodedBlock) (name : text) : Result (list T) :=
  match schema b with
  | [] => Ok []
  | _ =>
      index ← ok_or (position_of name (schema b))
        (SchemaMismatch (str "native: block declares no column '" ++ name ++ str "'"));
      match columns b !! index with
      | Some column => from_column column name (default [] (snd <$> schema b !! index))
      | None => Ok []
      end
  end.

(** ** Reading a block *)

Section decode.
Context `{Platform} `{FloatText}.

(** [read_le_column] at width [w], [conv] the value of the [w] bytes' integer. *)
Definition read_le_column (w : nat) (conv : Z -> Z) (n : Z) : Read (list Z) :=
  let total := n * Z.of_nat w in
  if 2 ^ 64 <=? total then
    rd_fail (BadResponse (str "native: numeric column byte length overflows usize"))
  else
    raw ← read_exact_grown total;
    _ ← reserve (Z.of_nat w) n;
    mret (map (fun b => conv (le_combine b)) (chunks_exact (Z.to_nat n) w raw)).

Definition unsigned (z : Z) : Z := z.
Definition signed (w : nat) : Z -> Z := wrap_signed (8 * Z.of_nat w).

(** [read_u256_column]. *)
Definition read_u256_column (n : Z) : Read (list (list byte)) :=
  let total := n * 32 in
  if 2 ^ 64 <=? total then
    rd_fail (BadResponse (str "native: 256-bit column byte length overflows usize"))
  else
    raw ← read_exact_grown total;
    _ ← reserve 32 n;
    mret (chunks_exact (Z.to_nat n) 32 raw).

(** [read_block_info]. *)
Definition read_block_info : Read unit :=
  field1 ← read_var_uint;
  if negb (field1 =? 1) then
    rd_fail (BadResponse (str "native: block info field id " ++ show field1 ++
      str " (expected 1 = is_overflows)"))
  else
    _ ← read_u8;
    field2 ← read_var_uint;
    if negb (field2 =? 2) then
      rd_fail (BadResponse (str "native: block info field id " ++ show field2 ++
        str " (expected 2 = bucket_num)"))
    else
      _ ← read_i32_le;
      terminator ← read_var_uint;
      if negb (terminator =? 0) then
        rd_fail (BadResponse (str "native: block info terminator " ++ show terminator ++
          str " (expected 0)"))
      else mret tt.

(** [read_serialization_kind]. *)
Definition unsupported_kind {A} (name kind : text) : Read A :=
  rd_fail (BadResponse (str "native: column '" ++ name ++ str "' uses " ++ kind ++
    str " serialization -- only default and sparse are supported")).

Definition read_serialization_kind (name : text) : Read bool :=
  flag ← read_u8;
  if flag =? 0 then mret false
  else if negb (flag =? 1) then
    rd_fail (BadResponse (str "native: column '" ++ name ++ str "' has custom-serialization flag " ++
      show flag ++ str " -- the server writes a bool here"))
  else
    kind ← read_u8;
    if kind =? 0 then mret false
    else if kind =? 1 then mret true
    else if kind =? 2 then unsupported_kind name (str "Detached")
    else if kind =? 3 then unsupported_kind name (str "Detached over Sparse")
    else if kind =? 4 then unsupported_kind name (str "Replicated")
    else if kind =? 5 then
      num_kinds ← read_var_uint;
      if MAX_BLOCK_COLUMNS <? num_kinds then
        rd_fail (refused (str "serialization kinds") num_kinds MAX_BLOCK_COLUMNS)
      else
        _ ← rd_repeat (Z.to_nat num_kinds) read_u8;
        unsupported_kind name (str "a combination")
    else
      rd_fail (BadResponse (str "native: column '" ++ name ++
        str "' announced serialization kind " ++ show kind ++ str ", which this decoder does not know")).

(** [decode_prefixes]: the headers it pushes, in order. *)
Definition read_dynamic_header : Read DynamicHeader :=
  version ← read_u64_le;
  if version =? 1 then read_dynamic_v1v2_prefix true
  else if version =? 2 then read_dynamic_v1v2_prefix false
  else rd_fail (BadResponse (str "native: unsupported Dynamic serialization version: " ++ show version)).

Fixpoint decode_prefixes (col_type : ColumnType) (depth : nat) : Read (list DynamicHeader) :=
  if (MAX_DECODE_DEPTH <? depth)%nat then rd_fail decode_nesting_error
  else match col_type with
  | Ct.LowCardinality _ => _ ← read_u64_le; mret []
  | Ct.Variant variant_types =>
      _ ← read_variant_mode;
      hs ← rd_map (fun t => decode_prefixes t (S depth)) variant_types;
      mret (concat hs)
  | Ct.Nullable inner | Ct.Array inner | Ct.SimpleAggregateFunction inner =>
      decode_prefixes inner (S depth)
  | Ct.Tuple fields =>
      hs ← rd_map (fun t => decode_prefixes t (S depth)) fields;
      mret (concat hs)
  | Ct.Map key value =>
      h1 ← decode_prefixes key (S depth);
      h2 ← decode_prefixes value (S depth);
      mret (h1 ++ h2)
  | Ct.Dynamic => h ← read_dynamic_header; mret [h]
  | _ => mret []
  end.

(** [empty_column]. *)
Fixpoint empty_column (col_type : ColumnType) : DecodedColumn :=
  match col_type with
  | Ct.UInt8 => Dc.UInt8 [] | Ct.Int8 | Ct.Enum8 => Dc.Int8 []
  | Ct.UInt16 => Dc.UInt16 [] | Ct.Int16 | Ct.Enum16 => Dc.Int16 []
  | Ct.UInt32 => Dc.UInt32 [] | Ct.Int32 => Dc.Int32 []
  | Ct.UInt64 => Dc.UInt64 [] | Ct.Int64 => Dc.Int64 []
  | Ct.Int128 => Dc.Int128 [] | Ct.UInt128 => Dc.UInt128 []
  | Ct.Int256 => Dc.Int256 [] | Ct.UInt256 => Dc.UInt256 []
  | Ct.Float32 => Dc.Float32 [] | Ct.Float64 => Dc.Float64 []
  | Ct.Decimal32 precision scale => Dc.Decimal32 precision scale []
  | Ct.Decimal64 precision scale => Dc.Decimal64 precision scale []
  | Ct.Decimal128 precision scale => Dc.Decimal128 precision scale []
  | Ct.Decimal256 precision scale => Dc.Decimal256 precision scale []
  | Ct.String => Dc.String []
  | Ct.Json | Ct.NewJson | Ct.Variant _ | Ct.Dynamic => Dc.Json []
  | Ct.FixedString width => Dc.FixedString width []
  | Ct.Date => Dc.Date [] | Ct.Date32 => Dc.Date32 [] | Ct.DateTime => Dc.DateTime []
  | Ct.DateTime64 precision timezone => Dc.DateTime64 precision timezone []
  | Ct.Uuid => Dc.Uuid [] | Ct.IPv4 => Dc.Ipv4 [] | Ct.IPv6 => Dc.Ipv6 []
  | Ct.Nullable inner => Dc.Nullable [] (empty_column inner)
  | Ct.Array inner => Dc.Array [] (empty_column inner)
  | Ct.Map key_type val_type => Dc.Map [] (empty_column key_type) (empty_column val_type)
  | Ct.Tuple fields => Dc.Tuple (map empty_column fields)
  | Ct.LowCardinality inner =>
      Dc.LowCardinality
        (match inner with Ct.Nullable t => empty_column t | _ => empty_column inner end)
        (Dc.UInt8 []) (match inner with Ct.Nullable _ => true | _ => false end)
  | Ct.SimpleAggregateFunction inner => empty_column inner
  | Ct.BFloat16 | Ct.Time | Ct.Time64 | Ct.Point => Dc.Unsupported (debug col_type)
  end.

(** [unwrap_json_cells]. *)
Definition unwrap_json_cell (cell : list byte) : Result (list byte) :=
  '(len, header) ← get_var_uint cell;
  if Z.of_nat header + len <=? Z.of_nat (length cell)
  then Ok (slice header (Z.to_nat len) cell)
  else Err (BadResponse (str "native: JSON cell length runs past the cell")).
Definition unwrap_json_cells (cells : ColumnData) : Result (list (list byte)) :=
  map_res unwrap_json_cell cells.

(** The string, 16-byte and offset loops of [decode_column]. *)
Definition read_strings (n : Z) : Read (list (list byte)) :=
  _ ← reserve sizeof_Vec n;
  rd_repeat (Z.to_nat n) read_string.
Definition read_slots_16 (n : Z) : Read (list (list byte)) :=
  _ ← reserve 16 n;
  rd_repeat (Z.to_nat n) (read_exact 16).

(** The offsets of an Array or Map column, each checked against the one before. *)
Fixpoint read_monotone (what : text) (k : nat) (prev : Z) : Read (list Z) :=
  match k with
  | O => mret []
  | S k' =>
      fin ← read_u64_le;
      if fin <? prev then
        rd_fail (BadResponse (str "native: " ++ what ++
          str " column offsets are not monotonically increasing"))
      else offsets ← read_monotone what k' fin; mret (fin :: offsets)
  end.
Definition read_monotone_offsets (what : text) (n : Z) : Read (list Z) :=
  _ ← reserve sizeof_u64 n;
  read_monotone what (Z.to_nat n) 0.

(** The indices of a LowCardinality column, by their type code. *)
Definition read_indices (index_type n : Z) : Read DecodedColumn :=
  if index_type =? 0 then buf ← read_exact_grown n; mret (Dc.UInt8 (map u8 buf))
  else if index_type =? 1 then v ← read_le_column 2 unsigned n; mret (Dc.UInt16 v)
  else if index_type =? 2 then v ← read_le_column 4 unsigned n; mret (Dc.UInt32 v)
  else if index_type =? 3 then v ← read_le_column 8 unsigned n; mret (Dc.UInt64 v)
  else rd_fail (BadResponse (str "native: LowCardinality index type " ++ show index_type ++
         str " is not valid (expected 0..=3)")).

Definition dc_global_dict : Error := BadResponse (str
  "native: LowCardinality global dictionary is not supported on the client-server path (only per-block additional keys)").
Definition dc_no_keys : Error := BadResponse (str
  "native: LowCardinality block set neither the additional-keys nor the global-dictionary flag").

(** [decode_low_cardinality], over the decoder of its dictionary. *)
Definition decode_low_cardinality
    (decode_dict : Z -> list DynamicHeader -> Read (DecodedColumn * list DynamicHeader))
    (is_nullable_inner : bool) (num_rows : Z) (headers : list DynamicHeader)
    : Read (DecodedColumn * list DynamicHeader) :=
  flags ← read_u64_le;
  let index_type := Z.land flags 0x03 in
  let has_global_dict := negb (Z.land flags 0x100 =? 0) in
  let has_additional_keys := negb (Z.land flags 0x200 =? 0) in
  if has_global_dict then rd_fail dc_global_dict
  else if negb has_additional_keys then rd_fail dc_no_keys
  else
    additional_keys_size ← read_u64_le;
    '(combined, headers) ← decode_dict additional_keys_size headers;
    num_indices ← read_u64_le;
    if negb (num_indices =? num_rows) then
      rd_fail (BadResponse (str "native: LowCardinality index count " ++ show num_indices ++
        str " != row count " ++ show num_rows))
    else
      indices ← read_indices index_type num_rows;
      mret (Dc.LowCardinality combined indices is_nullable_inner, headers).

(** The arms of [decode_column] with columns inside, over the decoder of the inner columns, and the arms that go
    through the cell reader. [headers] is the iterator over the Dynamic headers of the prefix phase: what is left of
    it comes back with the column. *)
Definition decode_nullable
    (decode_child : Z -> list DynamicHeader -> Read (DecodedColumn * list DynamicHeader))
    (num_rows : Z) (headers : list DynamicHeader) : Read (DecodedColumn * list DynamicHeader) :=
  mask ← read_exact_grown num_rows;
  '(child, headers) ← decode_child num_rows headers;
  mret (Dc.Nullable mask child, headers).

Definition decode_array
    (decode_child : Z -> list DynamicHeader -> Read (DecodedColumn * list DynamicHeader))
    (num_rows : Z) (headers : list DynamicHeader) : Read (DecodedColumn * list DynamicHeader) :=
  offsets ← read_monotone_offsets (str "Array") num_rows;
  let total := default 0 (last offsets) in
  '(child, headers) ← decode_child total headers;
  mret (Dc.Array offsets child, headers).

Definition decode_tuple
    (decode_field : ColumnType -> list DynamicHeader -> Read (DecodedColumn * list DynamicHeader))
    (fields : list ColumnType) (headers : list DynamicHeader) : Read (DecodedColumn * list DynamicHeader) :=
  _ ← reserve sizeof_DecodedColumn (Z.of_nat (length fields));
  '(decoded_fields, headers) ← rd_map_st decode_field fields headers;
  mret (Dc.Tuple decoded_fields, headers).

Definition decode_map
    (decode_keys decode_values : Z -> list DynamicHeader -> Read (DecodedColumn * list DynamicHeader))
    (num_rows : Z) (headers : list DynamicHeader) : Read (DecodedColumn * list DynamicHeader) :=
  offsets ← read_monotone_offsets (str "Map") num_rows;
  let total := default 0 (last offsets) in
  '(keys, headers) ← decode_keys total headers;
  '(values, headers) ← decode_values total headers;
  mret (Dc.Map offsets keys values, headers).

Definition decode_new_json (num_rows : Z) (headers : list DynamicHeader)
    : Read (DecodedColumn * list DynamicHeader) :=
  version ← read_u64_le;
  if version =? JSON_SERIALIZATION_STRING then buf ← read_strings num_rows; mret (Dc.Json buf, headers)
  else
    cells ← read_json_body num_rows version;
    docs ← rd_lift (unwrap_json_cells cells);
    mret (Dc.Json docs, headers).

Definition decode_variant (col_type : ColumnType) (num_rows : Z) (headers : list DynamicHeader)
    : Read (DecodedColumn * list DynamicHeader) :=
  cells ← read_column_data col_type num_rows;
  docs ← rd_lift (unwrap_json_cells cells);
  mret (Dc.Json docs, headers).

Definition decode_dynamic (num_rows : Z) (depth : nat) (headers : list DynamicHeader)
    : Read (DecodedColumn * list DynamicHeader) :=
  match headers with
  | [] => rd_fail (BadResponse (str "native: Dynamic column has no serialisation prefix"))
  | header :: headers =>
      cells ← read_dynamic_body_at num_rows header (S depth);
      docs ← rd_lift (unwrap_json_cells cells);
      mret (Dc.Json docs, headers)
  end.

Definition decode_unsupported (col_type : ColumnType) (num_rows : Z) (headers : list DynamicHeader)
    : Read (DecodedColumn * list DynamicHeader) :=
  _ ← read_column_data col_type num_rows;
  mret (Dc.Unsupported (debug col_type), headers).

(** [decode_column]. *)
Fixpoint decode_column (col_type : ColumnType) (num_rows : Z) (depth : nat)
    (headers : list DynamicHeader) : Read (DecodedColumn * list DynamicHeader) :=
  let ints w conv := read_le_column w conv num_rows in
  let give c := mret (c, headers) in
  if (MAX_DECODE_DEPTH <? depth)%nat then rd_fail decode_nesting_error
  else if (depth =? 0)%nat && (num_rows =? 0) then mret (empty_column col_type, headers)
  else match col_type with
  | Ct.UInt8 => buf ← read_exact_grown num_rows; give (Dc.UInt8 (map u8 buf))
  | Ct.Int8 | Ct.Enum8 =>
      raw ← read_exact_grown num_rows; give (Dc.Int8 (map (fun b => wrap_signed 8 (u8 b)) raw))
  | Ct.UInt16 => v ← ints 2%nat unsigned; give (Dc.UInt16 v)
  | Ct.Int16 | Ct.Enum16 => v ← ints 2%nat (signed 2); give (Dc.Int16 v)
  | Ct.UInt32 => v ← ints 4%nat unsigned; give (Dc.UInt32 v)
  | Ct.Int32 => v ← ints 4%nat (signed 4); give (Dc.Int32 v)
  | Ct.UInt64 => v ← ints 8%nat unsigned; give (Dc.UInt64 v)
  | Ct.Int64 => v ← ints 8%nat (signed 8); give (Dc.Int64 v)
  | Ct.Int128 => v ← ints 16%nat (signed 16); give (Dc.Int128 v)
  | Ct.UInt128 => v ← ints 16%nat unsigned; give (Dc.UInt128 v)
  | Ct.Int256 => v ← read_u256_column num_rows; give (Dc.Int256 v)
  | Ct.UInt256 => v ← read_u256_column num_rows; give (Dc.UInt256 v)
  | Ct.Float32 => v ← ints 4%nat unsigned; give (Dc.Float32 v)
  | Ct.Float64 => v ← ints 8%nat unsigned; give (Dc.Float64 v)
  | Ct.Decimal32 precision scale => v ← ints 4%nat (signed 4); give (Dc.Decimal32 precision scale v)
  | Ct.Decimal64 precision scale => v ← ints 8%nat (signed 8); give (Dc.Decimal64 precision scale v)
  | Ct.Decimal128 precision scale =>
      v ← ints 16%nat (signed 16); give (Dc.Decimal128 precision scale v)
  | Ct.Decimal256 precision scale =>
      v ← read_u256_column num_rows; give (Dc.Decimal256 precision scale v)
  | Ct.String => buf ← read_strings num_rows; give (Dc.String buf)
  | Ct.Json => buf ← read_strings num_rows; give (Dc.Json buf)
  | Ct.FixedString width =>
      let total := width * num_rows in
      if 2 ^ 64 <=? total then rd_fail (BadResponse (str "native: FixedString block overflow"))
      else bytes ← read_exact_grown total; give (Dc.FixedString width bytes)
  | Ct.Date => v ← ints 2%nat unsigned; give (Dc.Date v)
  | Ct.Date32 => v ← ints 4%nat (signed 4); give (Dc.Date32 v)
  | Ct.DateTime => v ← ints 4%nat unsigned; give (Dc.DateTime v)
  | Ct.DateTime64 precision timezone =>
      v ← ints 8%nat (signed 8); give (Dc.DateTime64 precision timezone v)
  | Ct.Uuid => v ← read_slots_16 num_rows; give (Dc.Uuid v)
  | Ct.IPv4 => v ← ints 4%nat unsigned; give (Dc.Ipv4 v)
  | Ct.IPv6 => v ← read_slots_16 num_rows; give (Dc.Ipv6 v)
  | Ct.Nullable inner =>
      decode_nullable (fun k hs => decode_column inner k (S depth) hs) num_rows headers
  | Ct.Array inner =>
      decode_array (fun k hs => decode_column inner k (S depth) hs) num_rows headers
  | Ct.Tuple fields =>
      decode_tuple (fun field hs => decode_column field num_rows (S depth) hs) fields headers
  | Ct.Map key_type val_type =>
      decode_map (fun k hs => decode_column key_type k (S depth) hs)
        (fun k hs => decode_column val_type k (S depth) hs) num_rows headers
  | Ct.LowCardinality inner =>
      match inner with
      | Ct.Nullable t =>
          decode_low_cardinality (fun k hs => decode_column t k (S depth) hs) true num_rows headers
      | _ =>
          decode_low_cardinality (fun k hs => decode_column inner k (S depth) hs) false num_rows headers
      end
  | Ct.SimpleAggregateFunction inner => decode_column inner num_rows (S depth) headers
  | Ct.NewJson => decode_new_json num_rows headers
  | Ct.Variant _ => decode_variant col_type num_rows headers
  | Ct.Dynamic => decode_dynamic num_rows depth headers
  | Ct.BFloat16 | Ct.Time | Ct.Time64 | Ct.Point => decode_unsupported col_type num_rows headers
  end.

(** The values of one column of a block, its type known. *)
Definition decode_values (ct : ColumnType) (sparse : bool) (num_rows : Z) : Read DecodedColumn :=
  headers ← (if 0 <? num_rows then decode_prefixes ct 0 else mret []);
  if sparse && (0 <? num_rows) then
    '(positions, _) ← read_sparse_offsets num_rows SparseDeserializeState_default;
    '(dense, _) ← decode_column ct (Z.of_nat (length positions)) 0 headers;
    rd_lift (expand_sparse dense positions num_rows)
  else
    '(col, _) ← decode_column ct num_rows 0 headers;
    mret col.

(** One turn of the column loop of [decode_block]. *)
Definition decode_block_column (num_rows : Z) (has_custom_ser : bool)
    : Read ((text * text) * DecodedColumn) :=
  name ← read_utf8_string;
  type_name ← read_utf8_string;
  sparse ← (if has_custom_ser then read_serialization_kind name else mret false);
  match parse type_name with
  | Some ct => col ← decode_values ct sparse num_rows; mret ((name, type_name), col)
  | None => rd_fail (BadResponse (str "native: server announced unknown column type '" ++ type_name ++
              str "' for column '" ++ name ++ str "'"))
  end.

(** [decode_block]. *)
Definition decode_block (num_columns num_rows server_revision : Z) : Read DecodedBlock :=
  let has_custom_ser := DBMS_MIN_PROTOCOL_VERSION_WITH_CUSTOM_SERIALIZATION <=? server_revision in
  if MAX_BLOCK_COLUMNS <? num_columns then
    rd_fail (refused (str "columns") num_columns MAX_BLOCK_COLUMNS)
  else if MAX_BLOCK_ROWS <? num_rows then rd_fail (refused (str "rows") num_rows MAX_BLOCK_ROWS)
  else
    _ ← reserve (2 * sizeof_Vec) num_columns;
    _ ← reserve sizeof_DecodedColumn num_columns;
    cols ← rd_repeat (Z.to_nat num_columns) (decode_block_column num_rows has_custom_ser);
    mret {| columns := map snd cols; schema := map fst cols; num_rows := num_rows |}.

End decode.

(** ** Framing *)

Section framing.
Context `{Platform} `{FloatText}.

Lemma framed_read_le_column w conv n : framed (read_le_column w conv n).
Proof. unfold read_le_column. framed_auto. Qed.

Lemma framed_read_u256_column n : framed (read_u256_column n).
Proof. unfold read_u256_column. framed_auto. Qed.

Lemma framed_read_block_info : framed read_block_info.
Proof. unfold read_block_info, read_u8. framed_auto. Qed.

Lemma framed_read_serialization_kind name : framed (read_serialization_kind name).
Proof. unfold read_serialization_kind, unsupported_kind, read_u8. framed_auto. Qed.

Lemma framed_read_dynamic_header : framed read_dynamic_header.
Proof. unfold read_dynamic_header, read_u64_le. framed_auto. Qed.

#[local] Hint Resolve framed_read_le_column framed_read_u256_column framed_read_serialization_kind
  framed_read_dynamic_header : framed.

Lemma framed_decode_prefixes t depth : framed (decode_prefixes t depth).
Proof.
  revert depth; induction t as [t Ht|t IH|t IH|t IH|t IH|ts IH|k v IHk IHv|ts IH]
    using Ct.column_ind; intros depth; [destruct t; try done|..]; cbn [decode_prefixes];
    (destruct (_ <? _)%nat; [apply framed_fail|]); unfold read_u64_le; framed_auto.
  all: apply framed_map; eapply Forall_impl; [exact IH|]; auto.
Qed.

Lemma framed_read_strings n : framed (read_strings n).
Proof. unfold read_strings. framed_auto. Qed.

Lemma framed_read_slots_16 n : framed (read_slots_16 n).
Proof. unfold read_slots_16. framed_auto. Qed.

Lemma framed_read_monotone what k prev : framed (read_monotone what k prev).
Proof.
  revert prev; induction k; intros prev; cbn [read_monotone]; unfold read_u64_le; framed_auto.
Qed.

Lemma framed_read_monotone_offsets what n : framed (read_monotone_offsets what n).
Proof. unfold read_monotone_offsets. framed_auto. apply framed_read_monotone. Qed.

Lemma framed_read_indices code n : framed (read_indices code n).
Proof. unfold read_indices. framed_auto. Qed.

#[local] Hint Resolve framed_read_strings framed_read_slots_16 framed_read_monotone_offsets
  framed_read_indices framed_decode_prefixes : framed.

Lemma framed_decode_low_cardinality dec b n hs :
  (forall k hs, framed (dec k hs)) -> framed (decode_low_cardinality dec b n hs).
Proof. intros Hdec. unfold decode_low_cardinality, read_u64_le. framed_auto. Qed.

Lemma framed_decode_column t n depth hs : framed (decode_column t n depth hs).
Proof.
  revert n depth hs; induction t as [t Ht|t IH|t IH IHn|t IH|t IH|ts IH|k v IHk IHv|ts IH]
    using Ct.column_lc_ind; intros n depth hs; [destruct t; try done|..]; cbn [decode_column];
    (destruct (_ <? _)%nat; [apply framed_fail|]); (destruct (_ && _); [apply framed_ret|]);
    unfold decode_nullable, decode_array, decode_tuple, decode_map, decode_new_json, decode_variant, decode_dynamic, decode_unsupported, read_u64_le; cbv zeta.
  all: try solve [framed_auto].
  - destruct t; apply framed_decode_low_cardinality; intros; (by apply IHn) || apply IH.
  - framed_auto. apply framed_map_st. eapply Forall_impl; [exact IH|]. auto.
Qed.

#[local] Hint Resolve framed_decode_column : framed.

Lemma framed_decode_values ct sparse n : framed (decode_values ct sparse n).
Proof. unfold decode_values. framed_auto. Qed.

#[local] Hint Resolve framed_decode_values : framed.

Lemma framed_decode_block_column n b : framed (decode_block_column n b).
Proof. unfold decode_block_column. framed_auto. Qed.

#[local] Hint Resolve framed_decode_block_column : framed.

Lemma framed_decode_block c n r : framed (decode_block c n r).
Proof. unfold decode_block. framed_auto. Qed.

End framing.

#[export] Hint Resolve framed_read_block_info framed_decode_block : framed.

(** ** Typing

    The reference: the decoded columns of [n] rows of a type. *)

(** [n] integers of [bits] bits; [n] byte strings of a length. *)
Definition uints (bits n : Z) (v : list Z) : Prop :=
  Z.of_nat (length v) = n /\ Forall (fun x => 0 <= x < 2 ^ bits) v.
Definition sints (bits n : Z) (v : list Z) : Prop :=
  Z.of_nat (length v) = n /\ Forall (fun x => - 2 ^ (bits - 1) <= x < 2 ^ (bits - 1)) v.
Definition raws (len n : Z) (v : list (list byte)) : Prop :=
  Z.of_nat (length v) = n /\ Forall (fun b => Z.of_nat (length b) = len) v.
Definition strings (n : Z) (v : list (list byte)) : Prop := Z.of_nat (length v) = n.

(** [n] end-offsets: no row ends before the one before it. *)
Fixpoint monotone_from (prev : Z) (offsets : list Z) : Prop :=
  match offsets with
  | [] => True
  | fin :: offsets' => prev <= fin < 2 ^ 64 /\ monotone_from fin offsets'
  end.
Definition end_offsets (n : Z) (v : list Z) : Prop :=
  Z.of_nat (length v) = n /\ monotone_from 0 v.

(** A dictionary index column of any of the four widths. *)
Definition index_column (n : Z) (c : DecodedColumn) : Prop :=
  match c with
  | Dc.UInt8 v => uints 8 n v
  | Dc.UInt16 v => uints 16 n v
  | Dc.UInt32 v => uints 32 n v
  | Dc.UInt64 v => uints 64 n v
  | _ => False
  end.

Definition all_types (P : ColumnType -> DecodedColumn -> Prop) :=
  fix go (ts : list ColumnType) (cs : list DecodedColumn) : Prop :=
    match ts, cs with
    | [], [] => True
    | t :: ts', c :: cs' => P t c /\ go ts' cs'
    | _, _ => False
    end.

Fixpoint has_type (t : ColumnType) (n : Z) (c : DecodedColumn) : Prop :=
  match t with
  | Ct.UInt8 => exists v, c = Dc.UInt8 v /\ uints 8 n v
  | Ct.Int8 | Ct.Enum8 => exists v, c = Dc.Int8 v /\ sints 8 n v
  | Ct.UInt16 => exists v, c = Dc.UInt16 v /\ uints 16 n v
  | Ct.Int16 | Ct.Enum16 => exists v, c = Dc.Int16 v /\ sints 16 n v
  | Ct.UInt32 => exists v, c = Dc.UInt32 v /\ uints 32 n v
  | Ct.Int32 => exists v, c = Dc.Int32 v /\ sints 32 n v
  | Ct.UInt64 => exists v, c = Dc.UInt64 v /\ uints 64 n v
  | Ct.Int64 => exists v, c = Dc.Int64 v /\ sints 64 n v
  | Ct.Int128 => exists v, c = Dc.Int128 v /\ sints 128 n v
  | Ct.UInt128 => exists v, c = Dc.UInt128 v /\ uints 128 n v
  | Ct.Int256 => exists v, c = Dc.Int256 v /\ raws 32 n v
  | Ct.UInt256 => exists v, c = Dc.UInt256 v /\ raws 32 n v
  | Ct.Float32 => exists v, c = Dc.Float32 v /\ uints 32 n v
  | Ct.Float64 => exists v, c = Dc.Float64 v /\ uints 64 n v
  | Ct.Decimal32 p s => exists v, c = Dc.Decimal32 p s v /\ sints 32 n v
  | Ct.Decimal64 p s => exists v, c = Dc.Decimal64 p s v /\ sints 64 n v
  | Ct.Decimal128 p s => exists v, c = Dc.Decimal128 p s v /\ sints 128 n v
  | Ct.Decimal256 p s => exists v, c = Dc.Decimal256 p s v /\ raws 32 n v
  | Ct.String => exists v, c = Dc.String v /\ strings n v
  | Ct.Json | Ct.NewJson | Ct.Variant _ | Ct.Dynamic => exists v, c = Dc.Json v /\ strings n v
  | Ct.FixedString w =>
      exists b, c = Dc.FixedString w b /\ Z.of_nat (length b) = Z.max 0 (w * n)
  | Ct.Date => exists v, c = Dc.Date v /\ uints 16 n v
  | Ct.Date32 => exists v, c = Dc.Date32 v /\ sints 32 n v
  | Ct.DateTime => exists v, c = Dc.DateTime v /\ uints 32 n v
  | Ct.DateTime64 p tz => exists v, c = Dc.DateTime64 p tz v /\ sints 64 n v
  | Ct.Uuid => exists v, c = Dc.Uuid v /\ raws 16 n v
  | Ct.IPv4 => exists v, c = Dc.Ipv4 v /\ uints 32 n v
  | Ct.IPv6 => exists v, c = Dc.Ipv6 v /\ raws 16 n v
  | Ct.Nullable t =>
      exists mask child, c = Dc.Nullable mask child /\ Z.of_nat (length mask) = n /\ has_type t n child
  | Ct.Array t =>
      exists offsets child, c = Dc.Array offsets child /\ end_offsets n offsets /\
        has_type t (default 0 (last offsets)) child
  | Ct.Map k v =>
      exists offsets keys values, c = Dc.Map offsets keys values /\ end_offsets n offsets /\
        has_type k (default 0 (last offsets)) keys /\ has_type v (default 0 (last offsets)) values
  | Ct.Tuple ts =>
      exists cs, c = Dc.Tuple cs /\ all_types (fun t c => has_type t n c) ts cs
  | Ct.LowCardinality inner =>
      exists dict indices k, 0 <= k /\ index_column n indices /\
        match inner with
        | Ct.Nullable t => c = Dc.LowCardinality dict indices true /\ has_type t k dict
        | _ => c = Dc.LowCardinality dict indices false /\ has_type inner k dict
        end
  | Ct.SimpleAggregateFunction t => has_type t n c
  | Ct.BFloat16 | Ct.Time | Ct.Time64 | Ct.Point => c = Dc.Unsupported (debug t)
  end.

(** The types whose row count the decoded column still shows: no typed variant,
    or cells of no bytes, and the count is gone. *)
Fixpoint counted (t : ColumnType) : bool :=
  match t with
  | Ct.BFloat16 | Ct.Time | Ct.Time64 | Ct.Point => false
  | Ct.FixedString w => 0 <? w
  | Ct.Tuple ts => match ts with [] => false | t :: _ => counted t end
  | Ct.SimpleAggregateFunction t => counted t
  | _ => true
  end.

(** *** Every decoded column has its type *)

Section typed.
Context `{Platform} `{FloatText}.

Lemma wrap_signed_range bits z :
  0 < bits -> - 2 ^ (bits - 1) <= wrap_signed bits z < 2 ^ (bits - 1).
Proof.
  intros Hb. unfold wrap_signed.
  assert (Hp : 2 ^ bits = 2 * 2 ^ (bits - 1)).
  { replace bits with (1 + (bits - 1)) at 1 by lia. rewrite Z.pow_add_r by lia. lia. }
  pose proof (Z.mod_pos_bound (z + 2 ^ (bits - 1)) (2 ^ bits)).
  assert (0 < 2 ^ (bits - 1)) by (apply Z.pow_pos_nonneg; lia). lia.
Qed.

Lemma chunks_exact_Forall {A} k n (l : list A) :
  (k * n <= length l)%nat -> Forall (fun c => length c = n) (chunks_exact k n l).
Proof.
  revert l; induction k as [|k IH]; intros l Hl; simpl; constructor; simpl in Hl.
  - rewrite length_take. lia.
  - apply IH. rewrite length_drop. lia.
Qed.

Lemma yields_le_column w conv n P :
  0 <= n -> (forall b : list byte, length b = w -> P (conv (le_combine b))) ->
  yields (read_le_column w conv n) (fun v => Z.of_nat (length v) = n /\ Forall P v).
Proof.
  intros Hn HP. unfold read_le_column. cbv zeta. destruct (_ <=? _); [apply yields_fail|].
  eapply yields_bind; [apply yields_read_exact_grown|]. cbv beta; intros raw Hraw.
  apply yields_bind_; intros _. apply yields_ret. rewrite length_map, chunks_exact_length.
  split; [lia|]. apply Forall_map. eapply Forall_impl; [apply chunks_exact_Forall; lia|]. exact HP.
Qed.

Lemma yields_uints w n : 0 <= n -> yields (read_le_column w unsigned n) (uints (8 * Z.of_nat w) n).
Proof.
  intros Hn. apply yields_le_column; [done|]. intros b Hb. unfold unsigned.
  pose proof (le_combine_bound b). by rewrite Hb in *.
Qed.

Lemma yields_sints w n :
  0 <= n -> (0 < w)%nat -> yields (read_le_column w (signed w) n) (sints (8 * Z.of_nat w) n).
Proof.
  intros Hn Hw. apply yields_le_column; [done|]. intros b Hb. apply wrap_signed_range. lia.
Qed.

Lemma yields_u256 n : 0 <= n -> yields (read_u256_column n) (raws 32 n).
Proof.
  intros Hn. unfold read_u256_column. cbv zeta. destruct (_ <=? _); [apply yields_fail|].
  eapply yields_bind; [apply yields_read_exact_grown|]. cbv beta; intros raw Hraw.
  apply yields_bind_; intros _. apply yields_ret. split; [rewrite chunks_exact_length; lia|].
  eapply Forall_impl; [apply chunks_exact_Forall; lia|]. intros b ->. done.
Qed.

Lemma yields_strings n : 0 <= n -> yields (read_strings n) (strings n).
Proof.
  intros Hn. apply yields_bind_; intros _. eapply yields_impl; [apply yields_repeat, yields_any|].
  intros l [Hl _]. unfold strings. lia.
Qed.

Lemma yields_slots_16 n : 0 <= n -> yields (read_slots_16 n) (raws 16 n).
Proof.
  intros Hn. apply yields_bind_; intros _. eapply yields_impl; [apply yields_repeat|].
  - intros bs a rest Hr. apply read_exact_length in Hr. instantiate (1 := fun b => length b = 16%nat). done.
  - intros l [Hl Hall]. split; [lia|]. eapply Forall_impl; [exact Hall|]. intros b ->. done.
Qed.

Lemma yields_monotone what k prev :
  yields (read_monotone what k prev) (fun v => length v = k /\ monotone_from prev v).
Proof.
  revert prev; induction k as [|k IH]; intros prev; cbn [read_monotone]; [by apply yields_ret|].
  eapply yields_bind; [apply (yields_read_le 8)|]. cbv beta; intros fin Hfin.
  destruct (Z.ltb_spec fin prev); [apply yields_fail|].
  eapply yields_bind; [apply IH|]. cbv beta; intros v [Hl Hm]. apply yields_ret.
  simpl. split; [lia|]. split; [|done]. change (8 * Z.of_nat 8) with 64 in Hfin. lia.
Qed.

Lemma yields_end_offsets what n : 0 <= n -> yields (read_monotone_offsets what n) (end_offsets n).
Proof.
  intros Hn. apply yields_bind_; intros _. eapply yields_impl; [apply yields_monotone|].
  intros v [Hl Hm]. split; [lia|done].
Qed.

Lemma monotone_last prev v : 0 <= prev -> monotone_from prev v -> 0 <= default 0 (last v).
Proof.
  revert prev; induction v as [|x v IH]; intros prev Hp; simpl; [lia|]. intros [Hx Hv].
  destruct v as [|y v]; [simpl; lia|]. change (last (x :: y :: v)) with (last (y :: v)).
  eapply IH; [|exact Hv]. lia.
Qed.

Lemma yields_read_indices code n : 0 <= n -> yields (read_indices code n) (index_column n).
Proof.
  intros Hn. unfold read_indices.
  destruct (code =? 0).
  { eapply yields_bind; [apply yields_read_exact_grown|]. cbv beta; intros buf Hb. apply yields_ret.
    split; [rewrite length_map; lia|]. apply Forall_map, Forall_true. intros b. apply u8_range. }
  repeat (destruct (code =? _);
    [eapply yields_bind; [by apply yields_uints|]; cbv beta; intros v Hv; by apply yields_ret|]).
  apply yields_fail.
Qed.

Lemma yields_low_cardinality_column dec b n hs P :
  0 <= n ->
  (forall k hs, 0 <= k -> yields (dec k hs) (fun r => P k r.1)) ->
  yields (decode_low_cardinality dec b n hs) (fun r =>
    exists dict indices k, 0 <= k /\ index_column n indices /\
      r.1 = Dc.LowCardinality dict indices b /\ P k dict).
Proof.
  intros Hn Hdec. apply yields_bind_; intros flags. cbv zeta.
  destruct (negb (Z.land flags 0x100 =? 0)); [apply yields_fail|].
  destruct (negb (negb (Z.land flags 0x200 =? 0))); [apply yields_fail|].
  eapply yields_bind; [apply (yields_read_le 8)|]. cbv beta; intros k Hk.
  eapply yields_bind; [apply Hdec; lia|]. cbv beta; intros [dict hs'] Hdict.
  apply yields_bind_; intros num. destruct (negb _); [apply yields_fail|].
  eapply yields_bind; [by apply yields_read_indices|]. cbv beta; intros idx Hidx.
  apply yields_ret. exists dict, idx, k. split_and!; [lia|done|done|done].
Qed.

Lemma empty_column_typed t : has_type t 0 (empty_column t).
Proof.
  induction t as [t Ht|t IH|t IH IHn|t IH|t IH|ts IH|k v IHk IHv|ts IH] using Ct.column_lc_ind;
    [destruct t; try done|..]; cbn [has_type empty_column]; try reflexivity;
    try (exists []; split; [done|]; by repeat split);
    try (eexists; split; [done|]; by repeat split).
  - exists []. split; [done|]. simpl. lia.
  - by exists [], (empty_column t).
  - exists (match t with Ct.Nullable u => empty_column u | _ => empty_column t end), (Dc.UInt8 []), 0.
    split; [done|]. split; [by split|]. destruct t; (split; [done|]); (by apply IHn) || exact IH.
  - exact IH.
  - by exists [], (empty_column t).
  - exists (map empty_column ts). split; [done|]. induction IH; [done|]. by split.
  - by exists [], (empty_column k), (empty_column v).
Qed.

Lemma unwrap_json_strings cells docs n :
  unwrap_json_cells cells = Ok docs -> Z.of_nat (length cells) = n -> strings n docs.
Proof. intros Hd%map_res_length Hl. unfold strings. lia. Qed.

Lemma yields_json_docs (m : Read ColumnData) n t hs :
  yields m (cells_of t n) ->
  yields (cells ← m; docs ← rd_lift (unwrap_json_cells cells); mret (Dc.Json docs, hs) : Read _)
    (fun r : DecodedColumn * list DynamicHeader => exists v, r.1 = Dc.Json v /\ strings n v).
Proof.
  intros Hm. eapply yields_bind; [exact Hm|]. cbv beta; intros cells [Hl _].
  eapply yields_bind.
  { apply yields_lift. intros docs Hd. exact (unwrap_json_strings _ _ _ Hd Hl). }
  cbv beta; intros docs Hd. apply yields_ret. by exists docs.
Qed.

Lemma yields_decode_fields n depth ts hs :
  Forall (fun t => forall hs, yields (decode_column t n depth hs) (fun r => has_type t n r.1)) ts ->
  yields (rd_map_st (fun t hs => decode_column t n depth hs) ts hs)
    (fun r => all_types (fun t c => has_type t n c) ts r.1).
Proof.
  intros Hall. revert hs; induction Hall as [|t ts Ht Hts IH]; intros hs; simpl; [by apply yields_ret|].
  eapply yields_bind; [apply Ht|]. cbv beta; intros [c hs1] Hc.
  eapply yields_bind; [apply IH|]. cbv beta; intros [cs hs2] Hcs. by apply yields_ret.
Qed.

(** One arm that reads a buffer and wraps it. *)
Lemma yields_wrap {A} (m : Read A) (P : A -> Prop) (f : A -> DecodedColumn) (hs : list DynamicHeader) :
  yields m P ->
  yields (v ← m; mret (f v, hs) : Read _) (fun r => exists v, r.1 = f v /\ P v).
Proof.
  intros Hm. eapply yields_bind; [exact Hm|]. cbv beta; intros v Hv. apply yields_ret. by exists v.
Qed.

Lemma yields_bytes (g : byte -> Z) (P : Z -> Prop) f n (hs : list DynamicHeader) :
  0 <= n -> (forall b, P (g b)) ->
  yields (buf ← read_exact_grown n; mret (f (map g buf), hs) : Read _)
    (fun r : DecodedColumn * list DynamicHeader =>
       exists v, r.1 = f v /\ Z.of_nat (length v) = n /\ Forall P v).
Proof.
  intros Hn HP. eapply yields_bind; [apply yields_read_exact_grown|]. cbv beta; intros buf Hb.
  apply yields_ret. exists (map g buf). rewrite length_map. split_and!; [done|lia|].
  apply Forall_map, Forall_true. exact HP.
Qed.

Lemma yields_decode_leaf t n depth hs :
  match t with
  | Ct.Nullable _ | Ct.LowCardinality _ | Ct.SimpleAggregateFunction _ | Ct.Array _ | Ct.Tuple _
  | Ct.Map _ _ | Ct.Variant _ => False
  | _ => True
  end -> 0 <= n -> yields (decode_column t n depth hs) (fun r => has_type t n r.1).
Proof.
  intros Ht Hn. destruct t; try done; cbn [decode_column]; unfold decode_new_json, decode_dynamic, decode_unsupported;
    (destruct (_ <? _)%nat; [apply yields_fail|]);
    (destruct (_ && (n =? 0)) eqn:E0;
      [apply andb_true_iff in E0 as [_ ->%Z.eqb_eq]; apply yields_ret, empty_column_typed|]); cbv zeta.
  all: try lazymatch goal with
  | |- yields (read_le_column ?w unsigned ?n ≫= fun v => mret (@?f v, ?h)) _ =>
      exact (yields_wrap _ _ f h (yields_uints w n Hn))
  | |- yields (read_le_column ?w (signed _) ?n ≫= fun v => mret (@?f v, ?h)) _ =>
      exact (yields_wrap _ _ f h (yields_sints w n Hn ltac:(lia)))
  | |- yields (read_u256_column ?n ≫= fun v => mret (@?f v, ?h)) _ =>
      exact (yields_wrap _ _ f h (yields_u256 n Hn))
  | |- yields (read_strings ?n ≫= fun v => mret (@?f v, ?h)) _ =>
      exact (yields_wrap _ _ f h (yields_strings n Hn))
  | |- yields (read_slots_16 ?n ≫= fun v => mret (@?f v, ?h)) _ =>
      exact (yields_wrap _ _ f h (yields_slots_16 n Hn))
  | |- yields (read_column_data _ _ ≫= _) _ => apply yields_bind_; intros ?; by apply yields_ret
  end.
  - exact (yields_bytes u8 _ Dc.UInt8 n hs Hn u8_range).
  - exact (yields_bytes _ _ Dc.Int8 n hs Hn (fun b => wrap_signed_range 8 (u8 b) eq_refl)).
  - destruct (_ <=? _); [apply yields_fail|].
    eapply yields_bind; [apply yields_read_exact_grown|]. cbv beta; intros b Hb. apply yields_ret.
    by exists b.
  - exact (yields_bytes _ _ Dc.Int8 n hs Hn (fun b => wrap_signed_range 8 (u8 b) eq_refl)).
  - apply yields_bind_; intros version. destruct (version =? JSON_SERIALIZATION_STRING).
    { exact (yields_wrap _ _ Dc.Json hs (yields_strings n Hn)). }
    apply (yields_json_docs _ n Ct.NewJson). by apply yields_json_body.
  - destruct hs as [|header hs]; [apply yields_fail|].
    apply (yields_json_docs _ n Ct.Dynamic). by apply yields_dynamic_body.
Qed.

Lemma yields_decode_column t n depth hs :
  0 <= n -> yields (decode_column t n depth hs) (fun r => has_type t n r.1).
Proof.
  revert n depth hs; induction t as [t Ht|t IH|t IH IHn|t IH|t IH|ts IH|k v IHk IHv|ts IH]
    using Ct.column_lc_ind; intros n depth hs Hn; [by apply yields_decode_leaf|..]; cbn [decode_column];
    unfold decode_nullable, decode_array, decode_tuple, decode_map, decode_variant;
    (destruct (_ <? _)%nat; [apply yields_fail|]);
    (destruct (_ && (n =? 0)) eqn:E0;
      [apply andb_true_iff in E0 as [_ ->%Z.eqb_eq]; apply yields_ret, empty_column_typed|]);
    clear E0; cbv zeta.
  - eapply yields_bind; [apply yields_read_exact_grown|]. cbv beta; intros mask Hm.
    eapply yields_bind; [by apply IH|]. cbv beta; intros [c hs'] Hc. apply yields_ret.
    exists mask, c. split_and!; [done|lia|done].
  - pose (P := fun k c => has_type (lc_dict_type t).1 k c).
    assert (Hd : forall k hs, 0 <= k ->
      yields (decode_column (lc_dict_type t).1 k (S depth) hs) (fun r => P k r.1)).
    { intros k hs' Hk. destruct t; (by apply IHn) || by apply IH. }
    pose proof (fun b => yields_low_cardinality_column _ b n hs P Hn Hd) as Hlc.
    destruct t; (eapply yields_impl; [apply Hlc|]); intros r (dict & idx & k & Hk & Hidx & -> & Hdt);
      by exists dict, idx, k.
  - apply IH, Hn.
  - eapply yields_bind; [by apply yields_end_offsets|]. cbv beta; intros offs Ho.
    eapply yields_bind; [apply IH; eapply monotone_last; [|apply Ho]; lia|].
    cbv beta; intros [c hs'] Hc. apply yields_ret. by exists offs, c.
  - apply yields_bind_; intros _. eapply yields_bind; [apply yields_decode_fields|].
    { eapply Forall_impl; [exact IH|]. auto. }
    cbv beta; intros [cs hs'] Hcs. apply yields_ret. by exists cs.
  - eapply yields_bind; [by apply yields_end_offsets|]. cbv beta; intros offs Ho.
    assert (0 <= default 0 (last offs)) by (eapply monotone_last; [|apply Ho]; lia).
    eapply yields_bind; [by apply IHk|]. cbv beta; intros [ks hs1] Hk.
    eapply yields_bind; [by apply IHv|]. cbv beta; intros [vs hs2] Hv. apply yields_ret.
    by exists offs, ks, vs.
  - apply (yields_json_docs _ n (Ct.Variant ts)). by apply yields_read_column_at.
Qed.

End typed.

(** *** Row counts and sparse expansion *)

Lemma row_count_typed t n c : 0 <= n -> counted t = true -> has_type t n c -> row_count c = n.
Proof.
  intros Hn. revert n c Hn; induction t as [t Ht|t IH|t IH IHn|t IH|t IH|ts IH|k v IHk IHv|ts IH]
    using Ct.column_lc_ind; intros n c Hn Hc Hty.
  - destruct t; try done; cbn [has_type counted] in *;
      try (destruct Hty as (v & -> & [Hl _]); exact Hl); try (destruct Hty as (v & -> & Hl); exact Hl).
    destruct Hty as (b & -> & Hl). simpl. apply Z.ltb_lt in Hc.
    rewrite (proj2 (Z.eqb_neq _ 0)), Hl, Z.max_r by nia. rewrite Z.mul_comm. apply Z.div_mul. lia.
  - destruct Hty as (mask & child & -> & Hl & _). exact Hl.
  - destruct Hty as (dict & idx & k & Hk & Hidx & Hty).
    assert (Hr : row_count idx = n) by (destruct idx; try done; apply Hidx).
    destruct t; destruct Hty as [-> _]; exact Hr.
  - by apply IH.
  - destruct Hty as (offs & child & -> & [Hl _] & _). exact Hl.
  - destruct Hty as (cs & -> & Hty). destruct ts as [|t ts]; [done|]. destruct cs as [|c cs]; [done|].
    apply Forall_cons in IH as [IH _]. destruct Hty as [Hty _]. exact (IH n c Hn Hc Hty).
  - destruct Hty as (offs & ks & vs & -> & [Hl _] & _). exact Hl.
  - destruct Hty as (v & -> & Hl). exact Hl.
Qed.

Lemma fold_insert_length {T} (l : list (T * Z)) out :
  length (fold_left (fun out '(value, row) => <[Z.to_nat row := value]> out) l out) = length out.
Proof.
  revert out; induction l as [|[v r] l IH]; intros out; simpl; [done|]. by rewrite IH, length_insert.
Qed.

Lemma fold_insert_Forall {T} (P : T -> Prop) (l : list (T * Z)) out :
  Forall P (map fst l) -> Forall P out ->
  Forall P (fold_left (fun out '(value, row) => <[Z.to_nat row := value]> out) l out).
Proof.
  revert out; induction l as [|[v r] l IH]; intros out Hl Ho; simpl in *; [done|].
  apply Forall_cons in Hl as [Hv Hl]. apply IH; [done|]. by apply Forall_insert.
Qed.

Lemma scatter_values_ok `{Platform} {T} (P : T -> Prop) sz values positions n d out :
  scatter_values sz values positions n d = Ok out -> 0 <= n -> P d -> Forall P values ->
  Z.of_nat (length out) = n /\ Forall P out.
Proof.
  intros Hs Hn Hd Hv. apply bind_Ok_inv in Hs as (u & _ & Hs). apply Ok_inj in Hs as <-. split.
  - rewrite fold_insert_length, length_replicate. lia.
  - apply fold_insert_Forall; [|by apply Forall_replicate].
    rewrite Forall_forall in Hv |- *. intros x Hx. apply list_elem_of_fmap in Hx as ([y p] & -> & Hin).
    apply Hv. by apply elem_of_zip_l in Hin.
Qed.

Lemma scatter_bytes_length width bytes positions out :
  Forall (fun p => (Z.to_nat p * width + width <= length out)%nat) positions ->
  (length positions * width <= length bytes)%nat ->
  length (scatter_bytes width bytes positions out) = length out.
Proof.
  revert bytes out; induction positions as [|p ps IH]; intros bytes out Hp Hb; simpl in *; [done|].
  apply Forall_cons in Hp as [Hp Hps].
  assert (Hl : length (take (Z.to_nat p * width) out ++ take width bytes ++
    drop (Z.to_nat p * width + width) out) = length out).
  { rewrite !length_app, !length_take, length_drop. lia. }
  rewrite IH; [exact Hl|rewrite Hl; exact Hps|rewrite length_drop; lia].
Qed.

(** The scalars ClickHouse serialises sparsely. *)
Definition sparse_scalar (t : ColumnType) : bool :=
  match t with
  | Ct.Nullable _ | Ct.LowCardinality _ | Ct.Array _ | Ct.Tuple _ | Ct.Map _ _
  | Ct.SimpleAggregateFunction _ | Ct.BFloat16 | Ct.Time | Ct.Time64 | Ct.Point => false
  | _ => true
  end.

Lemma fmap_Ok_inv {E A B} (f : A -> B) (m : result E A) b :
  f <$> m = Ok b -> exists a, m = Ok a /\ b = f a.
Proof. destruct m; intros Hf; [|discriminate]. apply Ok_inj in Hf as <-. eauto. Qed.

(** One arm of the expansion. *)
Lemma scatter_arm `{Platform} {T} (f : list T -> DecodedColumn) (P : T -> Prop) sz v ps n d c :
  f <$> scatter_values sz v ps n d = Ok c -> 0 <= n -> P d -> Forall P v ->
  exists out, c = f out /\ Z.of_nat (length out) = n /\ Forall P out.
Proof.
  intros Hs Hn Hd Hv. apply fmap_Ok_inv in Hs as (out & Hs & ->).
  exists out. split; [done|]. by eapply scatter_values_ok.
Qed.

Lemma find_none_below positions n :
  List.find (fun p => n <=? p) positions = None -> Forall (fun p => p < n) positions.
Proof.
  intros Hf. apply List.Forall_forall. intros p Hin. apply (List.find_none _ _ Hf) in Hin.
  apply Z.leb_gt in Hin. done.
Qed.

(** A dense column of one value per position expands to a column of the same
    type and the block's length. *)
Lemma expand_sparse_typed `{Platform} t k c positions n c' :
  sparse_scalar t = true -> 0 <= n -> 0 <= k -> has_type t k c ->
  Forall (fun p => 0 <= p) positions -> expand_sparse c positions n = Ok c' -> has_type t n c'.
Proof.
  intros Ht Hn Hk Hty Hpos. unfold expand_sparse. destruct (negb _) eqn:Ec; [discriminate|].
  apply negb_false_iff, Z.eqb_eq in Ec. destruct (List.find _ _) eqn:Ef; [discriminate|].
  apply find_none_below in Ef. cbv zeta.
  destruct t; try discriminate; cbn [has_type] in *.
  all: try lazymatch type of Hty with
  | exists _ : list Z, _ =>
      destruct Hty as (v & -> & Hl & Hv); intros Hs; eapply scatter_arm; [exact Hs|done|simpl; lia|exact Hv]
  | exists v, _ /\ raws _ _ _ =>
      destruct Hty as (v & -> & Hl & Hv); intros Hs; eapply scatter_arm; [exact Hs|done| |exact Hv]; done
  | exists v, _ /\ strings _ _ =>
      destruct Hty as (v & -> & Hl); intros Hs;
      destruct (scatter_arm _ (fun _ => True) _ _ _ _ _ _ Hs Hn I (Forall_true _ _ (fun _ => I)))
        as (out & -> & Ho & _); by exists out
  end.
  destruct Hty as (b & -> & Hl). destruct (2 ^ 64 <=? _); [discriminate|]. intros Hs.
  apply bind_Ok_inv in Hs as (u & _ & Hs). apply Ok_inj in Hs as <-.
  eexists; split; [reflexivity|]. cbn [row_count] in Ec.
  destruct (Z.eqb_spec n0 0) as [->|Hw].
  { destruct positions; [|simpl in Ec; lia]. unfold zeros. rewrite Z.mul_0_r. simpl. lia. }
  unfold zeros. destruct (Z.ltb_spec n0 0) as [Hneg|Hpos0].
  { assert (Hz : n * n0 <= 0) by nia. rewrite Z.max_l in Hl by nia. rewrite Hl in Ec.
    rewrite Z.div_0_l in Ec by lia. destruct positions; [|simpl in Ec; lia].
    simpl. rewrite length_replicate. lia. }
  rewrite Z.max_r in Hl by nia. rewrite Hl, Z.mul_comm, Z.div_mul in Ec by lia.
  rewrite scatter_bytes_length; rewrite ?length_replicate; [lia| |nia].
  rewrite Forall_forall in Hpos, Ef |- *. intros p Hin.
  specialize (Hpos p Hin). specialize (Ef p Hin). nia.
Qed.

(** Scattering the values of a column at their positions gives the column back. *)
Lemma scatter_positions {T} (d : T) (l pre : list T) (flags : list bool) :
  Forall2 (fun x (f : bool) => f = false -> x = d) l flags ->
  fold_left (fun out '(value, row) => <[Z.to_nat row := value]> out)
      (zip (map fst (filter (fun xf => xf.2 = true) (zip l flags)))
           (value_positions (Z.of_nat (length pre)) flags))
      (pre ++ replicate (length l) d) = pre ++ l.
Proof.
  intros Hf. revert pre; induction Hf as [|x f l flags Hx Hf IH]; intros pre; [done|].
  specialize (IH (pre ++ [x])). rewrite length_app in IH. simpl in IH.
  replace (Z.of_nat (length pre + 1)) with (Z.of_nat (length pre) + 1) in IH by lia.
  rewrite <- !app_assoc in IH. cbn [length replicate value_positions zip zip_with].
  destruct f.
  - rewrite filter_cons_True by done. cbn [map fst zip zip_with fold_left].
    rewrite Nat2Z.id, insert_app_r_alt, Nat.sub_diag by lia. exact IH.
  - rewrite filter_cons_False by done. rewrite (Hx eq_refl) in *. exact IH.
Qed.

(** A composite is refused, so any type is preserved. *)
Lemma expand_sparse_composite `{Platform} c positions n c' :
  match c with
  | Dc.Nullable _ _ | Dc.Array _ _ | Dc.LowCardinality _ _ _ | Dc.Tuple _ | Dc.Map _ _ _
  | Dc.Unsupported _ => True
  | _ => False
  end -> expand_sparse c positions n <> Ok c'.
Proof.
  intros Hc. unfold expand_sparse. destruct (negb _); [done|]. destruct (List.find _ _); [done|].
  by destruct c.
Qed.

Lemma expand_sparse_any `{Platform} t k c positions n c' :
  0 <= n -> 0 <= k -> has_type t k c -> Forall (fun p => 0 <= p) positions ->
  expand_sparse c positions n = Ok c' -> has_type t n c'.
Proof.
  intros Hn Hk Hty Hpos Hs. induction t as [t Ht|t IH|t IH IHn|t IH|t IH|ts IH|kt vt IHk IHv|ts IH]
    using Ct.column_lc_ind.
  - destruct (sparse_scalar t) eqn:Et; [by eapply expand_sparse_typed|].
    destruct t; try done; cbn [has_type] in Hty; subst c; by apply expand_sparse_composite in Hs.
  - destruct Hty as (m & ch & -> & _). by apply expand_sparse_composite in Hs.
  - destruct Hty as (d & i & k' & _ & _ & Hty).
    destruct t; destruct Hty as [-> _]; by apply expand_sparse_composite in Hs.
  - by apply IH.
  - destruct Hty as (m & ch & -> & _). by apply expand_sparse_composite in Hs.
  - destruct Hty as (m & -> & _). by apply expand_sparse_composite in Hs.
  - destruct Hty as (o & ks & vs & -> & _). by apply expand_sparse_composite in Hs.
  - by eapply expand_sparse_typed.
Qed.

Section block.
Context `{Platform} `{FloatText}.

Lemma yields_decode_values ct sparse n :
  0 <= n -> yields (decode_values ct sparse n) (has_type ct n).
Proof.
  intros Hn. apply yields_bind_; intros headers. destruct (sparse && _).
  - eapply (yields_bind (fun r => Forall (fun p => 0 <= p < n) r.1)).
    { intros bs [offs st] rest Hr. unfold read_sparse_offsets, rd_loop in Hr.
      eapply sparse_loop_in_range; [exact Hr|apply sparse_carry_in_range]. }
    cbv beta; intros [positions st] Hpos. cbn [fst] in Hpos.
    eapply yields_bind; [apply yields_decode_column; lia|]. cbv beta; intros [dense hs] Hd.
    apply yields_lift. intros c Hc. eapply expand_sparse_any; [done| |exact Hd| |exact Hc]; [lia|].
    eapply Forall_impl; [exact Hpos|]. simpl. lia.
  - eapply yields_bind; [by apply yields_decode_column|]. cbv beta; intros [c hs] Hc. by apply yields_ret.
Qed.

(** A decoded column agrees with the type its block announces. *)
Definition announced (n : Z) (entry : (text * text) * DecodedColumn) : Prop :=
  exists t, parse entry.1.2 = Some t /\ has_type t n entry.2.

Lemma yields_block_column n b : 0 <= n -> yields (decode_block_column n b) (announced n).
Proof.
  intros Hn. apply yields_bind_; intros name. apply yields_bind_; intros ty. apply yields_bind_; intros sp.
  destruct (parse ty) as [ct|] eqn:E; [|apply yields_fail].
  eapply yields_bind; [by apply yields_decode_values|]. cbv beta; intros c Hc. apply yields_ret.
  by exists ct.
Qed.

End block.

(** ** Properties *)

(** C15: a block that decodes, from any bytes, is well formed: the caps held, there is
    one column per announced name, every column is of its announced type at
    the block's row count, and its own row count is the block's wherever the
    representation keeps one. *)
Theorem decode_block_well_formed `{Platform} `{FloatText} nc n rev bs b rest :
  0 <= nc -> 0 <= n -> decode_block nc n rev bs = Ok (b, rest) ->
  nc <= MAX_BLOCK_COLUMNS /\ n <= MAX_BLOCK_ROWS /\ num_rows b = n /\
  Z.of_nat (length (columns b)) = nc /\ length (schema b) = length (columns b) /\
  Forall2 (fun entry c => exists t, parse entry.2 = Some t /\ has_type t n c /\
             (counted t = true -> row_count c = n)) (schema b) (columns b).
Proof.
  intros Hnc Hn. unfold decode_block. cbv zeta.
  destruct (Z.ltb_spec MAX_BLOCK_COLUMNS nc); [discriminate|].
  destruct (Z.ltb_spec MAX_BLOCK_ROWS n); [discriminate|]. intros Hr.
  apply rd_bind_ok in Hr as (u1 & m1 & _ & Hr). apply rd_bind_ok in Hr as (u2 & m2 & _ & Hr).
  apply rd_bind_ok in Hr as (cols & m3 & Hcols & Hr). apply rd_ret_ok in Hr as [<- _].
  apply (yields_repeat _ _ _ (yields_block_column n _ Hn)) in Hcols as [Hl Hall].
  cbn [columns schema num_rows]. rewrite !length_map. split_and!; [done|done|done|lia|done|].
  apply Forall2_fmap_l, Forall2_fmap_r, Forall_Forall2_diag.
  eapply Forall_impl; [exact Hall|]. intros [[nm ty] c] (t & Hp & Hty). exists t.
  split_and!; [done|done|]. intros Hc. by eapply row_count_typed.
Qed.

(** One UInt16 column [a] of two rows, revision below the flag byte. *)
Lemma decode_block_well_formed_witness :
  let bs := put_string (str "a") ++ put_string (str "UInt16") ++ [x01; x00; x02; x01; x2a] in
  exists b, @decode_block roomy no_floats 1 2 0 bs = Ok (b, [x2a]) /\ num_rows b = 2.
Proof.
  intros bs. eexists. split; [vm_compute; reflexivity|].
  refine (proj1 (proj2 (proj2 (@decode_block_well_formed roomy no_floats 1 2 0 bs _ [x2a] _ _ _))));
    [lia|lia|vm_compute; reflexivity].
Defined.

(** a block consumes exactly its own bytes, whatever follows them on the
    connection, so the next packet starts where this block ends. *)
Theorem decode_block_framed `{Platform} `{FloatText} nc n rev bs b rest :
  decode_block nc n rev bs = Ok (b, rest) ->
  exists used, bs = used ++ rest /\
    forall tail, decode_block nc n rev (used ++ tail) = Ok (b, tail).
Proof. exact (framed_decode_block nc n rev bs b rest). Qed.

Lemma decode_block_framed_witness :
  exists used, [x01; x61; x05; x55; x49; x6e; x74; x38; x07; x2a] = used ++ [x2a] /\
    forall tail, @decode_block roomy no_floats 1 1 0 (used ++ tail) =
      Ok ({| columns := [Dc.UInt8 [7]]; schema := [(str "a", str "UInt8")]; num_rows := 1 |}, tail).
Proof.
  refine (@decode_block_framed roomy no_floats 1 1 0
    [x01; x61; x05; x55; x49; x6e; x74; x38; x07; x2a] _ [x2a] _). vm_compute. reflexivity.
Defined.

(** sparse expansion is the inverse of sparse serialisation: scattering the values
    the flags select over the default gives the original column, for any
    column whose unselected rows hold the default. *)
Theorem scatter_values_inverse `{Platform} {T} (d : T) sz (l : list T) (flags : list bool) :
  alloc_total ->
  Forall2 (fun x (f : bool) => f = false -> x = d) l flags ->
  scatter_values sz (map fst (filter (fun xf => xf.2 = true) (zip l flags)))
    (value_positions 0 flags) (Z.of_nat (length l)) d = Ok l.
Proof.
  intros Ha Hf. unfold scatter_values, with_cap, try_reserve. rewrite Ha, orb_true_r.
  cbn [mbind result_bind]. f_equal. rewrite Nat2Z.id. exact (scatter_positions d l [] flags Hf).
Qed.

Lemma scatter_values_inverse_witness :
  @scatter_values roomy Z 2 [5; 3] [2; 4] 8 0 = Ok [0; 0; 5; 0; 3; 0; 0; 0].
Proof.
  refine (@scatter_values_inverse roomy Z 0 2 [0; 0; 5; 0; 3; 0; 0; 0]
    [false; false; true; false; true; false; false; false] (fun _ => eq_refl) _).
  by repeat constructor.
Defined.
