(* ===== verification/Encode.v ===== *)
(** * The block encoder

    Models [src/native/encode.rs]: RowBinary rows are cut into cells by walking
    each row with [rb_advance], transposed, and each column is written in the
    native columnar layout. A function of the source that appends to [out] is
    here the bytes it appends; an error discards them, as the source does. *)

From S2P Require Import Prelude Text Errors WireIo ColTypes Json Columns Decode.

(** ** Data and constants *)

Definition HAS_ADDITIONAL_KEYS : Z := Z.shiftl 1 9.

Record ColumnSchema := {
  name : text;
  type_name : text;
  col_type : ColumnType
}.

Definition rb_truncated : Error := BadResponse (str
  "native INSERT: RowBinary row data is truncated; does the row struct match the table schema?").

Definition unsupported_insert (t : ColumnType) : Error :=
  BadResponse (str "native INSERT: column type " ++ debug t ++ str " is not supported for INSERT").

(** [ColumnSchema::from_headers]. *)
Definition from_header (h : text * text) : Result ColumnSchema :=
  let '(name, type_name) := h in
  col_type ← ok_or (parse type_name)
    (BadResponse (str "native INSERT: unsupported column type '" ++ type_name ++
       str "' for column '" ++ name ++ str "'"));
  Ok {| name := name; type_name := type_name; col_type := col_type |}.
Definition from_headers (headers : list (text * text)) : Result (list ColumnSchema) :=
  map_res from_header headers.

(** ** Walking a row *)

(** [rb_read_varuint]. *)
Definition rb_read_varuint (data : list byte) (pos : nat) : Result (Z * nat) :=
  if (length data <? pos)%nat then Err rb_truncated
  else match get_var_uint (drop pos data) with
  | Err NotEnoughData => Err rb_truncated
  | other => other
  end.

(** [pos.checked_add(size)], within the data. *)
Definition rb_skip (data : list byte) (pos : nat) (size : Z) : Result nat :=
  if Z.of_nat (length data) <? Z.of_nat pos + size then Err rb_truncated
  else Ok (pos + Z.to_nat size)%nat.

(** [for _ in 0..k { step(&mut pos)?; }]. *)
Definition rb_times (step : nat -> Result nat) : nat -> nat -> Result nat :=
  fix go k pos :=
    match k with
    | O => Ok pos
    | S k' => pos ← step pos; go k' pos
    end.

Definition rb_each {T} (step : T -> nat -> Result nat) : list T -> nat -> Result nat :=
  fix go ts pos :=
    match ts with
    | [] => Ok pos
    | t :: ts' => pos ← step t pos; go ts' pos
    end.

(** [rb_advance]: the position past the value of [col_type] at [pos]. *)
Fixpoint rb_advance (col_type : ColumnType) (data : list byte) (pos : nat) : Result nat :=
  match fixed_size col_type with
  | Some size => rb_skip data pos size
  | None =>
      match col_type with
      | Ct.String | Ct.Json | Ct.NewJson =>
          '(len, hdr) ← rb_read_varuint data pos;
          rb_skip data (pos + hdr)%nat len
      | Ct.FixedString n => rb_skip data pos n
      | Ct.Nullable inner =>
          match data !! pos with
          | None => Err rb_truncated
          | Some flag => if u8 flag =? 0 then rb_advance inner data (S pos) else Ok (S pos)
          end
      | Ct.LowCardinality inner => rb_advance inner data pos
      | Ct.Array inner =>
          '(count, hdr) ← rb_read_varuint data pos;
          rb_times (rb_advance inner data) (Z.to_nat count) (pos + hdr)%nat
      | Ct.Tuple fields => rb_each (fun field => rb_advance field data) fields pos
      | Ct.Map key_type val_type =>
          '(count, hdr) ← rb_read_varuint data pos;
          rb_times (fun pos => pos ← rb_advance key_type data pos; rb_advance val_type data pos)
            (Z.to_nat count) (pos + hdr)%nat
      | _ => Err (unsupported_insert col_type)
      end
  end.

(** [rb_write_default]. *)
Fixpoint rb_write_default (col_type : ColumnType) : list byte :=
  match fixed_size col_type with
  | Some size => replicate (Z.to_nat size) x00
  | None =>
      match col_type with
      | Ct.String | Ct.Json | Ct.NewJson => put_var_uint 0
      | Ct.FixedString n => replicate (Z.to_nat n) x00
      | Ct.LowCardinality inner => rb_write_default inner
      | _ => put_var_uint 0
      end
  end.

(** The value at [pos]: its bytes and the position past them. *)
Definition cut (t : ColumnType) (data : list byte) (pos : nat) : Result (list byte * nat) :=
  fin ← rb_advance t data pos; Ok (slice pos (fin - pos) data, fin).

(** The element loops of the Array, Map and Tuple arms. *)
Fixpoint cut_elems (t : ColumnType) (data : list byte) (k pos : nat) : Result (list (list byte)) :=
  match k with
  | O => Ok []
  | S k' => '(v, pos) ← cut t data pos; vs ← cut_elems t data k' pos; Ok (v :: vs)
  end.
Fixpoint cut_pairs (kt vt : ColumnType) (data : list byte) (k pos : nat)
    : Result (list (list byte) * list (list byte)) :=
  match k with
  | O => Ok ([], [])
  | S k' =>
      '(key, pos) ← cut kt data pos;
      '(val, pos) ← cut vt data pos;
      '(keys, vals) ← cut_pairs kt vt data k' pos;
      Ok (key :: keys, val :: vals)
  end.
Fixpoint cut_fields (ts : list ColumnType) (data : list byte) (pos : nat)
    : Result (list (list byte) * nat) :=
  match ts with
  | [] => Ok ([], pos)
  | t :: ts' =>
      '(v, pos) ← cut t data pos; '(vs, pos) ← cut_fields ts' data pos; Ok (v :: vs, pos)
  end.

(** ** Writing a column *)

(** [write_col_prefixes]. *)
Fixpoint write_col_prefixes (col_type : ColumnType) : list byte :=
  match col_type with
  | Ct.LowCardinality _ => put_le 8 1
  | Ct.Nullable inner | Ct.Array inner | Ct.SimpleAggregateFunction inner => write_col_prefixes inner
  | Ct.Tuple fields => concat (map write_col_prefixes fields)
  | Ct.Map key value => write_col_prefixes key ++ write_col_prefixes value
  | _ => []
  end.

(** One row of a Nullable column: its flag and the bytes of its value slot. *)
Definition nullable_split (default v : list byte) : Result (byte * list byte) :=
  match v with
  | [] => Err rb_truncated
  | flag :: rest => Ok (flag, if u8 flag =? 0 then rest else default)
  end.

(** The dictionary under construction: the values in order, the index of each,
    and the rows' indices. *)
Record LcDict := {
  dict : list (list byte);
  seen : gmap (list byte) Z;
  indices : list Z
}.

Definition lc_key (is_nullable_inner : bool) (v : list byte) : option (list byte) :=
  if is_nullable_inner then
    match v with
    | [] => None
    | flag :: rest => if u8 flag =? 1 then None else Some rest
    end
  else Some v.

(** One turn of the row loop. *)
Definition lc_push (is_nullable_inner : bool) (s : LcDict) (v : list byte) : Result LcDict :=
  match lc_key is_nullable_inner v with
  | None => Ok {| dict := dict s; seen := seen s; indices := indices s ++ [0] |}
  | Some bytes =>
      let next := Z.of_nat (length (dict s)) in
      if 2 ^ 32 <=? next then
        Err (BadResponse (str "native INSERT: LowCardinality dictionary exceeds u32 indices"))
      else match seen s !! bytes with
      | Some idx => Ok {| dict := dict s; seen := seen s; indices := indices s ++ [idx] |}
      | None => Ok {| dict := dict s ++ [bytes]; seen := <[bytes := next]> (seen s);
                      indices := indices s ++ [next] |}
      end
  end.

Definition lc_start (is_nullable_inner : bool) (dict_type : ColumnType) : LcDict :=
  if is_nullable_inner then
    let default_val := rb_write_default dict_type in
    {| dict := [default_val]; seen := {[ default_val := 0 ]}; indices := [] |}
  else {| dict := []; seen := ∅; indices := [] |}.

(** The narrowest index width: its type code and its bytes. *)
Definition lc_index_width (dict_len : Z) : Z * nat :=
  if dict_len <=? 0x100 then (0, 1%nat) else if dict_len <=? 0x10000 then (1, 2%nat) else (2, 4%nat).

(** The cumulative offsets of the counts, in [u64]. *)
Fixpoint cumulative (cum : Z) (counts : list Z) : list Z :=
  match counts with
  | [] => []
  | c :: counts' => let cum := wrap 64 (cum + c) in cum :: cumulative cum counts'
  end.

Definition array_row (inner : ColumnType) (v : list byte) : Result (Z * list (list byte)) :=
  '(count, pos) ← rb_read_varuint v 0;
  elems ← cut_elems inner v (Z.to_nat count) pos;
  Ok (count, elems).
Definition map_row (kt vt : ColumnType) (v : list byte)
    : Result (Z * (list (list byte) * list (list byte))) :=
  '(count, pos) ← rb_read_varuint v 0;
  kvs ← cut_pairs kt vt v (Z.to_nat count) pos;
  Ok (count, kvs).
Definition tuple_row (fields : list ColumnType) (v : list byte) : Result (list (list byte)) :=
  '(cells, _) ← cut_fields fields v 0; Ok cells.

(** Column [i] of a list of rows. *)
Definition nth_cells (i : nat) (rows : list (list (list byte))) : list (list byte) :=
  map (fun row => row !!! i) rows.

(** Each field's cells written by its own type, [i] the index of the first. *)
Definition write_fields {T} (write : T -> list (list byte) -> Result (list byte))
    (rows : list (list (list byte))) : nat -> list T -> Result (list byte) :=
  fix go i fields :=
    match fields with
    | [] => Ok []
    | f :: fields' => b ← write f (nth_cells i rows); bs ← go (S i) fields'; Ok (b ++ bs)
    end.

(** The plain layout: RowBinary bytes are the native bytes. *)
Definition plain_layout (t : ColumnType) : bool :=
  match fixed_size t with
  | Some _ => true
  | None =>
      match t with
      | Ct.String | Ct.FixedString _ | Ct.Json | Ct.NewJson => true
      | _ => false
      end
  end.

(** The bytes of a LowCardinality column around those of its dictionary. *)
Definition lc_header (s : LcDict) : list byte :=
  put_le 8 (Z.lor HAS_ADDITIONAL_KEYS (fst (lc_index_width (Z.of_nat (length (dict s)))))) ++
  put_le 8 (Z.of_nat (length (dict s))).
Definition lc_footer (s : LcDict) : list byte :=
  put_le 8 (Z.of_nat (length (indices s))) ++
  concat (map (fun idx => take (snd (lc_index_width (Z.of_nat (length (dict s))))) (put_le 4 idx))
            (indices s)).

(** [write_col_values]. *)
Fixpoint write_col_values (col_type : ColumnType) (values : list (list byte)) : Result (list byte) :=
  if plain_layout col_type then Ok (concat values)
  else match col_type with
  | Ct.Nullable inner =>
      rows ← map_res (nullable_split (rb_write_default inner)) values;
      body ← write_col_values inner (map snd rows);
      Ok (map fst rows ++ body)
  | Ct.LowCardinality inner =>
      match inner with
      | Ct.Nullable t_inner =>
          s ← fold_res (lc_push true) (lc_start true t_inner) values;
          body ← write_col_values t_inner (dict s);
          Ok (lc_header s ++ body ++ lc_footer s)
      | _ =>
          s ← fold_res (lc_push false) (lc_start false inner) values;
          body ← write_col_values inner (dict s);
          Ok (lc_header s ++ body ++ lc_footer s)
      end
  | Ct.Array inner =>
      rows ← map_res (array_row inner) values;
      body ← write_col_values inner (concat (map snd rows));
      Ok (concat (map (put_le 8) (cumulative 0 (map fst rows))) ++ body)
  | Ct.Map key_type val_type =>
      rows ← map_res (map_row key_type val_type) values;
      keys ← write_col_values key_type (concat (map (fun r => fst (snd r)) rows));
      vals ← write_col_values val_type (concat (map (fun r => snd (snd r)) rows));
      Ok (concat (map (put_le 8) (cumulative 0 (map fst rows))) ++ keys ++ vals)
  | Ct.Tuple fields =>
      rows ← map_res (tuple_row fields) values;
      write_fields write_col_values rows 0 fields
  | _ => Err (unsupported_insert col_type)
  end.

(** ** The block *)

(** Pass 1 of [encode_columns]: the cells of one row, which must fill it. *)
Definition cut_row (columns : list ColumnSchema) (row : list byte) : Result (list (list byte)) :=
  '(cells, pos) ← cut_fields (map col_type columns) row 0;
  if (pos =? length row)%nat then Ok cells
  else Err (BadResponse (str "native INSERT: row has " ++ show (Z.of_nat (length row - pos)) ++
         str " trailing RowBinary bytes after the " ++ show (Z.of_nat (length columns)) ++
         str " declared column(s)")).

(** The type name declared on the wire: JSON goes as String. *)
Definition wire_type_name (col : ColumnSchema) : text :=
  match col_type col with
  | Ct.NewJson | Ct.Json => str "String"
  | _ => type_name col
  end.

(** Pass 2 for one column. *)
Definition write_column (has_custom_ser : bool) (col : ColumnSchema) (cells : list (list byte))
    : Result (list byte) :=
  body ← write_col_values (col_type col) cells;
  Ok (put_string (name col) ++ put_string (wire_type_name col) ++
      (if has_custom_ser then [x00] else []) ++ write_col_prefixes (col_type col) ++ body).

(** [encode_columns]. *)
Definition encode_columns (rows : list (list byte)) (columns : list ColumnSchema) (revision : Z)
    : Result (list byte) :=
  let has_custom_ser := DBMS_MIN_PROTOCOL_VERSION_WITH_CUSTOM_SERIALIZATION <=? revision in
  match columns, rows with
  | [], _ | _, [] => Ok []
  | _, _ =>
      cut_rows ← map_res (cut_row columns) rows;
      write_fields (write_column has_custom_ser) cut_rows 0 columns
  end.

(** ** The cells the encoder takes

    RowBinary values of the types ClickHouse lets a client insert: [Nullable]
    and [LowCardinality] wrap scalars only. Inside [LowCardinality(Nullable(T))]
    the default value of [T] is left out: the encoder gives it index 0, which
    is NULL (see [lc_default_becomes_null]). *)

Definition enc_all2 (P : ColumnType -> list byte -> Prop) :=
  fix go (ts : list ColumnType) (cells : list (list byte)) : Prop :=
    match ts, cells with
    | [], [] => True
    | t :: ts', c :: cells' => P t c /\ go ts' cells'
    | _, _ => False
    end.

Definition plain_cell (t : ColumnType) (b : list byte) : Prop :=
  match fixed_size t with
  | Some k => 0 < k /\ Z.of_nat (length b) = k
  | None =>
      match t with
      | Ct.String | Ct.Json =>
          exists s, b = put_string s /\ Z.of_nat (length s) <= MAX_STRING_SIZE
      | _ => False
      end
  end.

Fixpoint enc_cell (t : ColumnType) (b : list byte) : Prop :=
  match t with
  | Ct.Nullable t => b = [x01] /\ plain_cell t (rb_write_default t) \/ exists v, b = x00 :: v /\ plain_cell t v
  | Ct.LowCardinality inner =>
      match inner with
      | Ct.Nullable t =>
          plain_cell t (rb_write_default t) /\
          (b = [x01] \/ exists v, b = x00 :: v /\ plain_cell t v /\ v <> rb_write_default t)
      | _ => plain_cell inner b
      end
  | Ct.Array t =>
      exists cells, b = put_var_uint (Z.of_nat (length cells)) ++ concat cells /\ Forall (enc_cell t) cells
  | Ct.Tuple ts => ts <> [] /\ exists cells, b = concat cells /\ enc_all2 enc_cell ts cells
  | Ct.Map k v =>
      exists keys vals, length keys = length vals /\
        b = put_var_uint (Z.of_nat (length keys)) ++ concat (zip_with app keys vals) /\
        Forall (enc_cell k) keys /\ Forall (enc_cell v) vals
  | _ => plain_cell t b
  end.

(** A value of one block under this many bytes keeps every count in range. *)
Definition MAX_COLUMN_BYTES : Z := 2 ^ 32 - 2.

(** ** Walking encodable cells *)

Lemma put_var_uint_nonempty v : (0 < length (put_var_uint v))%nat.
Proof. apply encode_var_uint_nonempty. Qed.

Lemma default_plain t : plain_layout t = true -> (exists v, plain_cell t v) -> plain_cell t (rb_write_default t).
Proof.
  intros _ [v Hv]. unfold plain_cell in *. destruct t; simpl in *; try done;
    try (split; [lia|reflexivity]);
    try (destruct Hv; split; [done|]; rewrite length_replicate; lia);
    exists []; (split; [reflexivity|unfold MAX_STRING_SIZE; simpl; lia]).
Qed.

Lemma plain_cell_layout t b : plain_cell t b -> plain_layout t = true.
Proof. unfold plain_cell, plain_layout. destruct (fixed_size t); [done|]. by destruct t. Qed.

Lemma rb_read_varuint_app pre v post :
  0 <= v < 2 ^ 64 ->
  rb_read_varuint (pre ++ put_var_uint v ++ post) (length pre) = Ok (v, length (put_var_uint v)).
Proof.
  intros Hv. unfold rb_read_varuint. rewrite length_app, (proj2 (Nat.ltb_ge _ _)) by lia.
  rewrite drop_app_length, get_var_uint_stream, (reads_var_uint v Hv), length_app.
  unfold put_var_uint. do 2 f_equal. lia.
Qed.

Lemma rb_skip_app pre b post k :
  Z.of_nat (length b) = k -> rb_skip (pre ++ b ++ post) (length pre) k = Ok (length (pre ++ b)).
Proof.
  intros Hk. unfold rb_skip. rewrite !length_app. rewrite (proj2 (Z.ltb_ge _ _)) by lia.
  f_equal. lia.
Qed.

Definition advances (t : ColumnType) (b : list byte) : Prop :=
  forall pre post, rb_advance t (pre ++ b ++ post) (length pre) = Ok (length (pre ++ b)).

Lemma plain_advances t b : plain_cell t b -> advances t b.
Proof.
  intros Hb pre post. unfold plain_cell in Hb. destruct (fixed_size t) as [k|] eqn:E.
  { assert (Ha : rb_advance t (pre ++ b ++ post) (length pre) = rb_skip (pre ++ b ++ post) (length pre) k)
      by (destruct t; simpl in *; congruence).
    rewrite Ha. apply rb_skip_app, Hb. }
  assert (Hs : exists s, b = put_string s /\ Z.of_nat (length s) <= MAX_STRING_SIZE) by (by destruct t).
  destruct Hs as (s & -> & Hs).
  assert (Ha : rb_advance t (pre ++ put_string s ++ post) (length pre) =
    ('(len, hdr) ← rb_read_varuint (pre ++ put_string s ++ post) (length pre);
     rb_skip (pre ++ put_string s ++ post) (length pre + hdr)%nat len)) by (by destruct t).
  rewrite Ha. unfold put_string. rewrite <- app_assoc, rb_read_varuint_app by (unfold MAX_STRING_SIZE in *; lia).
  cbn [mbind result_bind]. rewrite <- length_app, (app_assoc pre).
  rewrite (rb_skip_app _ s post) by done. by rewrite !length_app, Nat.add_assoc.
Qed.

Lemma plain_nonempty t b : plain_cell t b -> b <> [].
Proof.
  unfold plain_cell. destruct (fixed_size t); [intros [? ?] ->; simpl in *; lia|].
  assert (Hs : forall s, put_string s <> []).
  { intros s E. apply (f_equal (@length byte)) in E. unfold put_string in E. rewrite length_app in E.
    pose proof (put_var_uint_nonempty (Z.of_nat (length s))). cbn [length] in E. lia. }
  destruct t; intros Hb; try destruct Hb; destruct H as [-> _]; apply Hs.
Qed.

Lemma rb_times_advance (step : list byte -> nat -> Result nat) (cells : list (list byte)) pre post :
  (forall pre b post, b ∈ cells -> step (pre ++ b ++ post) (length pre) = Ok (length (pre ++ b))) ->
  rb_times (step (pre ++ concat cells ++ post)) (length cells) (length pre) =
    Ok (length (pre ++ concat cells)).
Proof.
  revert pre; induction cells as [|b cells IH]; intros pre Hstep; simpl.
  - by rewrite app_nil_r.
  - rewrite <- (app_assoc b), Hstep by set_solver. cbn [mbind result_bind].
    rewrite (app_assoc pre), IH.
    + by rewrite app_assoc.
    + intros. apply Hstep. set_solver.
Qed.

Lemma concat_length_le {A} (l : list (list A)) x : x ∈ l -> (length x <= length (concat l))%nat.
Proof.
  induction l as [|y l IH]; intros Hin; [by apply elem_of_nil in Hin|]. simpl. rewrite length_app.
  apply elem_of_cons in Hin as [->|Hin]; [lia|]. apply IH in Hin. lia.
Qed.

Lemma concat_count {A} (l : list (list A)) :
  Forall (fun x => x <> []) l -> (length l <= length (concat l))%nat.
Proof.
  induction 1 as [|x l Hx Hl IH]; simpl; [lia|]. rewrite length_app. destruct x; [done|simpl; lia].
Qed.

Lemma enc_nonempty t b : enc_cell t b -> b <> [].
Proof.
  revert b; induction t as [t Ht|t IH|t IH IHn|t IH|t IH|ts IH|k v IHk IHv|ts IH]
    using Ct.column_lc_ind; intros b Hb.
  - destruct t; try done; by apply plain_nonempty in Hb.
  - destruct Hb as [[-> _]|(v & -> & _)]; done.
  - destruct t; try (by apply plain_nonempty in Hb). by destruct Hb as [_ [->|(v & -> & _)]].
  - by apply plain_nonempty in Hb.
  - destruct Hb as (cells & -> & _). intros E. apply (f_equal (@length byte)) in E. rewrite length_app in E.
    pose proof (put_var_uint_nonempty (Z.of_nat (length cells))). cbn [length] in E. lia.
  - destruct Hb as (Hne & cells & -> & Hall). destruct ts as [|t ts]; [done|].
    destruct cells as [|c cells]; [done|]. destruct Hall as [Hc _].
    apply Forall_cons in IH as [IH _]. apply IH in Hc. by destruct c.
  - destruct Hb as (keys & vals & _ & -> & _). intros E. apply (f_equal (@length byte)) in E.
    rewrite length_app in E. pose proof (put_var_uint_nonempty (Z.of_nat (length keys))). cbn [length] in E. lia.
  - by apply plain_nonempty in Hb.
Qed.

Lemma enc_count t cells : Forall (enc_cell t) cells -> (length cells <= length (concat cells))%nat.
Proof. intros Hc. apply concat_count. eapply Forall_impl; [exact Hc|]. intros b. apply enc_nonempty. Qed.

Lemma rb_each_advance ts cells pre post :
  enc_all2 (fun t b => advances t b) ts cells ->
  rb_each (fun t => rb_advance t (pre ++ concat cells ++ post)) ts (length pre) =
    Ok (length (pre ++ concat cells)).
Proof.
  revert cells pre; induction ts as [|t ts IH]; intros [|b cells] pre Hall; simpl in *; try done.
  - by rewrite app_nil_r.
  - destruct Hall as [Hb Hall]. rewrite <- (app_assoc b), Hb. cbn [mbind result_bind].
    rewrite (app_assoc pre), IH by done. by rewrite app_assoc.
Qed.

Lemma enc_all2_impl (P Q : ColumnType -> list byte -> Prop) ts cells :
  Forall (fun t => forall b, P t b -> Q t b) ts -> enc_all2 P ts cells -> enc_all2 Q ts cells.
Proof.
  intros Hpq. revert cells; induction Hpq as [|t ts Ht Hts IH]; intros [|c cells] Hall; try done.
  destruct Hall. split; auto.
Qed.

(** The cells of a Map, each a key and a value. *)
Lemma pairs_length (keys vals : list (list byte)) :
  length keys = length vals -> (length (concat keys) <= length (concat (zip_with app keys vals)))%nat.
Proof.
  revert vals; induction keys as [|x keys IH]; intros [|y vals] Hkv; simpl in *; try lia.
  specialize (IH vals ltac:(lia)). rewrite !length_app. lia.
Qed.

Lemma map_advances k v keys vals :
  length keys = length vals ->
  Forall (fun b => Z.of_nat (length b) < 2 ^ 64 -> advances k b) keys ->
  Forall (fun b => Z.of_nat (length b) < 2 ^ 64 -> advances v b) vals ->
  Z.of_nat (length keys) < 2 ^ 64 -> Z.of_nat (length (concat (zip_with app keys vals))) < 2 ^ 64 ->
  advances (Ct.Map k v) (put_var_uint (Z.of_nat (length keys)) ++ concat (zip_with app keys vals)).
Proof.
  intros Hkv Hk Hv Hcount Hlen pre post. cbn [rb_advance fixed_size].
  rewrite <- app_assoc, rb_read_varuint_app by lia. cbn [mbind result_bind].
  rewrite Nat2Z.id, <- length_app, (app_assoc pre).
  assert (Hl : length keys = length (zip_with app keys vals)) by (rewrite length_zip_with; lia).
  set (hd := pre ++ put_var_uint (Z.of_nat (length keys))). rewrite Hl.
  rewrite (rb_times_advance (fun data pos => pos ← rb_advance k data pos; rb_advance v data pos));
    [by unfold hd; rewrite <- app_assoc, <- ?Hl|].
  intros pre' b post' Hin. pose proof (concat_length_le _ _ Hin) as Hle.
  apply elem_of_lookup_zip_with in Hin as (i & x & y & -> & Hx & Hy). rewrite length_app in Hle. rewrite <- app_assoc.
  rewrite (Forall_lookup_1 _ _ _ _ Hk Hx) by lia. cbn [mbind result_bind].
  rewrite (app_assoc pre'), (Forall_lookup_1 _ _ _ _ Hv Hy) by lia. by rewrite <- app_assoc.
Qed.

(** The walker steps over exactly one cell, wherever it stands in the row;
    [bound] keeps an element count in [u64]. *)
Lemma enc_advances t b :
  enc_cell t b -> Z.of_nat (length b) < 2 ^ 64 -> advances t b.
Proof.
  revert b; induction t as [t Ht|t IH|t IH IHn|t IH|t IH|ts IH|k v IHk IHv|ts IH]
    using Ct.column_lc_ind; intros b Hb Hlen.
  - destruct t; try done; by apply plain_advances.
  - intros pre post. cbn [rb_advance fixed_size].
    destruct Hb as [[-> _]|(v & -> & Hv)]; cbn [app]; rewrite (list_lookup_middle pre) by done.
    + simpl. rewrite length_app. simpl. f_equal. lia.
    + change (u8 x00 =? 0) with true. cbv iota.
      pose proof (plain_advances _ _ Hv (pre ++ [x00]) post) as Ha. rewrite <- app_assoc in Ha.
      rewrite length_app in Ha. simpl in Ha. rewrite Nat.add_1_r in Ha. rewrite Ha.
      f_equal. rewrite !length_app. simpl. lia.
  - apply (IH b); [|done]. destruct t; try exact Hb; try (by destruct Hb).
    destruct Hb as [Hd [->|(v & -> & Hv & _)]]; [by left|right; eauto].
  - by apply plain_advances.
  - destruct Hb as (cells & -> & Hall). intros pre post. cbn [rb_advance fixed_size].
    pose proof (enc_count _ _ Hall) as Hcount. rewrite length_app in Hlen.
    rewrite <- app_assoc, rb_read_varuint_app by lia. cbn [mbind result_bind].
    rewrite Nat2Z.id, <- length_app, (app_assoc pre).
    rewrite rb_times_advance; [by rewrite <- app_assoc|].
    intros pre' b post' Hin. apply IH; [by eapply Forall_forall|].
    apply concat_length_le in Hin. lia.
  - destruct Hb as (Hne & cells & -> & Hall). intros pre post. cbn [rb_advance fixed_size].
    apply rb_each_advance. revert Hlen. clear Hne. revert cells Hall.
    induction IH as [|t ts Ht Hts IHts]; intros [|c cells] Hall Hlen; try done.
    destruct Hall as [Hc Hall]. simpl in Hlen. rewrite length_app in Hlen.
    split; [apply Ht; [done|lia]|]. apply IHts; [done|lia].
  - destruct Hb as (keys & vals & Hkv & -> & Hk & Hv). pose proof (enc_count _ _ Hk) as Hcount. rewrite length_app in Hlen.
    pose proof (pairs_length _ _ Hkv) as Hkeys.
    apply map_advances; [done|eapply Forall_impl; [exact Hk|auto]|eapply Forall_impl; [exact Hv|auto]|lia|lia].
  - by apply plain_advances.
Qed.

Lemma cut_app t b pre post :
  advances t b -> cut t (pre ++ b ++ post) (length pre) = Ok (b, length (pre ++ b)).
Proof.
  intros Ha. unfold cut. rewrite Ha. cbn [mbind result_bind]. do 2 f_equal. unfold slice.
  rewrite drop_app_length, length_app. rewrite take_app_length' by lia. done.
Qed.

Lemma cut_elems_ok t cells pre post :
  Forall (advances t) cells ->
  cut_elems t (pre ++ concat cells ++ post) (length cells) (length pre) = Ok cells.
Proof.
  intros Hall. revert pre; induction Hall as [|b cells Hb Hall IH]; intros pre; [done|].
  cbn [cut_elems length concat]. rewrite <- (app_assoc b), (cut_app t b) by done. cbn [mbind result_bind].
  rewrite (app_assoc pre), IH. done.
Qed.

Lemma cut_pairs_ok kt vt keys vals pre post :
  length keys = length vals -> Forall (advances kt) keys -> Forall (advances vt) vals ->
  cut_pairs kt vt (pre ++ concat (zip_with app keys vals) ++ post) (length keys) (length pre) =
    Ok (keys, vals).
Proof.
  intros Hl Hk. revert vals Hl pre; induction Hk as [|x keys Hx Hk IH]; intros [|y vals] Hl pre Hv;
    simpl in Hl; try lia; [done|].
  apply Forall_cons in Hv as [Hy Hv]. cbn [cut_pairs length concat zip_with].
  rewrite <- !(app_assoc x), (cut_app kt x) by done. cbn [mbind result_bind].
  rewrite <- (app_assoc y), (app_assoc pre), (cut_app vt y) by done. cbn [mbind result_bind].
  rewrite (app_assoc (pre ++ x)), IH by (done || lia). done.
Qed.

Lemma cut_fields_ok ts cells pre post :
  enc_all2 advances ts cells ->
  cut_fields ts (pre ++ concat cells ++ post) (length pre) = Ok (cells, length (pre ++ concat cells)).
Proof.
  revert cells pre; induction ts as [|t ts IH]; intros [|b cells] pre Hall; try done; cbn [concat cut_fields].
  - by rewrite app_nil_r.
  - destruct Hall as [Hb Hall]. rewrite <- (app_assoc b), (cut_app t b) by done. cbn [mbind result_bind].
    rewrite (app_assoc pre), IH by done. cbn [mbind result_bind]. by rewrite app_assoc.
Qed.

(** ** The walker stays inside the row *)

Lemma rb_read_varuint_bound data pos v hdr :
  rb_read_varuint data pos = Ok (v, hdr) -> (pos + hdr <= length data)%nat.
Proof.
  unfold rb_read_varuint. destruct (Nat.ltb_spec (length data) pos) as [|Hp]; [discriminate|].
  destruct (get_var_uint (drop pos data)) as [[v' h]|e] eqn:E; [|by destruct e].
  intros [= -> ->]. rewrite get_var_uint_stream in E.
  destruct (read_var_uint (drop pos data)) as [[w rest]|e] eqn:Er; [|discriminate].
  injection E as -> <-. rewrite length_drop in *. lia.
Qed.

Lemma rb_skip_bound data pos k fin :
  rb_skip data pos k = Ok fin -> (pos <= fin <= Nat.max pos (length data))%nat.
Proof. unfold rb_skip. destruct (Z.ltb_spec (Z.of_nat (length data)) (Z.of_nat pos + k)); intros [=]; lia. Qed.

Definition stays (data : list byte) (step : nat -> Result nat) : Prop :=
  forall pos fin, (pos <= length data)%nat -> step pos = Ok fin -> (pos <= fin <= length data)%nat.

Lemma rb_times_stays data step k : stays data step -> stays data (rb_times step k).
Proof.
  intros Hs. induction k as [|k IH]; intros pos fin Hp Hr; simpl in Hr; [injection Hr as <-; lia|].
  apply bind_Ok_inv in Hr as (mid & H1 & H2). apply Hs in H1; [|done]. apply IH in H2; lia.
Qed.

Lemma rb_each_stays {T} data (step : T -> nat -> Result nat) ts :
  Forall (fun t => stays data (step t)) ts -> stays data (rb_each step ts).
Proof.
  induction 1 as [|t ts Ht Hts IH]; intros pos fin Hp Hr; simpl in Hr; [injection Hr as <-; lia|].
  apply bind_Ok_inv in Hr as (mid & H1 & H2). apply Ht in H1; [|done]. apply IH in H2; lia.
Qed.

Lemma rb_advance_stays t data : stays data (rb_advance t data).
Proof.
  induction t as [t Ht|t IH|t IH|t IH|t IH|ts IH|k v IHk IHv|ts IH] using Ct.column_ind;
    intros pos fin Hp Hr; cbn [rb_advance] in Hr.
  - destruct t; try done; cbn [fixed_size] in Hr; try (apply rb_skip_bound in Hr; lia);
      try (apply bind_Ok_inv in Hr as ([len hdr] & H1 & H2); apply rb_read_varuint_bound in H1;
           apply rb_skip_bound in H2; lia).
  - cbn [fixed_size] in Hr. destruct (data !! pos) as [flag|] eqn:E; [|discriminate].
    apply lookup_lt_Some in E. destruct (u8 flag =? 0); [apply IH in Hr; lia|]. injection Hr as <-. lia.
  - by apply IH in Hr.
  - discriminate.
  - cbn [fixed_size] in Hr. apply bind_Ok_inv in Hr as ([count hdr] & H1 & H2).
    apply rb_read_varuint_bound in H1. apply (rb_times_stays data _ _ IH) in H2; lia.
  - cbn [fixed_size] in Hr. by apply (rb_each_stays data _ _ IH) in Hr.
  - cbn [fixed_size] in Hr. apply bind_Ok_inv in Hr as ([count hdr] & H1 & H2).
    apply rb_read_varuint_bound in H1. eapply (rb_times_stays data) in H2; [lia| |lia].
    intros p f Hpl Hs. apply bind_Ok_inv in Hs as (mid & Hs1 & Hs2).
    apply IHk in Hs1; [|done]. apply IHv in Hs2; lia.
  - discriminate.
Qed.

(** ** A value the encoder changes

    In [LowCardinality(Nullable(T))] the default of [T] is entered in [seen] at
    index 0, the index that stands for NULL. *)

Lemma lc_push_keeps_zero t s v s' :
  seen s !! rb_write_default t = Some 0 -> lc_push true s v = Ok s' ->
  seen s' !! rb_write_default t = Some 0 /\ (length (dict s') <= S (length (dict s)))%nat.
Proof.
  intros Hz. unfold lc_push. destruct (lc_key true v) as [b|]; [|intros H%Ok_inj; subst; simpl; auto].
  destruct (2 ^ 32 <=? _); [discriminate|].
  destruct (seen s !! b) as [i|] eqn:E; intros H%Ok_inj; subst; simpl; [auto|].
  rewrite length_app. simpl. split; [|lia]. rewrite lookup_insert_ne; [done|]. intros ->. congruence.
Qed.

Lemma lc_fold_keeps_zero t s vs s' :
  seen s !! rb_write_default t = Some 0 -> fold_res (lc_push true) s vs = Ok s' ->
  seen s' !! rb_write_default t = Some 0 /\ (length (dict s') <= length (dict s) + length vs)%nat.
Proof.
  revert s; induction vs as [|v vs IH]; intros s Hz Hf; cbn [fold_res] in Hf.
  { apply Ok_inj in Hf as <-. simpl. split; [done|lia]. }
  apply bind_Ok_inv in Hf as (s1 & H1 & Hf). apply (lc_push_keeps_zero t) in H1 as [Hz1 Hl1]; [|done].
  apply IH in Hf as [Hz2 Hl2]; [|done]. simpl. split; [done|lia].
Qed.

(** ** Properties *)

(** the row walker never leaves the row: whatever the bytes, a position it
    returns lies between where it started and the end of the data, so every
    slice the encoder takes from a row is in bounds. *)
Theorem rb_advance_in_bounds t data pos fin :
  (pos <= length data)%nat -> rb_advance t data pos = Ok fin -> (pos <= fin <= length data)%nat.
Proof. apply rb_advance_stays. Qed.

Lemma rb_advance_in_bounds_witness : (0 <= 3 <= 4)%nat.
Proof.
  refine (rb_advance_in_bounds (Ct.Array Ct.UInt8) [x02; x07; x08; xff] 0 3 _ _);
    [simpl; lia|vm_compute; reflexivity].
Defined.

(** on a row built from encodable cells the walker steps over exactly one cell,
    wherever the cell stands and whatever follows it, so [cut_row] recovers
    the cells of the row; one byte more and the row is refused. *)
Theorem cut_row_cells columns cells extra :
  enc_all2 enc_cell (map col_type columns) cells -> Z.of_nat (length (concat cells)) < 2 ^ 64 ->
  match extra with
  | [] => cut_row columns (concat cells ++ extra) = Ok cells
  | _ => exists e, cut_row columns (concat cells ++ extra) = Err e
  end.
Proof.
  intros Hc Hlen. assert (Ha : enc_all2 advances (map col_type columns) cells).
  { revert cells Hc Hlen. induction (map col_type columns) as [|t ts IH]; intros [|c cells] Hc Hlen;
      try done. destruct Hc as [Hc Hcs]. simpl in Hlen. rewrite length_app in Hlen.
    split; [apply enc_advances; [done|lia]|apply IH; [done|lia]]. }
  unfold cut_row. pose proof (cut_fields_ok _ _ [] extra Ha) as Hf. simpl in Hf. rewrite Hf.
  cbn [mbind result_bind]. rewrite length_app. destruct extra as [|x extra].
  - by rewrite Nat.add_0_r, Nat.eqb_refl.
  - rewrite (proj2 (Nat.eqb_neq _ _)) by (simpl; lia). eauto.
Qed.

Lemma cut_row_cells_witness :
  let cols := [{| name := str "a"; type_name := str "Nullable(UInt8)"; col_type := Ct.Nullable Ct.UInt8 |};
               {| name := str "b"; type_name := str "String"; col_type := Ct.String |}] in
  cut_row cols ([x00; x05; x02; x68; x69] ++ []) = Ok [[x00; x05]; [x02; x68; x69]].
Proof.
  intros cols. refine (cut_row_cells cols [[x00; x05]; [x02; x68; x69]] [] _ _); [|simpl; lia].
  split; [right; exists [x05]; by repeat split|]. split; [|done].
  exists [x68; x69]. split; [reflexivity|]. unfold MAX_STRING_SIZE. simpl. lia.
Defined.

(** C34: in a [LowCardinality(Nullable(T))] column a row that holds the default value of
    [T] (an empty string, a zero) is written exactly as a NULL row is, whatever
    the rows around it: the two columns are the same bytes, so the value is lost. *)
Theorem lc_default_becomes_null t before after :
  Z.of_nat (length before) < 2 ^ 32 - 1 ->
  write_col_values (Ct.LowCardinality (Ct.Nullable t)) (before ++ (x00 :: rb_write_default t) :: after) =
  write_col_values (Ct.LowCardinality (Ct.Nullable t)) (before ++ [x01] :: after).
Proof.
  intros Hlen. cbn [write_col_values plain_layout fixed_size]. rewrite !fold_res_app.
  destruct (fold_res (lc_push true) (lc_start true t) before) as [s|e] eqn:E; [|done].
  apply (lc_fold_keeps_zero t) in E as [Hz Hl]; [|apply lookup_singleton_eq].
  cbn [mbind result_bind fold_res].
  assert (Hp : lc_push true s (x00 :: rb_write_default t) = lc_push true s [x01]).
  { unfold lc_push. simpl lc_key. cbv iota. simpl in Hl. rewrite (proj2 (Z.leb_gt _ _)) by lia. by rewrite Hz. }
  by rewrite Hp.
Qed.

Lemma lc_default_becomes_null_witness :
  let t := Ct.LowCardinality (Ct.Nullable Ct.String) in
  is_ok (write_col_values t [[x00; x01; x61]; [x00; x00]]) = true /\
  write_col_values t [[x00; x01; x61]; [x00; x00]] = write_col_values t [[x00; x01; x61]; [x01]].
Proof.
  intros t. split; [vm_compute; reflexivity|].
  refine (lc_default_becomes_null Ct.String [[x00; x01; x61]] [] _). simpl. lia.
Defined.
