(* ===== verification/RoundTrip.v ===== *)
(** * Encoded columns read back

    What [Encode] writes, [Columns] reads: the two halves of the native codec
    are inverse on every column of insertable cells. The proof follows the
    type; each composite layout has one lemma that turns the readers of its
    parts into the reader of the whole. *)

From S2P Require Import Prelude Text Errors WireIo ColTypes Json Columns Decode Encode.

(** The types a client may insert: scalars, with [Nullable] and
    [LowCardinality] over scalars only, and Array, Tuple and Map of those. *)
Definition plain_type (t : ColumnType) : bool :=
  match fixed_size t with
  | Some k => 0 <? k
  | None => match t with Ct.String | Ct.Json => true | _ => false end
  end.

Fixpoint insertable (t : ColumnType) : bool :=
  match t with
  | Ct.Nullable t => plain_type t
  | Ct.LowCardinality inner =>
      match inner with Ct.Nullable t => plain_type t | _ => plain_type inner end
  | Ct.Array t => insertable t
  | Ct.Tuple ts => match ts with [] => false | _ => forallb insertable ts end
  | Ct.Map k v => insertable k && insertable v
  | _ => plain_type t
  end.

Lemma plain_type_layout t : plain_type t = true -> plain_layout t = true.
Proof. unfold plain_type, plain_layout. destruct (fixed_size t); [done|]. by destruct t. Qed.

Lemma plain_default t : plain_type t = true -> plain_cell t (rb_write_default t).
Proof.
  unfold plain_type, plain_cell. destruct t; simpl; try done; intros Hk;
    try (split; [lia|reflexivity]);
    try (split; [lia|rewrite length_replicate; lia]);
    exists []; (split; [reflexivity|unfold MAX_STRING_SIZE; simpl; lia]).
Qed.

Section roundtrip.
Context `{Platform} `{FloatText}.
Hypothesis Halloc : alloc_total.

Lemma reads_reserve sz cap : reads (reserve sz cap) [] tt.
Proof.
  apply reads_lift. unfold with_cap, try_reserve. rewrite Halloc, orb_true_r. reflexivity.
Qed.

(** A reservation in front changes nothing. *)
Lemma reads_reserve_bind {A} sz cap (m : Read A) enc a :
  reads m enc a -> reads (_ ← reserve sz cap; m) enc a.
Proof. intros Hm. eapply reads_bind_nil; [apply reads_reserve|exact Hm]. Qed.

Lemma reads_u64 v : 0 <= v < 2 ^ 64 -> reads read_u64_le (put_le 8 v) v.
Proof. intros Hv. by apply (reads_le 8). Qed.

(** ** Plain layouts *)

Lemma reads_fixed_column cells k :
  Forall (fun b => Z.of_nat (length b) = k) cells ->
  reads (read_fixed_column (Z.of_nat (length cells)) k) (concat cells) cells.
Proof.
  intros Hall. apply reads_reserve_bind. rewrite Nat2Z.id. apply reads_repeat2; [done|].
  induction Hall as [|b cells Hb Hall IH]; constructor; [|done]. rewrite <- Hb.
  by apply reads_exact_grown.
Qed.

Lemma reads_string_column cells :
  Forall (fun b => exists s, b = put_string s /\ Z.of_nat (length s) <= MAX_STRING_SIZE) cells ->
  reads (read_string_column (Z.of_nat (length cells))) (concat cells) cells.
Proof.
  intros Hall. apply reads_reserve_bind. rewrite Nat2Z.id. apply reads_repeat2; [done|].
  induction Hall as [|b cells (s & -> & Hs) Hall IH]; constructor; [|done].
  eapply reads_bind_last; [by apply reads_string|apply reads_ret].
Qed.

(** Reading is past the zero-row shortcut of depth 0. *)
Definition past_top (left : nat) (n : nat) : Prop := (left <= MAX_READ_DEPTH \/ 0 < n)%nat.

Lemma past_top_test left n :
  past_top (S left) n -> (depth_of (S left) =? 0)%nat && (Z.of_nat n =? 0) = false.
Proof.
  unfold past_top, depth_of, MAX_READ_DEPTH. intros Hp.
  destruct (Nat.eqb_spec (33 - S left) 0); [|done]. destruct (Z.eqb_spec (Z.of_nat n) 0); [lia|done].
Qed.

Lemma reads_plain left t cells :
  (0 < left)%nat -> past_top left (length cells) -> plain_type t = true ->
  Forall (plain_cell t) cells ->
  reads (read_column_at left t (Z.of_nat (length cells))) (concat cells) cells.
Proof.
  intros Hl Hp Ht Hall. destruct left as [|left]; [lia|].
  assert (Hk : forall k, fixed_size t = Some k -> Forall (fun b => Z.of_nat (length b) = k) cells).
  { intros k Hk. eapply Forall_impl; [exact Hall|]. intros b. unfold plain_cell. rewrite Hk. by intros [_ ?]. }
  assert (Hf : forall k e, fixed_size t = Some k ->
    reads (size ← rd_lift (ok_or (fixed_size t) e); read_fixed_column (Z.of_nat (length cells)) size)
      (concat cells) cells).
  { intros k e Hfs. eapply reads_bind_nil; [apply reads_lift; by rewrite Hfs|].
    by apply reads_fixed_column, Hk. }
  unfold reads. cbn [read_column_at]. cbv zeta. rewrite past_top_test by done.
  destruct t; try discriminate; try exact (Hf _ _ eq_refl);
    try exact (reads_fixed_column _ _ (Hk _ eq_refl)); exact (reads_string_column _ Hall).
Qed.

(** ** Nullable *)

(** A flag and the value behind it: at a null the value is the default of the type. *)
Definition null_slot (inner : ColumnType) (flag : byte) (value : list byte) : Prop :=
  u8 flag <> 0 -> value = rb_write_default inner.

Lemma nullable_split_ok inner cells :
  plain_type inner = true -> Forall (enc_cell (Ct.Nullable inner)) cells ->
  exists rows, map_res (nullable_split (rb_write_default inner)) cells = Ok rows /\
    length rows = length cells /\ Forall (plain_cell inner) (map snd rows) /\
    zip_with nullable_cell (map fst rows) (map snd rows) = cells /\
    Forall2 (null_slot inner) (map fst rows) (map snd rows).
Proof.
  intros Ht. induction 1 as [|b cells Hb Hall IH].
  { by exists []. }
  destruct IH as (rows & Hr & Hl & Hp & Hz & Hs).
  destruct Hb as [[-> Hd]|(v & -> & Hv)].
  - exists ((x01, rb_write_default inner) :: rows). cbn [map_res]. rewrite Hr.
    split; [done|]. split; [simpl; lia|]. split; [by constructor|]. cbn [map zip_with fst snd]. rewrite Hz. split; [done|]. constructor; [|done]. by intros Hf.
  - exists ((x00, v) :: rows). cbn [map_res]. rewrite Hr.
    split; [done|]. split; [simpl; lia|]. split; [by constructor|]. cbn [map zip_with fst snd]. rewrite Hz. split; [done|]. constructor; [|done]. by intros Hf.
Qed.

(** The column that is written: the flags, and then a value for every row. *)
Lemma nullable_written inner cells :
  plain_type inner = true -> Forall (enc_cell (Ct.Nullable inner)) cells ->
  exists flags values, write_col_values (Ct.Nullable inner) cells = Ok (flags ++ concat values) /\
    length flags = length cells /\ length values = length cells /\ Forall (plain_cell inner) values /\
    zip_with nullable_cell flags values = cells /\ Forall2 (null_slot inner) flags values.
Proof.
  intros Ht Hall. destruct (nullable_split_ok inner cells Ht Hall) as (rows & Hr & Hlen & Hpl & Hz & Hs).
  assert (Hw : write_col_values inner (map snd rows) = Ok (concat (map snd rows))).
  { pose proof (plain_type_layout _ Ht) as Hlay. destruct inner; cbn [write_col_values]; by rewrite Hlay. }
  exists (map fst rows), (map snd rows). rewrite !length_map. split_and!; try done.
  cbn [write_col_values plain_layout fixed_size]. rewrite Hr. cbn [mbind result_bind]. by rewrite Hw.
Qed.

Lemma roundtrip_nullable left inner cells :
  plain_type inner = true -> Forall (enc_cell (Ct.Nullable inner)) cells ->
  (1 < left)%nat -> (left <= S MAX_READ_DEPTH)%nat -> past_top left (length cells) ->
  exists out, write_col_values (Ct.Nullable inner) cells = Ok out /\
    reads (read_column_at left (Ct.Nullable inner) (Z.of_nat (length cells))) out cells.
Proof.
  intros Ht Hall Hl Hmax Hp. destruct (nullable_written inner cells Ht Hall) as (flags & values & Hw & Hlf & Hlv & Hpl & Hz & _).
  exists (flags ++ concat values). split; [exact Hw|].
  destruct left as [|left]; [lia|]. unfold reads. cbn [read_column_at]. cbv zeta.
  rewrite past_top_test by done. change (forall tail, ?m (?e ++ tail) = Ok (?a, tail)) with (reads m e a).
  unfold read_nullable_column.
  eapply reads_bind; [rewrite <- Hlf; by apply reads_exact_grown|].
  eapply reads_bind_last.
  { rewrite <- Hlv. apply reads_plain; [lia| |done|done]. left. unfold MAX_READ_DEPTH in *. lia. }
  apply reads_reserve_bind. rewrite Hz. apply reads_ret.
Qed.

(** ** LowCardinality *)

(** The dictionary after some rows: [seen] indexes it, index 0 is the default
    when the inner type is nullable, and every row's index reads back as its
    cell. *)
Record lc_inv (is_nullable : bool) (t : ColumnType) (done_ : list (list byte)) (s : LcDict) : Prop := {
  inv_seen : forall b i, seen s !! b = Some i ->
    0 <= i < Z.of_nat (length (dict s)) /\ dict s !! Z.to_nat i = Some b;
  inv_zero : is_nullable = true -> dict s !! 0%nat = Some (rb_write_default t);
  inv_plain : Forall (plain_cell t) (dict s);
  inv_size : (length (dict s) <= S (length done_))%nat;
  inv_rows : Forall2 (fun b idx => 0 <= idx < Z.of_nat (length (dict s)) /\
    lc_cell (dict s) is_nullable idx = Ok b) done_ (indices s)
}.

(** The cells of a row, by whether the inner type is nullable. *)
Definition lc_row (is_nullable : bool) (t : ColumnType) (b : list byte) : Prop :=
  if is_nullable then b = [x01] \/ exists v, b = x00 :: v /\ plain_cell t v /\ v <> rb_write_default t
  else plain_cell t b.

Lemma lc_inv_start is_nullable t :
  plain_type t = true -> lc_inv is_nullable t [] (lc_start is_nullable t).
Proof.
  intros Ht. pose proof (plain_default _ Ht) as Hd. destruct is_nullable; split; simpl; auto.
  - intros b i [<- <-]%lookup_singleton_Some. by split; [lia|].
  - intros b i Hs. by rewrite lookup_empty in Hs.
  - discriminate.
Qed.

Lemma lc_cell_app dict more is_nullable idx b :
  lc_cell dict is_nullable idx = Ok b -> lc_cell (dict ++ more) is_nullable idx = Ok b.
Proof.
  unfold lc_cell. destruct is_nullable; [destruct (idx =? 0); [done|]|];
    (destruct (dict !! Z.to_nat idx) as [v|] eqn:E; [|discriminate]);
    by rewrite (lookup_app_l_Some _ _ _ _ E).
Qed.

(** The rows already entered keep reading back when the dictionary grows. *)
Lemma lc_rows_app dict more is_nullable done_ idxs :
  Forall2 (fun b idx => 0 <= idx < Z.of_nat (length dict) /\ lc_cell dict is_nullable idx = Ok b) done_ idxs ->
  Forall2 (fun b idx => 0 <= idx < Z.of_nat (length (dict ++ more)) /\
    lc_cell (dict ++ more) is_nullable idx = Ok b) done_ idxs.
Proof.
  intros Hall. eapply Forall2_impl; [exact Hall|]. intros b idx [Hr Hc]. rewrite length_app.
  split; [lia|by apply lc_cell_app].
Qed.

(** Entering a row that reads back through index [idx] of a dictionary that may
    have grown. *)
Lemma lc_inv_extend is_nullable t done_ s b more seen' idx :
  lc_inv is_nullable t done_ s -> (length more <= 1)%nat -> Forall (plain_cell t) more ->
  (forall v i, seen' !! v = Some i ->
     0 <= i < Z.of_nat (length (dict s ++ more)) /\ (dict s ++ more) !! Z.to_nat i = Some v) ->
  0 <= idx < Z.of_nat (length (dict s ++ more)) -> lc_cell (dict s ++ more) is_nullable idx = Ok b ->
  lc_inv is_nullable t (done_ ++ [b])
    {| dict := dict s ++ more; seen := seen'; indices := indices s ++ [idx] |}.
Proof.
  intros [Hs Hz Hp Hl Hr] Hm Hmp Hseen Hidx Hc. split; simpl.
  - exact Hseen.
  - intros Hn. specialize (Hz Hn). by rewrite (lookup_app_l_Some _ _ _ _ Hz).
  - by apply Forall_app.
  - rewrite !length_app. simpl. lia.
  - apply Forall2_app; [by apply lc_rows_app|]. by constructor.
Qed.

Lemma lc_push_inv is_nullable t done_ s b :
  lc_inv is_nullable t done_ s -> lc_row is_nullable t b -> Z.of_nat (length done_) < 2 ^ 32 - 1 ->
  exists s', lc_push is_nullable s b = Ok s' /\ lc_inv is_nullable t (done_ ++ [b]) s'.
Proof.
  intros Hinv Hb Hlen. pose proof Hinv as [Hs Hz Hp Hl Hr]. unfold lc_push.
  assert (Hkey : (is_nullable = true /\ b = [x01]) \/ exists v, lc_key is_nullable b = Some v /\
    plain_cell t v /\ (is_nullable = true -> v <> rb_write_default t) /\
    b = if is_nullable then x00 :: v else v).
  { destruct is_nullable; simpl in Hb; [|right; exists b; by repeat split].
    destruct Hb as [->|(v & -> & Hv & Hne)]; [by left|]. right. by exists v. }
  destruct Hkey as [[-> ->]|(v & -> & Hv & Hne & ->)].
  { simpl. eexists. split; [done|]. specialize (Hz eq_refl). apply lookup_lt_Some in Hz as Hlt.
    pose proof (lc_inv_extend true t done_ s [x01] [] (seen s) 0 Hinv) as Hx. rewrite app_nil_r in Hx.
    apply Hx; [simpl; lia|done|exact Hs|lia|done]. }
  rewrite (proj2 (Z.leb_gt _ _)) by lia.
  assert (Hcell : forall d i, d !! Z.to_nat i = Some v -> (is_nullable = true -> i <> 0) ->
    lc_cell d is_nullable i = Ok (if is_nullable then x00 :: v else v)).
  { intros d i Hd Hi. unfold lc_cell. rewrite Hd. destruct is_nullable; [|done].
    specialize (Hi eq_refl). by destruct (Z.eqb_spec i 0). }
  destruct (seen s !! v) as [i|] eqn:E; (eexists; split; [done|]).
  - destruct (Hs _ _ E) as [Hi Hd].
    pose proof (lc_inv_extend is_nullable t done_ s (if is_nullable then x00 :: v else v) [] (seen s) i Hinv) as Hx.
    rewrite app_nil_r in Hx. apply Hx; [simpl; lia|done|exact Hs|done|]. apply Hcell; [done|].
    intros Hn ->. specialize (Hz Hn). apply (Hne Hn). change (Z.to_nat 0) with 0%nat in Hd. rewrite Hz in Hd. by injection Hd as ->.
  - assert (Hmid : (dict s ++ [v]) !! length (dict s) = Some v) by (by apply list_lookup_middle).
    apply lc_inv_extend; [done|simpl; lia|by each| |rewrite length_app; simpl; lia|].
    + intros w i [[<- <-]|[_ Hw]]%lookup_insert_Some; rewrite length_app; simpl.
      * rewrite Nat2Z.id. by split; [lia|].
      * destruct (Hs _ _ Hw) as [Hi Hd]. split; [lia|]. by rewrite (lookup_app_l_Some _ _ _ _ Hd).
    + apply Hcell; [by rewrite Nat2Z.id|]. intros Hn. specialize (Hz Hn). apply lookup_lt_Some in Hz. lia.
Qed.

Lemma lc_fold_inv is_nullable t done_ s cells :
  lc_inv is_nullable t done_ s -> Forall (lc_row is_nullable t) cells ->
  Z.of_nat (length (done_ ++ cells)) < 2 ^ 32 ->
  exists s', fold_res (lc_push is_nullable) s cells = Ok s' /\ lc_inv is_nullable t (done_ ++ cells) s'.
Proof.
  intros Hinv Hall. revert done_ s Hinv; induction Hall as [|b cells Hb Hall IH]; intros done_ s Hinv Hlen.
  { exists s. by rewrite app_nil_r. }
  rewrite length_app in Hlen. simpl in Hlen.
  destruct (lc_push_inv is_nullable t done_ s b) as (s1 & H1 & Hinv1); [done..|lia|].
  destruct (IH _ _ Hinv1) as (s2 & H2 & Hinv2); [rewrite !length_app; simpl; lia|].
  exists s2. rewrite <- app_assoc in Hinv2. split; [|done]. cbn [fold_res]. rewrite H1. exact H2.
Qed.

Lemma reads_lc_index len idx :
  0 <= idx < len -> len <= 2 ^ 32 ->
  reads (read_index (lc_index_bytes (fst (lc_index_width len))))
    (take (snd (lc_index_width len)) (put_le 4 idx)) idx.
Proof.
  intros Hidx Hlen. unfold lc_index_width.
  destruct (Z.leb_spec len 0x100); [|destruct (Z.leb_spec len 0x10000)]; cbn [fst snd].
  - apply (reads_le 1). lia.
  - apply (reads_le 2). lia.
  - apply (reads_le 4). lia.
Qed.

Lemma lc_index_code len : exists c, fst (lc_index_width len) = c /\ (c = 0 \/ c = 1 \/ c = 2).
Proof. unfold lc_index_width. destruct (_ <=? _); [|destruct (_ <=? _)]; eexists; eauto. Qed.

(** The reader on what the footer and header frame. *)
Lemma reads_low_cardinality (rec : ColumnType -> Z -> Read ColumnData) inner t is_nullable cells s body :
  lc_dict_type inner = (t, is_nullable) -> lc_inv is_nullable t cells s ->
  Z.of_nat (length cells) < 2 ^ 32 - 1 ->
  reads (rec t (Z.of_nat (length (dict s)))) body (dict s) ->
  reads (read_low_cardinality_column rec (Z.of_nat (length cells)) inner)
    (lc_header s ++ body ++ lc_footer s) cells.
Proof.
  intros Hin [Hs Hz Hp Hl Hr] Hlen Hbody. unfold read_low_cardinality_column, lc_header, lc_footer.
  pose proof (Forall2_length _ _ _ Hr) as Hn. set (len := Z.of_nat (length (dict s))) in *.
  rewrite <- app_assoc. eapply reads_bind.
  { apply reads_u64. destruct (lc_index_code len) as (c & -> & [->|[->| ->]]); vm_compute; split; congruence. }
  cbv beta zeta. rewrite Hin.
  assert (Hflags : forall c, (c = 0 \/ c = 1 \/ c = 2) -> let state := Z.lor HAS_ADDITIONAL_KEYS c in
    Z.land state 3 = c /\ Z.land state 0x100 = 0 /\ Z.land state 0x200 = 0x200).
  { intros c [->|[->| ->]]; vm_compute; done. }
  destruct (lc_index_code len) as (c & Hc & Hcs). specialize (Hflags _ Hcs) as (Hf1 & Hf2 & Hf3).
  rewrite Hc in *. rewrite Hf1, Hf2, Hf3. change (negb (0 =? 0)) with false.
  change (negb (negb (0x200 =? 0))) with false. cbv iota.
  eapply reads_bind; [apply reads_u64; lia|]. eapply reads_bind; [exact Hbody|].
  eapply reads_bind; [apply reads_u64; lia|]. rewrite Hn, Z.eqb_refl. cbn [negb].
  apply reads_reserve_bind. rewrite Nat2Z.id. apply reads_repeat2; [done|].
  apply Forall2_fmap_l, Forall2_flip. eapply Forall2_impl; [exact Hr|]. cbv beta. intros b idx [Hidx Hb].
  eapply reads_bind_last; [|by apply reads_lift]. rewrite <- Hc. apply reads_lc_index; [done|lia].
Qed.

Lemma fold_lc inner cells :
  plain_type (fst (lc_dict_type inner)) = true -> Forall (enc_cell (Ct.LowCardinality inner)) cells ->
  Forall (lc_row (snd (lc_dict_type inner)) (fst (lc_dict_type inner))) cells.
Proof.
  intros Ht Hall. eapply Forall_impl; [exact Hall|]. intros b Hb.
  destruct inner; try exact Hb. by destruct Hb as [_ Hb].
Qed.

Lemma roundtrip_low_cardinality left inner cells :
  plain_type (fst (lc_dict_type inner)) = true -> Forall (enc_cell (Ct.LowCardinality inner)) cells ->
  Z.of_nat (length cells) < 2 ^ 32 - 1 ->
  (1 < left)%nat -> (left <= S MAX_READ_DEPTH)%nat -> past_top left (length cells) ->
  exists out, write_col_values (Ct.LowCardinality inner) cells = Ok out /\
    reads (read_column_at left (Ct.LowCardinality inner) (Z.of_nat (length cells))) out cells.
Proof.
  intros Ht Hall Hlen Hl Hmax Hp. pose proof (fold_lc _ _ Ht Hall) as Hrows.
  destruct (lc_dict_type inner) as [t nullable] eqn:Hin. cbn [fst snd] in *.
  destruct (lc_fold_inv nullable t [] (lc_start nullable t) cells) as (s & Hs & Hinv);
    [by apply lc_inv_start|done|simpl; lia|]. simpl in Hinv.
  exists (lc_header s ++ concat (dict s) ++ lc_footer s). split.
  { assert (Hw : write_col_values t (dict s) = Ok (concat (dict s))).
    { pose proof (plain_type_layout _ Ht) as Hlay. destruct t; cbn [write_col_values]; by rewrite Hlay. }
    change (write_col_values (Ct.LowCardinality inner) cells) with
      (match inner with
       | Ct.Nullable t_inner =>
           s ← fold_res (lc_push true) (lc_start true t_inner) cells;
           body ← write_col_values t_inner (dict s);
           Ok (lc_header s ++ body ++ lc_footer s)
       | _ =>
           s ← fold_res (lc_push false) (lc_start false inner) cells;
           body ← write_col_values inner (dict s);
           Ok (lc_header s ++ body ++ lc_footer s)
       end).
    destruct inner; simpl in Hin; simplify_eq; rewrite Hs; cbn [mbind result_bind]; by rewrite Hw. }
  destruct left as [|left]; [lia|]. unfold reads. cbn [read_column_at]. cbv zeta.
  rewrite past_top_test by done. change (forall tail, ?m (?e ++ tail) = Ok (?a, tail)) with (reads m e a).
  eapply reads_low_cardinality; [done|exact Hinv|lia|].
  apply reads_plain; [lia| |done|apply Hinv]. left. unfold MAX_READ_DEPTH in *. lia.
Qed.

(** ** Arrays and maps *)

Definition row_bytes (elems : list (list byte)) : list byte :=
  put_var_uint (Z.of_nat (length elems)) ++ concat elems.
Definition row_counts {A} (rows : list (list A)) : list Z := map (fun r => Z.of_nat (length r)) rows.

Lemma cumulative_range cum counts : Forall (fun x => 0 <= x < 2 ^ 64) (cumulative cum counts).
Proof.
  revert cum; induction counts as [|c counts IH]; intros cum; constructor; [|apply IH].
  by apply wrap_range.
Qed.

Lemma cumulative_length cum counts : length (cumulative cum counts) = length counts.
Proof. revert cum; induction counts as [|c counts IH]; intros cum; simpl; congruence. Qed.

(** Under the size bound the offsets are the running totals, the last one the
    number of elements. *)
Lemma cumulative_last {A} (pre : list A) rows :
  Z.of_nat (length (pre ++ concat rows)) < 2 ^ 64 ->
  default (Z.of_nat (length pre)) (last (cumulative (Z.of_nat (length pre)) (row_counts rows))) =
    Z.of_nat (length (pre ++ concat rows)).
Proof.
  revert pre; induction rows as [|r rows IH]; intros pre Hlen; cbn [concat row_counts map cumulative].
  { by rewrite app_nil_r. }
  cbn [concat] in Hlen. rewrite app_assoc in *. specialize (IH (pre ++ r) Hlen).
  rewrite (wrap_small 64) by (rewrite !length_app in Hlen; lia).
  rewrite length_app, Nat2Z.inj_add in IH. rewrite last_cons. fold (row_counts rows).
  destruct (last (cumulative _ (row_counts rows))) as [x|] eqn:E; simpl in IH |- *; [exact IH|].
  apply last_None in E. destruct rows; [|discriminate]. simpl. by rewrite app_nil_r, length_app, Nat2Z.inj_add.
Qed.

(** The reader's spans cut the element cells back into the rows. *)
Lemma span_rows_cumulative what pre rows :
  Z.of_nat (length (pre ++ concat rows)) < 2 ^ 64 ->
  span_rows what (Z.of_nat (length pre)) (pre ++ concat rows)
    (cumulative (Z.of_nat (length pre)) (row_counts rows)) = Ok (map row_bytes rows).
Proof.
  revert pre; induction rows as [|r rows IH]; intros pre Hlen; cbn [concat row_counts map cumulative]; [done|].
  cbn [concat] in Hlen. specialize (IH (pre ++ r)). rewrite <- app_assoc in IH. specialize (IH Hlen).
  rewrite !length_app in Hlen.
  rewrite (wrap_small 64) by lia. cbn [span_rows]. unfold checked_span.
  rewrite (proj2 (Z.ltb_ge _ _)), (proj2 (Z.ltb_ge _ _)) by (rewrite ?length_app; lia). cbn [orb mbind result_bind].
  fold (row_counts rows). rewrite length_app, Nat2Z.inj_add in IH. rewrite IH. cbn [mbind result_bind].
  do 2 f_equal. unfold row_bytes.
  replace (Z.of_nat (length pre) + Z.of_nat (length r) - Z.of_nat (length pre)) with (Z.of_nat (length r)) by lia.
  f_equal. unfold slice. rewrite !Nat2Z.id, drop_app_length. by rewrite take_app_length.
Qed.

Lemma reads_offsets counts :
  reads (read_offsets (Z.of_nat (length counts))) (concat (map (put_le 8) (cumulative 0 counts)))
    (cumulative 0 counts).
Proof.
  apply reads_reserve_bind. rewrite Nat2Z.id. apply reads_repeat2; [by rewrite cumulative_length|].
  apply Forall2_fmap_l, Forall_Forall2_diag. eapply Forall_impl; [apply cumulative_range|].
  intros x Hx. by apply reads_u64.
Qed.

Lemma row_bytes_length r :
  length (row_bytes r) = (length (put_var_uint (Z.of_nat (length r))) + length (concat r))%nat.
Proof. apply length_app. Qed.

Lemma concat_rows_le (rows : list (list (list byte))) :
  (length (concat (concat rows)) <= length (concat (map row_bytes rows)))%nat.
Proof.
  induction rows as [|r rows IH]; cbn [concat map]; [done|].
  rewrite concat_app, (length_app (row_bytes r)), row_bytes_length, (length_app (concat r)). lia.
Qed.

(** Cells short enough are stepped over, so the encoder cuts them out. *)
Lemma short_advances t cells :
  Forall (enc_cell t) cells -> Z.of_nat (length (concat cells)) < 2 ^ 64 -> Forall (advances t) cells.
Proof.
  intros Hc Hlen. rewrite Forall_forall in Hc |- *. intros x Hx. apply enc_advances; [auto|].
  apply concat_length_le in Hx. lia.
Qed.

Lemma array_row_ok t r :
  Forall (enc_cell t) r -> Z.of_nat (length (concat r)) < 2 ^ 64 ->
  array_row t (row_bytes r) = Ok (Z.of_nat (length r), r).
Proof.
  intros Hr Hlen. pose proof (enc_count _ _ Hr) as Hcount.
  pose proof (rb_read_varuint_app [] (Z.of_nat (length r)) (concat r)) as Hv. cbn [app length] in Hv.
  unfold array_row, row_bytes. rewrite Hv by lia. cbn [mbind result_bind]. rewrite Nat2Z.id.
  pose proof (cut_elems_ok t r (put_var_uint (Z.of_nat (length r))) []) as Hc. rewrite app_nil_r in Hc.
  by rewrite Hc by by apply short_advances.
Qed.

(** The rows behind Array cells. *)
Lemma array_rows t cells :
  Forall (enc_cell (Ct.Array t)) cells -> Z.of_nat (length (concat cells)) < 2 ^ 64 ->
  exists rows, cells = map row_bytes rows /\ Forall (enc_cell t) (concat rows) /\
    map_res (array_row t) cells = Ok (map (fun r => (Z.of_nat (length r), r)) rows).
Proof.
  induction 1 as [|b cells (r & -> & Hr) Hall IH]; intros Hlen; [by exists []|].
  fold (row_bytes r) in *. cbn [concat] in Hlen. rewrite length_app, row_bytes_length in Hlen.
  destruct IH as (rows & -> & Hrs & Hm); [lia|].
  exists (r :: rows). split; [done|]. split; [by apply Forall_app|]. cbn [map_res map].
  rewrite array_row_ok by (done || lia). cbn [mbind result_bind]. by rewrite Hm.
Qed.

(** What reading a column back means, for one type. *)
Definition reads_back (t : ColumnType) : Prop :=
  forall left cells, insertable t = true -> Forall (enc_cell t) cells ->
    Z.of_nat (length (concat cells)) <= MAX_COLUMN_BYTES ->
    Z.of_nat (length cells) <= MAX_COLUMN_BYTES ->
    (nesting t < left)%nat -> (left <= S MAX_READ_DEPTH)%nat -> past_top left (length cells) ->
    exists out, write_col_values t cells = Ok out /\
      reads (read_column_at left t (Z.of_nat (length cells))) out cells.

Lemma array_reads_back t : reads_back t -> reads_back (Ct.Array t).
Proof.
  intros IH left cells Ht Hall Hlen Hn Hl Hmax Hp. unfold MAX_COLUMN_BYTES in *.
  destruct (array_rows t cells Hall) as (rows & -> & Hrs & Hm); [lia|].
  destruct left as [|left]; [cbn [nesting] in Hl; lia|]. cbn [nesting] in Hl.
  pose proof (concat_rows_le rows) as Hle. pose proof (enc_count _ _ Hrs) as Hcount.
  destruct (IH left (concat rows)) as (body & Hw & Hr); unfold MAX_COLUMN_BYTES;
    [exact Ht|exact Hrs|lia|lia|lia|lia|left; unfold MAX_READ_DEPTH in *; lia|].
  exists (concat (map (put_le 8) (cumulative 0 (row_counts rows))) ++ body). split.
  { cbn [write_col_values plain_layout fixed_size]. rewrite Hm. cbn [mbind result_bind].
    rewrite !map_map. cbn [fst snd]. rewrite map_id, Hw. done. }
  unfold reads. cbn [read_column_at]. cbv zeta. rewrite past_top_test by done.
  change (forall tail, ?m (?e ++ tail) = Ok (?a, tail)) with (reads m e a).
  rewrite length_map. eapply reads_bind.
  { unfold row_counts. rewrite <- (length_map (fun r => Z.of_nat (length r)) rows). apply reads_offsets. }
  pose proof (cumulative_last [] rows) as Hlast. pose proof (span_rows_cumulative (str "Array") [] rows) as Hspan.
  cbn [app length] in Hlast, Hspan. change (Z.of_nat 0) with 0 in *.
  fold (row_counts rows). cbv zeta. rewrite Hlast by lia.
  eapply reads_bind_last; [exact Hr|]. apply reads_reserve_bind, reads_lift, Hspan. lia.
Qed.

(** The elements of a Map row: each key followed by its value. *)
Definition entries (kv : list (list byte) * list (list byte)) : list (list byte) := zip_with app kv.1 kv.2.

Lemma zip_app_le (keys vals : list (list byte)) :
  length keys = length vals ->
  length (concat (zip_with app keys vals)) = (length (concat keys) + length (concat vals))%nat.
Proof.
  revert vals; induction keys as [|k keys IH]; intros [|v vals] Hl; simpl in *; try lia.
  rewrite !length_app, IH by lia. lia.
Qed.

Lemma map_row_ok kt vt keys vals :
  length keys = length vals -> Forall (enc_cell kt) keys -> Forall (enc_cell vt) vals ->
  Z.of_nat (length (concat (zip_with app keys vals))) < 2 ^ 64 ->
  map_row kt vt (row_bytes (entries (keys, vals))) = Ok (Z.of_nat (length keys), (keys, vals)).
Proof.
  intros Hl Hk Hv Hlen. unfold entries. cbn [fst snd]. rewrite zip_app_le in Hlen by done.
  pose proof (enc_count _ _ Hk) as Hcount.
  assert (Hn : length (zip_with app keys vals) = length keys) by (rewrite length_zip_with; lia).
  pose proof (rb_read_varuint_app [] (Z.of_nat (length keys)) (concat (zip_with app keys vals))) as Hr.
  cbn [app length] in Hr. unfold map_row, row_bytes. rewrite Hn, Hr by lia. cbn [mbind result_bind].
  rewrite Nat2Z.id.
  pose proof (cut_pairs_ok kt vt keys vals (put_var_uint (Z.of_nat (length keys))) []) as Hc.
  rewrite app_nil_r in Hc. rewrite Hc; [done|done|apply short_advances; [done|lia]..].
Qed.

Definition all_keys (rows : list (list (list byte) * list (list byte))) := concat (map fst rows).
Definition all_vals (rows : list (list (list byte) * list (list byte))) := concat (map snd rows).

(** The rows behind Map cells. *)
Lemma map_rows kt vt cells :
  Forall (enc_cell (Ct.Map kt vt)) cells -> Z.of_nat (length (concat cells)) < 2 ^ 64 ->
  exists rows, cells = map row_bytes (map entries rows) /\
    Forall (fun kv => length kv.1 = length kv.2) rows /\
    Forall (enc_cell kt) (all_keys rows) /\ Forall (enc_cell vt) (all_vals rows) /\
    map_res (map_row kt vt) cells = Ok (map (fun kv => (Z.of_nat (length kv.1), kv)) rows).
Proof.
  induction 1 as [|b cells (keys & vals & Hl & -> & Hk & Hv) Hall IH]; intros Hlen; [by exists []|].
  assert (Hn : length (zip_with app keys vals) = length keys) by (rewrite length_zip_with; lia).
  rewrite <- Hn in Hlen |- *. fold (row_bytes (zip_with app keys vals)) in *.
  cbn [concat] in Hlen. rewrite length_app, row_bytes_length in Hlen.
  destruct IH as (rows & -> & Hls & Hks & Hvs & Hm); [lia|].
  exists ((keys, vals) :: rows). unfold all_keys, all_vals in *. cbn [map concat fst snd].
  split; [done|]. split; [by constructor|]. split; [by apply Forall_app|]. split; [by apply Forall_app|].
  cbn [map_res]. change (zip_with app keys vals) with (entries (keys, vals)).
  rewrite map_row_ok by (done || lia). cbn [mbind result_bind]. by rewrite Hm.
Qed.

Lemma entries_concat rows :
  Forall (fun kv : list (list byte) * list (list byte) => length kv.1 = length kv.2) rows ->
  length (all_keys rows) = length (all_vals rows) /\
  zip_with app (all_keys rows) (all_vals rows) = concat (map entries rows) /\
  row_counts (map entries rows) = map (fun kv => Z.of_nat (length kv.1)) rows.
Proof.
  unfold all_keys, all_vals, row_counts. induction 1 as [|[k v] rows Hl Hall (IH1 & IH2 & IH3)]; [done|].
  cbn [fst snd] in Hl. cbn [map concat fst snd]. rewrite !length_app. split; [lia|].
  split; [by rewrite zip_with_app, IH2 by done|]. f_equal; [|exact IH3].
  unfold entries. cbn [fst snd]. rewrite length_zip_with. lia.
Qed.

Lemma map_reads_back kt vt : reads_back kt -> reads_back vt -> reads_back (Ct.Map kt vt).
Proof.
  intros IHk IHv left cells Ht Hall Hlen Hn Hl Hmax Hp. unfold MAX_COLUMN_BYTES in *.
  destruct (map_rows kt vt cells Hall) as (rows & -> & Hls & Hks & Hvs & Hm); [lia|].
  destruct left as [|left]; [cbn [nesting] in Hl; lia|]. cbn [nesting] in Hl.
  destruct (entries_concat _ Hls) as (Heq & Hzip & Hcounts).
  pose proof (concat_rows_le (map entries rows)) as Hle. rewrite <- Hzip, zip_app_le in Hle by done.
  pose proof (enc_count _ _ Hks) as Hcount. apply andb_true_iff in Ht as [Htk Htv].
  assert (Hcl : (length (concat (map entries rows)) <= length (concat (all_keys rows)))%nat).
  { rewrite <- Hzip, length_zip_with. lia. }
  destruct (IHk left (all_keys rows)) as (kb & Hwk & Hrk); unfold MAX_COLUMN_BYTES;
    [exact Htk|exact Hks|lia|lia|lia|lia|left; unfold MAX_READ_DEPTH in *; lia|].
  destruct (IHv left (all_vals rows)) as (vb & Hwv & Hrv); unfold MAX_COLUMN_BYTES;
    [exact Htv|exact Hvs|lia|lia|lia|lia|left; unfold MAX_READ_DEPTH in *; lia|].
  exists (concat (map (put_le 8) (cumulative 0 (row_counts (map entries rows)))) ++ kb ++ vb). split.
  { cbn [write_col_values plain_layout fixed_size]. rewrite Hm. cbn [mbind result_bind].
    rewrite !map_map. cbn [fst snd]. rewrite Hcounts.
    change (concat (map (fun x : list (list byte) * list (list byte) => x.1) rows)) with (all_keys rows).
    change (concat (map (fun x : list (list byte) * list (list byte) => x.2) rows)) with (all_vals rows).
    by rewrite Hwk, bind_Ok, Hwv. }
  unfold reads. cbn [read_column_at]. cbv zeta. rewrite past_top_test by done.
  change (forall tail, ?m (?e ++ tail) = Ok (?a, tail)) with (reads m e a).
  rewrite length_map. eapply reads_bind.
  { rewrite <- (length_map (fun r => Z.of_nat (length r)) (map entries rows)). apply reads_offsets. }
  pose proof (cumulative_last [] (map entries rows)) as Hlast.
  pose proof (span_rows_cumulative (str "Map") [] (map entries rows)) as Hspan.
  cbn [app length] in Hlast, Hspan. change (Z.of_nat 0) with 0 in *.
  fold (row_counts (map entries rows)). cbv zeta. rewrite Hlast by lia.
  rewrite <- Hzip in Hspan |- *. rewrite length_zip_with, <- Heq, Nat.min_id.
  eapply reads_bind; [exact Hrk|]. rewrite Heq. eapply reads_bind_last; [exact Hrv|].
  apply reads_reserve_bind, reads_lift, Hspan. rewrite length_zip_with. lia.
Qed.

(** ** Tuples *)

(** The rows' field number [i], and what its cells take. *)
Lemma field_of_row t fields i (row : list (list byte)) :
  enc_all2 enc_cell (t :: fields) (drop i row) ->
  drop i row = (row !!! i) :: drop (S i) row /\ enc_cell t (row !!! i) /\
    enc_all2 enc_cell fields (drop (S i) row).
Proof.
  destruct (drop i row) as [|c rest] eqn:E; [done|]. intros [Hc Hr].
  assert (Hlk : row !! i = Some c) by (rewrite <- (Nat.add_0_r i), <- lookup_drop, E; done).
  assert (Hd : drop (S i) row = rest) by (rewrite <- Nat.add_1_r, <- drop_drop, E; done).
  rewrite (list_lookup_total_correct _ _ _ Hlk), Hd. done.
Qed.

Lemma nth_cells_le i rows :
  Forall (fun row : list (list byte) => drop i row = (row !!! i) :: drop (S i) row) rows ->
  (length (concat (nth_cells i rows)) <= length (concat (concat rows)))%nat.
Proof.
  unfold nth_cells. induction 1 as [|row rows Hd Hs IHs]; [done|].
  cbn [map concat]. rewrite concat_app, !length_app.
  rewrite <- (take_drop i row) at 2. rewrite Hd, concat_app, length_app. cbn [concat].
  rewrite length_app. lia.
Qed.

Lemma zip_field i rows acc :
  Forall (fun row : list (list byte) => drop i row = (row !!! i) :: drop (S i) row) rows ->
  length acc = length rows ->
  zip_with (fun a row => a ++ concat (drop (S i) row)) (zip_with app acc (nth_cells i rows)) rows =
    zip_with (fun a row => a ++ concat (drop i row)) acc rows.
Proof.
  unfold nth_cells. intros Hs. revert acc; induction Hs as [|row rows Hd Hs IHs]; intros [|a acc] Hacc;
    simpl in Hacc; try lia; [done|]. cbn [map zip_with]. rewrite Hd. cbn [concat].
  rewrite <- app_assoc. f_equal. apply IHs. lia.
Qed.

Lemma zip_no_field i (rows : list (list (list byte))) acc :
  Forall (fun row => enc_all2 enc_cell [] (drop i row)) rows -> length acc = length rows ->
  zip_with (fun a row => a ++ concat (drop i row)) acc rows = acc.
Proof.
  intros Hr. revert acc; induction Hr as [|row rows Hr Hrs IH]; intros [|a acc] Hacc; simpl in Hacc; try lia; [done|].
  cbn [zip_with]. destruct (drop i row); [|done]. rewrite app_nil_r. f_equal. apply IH. lia.
Qed.

(** The fields from number [i] on, written and read, extend the rows. *)
Lemma tuple_fields_read_back left fields i rows acc :
  Forall reads_back fields -> Forall (fun t => insertable t = true) fields ->
  Forall (fun row => enc_all2 enc_cell fields (drop i row)) rows -> length acc = length rows ->
  Z.of_nat (length (concat (concat rows))) <= MAX_COLUMN_BYTES -> Z.of_nat (length rows) <= MAX_COLUMN_BYTES ->
  Forall (fun t => (nesting t < left)%nat) fields -> (left <= MAX_READ_DEPTH)%nat ->
  exists out, write_fields write_col_values rows i fields = Ok out /\
    reads (tuple_rows (read_column_at left) (Z.of_nat (length rows)) acc fields) out
      (zip_with (fun a row => a ++ concat (drop i row)) acc rows).
Proof.
  intros IH Hins. revert i acc; induction IH as [|t fields IHt IH IHf]; intros i acc Hrows Hacc Hb Hn Hnest Hl.
  { exists []. split; [done|]. rewrite zip_no_field by done. apply reads_ret. }
  apply Forall_cons in Hins as [Hit Hins]. apply Forall_cons in Hnest as [Hnt Hnest].
  assert (Hd : Forall (fun row => drop i row = (row !!! i) :: drop (S i) row) rows).
  { eapply Forall_impl; [exact Hrows|]. intros row Hr. by apply field_of_row in Hr as (? & _). }
  assert (Hcells : Forall (enc_cell t) (nth_cells i rows)).
  { apply Forall_fmap. eapply Forall_impl; [exact Hrows|]. intros row Hr. by apply field_of_row in Hr as (_ & ? & _). }
  pose proof (nth_cells_le i rows Hd) as Hle.
  assert (Hnl : length (nth_cells i rows) = length rows) by apply length_map.
  destruct (IHt left (nth_cells i rows)) as (b & Hw & Hr); [done|done|lia|lia|done|lia|by left|].
  destruct (IHf Hins (S i) (zip_with app acc (nth_cells i rows))) as (bs & Hws & Hrs);
    [|rewrite length_zip_with; lia|done..|].
  { eapply Forall_impl; [exact Hrows|]. intros row Hr'. by apply field_of_row in Hr' as (_ & _ & ?). }
  exists (b ++ bs). split; [cbn [write_fields]; by rewrite Hw, bind_Ok, Hws|].
  cbn [tuple_rows]. rewrite Hnl in Hr. eapply reads_bind; [exact Hr|].
  by rewrite zip_field in Hrs.
Qed.

Lemma tuple_row_ok fields row :
  enc_all2 enc_cell fields row -> Z.of_nat (length (concat row)) < 2 ^ 64 ->
  tuple_row fields (concat row) = Ok row.
Proof.
  intros Hr Hlen. assert (Ha : enc_all2 advances fields row).
  { revert row Hr Hlen. induction fields as [|t fields IHf]; intros [|c row] Hr Hlen; try done.
    destruct Hr as [Hc Hr]. cbn [concat] in Hlen. rewrite length_app in Hlen.
    split; [apply enc_advances; [done|lia]|apply IHf; [done|lia]]. }
  pose proof (cut_fields_ok fields row [] [] Ha) as Hc. cbn [app length] in Hc. rewrite app_nil_r in Hc.
  unfold tuple_row. by rewrite Hc.
Qed.

(** The rows behind Tuple cells. *)
Lemma tuple_rows_of fields cells :
  Forall (enc_cell (Ct.Tuple fields)) cells -> Z.of_nat (length (concat cells)) < 2 ^ 64 ->
  exists rows, cells = map (@concat byte) rows /\ Forall (enc_all2 enc_cell fields) rows /\
    map_res (tuple_row fields) cells = Ok rows.
Proof.
  induction 1 as [|b cells (_ & row & -> & Hr) Hall IH]; intros Hlen; [by exists []|].
  cbn [concat] in Hlen. rewrite length_app in Hlen. destruct IH as (rows & -> & Hrs & Hm); [lia|].
  exists (row :: rows). split; [done|]. split; [by constructor|]. cbn [map_res].
  rewrite tuple_row_ok by (done || lia). cbn [mbind result_bind]. by rewrite Hm.
Qed.

Lemma nesting_fields ts m : (foldr max 0 (map nesting ts) < m)%nat -> Forall (fun t => (nesting t < m)%nat) ts.
Proof. induction ts as [|t ts IH]; simpl; intros Hm; constructor; [lia|]. apply IH. lia. Qed.

Lemma tuple_reads_back fields : Forall reads_back fields -> reads_back (Ct.Tuple fields).
Proof.
  intros IH left cells Ht Hall Hlen Hn Hl Hmax Hp.
  destruct (tuple_rows_of fields cells Hall) as (rows & -> & Hrs & Hm); [unfold MAX_COLUMN_BYTES in *; lia|].
  destruct left as [|left]; [cbn [nesting] in Hl; lia|]. cbn [nesting] in Hl.
  rewrite length_map in Hn, Hp |- *.
  assert (Hins : Forall (fun t => insertable t = true) fields).
  { cbn [insertable] in Ht. destruct fields as [|f fs]; [done|]. rewrite forallb_forall in Ht.
    apply Forall_forall. intros x Hx. apply Ht. by apply list_elem_of_In. }
  assert (Hbytes : concat (concat rows) = concat (map (@concat byte) rows)).
  { clear. induction rows as [|r rows IHr]; [done|]. cbn [concat map]. by rewrite concat_app, IHr. }
  destruct (tuple_fields_read_back left fields 0 rows (replicate (length rows) [])) as (out & Hw & Hr);
    [done|done|exact Hrs|apply length_replicate|by rewrite Hbytes|done|apply nesting_fields; lia|lia|].
  exists out. split; [cbn [write_col_values plain_layout fixed_size]; by rewrite Hm, bind_Ok|].
  unfold reads. cbn [read_column_at]. cbv zeta. rewrite past_top_test by done.
  change (forall tail, ?m (?e ++ tail) = Ok (?a, tail)) with (reads m e a).
  apply reads_reserve_bind. rewrite Nat2Z.id.
  replace (map (@concat byte) rows) with
    (zip_with (fun a row => a ++ concat (drop 0 row)) (replicate (length rows) []) rows); [exact Hr|].
  clear. induction rows as [|r rows IHr]; [done|]. cbn [length replicate zip_with map]. by rewrite IHr.
Qed.

Lemma all_reads_back t : reads_back t.
Proof.
  induction t as [t Ht|t IH|t IH IHn|t IH|t IH|ts IH|k v IHk IHv|ts IH] using Ct.column_lc_ind.
  - intros left cells Hi Hall _ _ Hl Hmax Hp.
    assert (Hpt : plain_type t = true) by (by destruct t).
    assert (Hcs : Forall (plain_cell t) cells) by (by destruct t).
    exists (concat cells). split; [|apply reads_plain; [lia|done..]].
    pose proof (plain_type_layout _ Hpt) as Hlay. destruct t; cbn [write_col_values]; by rewrite Hlay.
  - intros left cells Hi Hall _ _ Hl Hmax Hp. cbn [nesting] in Hl. apply roundtrip_nullable; [done|done|lia|done..].
  - intros left cells Hi Hall Hb Hn Hl Hmax Hp. cbn [nesting] in Hl. unfold MAX_COLUMN_BYTES in *.
    apply roundtrip_low_cardinality; [by destruct t|done|lia|lia|done..].
  - intros left cells Hi. discriminate.
  - by apply array_reads_back.
  - by apply tuple_reads_back.
  - by apply map_reads_back.
  - intros left cells Hi. discriminate.
Qed.

End roundtrip.

(** ** Properties *)

(** what the encoder writes for a column, the reader reads back: for every type a
    client may insert, nested within the reader's depth limit, and every
    non-empty list of its cells in the size bound, the column is written, and
    reading as many rows gives the cells and leaves what follows on the stream. *)
Theorem column_roundtrip `{Platform} `{FloatText} t cells tail :
  alloc_total -> insertable t = true -> Forall (enc_cell t) cells -> cells <> [] ->
  (nesting t <= MAX_READ_DEPTH)%nat -> Z.of_nat (length (concat cells)) <= MAX_COLUMN_BYTES ->
  exists out, write_col_values t cells = Ok out /\
    read_column_data t (Z.of_nat (length cells)) (out ++ tail) = Ok (cells, tail).
Proof.
  intros Ha Ht Hall Hne Hnest Hb. pose proof (enc_count _ _ Hall) as Hc.
  destruct (all_reads_back Ha t (S MAX_READ_DEPTH) cells) as (out & Hw & Hr);
    [done|done|done|lia|lia|lia|right; by destruct cells; [done|simpl; lia]|].
  exists out. split; [exact Hw|apply Hr].
Qed.

Lemma column_roundtrip_witness :
  let t := Ct.Map (Ct.LowCardinality Ct.String) (Ct.Array (Ct.Nullable Ct.UInt16)) in
  let cell := [x01; x02; x68; x69; x02; x00; x07; x00; x01] in
  exists out, write_col_values t [cell; cell] = Ok out /\
    @read_column_data roomy no_floats t 2 (out ++ [xff]) = Ok ([cell; cell], [xff]).
Proof.
  intros t cell. refine (@column_roundtrip roomy no_floats t [cell; cell] [xff] _ _ _ _ _ _);
    [done|done| |done|vm_compute; lia|vm_compute; discriminate].
  assert (Hc : enc_cell t cell).
  { exists [[x02; x68; x69]], [[x02; x00; x07; x00; x01]]. split; [done|]. split; [reflexivity|].
    split; each; [exists [x68; x69]; split; [reflexivity|vm_compute; discriminate]|].
    exists [[x00; x07; x00]; [x01]]. split; [reflexivity|]. each.
    - right. exists [x07; x00]. done.
    - left. done. }
  by each.
Defined.
