(* ===== verification/Agree.v ===== *)
(** * The two decoders agree

    The program reads a native column in two ways: [Columns] into RowBinary
    cells, [Decode] into typed columns. Where both apply they read the same
    bytes as the same rows: [column_cells] gives the cells a typed column stands
    for, and a column the cell reader accepts decodes to a typed column with
    exactly those cells and the same bytes left over. *)

From S2P Require Import Prelude Text Errors WireIo ColTypes Json Columns Decode.

(** ** The cells of a typed column *)

(** The indices of a dictionary index column. *)
Definition index_values (c : DecodedColumn) : list Z :=
  match c with
  | Dc.UInt8 v | Dc.UInt16 v | Dc.UInt32 v | Dc.UInt64 v => v
  | _ => []
  end.

(** The cells of a column of [n] rows. *)
Fixpoint column_cells (n : nat) (c : DecodedColumn) : option (list (list byte)) :=
  match c with
  | Dc.UInt8 v | Dc.Int8 v => Some (map (put_le 1) v)
  | Dc.UInt16 v | Dc.Int16 v | Dc.Date v => Some (map (put_le 2) v)
  | Dc.UInt32 v | Dc.Int32 v | Dc.Float32 v | Dc.Date32 v | Dc.DateTime v | Dc.Ipv4 v
  | Dc.Decimal32 _ _ v => Some (map (put_le 4) v)
  | Dc.UInt64 v | Dc.Int64 v | Dc.Float64 v | Dc.Decimal64 _ _ v | Dc.DateTime64 _ _ v =>
      Some (map (put_le 8) v)
  | Dc.Int128 v | Dc.UInt128 v | Dc.Decimal128 _ _ v => Some (map (put_le 16) v)
  | Dc.Int256 v | Dc.UInt256 v | Dc.Decimal256 _ _ v | Dc.Uuid v | Dc.Ipv6 v => Some v
  | Dc.String v | Dc.Json v => Some (map put_string v)
  | Dc.FixedString width bytes => Some (chunks_exact n (Z.to_nat width) bytes)
  | Dc.Nullable mask child => cs ← column_cells n child; Some (zip_with nullable_cell mask cs)
  | Dc.Array offsets child =>
      cs ← column_cells (Z.to_nat (default 0 (last offsets))) child;
      res_ok (span_rows (str "Array") 0 cs offsets)
  | Dc.Map offsets keys values =>
      ks ← column_cells (Z.to_nat (default 0 (last offsets))) keys;
      vs ← column_cells (Z.to_nat (default 0 (last offsets))) values;
      res_ok (span_rows (str "Map") 0 (zip_with app ks vs) offsets)
  | Dc.LowCardinality dict indices is_nullable_inner =>
      ds ← column_cells (Z.to_nat (row_count dict)) dict;
      res_ok (map_res (lc_cell ds is_nullable_inner) (index_values indices))
  | Dc.Tuple fields =>
      (fix go fields rows :=
         match fields with
         | [] => Some rows
         | f :: fields' => cs ← column_cells n f; go fields' (zip_with app rows cs)
         end) fields (replicate n [])
  | Dc.Unsupported _ => None
  end.

Fixpoint field_cells (n : nat) (fields : list DecodedColumn) (rows : list (list byte))
    : option (list (list byte)) :=
  match fields with
  | [] => Some rows
  | f :: fields' => cs ← column_cells n f; field_cells n fields' (zip_with app rows cs)
  end.

(** The types both decoders read: a typed variant for every scalar, and
    dictionaries whose row count shows. *)
Definition mirrored_scalar (t : ColumnType) : bool :=
  match t with
  | Ct.BFloat16 | Ct.Time | Ct.Time64 | Ct.Point | Ct.Variant _ | Ct.NewJson | Ct.Dynamic
  | Ct.Nullable _ | Ct.LowCardinality _ | Ct.SimpleAggregateFunction _ | Ct.Array _ | Ct.Tuple _
  | Ct.Map _ _ => false
  | Ct.FixedString width => 0 <=? width
  | _ => true
  end.

Fixpoint mirrored (t : ColumnType) : bool :=
  match t with
  | Ct.Nullable t | Ct.SimpleAggregateFunction t | Ct.Array t => mirrored t
  | Ct.LowCardinality inner =>
      match inner with
      | Ct.Nullable t => mirrored_scalar t && counted t
      | _ => mirrored_scalar inner && counted inner
      end
  | Ct.Tuple ts => forallb mirrored ts
  | Ct.Map k v => mirrored k && mirrored v
  | _ => mirrored_scalar t
  end.

Lemma column_cells_tuple n fields :
  column_cells n (Dc.Tuple fields) = field_cells n fields (replicate n []).
Proof.
  cbn [column_cells]. generalize (replicate n ([] : list byte)).
  induction fields as [|f fields IH]; intros rows; [done|]. cbn [field_cells].
  destruct (column_cells n f); simpl; [apply IH|done].
Qed.

(** ** Zero rows *)

Lemma field_cells_nil n fields :
  Forall (fun f => column_cells n f = Some []) fields -> field_cells n fields [] = Some [].
Proof. induction 1 as [|f fields Hf Hall IH]; [done|]. cbn [field_cells]. by rewrite Hf. Qed.

Lemma empty_column_cells t : mirrored t = true -> column_cells 0 (empty_column t) = Some [].
Proof.
  induction t as [t Ht|t IH|t IH IHn|t IH|t IH|ts IH|k v IHk IHv|ts IH] using Ct.column_lc_ind;
    intros Hm; cbn [mirrored] in Hm.
  - destruct t; done.
  - cbn [empty_column column_cells]. by rewrite IH.
  - assert (Hd : forall u, mirrored_scalar u && counted u = true -> (mirrored u = true -> column_cells 0 (empty_column u) = Some []) ->
      (ds ← column_cells (Z.to_nat (row_count (empty_column u))) (empty_column u); Some ([] : list (list byte))) = Some []).
    { intros u [Hu Hcu]%andb_true_iff IHu.
      rewrite (row_count_typed u 0) by (done || apply empty_column_typed). change (Z.to_nat 0) with 0%nat.
      rewrite IHu; [done|]. by destruct u. }
    cbn [empty_column]. destruct t; try (by apply Hd). apply Hd; [done|]. by apply IHn.
  - by apply IH.
  - cbn [empty_column column_cells last default]. change (Z.to_nat 0) with 0%nat. by rewrite IH.
  - cbn [empty_column]. rewrite column_cells_tuple. apply field_cells_nil.
    rewrite forallb_forall in Hm. apply Forall_fmap. rewrite Forall_forall in IH |- *. intros t Ht.
    apply IH; [done|]. apply Hm. by apply list_elem_of_In.
  - apply andb_true_iff in Hm as [Hk Hv]. cbn [empty_column column_cells last default].
    change (Z.to_nat 0) with 0%nat. rewrite IHk by done. simpl. by rewrite IHv.
  - discriminate.
Qed.

Section agree.
Context `{Platform} `{FloatText}.
Hypothesis Halloc : alloc_total.

Lemma reserve_ok sz cap bs : reserve sz cap bs = Ok (tt, bs).
Proof. unfold reserve, with_cap, try_reserve. by rewrite Halloc, orb_true_r. Qed.

Lemma after_reserve {A} sz cap (m : Read A) bs : (_ ← reserve sz cap; m) bs = m bs.
Proof. by rewrite rd_bind_eq, reserve_ok. Qed.

(** ** Fixed-width columns *)

(** What a repeated exact read took. *)
Lemma repeat_exact_inv n k bs cells rest :
  rd_repeat n (read_exact_grown k) bs = Ok (cells, rest) ->
  length cells = n /\ Forall (fun b => Z.of_nat (length b) = Z.max 0 k) cells /\ bs = concat cells ++ rest.
Proof.
  revert bs cells; induction n as [|n IH]; intros bs cells Hr; cbn [rd_repeat] in Hr.
  { by apply rd_ret_ok in Hr as [<- ->]. }
  apply rd_bind_ok in Hr as (b & mid & H1 & Hr). apply rd_bind_ok in Hr as (cs & mid' & H2 & Hr).
  apply rd_ret_ok in Hr as [<- <-]. apply read_exact_grown_length in H1 as [Hb ->].
  apply IH in H2 as (Hl & Hall & ->). simpl. split; [lia|]. split; [by constructor|].
  by rewrite app_assoc.
Qed.

Lemma fixed_column_inv n k bs cells rest :
  0 <= n -> read_fixed_column n k bs = Ok (cells, rest) ->
  Z.of_nat (length cells) = n /\ Forall (fun b => Z.of_nat (length b) = Z.max 0 k) cells /\
  bs = concat cells ++ rest.
Proof.
  intros Hn Hr. unfold read_fixed_column in Hr. rewrite after_reserve in Hr.
  apply repeat_exact_inv in Hr as (Hl & Hall & ->). split; [lia|done].
Qed.

Lemma concat_fixed_length k (cells : list (list byte)) :
  Forall (fun b => Z.of_nat (length b) = k) cells ->
  Z.of_nat (length (concat cells)) = Z.of_nat (length cells) * k.
Proof. induction 1 as [|b cells Hb Hall IH]; simpl; [done|]. rewrite length_app. lia. Qed.

(** The bulk read of a fixed-width column, on the bytes of its cells. *)
Lemma le_column_ok w conv cells rest :
  Forall (fun b => length b = w) cells -> Z.of_nat (length (concat cells)) < 2 ^ 64 ->
  read_le_column w conv (Z.of_nat (length cells)) (concat cells ++ rest) =
    Ok (map (fun b => conv (le_combine b)) cells, rest).
Proof.
  intros Hall Hlen. unfold read_le_column. cbv zeta.
  rewrite <- concat_fixed_length by (eapply Forall_impl; [exact Hall|]; cbv beta; lia).
  rewrite (proj2 (Z.leb_gt _ _)) by lia. rewrite rd_bind_eq, (reads_exact_grown _ Halloc).
  rewrite after_reserve. rewrite Nat2Z.id. by rewrite chunks_exact_concat.
Qed.

Lemma u256_column_ok cells rest :
  Forall (fun b => length b = 32%nat) cells -> Z.of_nat (length (concat cells)) < 2 ^ 64 ->
  read_u256_column (Z.of_nat (length cells)) (concat cells ++ rest) = Ok (cells, rest).
Proof.
  intros Hall Hlen. unfold read_u256_column. cbv zeta.
  rewrite <- concat_fixed_length by (eapply Forall_impl; [exact Hall|]; cbv beta; lia).
  rewrite (proj2 (Z.leb_gt _ _)) by lia. rewrite rd_bind_eq, (reads_exact_grown _ Halloc).
  rewrite after_reserve. rewrite Nat2Z.id. by rewrite chunks_exact_concat.
Qed.

Lemma slots_16_ok cells rest :
  Forall (fun b => length b = 16%nat) cells ->
  read_slots_16 (Z.of_nat (length cells)) (concat cells ++ rest) = Ok (cells, rest).
Proof.
  intros Hall. unfold read_slots_16. rewrite after_reserve, Nat2Z.id. revert rest.
  apply (reads_repeat2 _ _ cells cells eq_refl). induction Hall as [|b cells Hb Hall IH]; constructor; [|done].
  rewrite <- Hb. apply reads_exact.
Qed.

(** The integers of the cells, written out again. *)
Lemma put_signed_combine w b : length b = w -> (0 < w)%nat -> put_le w (signed w (le_combine b)) = b.
Proof.
  intros Hb Hw. unfold put_le, signed, wrap_signed. rewrite le_split_mod.
  replace (8 * Z.of_nat w) with (Z.of_nat w * 8) by lia. set (m := 2 ^ (Z.of_nat w * 8)).
  rewrite Zminus_mod, Zmod_mod, <- Zminus_mod.
  replace (le_combine b + 2 ^ (Z.of_nat w * 8 - 1) - 2 ^ (Z.of_nat w * 8 - 1)) with (le_combine b) by lia.
  unfold m. rewrite <- le_split_mod. rewrite <- Hb. apply split_le_combine.
Qed.

Lemma put_unsigned_combine w b : length b = w -> put_le w (unsigned (le_combine b)) = b.
Proof. intros Hb. unfold put_le, unsigned. rewrite <- Hb. apply split_le_combine. Qed.

Lemma map_put_combine w conv cells :
  Forall (fun b => length b = w) cells ->
  (forall b, length b = w -> put_le w (conv (le_combine b)) = b) ->
  map (put_le w) (map (fun b => conv (le_combine b)) cells) = cells.
Proof.
  intros Hall Hc. rewrite map_map. induction Hall as [|b cells Hb Hall IH]; [done|].
  cbn [map]. by rewrite Hc, IH.
Qed.

(** ** Strings *)

Lemma strings_agree n bs cells rest :
  read_string_column n bs = Ok (cells, rest) ->
  exists docs, read_strings n bs = Ok (docs, rest) /\ map put_string docs = cells.
Proof.
  unfold read_string_column, read_strings. rewrite !after_reserve.
  generalize (Z.to_nat n) as k. intros k. revert bs cells; induction k as [|k IH]; intros bs cells Hr; cbn [rd_repeat] in Hr |- *.
  { apply rd_ret_ok in Hr as [<- <-]. by exists []. }
  apply rd_bind_ok in Hr as (c & m1 & H1 & Hr). apply rd_bind_ok in Hr as (cs & m2 & H2 & Hr).
  apply rd_ret_ok in Hr as [<- <-]. apply rd_bind_ok in H1 as (s & m3 & H1 & H3).
  apply rd_ret_ok in H3 as [<- <-]. apply IH in H2 as (docs & H2 & <-).
  exists (s :: docs). split; [|done]. by rewrite rd_bind_eq, H1, rd_bind_eq, H2.
Qed.

(** ** Offsets and indices *)

(** Offsets the span check accepts do not step back. *)
Lemma span_rows_monotone what prev cells offsets rows :
  span_rows what prev cells offsets = Ok rows ->
  Forall (fun x => 0 <= x < 2 ^ 64) offsets -> monotone_from prev offsets.
Proof.
  intros Hs Hr. revert prev rows Hs; induction Hr as [|x offsets Hx Hr IH]; intros prev rows Hs; [done|].
  cbn [span_rows] in Hs. apply bind_Ok_inv in Hs as (fin & H1 & Hs). unfold checked_span in H1.
  destruct (Z.ltb_spec x prev), (_ <? x); simpl in H1; try discriminate. apply Ok_inj in H1 as <-.
  apply bind_Ok_inv in Hs as (rows' & Hrec & _). cbn [monotone_from]. split; [lia|by eapply IH].
Qed.

Lemma monotone_agree what k prev bs offsets rest :
  rd_repeat k read_u64_le bs = Ok (offsets, rest) -> monotone_from prev offsets ->
  read_monotone what k prev bs = Ok (offsets, rest).
Proof.
  revert prev bs offsets; induction k as [|k IH]; intros prev bs offsets Hr Hm; cbn [rd_repeat] in Hr;
    cbn [read_monotone]; [exact Hr|].
  apply rd_bind_ok in Hr as (x & m1 & H1 & Hr). apply rd_bind_ok in Hr as (xs & m2 & H2 & Hr).
  apply rd_ret_ok in Hr as [<- <-]. destruct Hm as [Hx Hm]. rewrite rd_bind_eq, H1.
  rewrite (proj2 (Z.ltb_ge _ _)) by lia. by rewrite rd_bind_eq, (IH _ _ _ H2 Hm).
Qed.

Lemma offsets_agree what n bs offsets rest :
  read_offsets n bs = Ok (offsets, rest) -> monotone_from 0 offsets ->
  read_monotone_offsets what n bs = Ok (offsets, rest).
Proof.
  unfold read_offsets, read_monotone_offsets. rewrite !after_reserve. apply monotone_agree.
Qed.

Lemma offsets_range n bs offsets rest :
  read_offsets n bs = Ok (offsets, rest) -> Forall (fun x => 0 <= x < 2 ^ 64) offsets.
Proof.
  unfold read_offsets. rewrite after_reserve. intros Hr. apply (yields_repeat (Z.to_nat n) read_u64_le (fun x => 0 <= x < 2 ^ 64)) in Hr; [apply Hr|].
  intros b v r Hv. by apply (read_le_range 8) in Hv.
Qed.

(** What a repeated little-endian read took. *)
Lemma repeat_le_inv n w bs vals rest :
  rd_repeat n (read_le w) bs = Ok (vals, rest) ->
  exists cells, length cells = n /\ Forall (fun b : list byte => length b = w) cells /\
    bs = concat cells ++ rest /\ vals = map le_combine cells.
Proof.
  revert bs vals; induction n as [|n IH]; intros bs vals Hr; cbn [rd_repeat] in Hr.
  { apply rd_ret_ok in Hr as [<- ->]. by exists []. }
  apply rd_bind_ok in Hr as (v & m1 & H1 & Hr). apply rd_bind_ok in Hr as (vs & m2 & H2 & Hr).
  apply rd_ret_ok in Hr as [<- <-]. unfold read_le in H1. apply rd_bind_ok in H1 as (b & m3 & H1 & H3).
  apply rd_ret_ok in H3 as [<- <-]. pose proof (read_exact_length _ _ _ _ H1) as Hb.
  apply framed_read_exact in H1 as (u & -> & H1). pose proof (read_exact_self _ _ _ (H1 [])) as ->.
  apply IH in H2 as (cells & Hl & Hall & -> & ->). exists (b :: cells).
  split; [simpl; lia|]. split; [by constructor|]. split; [|done]. cbn [concat]. by rewrite app_assoc.
Qed.

Lemma concat_bytes (cells : list (list byte)) :
  Forall (fun b => length b = 1%nat) cells -> map u8 (concat cells) = map le_combine cells.
Proof.
  induction 1 as [|b cells Hb Hall IH]; [done|]. destruct b as [|x [|]]; try discriminate.
  cbn [concat app map]. rewrite IH. f_equal. symmetry. apply le_combine_1.
Qed.

Lemma indices_agree code n bs vals rest :
  0 <= n -> Z.of_nat (length bs) < 2 ^ 64 -> (code = 0 \/ code = 1 \/ code = 2 \/ code = 3) ->
  rd_repeat (Z.to_nat n) (read_index (lc_index_bytes code)) bs = Ok (vals, rest) ->
  exists c, read_indices code n bs = Ok (c, rest) /\ index_values c = vals.
Proof.
  intros Hn Hbs Hcode Hr.
  assert (Hw : forall w, rd_repeat (Z.to_nat n) (read_le w) bs = Ok (vals, rest) ->
    read_le_column w unsigned n bs = Ok (vals, rest) /\
    (w = 1%nat -> exists buf, read_exact_grown n bs = Ok (buf, rest) /\ map u8 buf = vals)).
  { intros w Hw. apply repeat_le_inv in Hw as (cells & Hl & Hall & -> & ->).
    rewrite length_app in Hbs. replace n with (Z.of_nat (length cells)) by lia. split.
    - by rewrite le_column_ok by (done || lia).
    - intros ->. exists (concat cells). split; [|by apply concat_bytes].
      replace (Z.of_nat (length cells)) with (Z.of_nat (length (concat cells))); [by apply reads_exact_grown|].
      rewrite (concat_fixed_length 1); [lia|]. eapply Forall_impl; [exact Hall|]. cbv beta; lia. }
  unfold read_indices. destruct Hcode as [->|[->|[->| ->]]]; cbn [Z.eqb Pos.eqb]; unfold lc_index_bytes in Hr;
    cbn [Z.pow Z.pow_pos Pos.iter Z.mul Pos.mul] in Hr; unfold read_index in Hr; cbn [Z.eqb Pos.eqb] in Hr.
  - destruct (Hw 1%nat Hr) as [_ H1]. destruct (H1 eq_refl) as (buf & Hb & <-).
    eexists. by rewrite rd_bind_eq, Hb.
  - destruct (Hw 2%nat Hr) as [H1 _]. eexists. by rewrite rd_bind_eq, H1.
  - destruct (Hw 4%nat Hr) as [H1 _]. eexists. by rewrite rd_bind_eq, H1.
  - destruct (Hw 8%nat Hr) as [H1 _]. eexists. by rewrite rd_bind_eq, H1.
Qed.

(** The index loop of the cell reader is its index reads and then its lookups. *)
Lemma index_loop_split {A} n (m : Read Z) (f : Z -> Result A) bs cells rest :
  rd_repeat n (idx ← m; rd_lift (f idx)) bs = Ok (cells, rest) ->
  exists idxs, rd_repeat n m bs = Ok (idxs, rest) /\ map_res f idxs = Ok cells.
Proof.
  revert bs cells; induction n as [|n IH]; intros bs cells Hr; cbn [rd_repeat] in Hr |- *.
  { apply rd_ret_ok in Hr as [<- <-]. by exists []. }
  apply rd_bind_ok in Hr as (c & m1 & H1 & Hr). apply rd_bind_ok in Hr as (cs & m2 & H2 & Hr).
  apply rd_ret_ok in Hr as [<- <-]. apply rd_bind_ok in H1 as (idx & m3 & H1 & H3).
  apply rd_lift_ok in H3 as [H3 ->]. apply IH in H2 as (idxs & H2 & Hm).
  exists (idx :: idxs). rewrite rd_bind_eq, H1, rd_bind_eq, H2. split; [done|].
  cbn [map_res]. by rewrite H3, bind_Ok, Hm.
Qed.

(** ** Scalars *)

(** What agreement says of one decoder run against one reader run. *)
Definition mirrors (n : Z) (hs : list DynamicHeader) (m : Read (DecodedColumn * list DynamicHeader))
    (bs : list byte) (cells : list (list byte)) (rest : list byte) : Prop :=
  exists c, m bs = Ok ((c, hs), rest) /\ column_cells (Z.to_nat n) c = Some cells.

Lemma mirrors_ints w conv (C : list Z -> DecodedColumn) n hs bs cells rest :
  0 <= n -> Z.of_nat (length bs) < 2 ^ 64 -> read_fixed_column n (Z.of_nat w) bs = Ok (cells, rest) ->
  (forall b, length b = w -> put_le w (conv (le_combine b)) = b) ->
  (forall m v, column_cells m (C v) = Some (map (put_le w) v)) ->
  mirrors n hs (v ← read_le_column w conv n; mret (C v, hs)) bs cells rest.
Proof.
  intros Hn Hbs Hr Hput HC. apply fixed_column_inv in Hr as (<- & Hall & ->); [|done].
  assert (Hall' : Forall (fun b => length b = w) cells) by (eapply Forall_impl; [exact Hall|]; cbv beta; lia).
  rewrite length_app in Hbs. eexists. rewrite rd_bind_eq, le_column_ok by (done || lia).
  split; [done|]. rewrite HC. f_equal. by apply map_put_combine.
Qed.

Lemma mirrors_bytes (g : byte -> Z) (C : list Z -> DecodedColumn) n hs bs cells rest :
  0 <= n -> read_fixed_column n 1 bs = Ok (cells, rest) ->
  (forall b, put_le 1 (g b) = [b]) -> (forall m v, column_cells m (C v) = Some (map (put_le 1) v)) ->
  mirrors n hs (buf ← read_exact_grown n; mret (C (map g buf), hs)) bs cells rest.
Proof.
  intros Hn Hr Hput HC. apply fixed_column_inv in Hr as (<- & Hall & ->); [|done].
  exists (C (map g (concat cells))). split.
  - rewrite rd_bind_eq. rewrite <- (Z.mul_1_r (Z.of_nat (length cells))), <- concat_fixed_length by done.
    by rewrite (reads_exact_grown _ Halloc).
  - rewrite HC, map_map. f_equal. clear HC Hn. induction Hall as [|b cells Hb Hall IH]; [done|].
    destruct b as [|x [|]]; simpl in Hb; try lia. cbn [concat app map]. by rewrite Hput, IH.
Qed.

Lemma mirrors_u256 (C : list (list byte) -> DecodedColumn) n hs bs cells rest :
  0 <= n -> Z.of_nat (length bs) < 2 ^ 64 -> read_fixed_column n 32 bs = Ok (cells, rest) ->
  (forall m v, column_cells m (C v) = Some v) ->
  mirrors n hs (v ← read_u256_column n; mret (C v, hs)) bs cells rest.
Proof.
  intros Hn Hbs Hr HC. apply fixed_column_inv in Hr as (<- & Hall & ->); [|done]. rewrite length_app in Hbs.
  eexists. rewrite rd_bind_eq, u256_column_ok; [by rewrite HC| |lia].
  eapply Forall_impl; [exact Hall|]; cbv beta; lia.
Qed.

Lemma mirrors_16 (C : list (list byte) -> DecodedColumn) n hs bs cells rest :
  0 <= n -> read_fixed_column n 16 bs = Ok (cells, rest) ->
  (forall m v, column_cells m (C v) = Some v) ->
  mirrors n hs (v ← read_slots_16 n; mret (C v, hs)) bs cells rest.
Proof.
  intros Hn Hr HC. apply fixed_column_inv in Hr as (<- & Hall & ->); [|done].
  eexists. rewrite rd_bind_eq, slots_16_ok; [by rewrite HC|].
  eapply Forall_impl; [exact Hall|]; cbv beta; lia.
Qed.

Lemma mirrors_fixed_string width n hs bs cells rest :
  0 <= n -> 0 <= width -> Z.of_nat (length bs) < 2 ^ 64 -> read_fixed_column n width bs = Ok (cells, rest) ->
  mirrors n hs (let total := width * n in
    if 2 ^ 64 <=? total then rd_fail (BadResponse (str "native: FixedString block overflow"))
    else bytes ← read_exact_grown total; mret (Dc.FixedString width bytes, hs)) bs cells rest.
Proof.
  intros Hn Hw Hbs Hr. apply fixed_column_inv in Hr as (<- & Hall & ->); [|done].
  rewrite Z.max_r in Hall by done. pose proof (concat_fixed_length _ _ Hall) as Hl. rewrite length_app in Hbs.
  exists (Dc.FixedString width (concat cells)). cbv zeta. rewrite Z.mul_comm, <- Hl.
  rewrite (proj2 (Z.leb_gt _ _)) by lia. split; [by rewrite rd_bind_eq, (reads_exact_grown _ Halloc)|].
  cbn [column_cells]. f_equal. rewrite Nat2Z.id. apply chunks_exact_concat.
  eapply Forall_impl; [exact Hall|]; cbv beta; lia.
Qed.

Lemma mirrors_strings (C : list (list byte) -> DecodedColumn) n hs bs cells rest :
  read_string_column n bs = Ok (cells, rest) -> (forall m v, column_cells m (C v) = Some (map put_string v)) ->
  mirrors n hs (buf ← read_strings n; mret (C buf, hs)) bs cells rest.
Proof.
  intros Hr HC. apply strings_agree in Hr as (docs & Hd & <-). exists (C docs).
  by rewrite rd_bind_eq, Hd, HC.
Qed.

Lemma put_u8 b : put_le 1 (u8 b) = [b].
Proof.
  unfold u8. rewrite <- le_combine_1. apply (put_unsigned_combine 1 [b]). done.
Qed.

Lemma put_i8 b : put_le 1 (wrap_signed 8 (u8 b)) = [b].
Proof.
  unfold u8. rewrite <- le_combine_1. apply (put_signed_combine 1 [b]); [done|lia].
Qed.

(** Agreement for one type, at every depth the guard allows. *)
Definition agrees (t : ColumnType) : Prop :=
  forall left n hs bs cells rest, mirrored t = true -> 0 <= n -> (left <= S MAX_READ_DEPTH)%nat ->
    Z.of_nat (length bs) < 2 ^ 64 -> read_column_at left t n bs = Ok (cells, rest) ->
    mirrors n hs (decode_column t n (depth_of left) hs) bs cells rest.

Lemma depth_guard left : (left <= MAX_READ_DEPTH)%nat -> (MAX_DECODE_DEPTH <? depth_of (S left))%nat = false.
Proof. unfold depth_of, MAX_DECODE_DEPTH, MAX_READ_DEPTH. intros Hl. apply Nat.ltb_ge. lia. Qed.

Lemma depth_succ left : (left <= MAX_READ_DEPTH)%nat -> S (depth_of (S left)) = depth_of left.
Proof. unfold depth_of, MAX_READ_DEPTH. lia. Qed.

(** The zero-row shortcut of depth 0 is the same in both: past it, both go on to
    their arm for the type. *)
Lemma agrees_start t :
  (forall left n hs bs cells rest, mirrored t = true -> 0 <= n -> (left <= MAX_READ_DEPTH)%nat ->
    Z.of_nat (length bs) < 2 ^ 64 -> (MAX_DECODE_DEPTH <? depth_of (S left))%nat = false ->
    (depth_of (S left) =? 0)%nat && (n =? 0) = false ->
    read_column_at (S left) t n bs = Ok (cells, rest) ->
    mirrors n hs (decode_column t n (depth_of (S left)) hs) bs cells rest) ->
  agrees t.
Proof.
  intros Hstep left n hs bs cells rest Hm Hn Hl Hbs Hr. destruct left as [|left]; [discriminate|].
  assert (Hg : (MAX_DECODE_DEPTH <? depth_of (S left))%nat = false) by (apply depth_guard; lia).
  destruct ((depth_of (S left) =? 0)%nat && (n =? 0)) eqn:E0; [|apply Hstep; (done || lia)].
  cbn [read_column_at] in Hr. cbv zeta in Hr. rewrite E0 in Hr. apply rd_ret_ok in Hr as [<- <-].
  exists (empty_column t). pose proof E0 as [_ ->%Z.eqb_eq]%andb_true_iff. split; [|by apply empty_column_cells].
  destruct t; cbn [decode_column]; rewrite Hg, E0; done.
Qed.

Lemma scalar_agrees t : mirrored_scalar t = true -> agrees t.
Proof.
  intros Ht. apply agrees_start. intros left n hs bs cells rest Hm Hn Hl Hbs Hg E0 Hr.
  cbn [read_column_at] in Hr. cbv zeta in Hr. rewrite E0 in Hr.
  destruct t; try discriminate Ht; cbn [decode_column]; cbv zeta; rewrite Hg, E0;
    cbn [fixed_size ok_or] in Hr; try change ((size ← rd_lift (Ok ?k); ?f size) bs) with (f k bs) in Hr;
    first
    [ eapply mirrors_ints; [exact Hn|exact Hbs|exact Hr| |done]; intros b Hb;
      first [by apply put_unsigned_combine|apply put_signed_combine; [done|lia]]
    | apply (mirrors_bytes _ _ _ _ _ _ _ Hn Hr); [first [exact put_u8|exact put_i8]|done]
    | by apply (mirrors_u256 _ _ _ _ _ _ Hn Hbs Hr)
    | by apply (mirrors_16 _ _ _ _ _ _ Hn Hr)
    | by apply (mirrors_strings _ _ _ _ _ _ Hr)
    | apply mirrors_fixed_string; [done|by apply Z.leb_le|done|done] ].
Qed.

(** ** Composites *)

Lemma rest_shorter {A} (m : Read A) bs a rest :
  framed m -> m bs = Ok (a, rest) -> Z.of_nat (length bs) < 2 ^ 64 -> Z.of_nat (length rest) < 2 ^ 64.
Proof. intros Hf Hr Hbs. apply Hf in Hr as (u & -> & _). rewrite length_app in Hbs. lia. Qed.

Lemma nullable_agrees t : agrees t -> agrees (Ct.Nullable t).
Proof.
  intros IH. apply agrees_start. intros left n hs bs cells rest Hm Hn Hl Hbs Hg E0 Hr.
  cbn [read_column_at] in Hr. cbv zeta in Hr. rewrite E0 in Hr. cbn [decode_column]. unfold decode_nullable. cbv zeta. rewrite Hg, E0.
  unfold read_nullable_column in Hr. apply rd_bind_ok in Hr as (mask & m1 & H1 & Hr).
  apply rd_bind_ok in Hr as (cs & m2 & Hc & Hr). rewrite after_reserve in Hr. apply rd_ret_ok in Hr as [<- <-].
  pose proof (rest_shorter _ _ _ _ (framed_read_exact_grown n) H1 Hbs) as Hm1.
  rewrite depth_succ by done.
  destruct (IH left n hs m1 cs m2) as (c & Hd & Hcc); [done|done|lia|done|done|].
  exists (Dc.Nullable mask c). split; [by rewrite rd_bind_eq, H1, rd_bind_eq, Hd|].
  cbn [column_cells]. by rewrite Hcc.
Qed.

Lemma saf_agrees t : agrees t -> agrees (Ct.SimpleAggregateFunction t).
Proof.
  intros IH. apply agrees_start. intros left n hs bs cells rest Hm Hn Hl Hbs Hg E0 Hr.
  cbn [read_column_at] in Hr. cbv zeta in Hr. rewrite E0 in Hr. cbn [decode_column]. cbv zeta. rewrite Hg, E0.
  rewrite depth_succ by done. apply IH; [done|done|lia|done|done].
Qed.

Lemma array_agrees t : agrees t -> agrees (Ct.Array t).
Proof.
  intros IH. apply agrees_start. intros left n hs bs cells rest Hm Hn Hl Hbs Hg E0 Hr.
  cbn [read_column_at] in Hr. cbv zeta in Hr. rewrite E0 in Hr. cbn [decode_column]. unfold decode_array. cbv zeta. rewrite Hg, E0.
  unfold read_array_column in Hr. apply rd_bind_ok in Hr as (offs & m1 & H1 & Hr). cbv zeta in Hr.
  apply rd_bind_ok in Hr as (cs & m2 & Hc & Hr). rewrite after_reserve in Hr. apply rd_lift_ok in Hr as [Hs ->].
  pose proof (offsets_range _ _ _ _ H1) as Hrange. pose proof (span_rows_monotone _ _ _ _ _ Hs Hrange) as Hmono.
  pose proof (rest_shorter _ _ _ _ (framed_read_offsets n) H1 Hbs) as Hm1.
  pose proof (offsets_agree (str "Array") _ _ _ _ H1 Hmono) as Hoff. rewrite depth_succ by done.
  destruct (IH left (default 0 (last offs)) hs m1 cs rest) as (c & Hd & Hcc);
    [done|by apply (monotone_last 0)|lia|done|done|].
  exists (Dc.Array offs c). split; [by rewrite rd_bind_eq, Hoff, rd_bind_eq, Hd|].
  cbn [column_cells]. rewrite Hcc. simpl. by rewrite Hs.
Qed.

Lemma map_agrees k v : agrees k -> agrees v -> agrees (Ct.Map k v).
Proof.
  intros IHk IHv. apply agrees_start. intros left n hs bs cells rest Hm Hn Hl Hbs Hg E0 Hr.
  apply andb_true_iff in Hm as [Hmk Hmv].
  cbn [read_column_at] in Hr. cbv zeta in Hr. rewrite E0 in Hr. cbn [decode_column]. unfold decode_map. cbv zeta. rewrite Hg, E0.
  unfold read_map_column in Hr. apply rd_bind_ok in Hr as (offs & m1 & H1 & Hr). cbv zeta in Hr.
  apply rd_bind_ok in Hr as (ks & m2 & Hk & Hr). apply rd_bind_ok in Hr as (vs & m3 & Hv & Hr).
  rewrite after_reserve in Hr. apply rd_lift_ok in Hr as [Hs ->].
  pose proof (offsets_range _ _ _ _ H1) as Hrange. pose proof (span_rows_monotone _ _ _ _ _ Hs Hrange) as Hmono.
  pose proof (rest_shorter _ _ _ _ (framed_read_offsets n) H1 Hbs) as Hm1.
  pose proof (rest_shorter _ _ _ _ (framed_read_column_at _ _ _) Hk Hm1) as Hm2.
  pose proof (offsets_agree (str "Map") _ _ _ _ H1 Hmono) as Hoff. rewrite depth_succ by done.
  assert (Htot : 0 <= default 0 (last offs)) by (by apply (monotone_last 0)).
  destruct (IHk left (default 0 (last offs)) hs m1 ks m2) as (ck & Hdk & Hck); [done|done|lia|done|done|].
  destruct (IHv left (default 0 (last offs)) hs m2 vs rest) as (cv & Hdv & Hcv); [done|done|lia|done|done|].
  exists (Dc.Map offs ck cv). split; [by rewrite rd_bind_eq, Hoff, rd_bind_eq, Hdk, rd_bind_eq, Hdv|].
  cbn [column_cells]. rewrite Hck. simpl. rewrite Hcv. simpl. by rewrite Hs.
Qed.

Lemma fields_agree left n depth hs fields rows bs cells rest :
  Forall agrees fields -> Forall (fun t => mirrored t = true) fields -> 0 <= n ->
  (left <= S MAX_READ_DEPTH)%nat -> depth = depth_of left -> Z.of_nat (length bs) < 2 ^ 64 ->
  tuple_rows (read_column_at left) n rows fields bs = Ok (cells, rest) ->
  exists cs, rd_map_st (fun field headers => decode_column field n depth headers) fields hs bs =
      Ok ((cs, hs), rest) /\
    field_cells (Z.to_nat n) cs rows = Some cells.
Proof.
  intros Hall Hm Hn Hl ->. revert rows bs Hm; induction Hall as [|t fields Ht Hall IH]; intros rows bs Hm Hbs Hr;
    cbn [tuple_rows] in Hr.
  { apply rd_ret_ok in Hr as [<- <-]. by exists []. }
  apply Forall_cons in Hm as [Hmt Hm]. apply rd_bind_ok in Hr as (cs & m1 & H1 & Hr).
  pose proof (rest_shorter _ _ _ _ (framed_read_column_at _ _ _) H1 Hbs) as Hm1.
  destruct (Ht left n hs bs cs m1) as (c & Hd & Hc); [done..|].
  destruct (IH _ _ Hm Hm1 Hr) as (cols & Hds & Hcs). exists (c :: cols).
  split; [cbn [rd_map_st]; by rewrite rd_bind_eq, Hd, rd_bind_eq, Hds|].
  cbn [field_cells]. by rewrite Hc.
Qed.

Lemma tuple_agrees fields : Forall agrees fields -> agrees (Ct.Tuple fields).
Proof.
  intros IH. apply agrees_start. intros left n hs bs cells rest Hm Hn Hl Hbs Hg E0 Hr.
  cbn [read_column_at] in Hr. cbv zeta in Hr. rewrite E0 in Hr. cbn [decode_column]. unfold decode_tuple. cbv zeta. rewrite Hg, E0.
  unfold read_tuple_column in Hr. rewrite after_reserve in Hr.
  assert (Hmf : Forall (fun t => mirrored t = true) fields).
  { cbn [mirrored] in Hm. rewrite forallb_forall in Hm. apply Forall_forall. intros x Hx. apply Hm.
    by apply list_elem_of_In. }
  destruct (fields_agree left n (S (depth_of (S left))) hs fields
    (replicate (Z.to_nat n) []) bs cells rest IH Hmf Hn) as (cs & Hd & Hcs);
    [lia|by apply depth_succ|done|exact Hr|].
  exists (Dc.Tuple cs). change (rd_lift (with_cap ?a ?b)) with (reserve a b).
  split; [by rewrite after_reserve, rd_bind_eq, Hd|]. by rewrite column_cells_tuple.
Qed.

(** The LowCardinality frame around the dictionaries of the two decoders. *)
Lemma lc_frame_agrees left inner t is_nullable n depth hs bs cells rest :
  lc_dict_type inner = (t, is_nullable) -> mirrored_scalar t = true -> counted t = true ->
  0 <= n -> (left <= S MAX_READ_DEPTH)%nat -> depth = depth_of left -> Z.of_nat (length bs) < 2 ^ 64 ->
  read_low_cardinality_column (read_column_at left) n inner bs = Ok (cells, rest) ->
  mirrors n hs (decode_low_cardinality (fun k hs => decode_column t k depth hs) is_nullable n hs)
    bs cells rest.
Proof.
  intros Hin Ht Hct Hn Hl -> Hbs Hr. unfold read_low_cardinality_column in Hr.
  apply rd_bind_ok in Hr as (flags & m1 & H1 & Hr). cbv zeta in Hr. rewrite Hin in Hr.
  pose proof (rest_shorter _ _ _ _ (framed_read_le 8) H1 Hbs) as Hm1.
  destruct (negb (Z.land flags 0x100 =? 0)) eqn:Eg; [discriminate Hr|].
  destruct (negb (negb (Z.land flags 0x200 =? 0))) eqn:Ek; [discriminate Hr|].
  apply rd_bind_ok in Hr as (size & m2 & Hsz & Hr).
  pose proof (rest_shorter _ _ _ _ (framed_read_le 8) Hsz Hm1) as Hm2. pose proof (read_le_range 8 _ _ _ Hsz) as Hsize.
  apply rd_bind_ok in Hr as (dict & m3 & Hd & Hr).
  pose proof (rest_shorter _ _ _ _ (framed_read_column_at _ _ _) Hd Hm2) as Hm3.
  apply rd_bind_ok in Hr as (num & m4 & Hnum & Hr).
  pose proof (rest_shorter _ _ _ _ (framed_read_le 8) Hnum Hm3) as Hm4.
  destruct (negb (num =? n)) eqn:En; [discriminate Hr|]. rewrite after_reserve in Hr.
  apply index_loop_split in Hr as (idxs & Hidx & Hcells).
  destruct (scalar_agrees t Ht left size hs m2 dict m3) as (c & Hdc & Hcc);
    [by destruct t|apply Hsize|done|done|done|].
  pose proof (yields_decode_column t size (depth_of left) hs (proj1 Hsize) _ _ _ Hdc) as Hty.
  assert (Hrc : row_count c = size) by (eapply row_count_typed; [apply Hsize|exact Hct|exact Hty]).
  assert (Hcode : let code := Z.land flags 3 in code = 0 \/ code = 1 \/ code = 2 \/ code = 3).
  { cbv zeta. pose proof (Z.land_ones flags 2 ltac:(lia)) as E2. change (Z.ones 2) with 3 in E2.
    rewrite E2. pose proof (Z.mod_pos_bound flags (2 ^ 2) ltac:(lia)). lia. }
  destruct (indices_agree _ _ _ _ _ Hn Hm4 Hcode Hidx) as (ic & Hic & Hiv).
  exists (Dc.LowCardinality c ic is_nullable). split.
  - unfold decode_low_cardinality. rewrite rd_bind_eq, H1. cbv zeta. rewrite Eg, Ek.
    rewrite rd_bind_eq, Hsz, rd_bind_eq, Hdc. rewrite rd_bind_eq, Hnum, En.
    by rewrite rd_bind_eq, Hic.
  - cbn [column_cells]. rewrite Hrc, Hcc. simpl. by rewrite Hiv, Hcells.
Qed.

Lemma lc_agrees inner : agrees (Ct.LowCardinality inner).
Proof.
  apply agrees_start. intros left n hs bs cells rest Hm Hn Hl Hbs Hg E0 Hr.
  cbn [read_column_at] in Hr. cbv zeta in Hr. rewrite E0 in Hr.
  assert (Hd : forall u b, lc_dict_type inner = (u, b) -> mirrored_scalar u && counted u = true ->
    mirrors n hs (decode_low_cardinality (fun k hs => decode_column u k (S (depth_of (S left))) hs) b n hs)
      bs cells rest).
  { intros u b Hin [Hu Hcu]%andb_true_iff.
    by apply (lc_frame_agrees left inner); [done|done|done|done|lia|apply depth_succ|done|]. }
  cbn [decode_column]. cbv zeta. rewrite Hg, E0.
  destruct inner; by apply Hd.
Qed.

Lemma all_agrees t : agrees t.
Proof.
  induction t as [t Ht|t IH|t IH|t IH|t IH|ts IH|k v IHk IHv|ts IH] using Ct.column_ind.
  - destruct (mirrored_scalar t) eqn:E; [by apply scalar_agrees|].
    intros left n hs bs cells rest Hm. exfalso. destruct t; try done; simpl in *; congruence.
  - by apply nullable_agrees.
  - apply lc_agrees.
  - by apply saf_agrees.
  - by apply array_agrees.
  - by apply tuple_agrees.
  - by apply map_agrees.
  - intros left n hs bs cells rest Hm. discriminate.
Qed.

End agree.

(** ** Properties *)

(** C14: the two decoders agree: on any bytes, a column of a type both read that the cell
    reader accepts is accepted by the typed decoder too, which takes the same
    bytes, leaves the Dynamic headers alone, and returns a column that stands
    for exactly those cells. *)
Theorem decoders_agree `{Platform} `{FloatText} t n hs bs cells rest :
  alloc_total -> mirrored t = true -> 0 <= n -> Z.of_nat (length bs) < 2 ^ 64 ->
  read_column_data t n bs = Ok (cells, rest) ->
  exists c, decode_column t n 0 hs bs = Ok ((c, hs), rest) /\
    column_cells (Z.to_nat n) c = Some cells.
Proof. intros Ha Hm Hn Hbs Hr. exact (all_agrees Ha t (S MAX_READ_DEPTH) n hs bs cells rest Hm Hn (le_n _) Hbs Hr). Qed.

Lemma decoders_agree_witness :
  let t := Ct.Tuple [Ct.Nullable Ct.Int16; Ct.LowCardinality Ct.String] in
  let bs := [x00; x01; xfe; xff; x00; x00] ++ put_le 8 0x200 ++ put_le 8 1 ++ [x01; x61] ++
    put_le 8 2 ++ [x00; x00; xaa] in
  exists c, @decode_column roomy no_floats t 2 0 [] bs = Ok ((c, []), [xaa]) /\
    column_cells 2 c = Some [[x00; xfe; xff; x01; x61]; [x01; x01; x61]].
Proof.
  intros t bs. refine (@decoders_agree roomy no_floats t 2 [] bs _ [xaa] _ _ _ _ _);
    [done|reflexivity|lia|vm_compute; reflexivity|vm_compute; reflexivity].
Defined.
