(* ===== verification/Blocks.v ===== *)
(** * A block that is sent is the block that is read

    [encode_columns] against [decode_block]: the header of each column, its
    serialization flag, its prefixes and its data, put together from the column
    round trip ([RoundTrip]) and the agreement of the decoders ([Agree]). *)

From S2P Require Import Prelude Text Errors WireIo ColTypes Json Columns Decode Encode RoundTrip Agree.

(** The type a column is declared as on the wire: JSON goes as String. *)
Definition wire_type_of (t : ColumnType) : ColumnType :=
  match t with
  | Ct.NewJson | Ct.Json => Ct.String
  | _ => t
  end.

(** A column the block can carry: its declared name parses to its type, which is
    insertable and typed, within the nesting limit; the strings fit. *)
Record sendable (col : ColumnSchema) : Prop := {
  name_text : utf8_valid (name col) = true /\ Z.of_nat (length (name col)) <= MAX_STRING_SIZE;
  type_text : utf8_valid (wire_type_name col) = true /\
    Z.of_nat (length (wire_type_name col)) <= MAX_STRING_SIZE;
  type_parses : parse (wire_type_name col) = Some (wire_type_of (col_type col));
  type_insertable : insertable (wire_type_of (col_type col)) = true;
  type_mirrored : mirrored (wire_type_of (col_type col)) = true;
  type_depth : (nesting (wire_type_of (col_type col)) <= MAX_READ_DEPTH)%nat
}.

Section blocks.
Context `{Platform} `{FloatText}.
Hypothesis Halloc : alloc_total.

(** ** The prefix phase *)

Lemma depth_ok depth t : (depth + nesting t <= MAX_DECODE_DEPTH)%nat -> (MAX_DECODE_DEPTH <? depth)%nat = false.
Proof. intros Hd. apply Nat.ltb_ge. lia. Qed.

Lemma plain_no_prefixes t depth :
  plain_type t = true -> (depth <= MAX_DECODE_DEPTH)%nat -> write_col_prefixes t = [] /\ decode_prefixes t depth = mret [].
Proof.
  intros Ht Hd. assert (Hg : (MAX_DECODE_DEPTH <? depth)%nat = false) by (apply Nat.ltb_ge; lia).
  destruct t; try discriminate Ht; cbn [decode_prefixes]; by rewrite Hg.
Qed.

Lemma prefixes_of_list depth ts :
  Forall (fun t => reads (decode_prefixes t depth) (write_col_prefixes t) []) ts ->
  reads (hs ← rd_map (fun t => decode_prefixes t depth) ts; mret (concat hs))
    (concat (map write_col_prefixes ts)) [].
Proof.
  intros Hall. apply (reads_bind_last _ _ _ (map (fun _ => []) ts)).
  - apply (reads_map (fun t => decode_prefixes t depth)). intros t Ht. by eapply Forall_forall in Hall.
  - replace (concat (map (fun _ => []) ts)) with ([] : list DynamicHeader); [apply reads_ret|].
    clear. by induction ts.
Qed.

Lemma reads_prefixes t depth :
  insertable t = true -> (depth + nesting t <= MAX_DECODE_DEPTH)%nat ->
  reads (decode_prefixes t depth) (write_col_prefixes t) [].
Proof.
  revert depth; induction t as [t Ht|t IH|t IH|t IH|t IH|ts IH|k v IHk IHv|ts IH] using Ct.column_ind;
    intros depth Hi Hd; pose proof (depth_ok _ _ Hd) as Hg; cbn [nesting] in Hd.
  - destruct (plain_no_prefixes t depth) as [-> ->]; [by destruct t|lia|apply reads_ret].
  - cbn [decode_prefixes write_col_prefixes insertable] in *. rewrite Hg.
    destruct (plain_no_prefixes t (S depth)) as [-> ->]; [done|lia|apply reads_ret].
  - cbn [decode_prefixes write_col_prefixes]. rewrite Hg.
    eapply reads_bind_last; [apply (reads_u64 1); lia|apply reads_ret].
  - discriminate.
  - cbn [decode_prefixes write_col_prefixes]. rewrite Hg. apply IH; [exact Hi|lia].
  - cbn [decode_prefixes write_col_prefixes]. rewrite Hg. apply prefixes_of_list.
    assert (Hn : Forall (fun t => (nesting t < S (foldr max 0 (map nesting ts)))%nat) ts) by (apply nesting_fields; lia).
    cbn [insertable] in Hi. destruct ts as [|t ts]; [done|]. rewrite forallb_forall in Hi.
    rewrite Forall_forall in IH, Hn |- *. intros u Hu. apply IH; [done|apply Hi; by apply list_elem_of_In|].
    apply Hn in Hu. lia.
  - cbn [decode_prefixes write_col_prefixes]. rewrite Hg. apply andb_true_iff in Hi as [Hk Hv].
    eapply reads_bind; [apply IHk; [done|lia]|]. eapply reads_bind_last; [apply IHv; [done|lia]|apply reads_ret].
  - discriminate.
Qed.

(** ** One column *)

Lemma wire_cells t cells : write_col_values t cells = write_col_values (wire_type_of t) cells.
Proof. by destruct t. Qed.

Lemma wire_prefixes t : write_col_prefixes t = write_col_prefixes (wire_type_of t).
Proof. by destruct t. Qed.

Lemma wire_advances t b : advances (wire_type_of t) b -> advances t b.
Proof. by destruct t. Qed.

(** What a column's null slots hold: where the column is Nullable, the default of the type under it. *)
Definition blank_nulls (n : nat) (t : ColumnType) (c : DecodedColumn) : Prop :=
  match t, c with
  | Ct.Nullable inner, Dc.Nullable mask child =>
      exists values, column_cells n child = Some values /\ Forall2 (null_slot inner) mask values
  | _, _ => True
  end.

Lemma null_slots_blank t cells out c rest :
  insertable t = true -> mirrored t = true -> (nesting t <= MAX_READ_DEPTH)%nat -> Forall (enc_cell t) cells -> cells <> [] ->
  write_col_values t cells = Ok out -> Z.of_nat (length out) < 2 ^ 64 ->
  decode_column t (Z.of_nat (length cells)) 0 [] out = Ok ((c, []), rest) -> blank_nulls (length cells) t c.
Proof.
  intros Hi Hm Hd Hall Hne Hw Hout Hc.
  assert (Hn : (exists inner, t = Ct.Nullable inner) \/ blank_nulls (length cells) t c) by (destruct t; eauto; by right).
  destruct Hn as [[inner ->]|]; [|done].
  cbn [insertable mirrored nesting] in Hi, Hm, Hd.
  destruct (nullable_written inner cells Hi Hall) as (flags & values & Hw' & Hlf & Hlv & Hpl & _ & Hs).
  rewrite Hw in Hw'. injection Hw' as ->. rewrite length_app in Hout.
  pose proof (reads_plain Halloc MAX_READ_DEPTH inner values) as Hr. unfold past_top in Hr. specialize (Hr ltac:(unfold MAX_READ_DEPTH; lia) ltac:(lia) Hi Hpl []).
  rewrite app_nil_r in Hr.
  destruct (all_agrees Halloc inner MAX_READ_DEPTH (Z.of_nat (length values)) [] (concat values) values [] Hm ltac:(lia) ltac:(lia) ltac:(lia) Hr) as (c' & Hdc & Hcc).
  change (depth_of MAX_READ_DEPTH) with 1%nat in Hdc. rewrite Nat2Z.id, Hlv in Hcc. rewrite Hlv in Hdc.
  cbn [decode_column] in Hc. cbv zeta in Hc. unfold decode_nullable in Hc. cbn [Nat.eqb andb Nat.ltb Nat.leb MAX_DECODE_DEPTH] in Hc.
  rewrite (proj2 (Z.eqb_neq (Z.of_nat (length cells)) 0)) in Hc by (destruct cells; [done|simpl; lia]).
  rewrite rd_bind_eq, <- Hlf, (reads_exact_grown _ Halloc), Hlf, rd_bind_eq, Hdc in Hc. injection Hc as <- <-. by exists values.
Qed.

(** The data of a column as the block decoder reads it. *)
Lemma values_read_back t cells :
  insertable t = true -> mirrored t = true -> (nesting t <= MAX_READ_DEPTH)%nat ->
  Forall (enc_cell t) cells -> cells <> [] -> Z.of_nat (length (concat cells)) <= MAX_COLUMN_BYTES ->
  exists out, write_col_values t cells = Ok out /\
    (Z.of_nat (length out) < 2 ^ 64 ->
     exists c, reads (decode_values t false (Z.of_nat (length cells))) (write_col_prefixes t ++ out) c /\
       column_cells (length cells) c = Some cells /\ blank_nulls (length cells) t c).
Proof.
  intros Hi Hm Hd Hall Hne Hb. pose proof (enc_count _ _ Hall) as Hc.
  assert (Hpos : (0 < length cells)%nat) by (destruct cells; [done|simpl; lia]).
  destruct (all_reads_back Halloc t (S MAX_READ_DEPTH) cells) as (out & Hw & Hr);
    [done|done|done|lia|lia|lia|by right|].
  exists out. split; [exact Hw|]. intros Hout.
  pose proof (Hr []) as Hr0. rewrite app_nil_r in Hr0.
  destruct (all_agrees Halloc t (S MAX_READ_DEPTH) (Z.of_nat (length cells)) [] out cells [] Hm
    (Zle_0_nat _) (le_n _) Hout Hr0) as (c & Hdc & Hcc).
  change (depth_of (S MAX_READ_DEPTH)) with 0%nat in Hdc. rewrite Nat2Z.id in Hcc.
  exists c. split; [|split; [exact Hcc|by eapply null_slots_blank]]. unfold decode_values. rewrite (proj2 (Z.ltb_lt _ _)) by lia. cbn [andb].
  eapply reads_bind; [apply reads_prefixes; [done|unfold MAX_DECODE_DEPTH, MAX_READ_DEPTH in *; lia]|].
  assert (Hrd : reads (decode_column t (Z.of_nat (length cells)) 0 []) out (c, [])).
  { destruct (framed_reads _ _ _ _ (framed_decode_column _ _ _ _) Hdc) as (u & -> & Hu).
    rewrite app_nil_r. exact Hu. }
  eapply reads_bind_last; [exact Hrd|]. apply reads_ret.
Qed.

Lemma reads_normal_kind nm : reads (read_serialization_kind nm) [x00] false.
Proof. intros tail. reflexivity. Qed.

Lemma column_read_back col custom cells :
  sendable col -> Forall (enc_cell (wire_type_of (col_type col))) cells -> cells <> [] ->
  Z.of_nat (length (concat cells)) <= MAX_COLUMN_BYTES ->
  exists out, write_column custom col cells = Ok out /\
    (Z.of_nat (length out) < 2 ^ 64 ->
     exists c, reads (decode_block_column (Z.of_nat (length cells)) custom) out
         ((name col, wire_type_name col), c) /\
       column_cells (length cells) c = Some cells /\ blank_nulls (length cells) (wire_type_of (col_type col)) c).
Proof.
  intros [[Hn1 Hn2] [Ht1 Ht2] Hparse Hi Hm Hd] Hall Hne Hb.
  destruct (values_read_back _ _ Hi Hm Hd Hall Hne Hb) as (body & Hw & Hr).
  eexists. split; [unfold write_column; rewrite wire_cells, Hw; reflexivity|]. intros Hout.
  destruct Hr as (c & Hc & Hcc & Hbl).
  { rewrite !app_assoc, length_app in Hout. lia. }
  exists c. split; [|done]. unfold decode_block_column.
  eapply reads_bind; [by apply reads_utf8_string|]. eapply reads_bind; [by apply reads_utf8_string|].
  apply (reads_bind _ _ _ _ false).
  { destruct custom; [apply reads_normal_kind|apply reads_ret]. }
  rewrite Hparse, wire_prefixes. eapply reads_bind_last; [exact Hc|apply reads_ret].
Qed.

(** ** All the columns *)

(** The cells of column [i], inside the rows. *)
Lemma column_of_rows t ts i rows :
  Forall (fun row => enc_all2 enc_cell (t :: ts) (drop i row)) rows ->
  Forall (enc_cell t) (nth_cells i rows) /\
  (length (concat (nth_cells i rows)) <= length (concat (concat rows)))%nat /\
  Forall (fun row => enc_all2 enc_cell ts (drop (S i) row)) rows.
Proof.
  intros Hrows. split; [|split].
  - apply Forall_fmap. eapply Forall_impl; [exact Hrows|]. intros row Hr. by apply field_of_row in Hr as (_ & ? & _).
  - apply nth_cells_le. eapply Forall_impl; [exact Hrows|]. intros row Hr. by apply field_of_row in Hr as (? & _).
  - eapply Forall_impl; [exact Hrows|]. intros row Hr. by apply field_of_row in Hr as (_ & _ & ?).
Qed.

(** What the decoder must return for the columns from number [i] on. *)
Definition carries (rows : list (list (list byte))) : nat -> list ColumnSchema ->
    list ((text * text) * DecodedColumn) -> Prop :=
  fix go i cols entries :=
    match cols, entries with
    | [], [] => True
    | col :: cols', (hdr, c) :: entries' =>
        hdr = (name col, wire_type_name col) /\
        column_cells (length rows) c = Some (nth_cells i rows) /\
        blank_nulls (length rows) (wire_type_of (col_type col)) c /\ go (S i) cols' entries'
    | _, _ => False
    end.

Lemma columns_read_back cols custom rows i :
  Forall sendable cols -> rows <> [] ->
  Forall (fun row => enc_all2 enc_cell (map (fun c => wire_type_of (col_type c)) cols) (drop i row)) rows ->
  Z.of_nat (length (concat (concat rows))) <= MAX_COLUMN_BYTES ->
  exists out, write_fields (write_column custom) rows i cols = Ok out /\
    (Z.of_nat (length out) < 2 ^ 64 ->
     exists entries, reads (rd_repeat (length cols) (decode_block_column (Z.of_nat (length rows)) custom))
         out entries /\ carries rows i cols entries).
Proof.
  intros Hs Hne. revert i; induction Hs as [|col cols Hcol Hs IH]; intros i Hrows Hb.
  { exists []. split; [done|]. intros _. exists []. split; [apply reads_ret|done]. }
  cbn [map] in Hrows. apply column_of_rows in Hrows as (Hcells & Hle & Hrest).
  assert (Hnl : length (nth_cells i rows) = length rows) by apply length_map.
  destruct (column_read_back col custom (nth_cells i rows)) as (b & Hw & Hr);
    [done|exact Hcells|by destruct rows|lia|].
  destruct (IH (S i) Hrest Hb) as (bs & Hws & Hrs).
  exists (b ++ bs). split; [cbn [write_fields]; by rewrite Hw, bind_Ok, Hws|].
  rewrite length_app. intros Hout. destruct Hr as (c & Hc & Hcc & Hbl); [lia|]. destruct Hrs as (es & Hes & Hcar); [lia|].
  rewrite Hnl in Hc, Hcc, Hbl. exists ((name col, wire_type_name col, c) :: es). split; [|done].
  cbn [length rd_repeat]. eapply reads_bind; [exact Hc|]. eapply reads_bind_last; [exact Hes|apply reads_ret].
Qed.

(** Rows built of the cells cut back into them. *)
Lemma rows_cut cols rows :
  Forall (enc_all2 enc_cell (map (fun c => wire_type_of (col_type c)) cols)) rows ->
  Z.of_nat (length (concat (concat rows))) < 2 ^ 64 ->
  map_res (cut_row cols) (map (@concat byte) rows) = Ok rows.
Proof.
  induction 1 as [|row rows Hr Hall IH]; intros Hlen; [done|]. cbn [map map_res concat] in *.
  rewrite concat_app, length_app in Hlen. rewrite IH by lia.
  assert (Ha : enc_all2 advances (map col_type cols) row).
  { clear IH Hall. revert row Hr Hlen. induction cols as [|c cols IHc]; intros [|b row] Hr Hlen; try done.
    destruct Hr as [Hc Hr]. cbn [concat] in Hlen. rewrite length_app in Hlen. split.
    - apply wire_advances, enc_advances; [exact Hc|lia].
    - apply IHc; [exact Hr|lia]. }
  unfold cut_row. pose proof (cut_fields_ok _ _ [] [] Ha) as Hf. rewrite app_nil_r in Hf. cbn [app length] in Hf.
  rewrite Hf. cbn [mbind result_bind]. by rewrite Nat.eqb_refl.
Qed.

Lemma block_read_back cols rows revision tail :
  Forall sendable cols -> cols <> [] -> rows <> [] ->
  Forall (enc_all2 enc_cell (map (fun c => wire_type_of (col_type c)) cols)) rows ->
  Z.of_nat (length (concat (concat rows))) <= MAX_COLUMN_BYTES ->
  Z.of_nat (length cols) <= MAX_BLOCK_COLUMNS -> Z.of_nat (length rows) <= MAX_BLOCK_ROWS ->
  exists out, encode_columns (map (@concat byte) rows) cols revision = Ok out /\
    (Z.of_nat (length out) < 2 ^ 64 ->
     exists b, decode_block (Z.of_nat (length cols)) (Z.of_nat (length rows)) revision (out ++ tail) =
         Ok (b, tail) /\
       num_rows b = Z.of_nat (length rows) /\ carries rows 0 cols (zip (schema b) (columns b))).
Proof.
  intros Hs Hc Hne Hrows Hb Hmc Hmr.
  set (custom := DBMS_MIN_PROTOCOL_VERSION_WITH_CUSTOM_SERIALIZATION <=? revision).
  destruct (columns_read_back cols custom rows 0) as (out & Hw & Hr); [done..|].
  exists out. split.
  { unfold encode_columns. cbv zeta. fold custom. rewrite rows_cut by (done || unfold MAX_COLUMN_BYTES in *; lia).
    destruct cols; [done|]. destruct rows; [done|]. exact Hw. }
  intros Hout. destruct (Hr Hout) as (es & Hes & Hcar).
  eexists. split; [|split]; cycle 2.
  - cbn [schema columns]. instantiate (1 := {| columns := map snd es; schema := map fst es;
      num_rows := Z.of_nat (length rows) |}). simpl.
    replace (zip (map fst es) (map snd es)) with es; [exact Hcar|]. clear. induction es as [|[a c] es IH]; [done|].
    cbn [map zip_with fst snd]. by rewrite <- IH.
  - unfold decode_block. cbv zeta. fold custom.
    rewrite (proj2 (Z.ltb_ge _ _)), (proj2 (Z.ltb_ge _ _)) by lia.
    rewrite !(after_reserve Halloc), Nat2Z.id, rd_bind_eq, Hes. done.
  - done.
Qed.

End blocks.

(** ** Properties *)

(** C2: a block that is sent is the block that is read. Take rows of RowBinary cells of
    the declared columns: [encode_columns] encodes the rows, and
    [decode_block], told the same counts and revision, takes exactly those
    bytes and returns the declared schema and, for every column, a typed
    column that stands for the cells of that column, its null slots holding the default of the type. *)
Theorem block_roundtrip `{Platform} `{FloatText} cols rows revision tail :
  alloc_total -> Forall sendable cols -> cols <> [] -> rows <> [] ->
  Forall (enc_all2 enc_cell (map (fun c => wire_type_of (col_type c)) cols)) rows ->
  Z.of_nat (length (concat (concat rows))) <= MAX_COLUMN_BYTES ->
  Z.of_nat (length cols) <= MAX_BLOCK_COLUMNS -> Z.of_nat (length rows) <= MAX_BLOCK_ROWS ->
  exists out, encode_columns (map (@concat byte) rows) cols revision = Ok out /\
    (Z.of_nat (length out) < 2 ^ 64 ->
     exists b, decode_block (Z.of_nat (length cols)) (Z.of_nat (length rows)) revision (out ++ tail) =
         Ok (b, tail) /\
       num_rows b = Z.of_nat (length rows) /\ carries rows 0 cols (zip (schema b) (columns b))).
Proof.
  intros Ha. by apply block_read_back.
Qed.

(** Three columns of two rows. *)
Definition example_cols : list ColumnSchema :=
  [{| name := str "id"; type_name := str "Nullable(UInt16)"; col_type := Ct.Nullable Ct.UInt16 |};
   {| name := str "doc"; type_name := str "JSON"; col_type := Ct.NewJson |};
   {| name := str "tags"; type_name := str "Array(LowCardinality(String))";
      col_type := Ct.Array (Ct.LowCardinality Ct.String) |}].
Definition example_rows : list (list (list byte)) :=
  [[[x00; x07; x00]; [x02; x7b; x7d]; [x02; x01; x61; x01; x62]]; [[x01]; [x02; x5b; x5d]; [x00]]].

Lemma example_sendable : Forall sendable example_cols.
Proof.
  each; split; try (split; [vm_compute; reflexivity|vm_compute; discriminate]); try (vm_compute; reflexivity);
    vm_compute; lia.
Qed.

Lemma example_cells :
  Forall (enc_all2 enc_cell (map (fun c => wire_type_of (col_type c)) example_cols)) example_rows.
Proof.
  assert (Hstr : forall s, Z.of_nat (length s) <= 4 -> plain_cell Ct.String (put_string s)).
  { intros s Hs. exists s. split; [done|]. unfold MAX_STRING_SIZE. lia. }
  assert (Hu : forall b : list byte, length b = 2%nat -> plain_cell Ct.UInt16 b).
  { intros b Hb. split; [lia|]. rewrite Hb. done. }
  each; (split; [|split; [|split; [|done]]]).
  - right. exists [x07; x00]. by split; [|apply Hu].
  - apply (Hstr [x7b; x7d]). simpl. lia.
  - exists [[x01; x61]; [x01; x62]]. split; [reflexivity|].
    each; [apply (Hstr [x61])|apply (Hstr [x62])]; simpl; lia.
  - left. split; [done|by apply Hu].
  - apply (Hstr [x5b; x5d]). simpl. lia.
  - exists []. split; [reflexivity|constructor].
Qed.

Lemma block_roundtrip_witness :
  exists out, encode_columns (map (@concat byte) example_rows) example_cols 54473 = Ok out /\
    (Z.of_nat (length out) < 2 ^ 64 ->
     exists b, @decode_block roomy no_floats 3 2 54473 (out ++ [xff]) = Ok (b, [xff]) /\
       num_rows b = 2 /\ carries example_rows 0 example_cols (zip (schema b) (columns b))).
Proof.
  refine (@block_roundtrip roomy no_floats example_cols example_rows 54473 [xff] _ _ _ _ _ _ _ _);
    [done|exact example_sendable|done|done|exact example_cells|vm_compute; discriminate..].
Defined.

(** JSON below the top level does not survive: a column of [Array(JSON)] is
    declared as such and its documents are written as bare strings, without
    the serialization version that the declared type announces, so the block
    the encoder accepts is one the decoder refuses. *)
Theorem nested_json_unreadable :
  let cols := [{| name := str "docs"; type_name := str "Array(JSON)"; col_type := Ct.Array Ct.NewJson |}] in
  let row := [x01; x02; x7b; x7d] in
  exists out, encode_columns [row] cols 54473 = Ok out /\
    is_ok (@decode_block roomy no_floats 1 1 54473 out) = false.
Proof. eexists. split; [vm_compute; reflexivity|vm_compute; reflexivity]. Qed.

