(* ===== verification/Render.v ===== *)
(** * Rendering cells as JSON

    The renderer of [Json] over the cell grammar of [Columns]: it never reads
    past a cell, it renders every cell of the grammar rather than falling back
    to [null], and its quoting loses nothing. *)

From S2P Require Import Prelude Text Errors WireIo ColTypes Json Columns.

(** ** The reference reader of a quoted string *)

Definition unhex (b : byte) : option Z :=
  let z := u8 b in
  if (48 <=? z) && (z <=? 57) then Some (z - 48)
  else if (97 <=? z) && (z <=? 102) then Some (z - 87) else None.

Definition unhex4 (a b c d : byte) : option byte :=
  x ← unhex a; y ← unhex b; z ← unhex c; w ← unhex d;
  let v := ((x * 16 + y) * 16 + z) * 16 + w in
  if v <? 256 then Some (byte.of_Z v) else None.

(** The short escapes the renderer uses. *)
Definition short_escape (e : byte) : option byte :=
  if u8 e =? 34 then Some quote
  else if u8 e =? 92 then Some e
  else if u8 e =? 110 then Some x0a
  else if u8 e =? 114 then Some x0d
  else if u8 e =? 116 then Some x09
  else None.

(** A JSON string body up to its closing quote, escapes undone; a raw control
    character is refused. *)
Fixpoint unescape (s : text) : option (list byte * text) :=
  match s with
  | [] => None
  | b :: s1 =>
      if u8 b =? 34 then Some ([], s1)
      else if u8 b =? 92 then
        match s1 with
        | [] => None
        | e :: s2 =>
            if u8 e =? 117 then
              match s2 with
              | h1 :: h2 :: h3 :: h4 :: s3 =>
                  ch ← unhex4 h1 h2 h3 h4; '(body, rest) ← unescape s3; Some (ch :: body, rest)
              | _ => None
              end
            else ch ← short_escape e; '(body, rest) ← unescape s2; Some (ch :: body, rest)
        end
      else if u8 b <? 32 then None
      else '(body, rest) ← unescape s1; Some (b :: body, rest)
  end.

Definition json_unquote (s : text) : option (list byte * text) :=
  match s with
  | b :: rest => if u8 b =? 34 then unescape rest else None
  | [] => None
  end.

Lemma unescape_escape b rest :
  unescape (json_escape b ++ rest) = ('(body, rest) ← unescape rest; Some (b :: body, rest)).
Proof. destruct b; reflexivity. Qed.

(** ** Staying inside the cell *)

Section render.
Context `{FloatText}.

(** A renderer that consumes no more than it was given. *)
Definition inside (f : list byte -> Cell) : Prop :=
  forall bytes json k, f bytes = Ok (json, k) -> (k <= length bytes)%nat.

Lemma head_inv n bytes b : head n bytes = Ok b -> (n <= length bytes)%nat.
Proof. unfold head. destruct (Nat.leb_spec n (length bytes)); [done|discriminate]. Qed.

Lemma inside_fixed_u n : inside (fixed_u n).
Proof.
  intros bytes json k Hr. apply bind_Ok_inv in Hr as (b & Hh & Hr). injection Hr as <- <-.
  by apply head_inv in Hh.
Qed.

Lemma inside_fixed_i n : inside (fixed_i n).
Proof.
  intros bytes json k Hr. apply bind_Ok_inv in Hr as (b & Hh & Hr). injection Hr as <- <-.
  by apply head_inv in Hh.
Qed.

Lemma inside_head n (g : list byte -> text) : inside (fun bytes => b ← head n bytes; Ok (g b, n)).
Proof.
  intros bytes json k Hr. apply bind_Ok_inv in Hr as (b & Hh & Hr). injection Hr as <- <-.
  by apply head_inv in Hh.
Qed.

Lemma inside_halves (g : list byte -> list byte -> text) :
  inside (fun bytes => x ← head 8 bytes; y ← head 8 (drop 8 bytes); Ok (g x y, 16%nat)).
Proof.
  intros bytes json k Hr. apply bind_Ok_inv in Hr as (x & Hx & Hr). apply bind_Ok_inv in Hr as (y & Hy & Hr).
  injection Hr as <- <-. apply head_inv in Hy. rewrite length_drop in Hy. lia.
Qed.

Lemma slice_var_uint_inv bytes v hdr : slice_var_uint bytes = Ok (v, hdr) -> (hdr <= length bytes)%nat.
Proof.
  unfold slice_var_uint. rewrite get_var_uint_stream.
  destruct (read_var_uint bytes) as [[w rest]|e]; [|discriminate]. simpl. intros [= <- <-]. lia.
Qed.

Lemma inside_prefixed : inside prefixed.
Proof.
  intros bytes json k Hr. apply bind_Ok_inv in Hr as ([len hdr] & Hv & Hr).
  destruct (Z.leb_spec (Z.of_nat hdr + len) (Z.of_nat (length bytes))); [|discriminate].
  injection Hr as <- <-. apply slice_var_uint_inv in Hv. lia.
Qed.

Lemma inside_elems elem bytes k i pos json json' fin :
  inside elem -> (pos <= length bytes)%nat ->
  json_elems elem bytes k i pos json = Ok (json', fin) -> (fin <= length bytes)%nat.
Proof.
  intros He. revert i pos json; induction k as [|k IH]; intros i pos json Hp Hr; cbn [json_elems] in Hr.
  { by injection Hr as <- <-. }
  apply bind_Ok_inv in Hr as ([e c] & H1 & Hr). apply He in H1. rewrite length_drop in H1.
  apply IH in Hr; [done|lia].
Qed.

Lemma inside_pairs key value bytes k i pos json json' fin :
  inside key -> inside value -> (pos <= length bytes)%nat ->
  json_pairs key value bytes k i pos json = Ok (json', fin) -> (fin <= length bytes)%nat.
Proof.
  intros Hk Hv. revert i pos json; induction k as [|k IH]; intros i pos json Hp Hr; cbn [json_pairs] in Hr.
  { by injection Hr as <- <-. }
  apply bind_Ok_inv in Hr as ([kj kc] & H1 & Hr). apply bind_Ok_inv in Hr as ([vj vc] & H2 & Hr).
  apply Hk in H1. apply Hv in H2. rewrite length_drop in H1, H2. apply IH in Hr; [done|lia].
Qed.

Lemma inside_fields {T} (field : T -> list byte -> Cell) bytes fields i pos json json' fin :
  Forall (fun f => inside (field f)) fields -> (pos <= length bytes)%nat ->
  json_fields field bytes fields i pos json = Ok (json', fin) -> (fin <= length bytes)%nat.
Proof.
  intros Hall. revert i pos json; induction Hall as [|f fields Hf Hall IH]; intros i pos json Hp Hr; cbn [json_fields] in Hr.
  { by injection Hr as <- <-. }
  apply bind_Ok_inv in Hr as ([e c] & H1 & Hr). apply Hf in H1. rewrite length_drop in H1.
  apply IH in Hr; [done|lia].
Qed.

Lemma inside_render t : inside (rowbinary_to_json_inner t).
Proof.
  induction t as [t Ht|t IH|t IH|t IH|t IH|ts IH|k v IHk IHv|ts IH] using Ct.column_ind.
  - destruct t; try done; cbn [rowbinary_to_json_inner];
      first [apply inside_fixed_u|apply inside_fixed_i|apply inside_prefixed|apply inside_halves
            |apply (inside_head _ (fun b => _))|idtac].
    + intros bytes json k Hr. apply bind_Ok_inv in Hr as ([body fin] & Hp & Hr). injection Hr as <- <-.
      by apply inside_prefixed in Hp.
    + intros bytes json k Hr. destruct (Z.leb_spec n (Z.of_nat (length bytes))); [|discriminate].
      injection Hr as <- <-. lia.
    + intros bytes json k Hr. apply bind_Ok_inv in Hr as ([body fin] & Hp & Hr). injection Hr as <- <-.
      by apply inside_prefixed in Hp.
  - intros [|flag bytes] json k Hr; cbn [rowbinary_to_json_inner] in Hr; [discriminate|].
    destruct (negb _); [injection Hr as <- <-; simpl; lia|].
    apply bind_Ok_inv in Hr as ([j c] & H1 & Hr). injection Hr as <- <-. apply IH in H1. simpl. lia.
  - exact IH.
  - exact IH.
  - intros bytes json k Hr. cbn [rowbinary_to_json_inner] in Hr. apply bind_Ok_inv in Hr as ([count hdr] & H1 & Hr).
    apply bind_Ok_inv in Hr as ([j p] & H2 & Hr). injection Hr as <- <-. apply slice_var_uint_inv in H1.
    by apply inside_elems in H2.
  - intros bytes json k Hr. cbn [rowbinary_to_json_inner] in Hr. apply bind_Ok_inv in Hr as ([j p] & H2 & Hr).
    injection Hr as <- <-. apply inside_fields in H2; [done|done|lia].
  - intros bytes json p' Hr. cbn [rowbinary_to_json_inner] in Hr. apply bind_Ok_inv in Hr as ([count hdr] & H1 & Hr).
    apply bind_Ok_inv in Hr as ([j p] & H2 & Hr). injection Hr as <- <-. apply slice_var_uint_inv in H1.
    by apply inside_pairs in H2.
  - apply inside_prefixed.
Qed.

(** ** Rendering every cell *)

(** A renderer that renders [b], whatever follows it, and consumes just it. *)
Definition renders (f : list byte -> Cell) (b : list byte) : Prop :=
  forall tail, exists json, f (b ++ tail) = Ok (json, length b).

Lemma head_app n (b tail : list byte) : (n <= length b)%nat -> head n (b ++ tail) = Ok (take n b).
Proof.
  intros Hn. unfold head. rewrite length_app, (proj2 (Nat.leb_le _ _)) by lia.
  by rewrite take_app_le.
Qed.

Lemma renders_fixed_u n b : length b = n -> renders (fixed_u n) b.
Proof. intros <- tail. unfold fixed_u. rewrite head_app by lia. eauto. Qed.

Lemma renders_fixed_i n b : length b = n -> renders (fixed_i n) b.
Proof. intros <- tail. unfold fixed_i. rewrite head_app by lia. eauto. Qed.

Lemma renders_head n (g : list byte -> text) b :
  length b = n -> renders (fun bytes => x ← head n bytes; Ok (g x, n)) b.
Proof. intros <- tail. rewrite head_app by lia. eauto. Qed.

Lemma renders_halves (g : list byte -> list byte -> text) b :
  length b = 16%nat -> renders (fun bytes => x ← head 8 bytes; y ← head 8 (drop 8 bytes); Ok (g x y, 16%nat)) b.
Proof.
  intros Hb tail. rewrite head_app by lia. cbn [mbind result_bind].
  rewrite drop_app_le by lia. rewrite head_app by (rewrite length_drop; lia). rewrite Hb. eauto.
Qed.

Lemma slice_var_uint_app v tail :
  0 <= v < 2 ^ 64 -> slice_var_uint (put_var_uint v ++ tail) = Ok (v, length (put_var_uint v)).
Proof.
  intros Hv. unfold slice_var_uint. rewrite get_var_uint_stream, (reads_var_uint v Hv), length_app.
  unfold put_var_uint. cbn [map_err]. do 2 f_equal. lia.
Qed.

Lemma prefixed_string s tail :
  Z.of_nat (length s) < 2 ^ 64 -> prefixed (put_string s ++ tail) = Ok (s, length (put_string s)).
Proof.
  intros Hs. unfold prefixed, put_string. rewrite <- app_assoc, slice_var_uint_app by lia. cbn [mbind result_bind].
  rewrite (length_app (put_var_uint _) (s ++ tail)), (length_app s). rewrite (proj2 (Z.leb_le _ _)) by lia.
  rewrite Nat2Z.id, (length_app (put_var_uint _) s). unfold slice. by rewrite drop_app_length, take_app_length.
Qed.

Lemma string_bound s b : b = put_string s -> Z.of_nat (length b) < 2 ^ 64 -> Z.of_nat (length s) < 2 ^ 64.
Proof. intros -> Hb. unfold put_string in Hb. rewrite length_app in Hb. lia. Qed.

Lemma elems_render elem cells pre tail i json :
  (forall b, b ∈ cells -> renders elem b) ->
  exists json', json_elems elem (pre ++ concat cells ++ tail) (length cells) i (length pre) json =
    Ok (json', length (pre ++ concat cells)).
Proof.
  revert pre i json; induction cells as [|b cells IH]; intros pre i json He; cbn [length json_elems concat].
  { rewrite app_nil_r. eauto. }
  rewrite drop_app_length, <- (app_assoc b).
  destruct (He b (list_elem_of_here _ _) (concat cells ++ tail)) as (e & ->). cbn [mbind result_bind].
  rewrite <- length_app, !(app_assoc pre). apply IH. intros x Hx. apply He. by apply list_elem_of_further.
Qed.

Lemma pairs_render key value keys vals pre tail i json :
  length keys = length vals -> (forall b, b ∈ keys -> renders key b) -> (forall b, b ∈ vals -> renders value b) ->
  exists json', json_pairs key value (pre ++ concat (zip_with app keys vals) ++ tail) (length keys) i (length pre) json =
    Ok (json', length (pre ++ concat (zip_with app keys vals))).
Proof.
  revert vals pre i json; induction keys as [|k keys IH]; intros [|v vals] pre i json Hl Hk Hv;
    simpl in Hl; try lia; cbn [length json_pairs concat zip_with].
  { rewrite app_nil_r. eauto. }
  rewrite drop_app_length, <- !(app_assoc k).
  destruct (Hk k (list_elem_of_here _ _) ((v ++ concat (zip_with app keys vals)) ++ tail)) as (kj & ->).
  cbn [mbind result_bind]. rewrite <- length_app, (app_assoc pre), drop_app_length, <- (app_assoc v).
  destruct (Hv v (list_elem_of_here _ _) (concat (zip_with app keys vals) ++ tail)) as (vj & ->).
  cbn [mbind result_bind]. rewrite <- length_app, !(app_assoc (pre ++ k)), (app_assoc k), (app_assoc pre (k ++ v)), (app_assoc pre k).
  apply IH; [lia|..]; intros x Hx; [apply Hk|apply Hv]; by apply list_elem_of_further.
Qed.

Lemma fields_render {T} (field : T -> list byte -> Cell) (fields : list T) cells pre tail i json :
  Forall2 (fun f b => renders (field f) b) fields cells ->
  exists json', json_fields field (pre ++ concat cells ++ tail) fields i (length pre) json =
    Ok (json', length (pre ++ concat cells)).
Proof.
  intros Hall. revert pre i json; induction Hall as [|f b fields cells Hf Hall IH]; intros pre i json;
    cbn [json_fields concat].
  { rewrite app_nil_r. eauto. }
  rewrite drop_app_length, <- (app_assoc b). destruct (Hf (concat cells ++ tail)) as (e & ->). cbn [mbind result_bind].
  rewrite <- length_app, !(app_assoc pre). apply IH.
Qed.

Lemma rb_all2_renders ts cells :
  Forall (fun t => forall b, rb_cell t b -> Z.of_nat (length b) < 2 ^ 64 -> renders (rowbinary_to_json_inner t) b) ts ->
  rb_all2 rb_cell ts cells -> Z.of_nat (length (concat cells)) < 2 ^ 64 ->
  Forall2 (fun t b => renders (rowbinary_to_json_inner t) b) ts cells.
Proof.
  intros Hall. revert cells; induction Hall as [|t ts Ht Hall IH]; intros [|c cells] Hc Hlen; try done.
  destruct Hc as [Hc Hcs]. cbn [concat] in Hlen. rewrite length_app in Hlen.
  constructor; [apply Ht; [done|lia]|apply IH; [done|lia]].
Qed.

Lemma elem_short {A} (l : list (list A)) x N : x ∈ l -> Z.of_nat (length (concat l)) < N -> Z.of_nat (length x) < N.
Proof.
  induction l as [|y l IH]; intros Hin Hl; [by apply elem_of_nil in Hin|]. cbn [concat] in Hl.
  rewrite length_app in Hl. apply elem_of_cons in Hin as [->|Hin]; [lia|]. apply IH; [done|lia].
Qed.

Lemma zip_app_short (ks vs : list (list byte)) N :
  length ks = length vs -> Z.of_nat (length (concat (zip_with app ks vs))) < N ->
  Z.of_nat (length (concat ks)) < N /\ Z.of_nat (length (concat vs)) < N.
Proof.
  revert vs N; induction ks as [|k ks IH]; intros [|v vs] N Hl Hlen; simpl in Hl; try lia; [done|].
  cbn [zip_with concat] in *. rewrite !length_app in *.
  destruct (IH vs (N - Z.of_nat (length k + length v))); lia.
Qed.

Lemma string_renders (f : list byte -> text) b :
  (exists s, b = put_string s) -> Z.of_nat (length b) < 2 ^ 64 ->
  renders (fun bytes => '(body, fin) ← prefixed bytes; Ok (f body, fin)) b.
Proof.
  intros (s & Hs) Hlen tail. pose proof (string_bound s b Hs Hlen) as Hb. rewrite Hs, prefixed_string by done.
  cbn [mbind result_bind]. eauto.
Qed.

Lemma render_scalar t b :
  match t with
  | Ct.Nullable _ | Ct.LowCardinality _ | Ct.SimpleAggregateFunction _ | Ct.Array _ | Ct.Tuple _
  | Ct.Map _ _ | Ct.Variant _ => False
  | _ => True
  end -> rb_cell t b -> Z.of_nat (length b) < 2 ^ 64 -> renders (rowbinary_to_json_inner t) b.
Proof.
  intros Ht Hb Hlen. destruct t; try done; cbn [rb_cell fixed_size] in Hb; cbn [rowbinary_to_json_inner];
    first
    [ apply renders_fixed_u; lia | apply renders_fixed_i; lia
    | apply (renders_head _ (fun x => _)); lia | apply renders_halves; lia
    | apply string_renders; [destruct Hb as (s & -> & _); by eauto|done]
    | destruct Hb as (s & Hs); pose proof (string_bound s b Hs Hlen); intros tail;
      rewrite Hs, prefixed_string by done; eauto
    | idtac ].
  intros tail. rewrite length_app, (proj2 (Z.leb_le _ _)) by lia.
  eexists. do 2 f_equal. lia.
Qed.

Lemma render_cells t b : rb_cell t b -> Z.of_nat (length b) < 2 ^ 64 -> renders (rowbinary_to_json_inner t) b.
Proof.
  revert b; induction t as [t Ht|t IH|t IH|t IH|t IH|ts IH|k v IHk IHv|ts IH] using Ct.column_ind; intros b Hb Hlen.
  - by apply render_scalar.
  - destruct Hb as [->|(v & -> & Hv)]; intros tail; cbn [app rowbinary_to_json_inner].
    + change (negb (u8 x01 =? 0)) with true. eauto.
    + change (negb (u8 x00 =? 0)) with false. cbv iota. simpl in Hlen.
      destruct (IH v Hv ltac:(lia) tail) as (j & ->). cbn [mbind result_bind length]. eauto.
  - by apply IH.
  - by apply IH.
  - destruct Hb as (cells & -> & Hall & Hn). intros tail. cbn [rowbinary_to_json_inner].
    rewrite length_app in Hlen.
    rewrite <- app_assoc, slice_var_uint_app by lia. cbn [mbind result_bind]. rewrite Nat2Z.id.
    destruct (elems_render (rowbinary_to_json_inner t) cells (put_var_uint (Z.of_nat (length cells))) tail 0 (str "["))
      as (j & ->); [|cbn [mbind result_bind]; eauto].
    intros b Hin. apply IH; [by eapply Forall_forall|]. eapply elem_short; [exact Hin|lia].
  - destruct Hb as (cells & -> & Hall). intros tail. cbn [rowbinary_to_json_inner].
    destruct (fields_render rowbinary_to_json_inner ts cells [] tail 0 (str "[")) as (j & Hj);
      [by apply rb_all2_renders|]. cbn [app length] in Hj. rewrite Hj. cbn [mbind result_bind]. eauto.
  - destruct Hb as (ks & vs & Hl & -> & Hk & Hv & Hn). intros tail. cbn [rowbinary_to_json_inner].
    rewrite length_app in Hlen. destruct (zip_app_short ks vs (2 ^ 64) Hl) as [Hks Hvs]; [lia|].
    rewrite <- app_assoc, slice_var_uint_app by lia. cbn [mbind result_bind]. rewrite Nat2Z.id.
    destruct (pairs_render (rowbinary_to_json_inner k) (rowbinary_to_json_inner v) ks vs
      (put_var_uint (Z.of_nat (length ks))) tail 0 (str "{") Hl) as (j & ->); [| |cbn [mbind result_bind]; eauto].
    + intros b Hin. apply IHk; [by eapply Forall_forall|]. by eapply elem_short.
    + intros b Hin. apply IHv; [by eapply Forall_forall|]. by eapply elem_short.
  - destruct Hb as (s & Hs). intros tail. pose proof (string_bound s b Hs Hlen).
    cbn [rowbinary_to_json_inner]. rewrite Hs, prefixed_string by done. eauto.
Qed.

End render.

(** ** Properties *)

(** every cell of the grammar renders: the renderer consumes exactly the cell,
    whatever follows it, so a value nested in a Variant, Dynamic or JSON
    column is never lost to the [null] fallback. *)
Theorem render_consumes_cell `{FloatText} t b tail :
  rb_cell t b -> Z.of_nat (length b) < 2 ^ 64 ->
  exists json, rowbinary_to_json_inner t (b ++ tail) = Ok (json, length b) /\
    rowbinary_to_json (b ++ tail) t = json.
Proof.
  intros Hb Hlen. destruct (render_cells t b Hb Hlen tail) as (j & Hj). exists j.
  split; [exact Hj|]. unfold rowbinary_to_json. by rewrite Hj.
Qed.

Lemma render_consumes_cell_witness :
  exists json, @rowbinary_to_json_inner no_floats (Ct.Map Ct.String (Ct.Nullable Ct.Int8))
      ([x01; x01; x61; x00; xfe] ++ [xaa]) = Ok (json, 5%nat) /\
    @rowbinary_to_json no_floats ([x01; x01; x61; x00; xfe] ++ [xaa]) (Ct.Map Ct.String (Ct.Nullable Ct.Int8)) = json.
Proof.
  refine (@render_consumes_cell no_floats (Ct.Map Ct.String (Ct.Nullable Ct.Int8)) [x01; x01; x61; x00; xfe] [xaa] _ _);
    [|vm_compute; reflexivity].
  exists [[x01; x61]], [[x00; xfe]]. split; [done|]. split; [reflexivity|]. split; each.
  - exists [x61]. split; [reflexivity|vm_compute; discriminate].
  - split; [|done]. each. right. exists [xfe]. done.
Defined.

(** on any bytes the renderer consumes no more than it was given, so the slices it
    takes behind each element are in bounds and it cannot panic. *)
Theorem render_in_bounds `{FloatText} t bytes json k :
  rowbinary_to_json_inner t bytes = Ok (json, k) -> (k <= length bytes)%nat.
Proof. apply inside_render. Qed.

Lemma render_in_bounds_witness : (4 <= 5)%nat.
Proof.
  refine (@render_in_bounds no_floats (Ct.Array Ct.UInt8) [x03; x01; x02; x03; xff] (str "[1,2,3]") 4 _).
  vm_compute. reflexivity.
Defined.

(** quoting loses nothing and forges nothing: a JSON reader gets exactly the quoted
    bytes back and stops exactly at the closing quote, whatever follows, and no
    raw control character is left in the text. *)
Theorem json_quote_roundtrip bytes tail :
  json_unquote (json_quote_bytes bytes ++ tail) = Some (bytes, tail) /\
  Forall (fun b => 32 <= u8 b) (json_quote_bytes bytes).
Proof.
  unfold json_quote_bytes. split.
  - rewrite <- !app_assoc. cbn [app json_unquote]. change (u8 quote =? 34) with true. cbv iota.
    induction bytes as [|b bytes IH]; [reflexivity|]. cbn [map concat]. rewrite <- !app_assoc, unescape_escape.
    cbn [app] in IH. by rewrite IH.
  - apply Forall_app. split; [by repeat constructor|]. apply Forall_app. split; [|by repeat constructor].
    induction bytes as [|b bytes IH]; [constructor|]. cbn [map concat]. apply Forall_app. split; [|exact IH].
    assert (Hb : forallb (fun x => 32 <=? u8 x) (json_escape b) = true) by (by destruct b).
    rewrite forallb_forall in Hb. apply Forall_forall. intros x Hx. apply Z.leb_le, Hb. by apply list_elem_of_In.
Qed.
