(* ===== verification/Protocol.v ===== *)
(** * The TCP protocol: revisions, packet ids, payload records

    Models [src/tcp/protocol.rs]: the revision gates, the packet ids of both
    directions, the payload records and the conversion of a server exception
    into an [Error], with its caps on server-supplied text. *)

From S2P Require Import Prelude Errors WireIo.

(** ** Revision gates *)

Definition DBMS_MIN_REVISION_WITH_TEMPORARY_TABLES : Z := 50264.
Definition DBMS_MIN_REVISION_WITH_BLOCK_INFO : Z := 51903.
Definition DBMS_MIN_REVISION_WITH_CLIENT_INFO : Z := 54032.
Definition DBMS_MIN_REVISION_WITH_SERVER_TIMEZONE : Z := 54058.
Definition DBMS_MIN_REVISION_WITH_QUOTA_KEY_IN_CLIENT_INFO : Z := 54060.
Definition DBMS_MIN_REVISION_WITH_SERVER_DISPLAY_NAME : Z := 54372.
Definition DBMS_MIN_REVISION_WITH_VERSION_PATCH : Z := 54401.
Definition DBMS_MIN_REVISION_WITH_CLIENT_WRITE_INFO : Z := 54420.
Definition DBMS_MIN_REVISION_WITH_SETTINGS_SERIALIZED_AS_STRINGS : Z := 54429.
Definition DBMS_MIN_REVISION_WITH_INTERSERVER_SECRET : Z := 54441.
Definition DBMS_MIN_REVISION_WITH_OPENTELEMETRY : Z := 54442.
Definition DBMS_MIN_PROTOCOL_VERSION_WITH_DISTRIBUTED_DEPTH : Z := 54448.
Definition DBMS_MIN_PROTOCOL_VERSION_WITH_INITIAL_QUERY_START_TIME : Z := 54449.
Definition DBMS_MIN_PROTOCOL_VERSION_WITH_PARALLEL_REPLICAS : Z := 54453.
Definition DBMS_MIN_PROTOCOL_VERSION_WITH_ADDENDUM : Z := 54458.
Definition DBMS_MIN_PROTOCOL_VERSION_WITH_PARAMETERS : Z := 54459.
Definition DBMS_MIN_PROTOCOL_VERSION_WITH_SERVER_QUERY_TIME_IN_PROGRESS : Z := 54460.
Definition DBMS_MIN_PROTOCOL_VERSION_WITH_PASSWORD_COMPLEXITY_RULES : Z := 54461.
Definition DBMS_MIN_REVISION_WITH_INTERSERVER_SECRET_V2 : Z := 54462.
Definition DBMS_MIN_PROTOCOL_VERSION_WITH_TOTAL_BYTES_IN_PROGRESS : Z := 54463.
Definition DBMS_MIN_REVISION_WITH_ROWS_BEFORE_AGGREGATION : Z := 54469.
Definition DBMS_MIN_PROTOCOL_VERSION_WITH_CHUNKED_PACKETS : Z := 54470.
Definition DBMS_MIN_REVISION_WITH_VERSIONED_PARALLEL_REPLICAS_PROTOCOL : Z := 54471.
Definition DBMS_MIN_PROTOCOL_VERSION_WITH_INTERSERVER_EXTERNALLY_GRANTED_ROLES : Z := 54472.
Definition DBMS_MIN_REVISION_WITH_V2_DYNAMIC_AND_JSON_SERIALIZATION : Z := 54473.

Definition DBMS_TCP_PROTOCOL_VERSION : Z := DBMS_MIN_REVISION_WITH_V2_DYNAMIC_AND_JSON_SERIALIZATION.

(** [a >= GATE] on revisions. *)
Definition since (gate revision : Z) : bool := gate <=? revision.

(** [server_revision.min(DBMS_TCP_PROTOCOL_VERSION)]. *)
Definition effective (server_revision : Z) : Z := Z.min server_revision DBMS_TCP_PROTOCOL_VERSION.

(** ** Caps on server text *)

Definition TCP_EXCEPTION_STACK_TRACE_CAP : nat := Z.to_nat (Z.shiftl 1 20).
Definition TCP_EXCEPTION_MESSAGE_CAP : nat := Z.to_nat (64 * 1024).

#[global] Arguments TCP_EXCEPTION_STACK_TRACE_CAP : simpl never.
#[global] Arguments TCP_EXCEPTION_MESSAGE_CAP : simpl never.

(** [str::is_char_boundary]. *)
Definition is_char_boundary (s : text) (i : nat) : bool :=
  match i with
  | O => true
  | _ => match s !! i with
         | None => (i =? length s)%nat
         | Some b => negb (is_cont b)
         end
  end.

(** [while end > 0 && !s.is_char_boundary(end) { end -= 1; }]. *)
Fixpoint boundary_below (s : text) (fin : nat) : nat :=
  match fin with
  | O => O
  | S fin' => if is_char_boundary s fin then fin else boundary_below s fin'
  end.

(** [truncate_on_char_boundary]: the string left behind. *)
Definition truncate_on_char_boundary (s : text) (cap : nat) : text :=
  if (length s <=? cap)%nat then s else take (boundary_below s cap) s.

(** ** Packet ids *)

Module Cid.
Inductive ClientPacketId := Hello | Query | Data | Cancel | Ping.
End Cid.
Abbreviation ClientPacketId := Cid.ClientPacketId.

(** The discriminants, [id as u64]. *)
Definition client_id (id : ClientPacketId) : Z :=
  match id with
  | Cid.Hello => 0
  | Cid.Query => 1
  | Cid.Data => 2
  | Cid.Cancel => 3
  | Cid.Ping => 4
  end.

Module Sid.
Inductive ServerPacketId :=
| Hello | Data | Exception | Progress | Pong | EndOfStream | ProfileInfo | Totals | Extremes
| Log | TableColumns | ProfileEvents | TimezoneUpdate.
End Sid.
Abbreviation ServerPacketId := Sid.ServerPacketId.

Definition server_id (id : ServerPacketId) : Z :=
  match id with
  | Sid.Hello => 0
  | Sid.Data => 1
  | Sid.Exception => 2
  | Sid.Progress => 3
  | Sid.Pong => 4
  | Sid.EndOfStream => 5
  | Sid.ProfileInfo => 6
  | Sid.Totals => 7
  | Sid.Extremes => 8
  | Sid.Log => 10
  | Sid.TableColumns => 11
  | Sid.ProfileEvents => 14
  | Sid.TimezoneUpdate => 17
  end.

(** The derived [Debug] of a packet id: the variant's name. *)
Definition server_id_debug (id : ServerPacketId) : text :=
  match id with
  | Sid.Hello => str "Hello"
  | Sid.Data => str "Data"
  | Sid.Exception => str "Exception"
  | Sid.Progress => str "Progress"
  | Sid.Pong => str "Pong"
  | Sid.EndOfStream => str "EndOfStream"
  | Sid.ProfileInfo => str "ProfileInfo"
  | Sid.Totals => str "Totals"
  | Sid.Extremes => str "Extremes"
  | Sid.Log => str "Log"
  | Sid.TableColumns => str "TableColumns"
  | Sid.ProfileEvents => str "ProfileEvents"
  | Sid.TimezoneUpdate => str "TimezoneUpdate"
  end.

(** [ServerPacketId::from_u64]. *)
Definition from_u64 (i : Z) : Result ServerPacketId :=
  if i =? 0 then Ok Sid.Hello
  else if i =? 1 then Ok Sid.Data
  else if i =? 2 then Ok Sid.Exception
  else if i =? 3 then Ok Sid.Progress
  else if i =? 4 then Ok Sid.Pong
  else if i =? 5 then Ok Sid.EndOfStream
  else if i =? 6 then Ok Sid.ProfileInfo
  else if i =? 7 then Ok Sid.Totals
  else if i =? 8 then Ok Sid.Extremes
  else if i =? 10 then Ok Sid.Log
  else if i =? 11 then Ok Sid.TableColumns
  else if i =? 14 then Ok Sid.ProfileEvents
  else if i =? 17 then Ok Sid.TimezoneUpdate
  else Err (BadResponse (str "tcp: unknown server packet id " ++ show i)).

(** [QueryProcessingStage::Complete as u64]. *)
Definition QueryProcessingStage_Complete : Z := 2.

(** ** Payload records *)

Record ServerHello := {
  server_name : text;
  version : Z * Z * Z;
  revision : Z;
  timezone : option text;
  display_name : option text
}.

Module Exc.
Record Exception := { code : Z; name : text; message : text; stack_trace : text }.
End Exc.
Abbreviation Exception := Exc.Exception.

(** [if s.is_empty() { None } else { Some(s) }]. *)
Definition non_empty (s : text) : option text :=
  match s with
  | [] => None
  | _ => Some s
  end.

(** [Exception::into_error]; the truncations repeat the length test. *)
Definition into_error (e : Exception) : Error :=
  let message :=
    if (TCP_EXCEPTION_MESSAGE_CAP <? length (Exc.message e))%nat
    then truncate_on_char_boundary (Exc.message e) TCP_EXCEPTION_MESSAGE_CAP else Exc.message e in
  let stack_trace :=
    if (TCP_EXCEPTION_STACK_TRACE_CAP <? length (Exc.stack_trace e))%nat
    then truncate_on_char_boundary (Exc.stack_trace e) TCP_EXCEPTION_STACK_TRACE_CAP else Exc.stack_trace e in
  ServerException (Exc.code e) (non_empty (Exc.name e)) message (non_empty stack_trace).

Record Progress := {
  rows_read : Z;
  bytes_read : Z;
  total_rows_to_read : Z;
  written_rows : Z;
  written_bytes : Z
}.

Module Pi.
Record ProfileInfo := {
  rows : Z;
  blocks : Z;
  bytes : Z;
  applied_limit : bool;
  rows_before_limit : Z
}.
End Pi.
Abbreviation ProfileInfo := Pi.ProfileInfo.

Record TableColumns := {
  external_table_name : text;
  columns_definition : text
}.

(** ** Packet ids *)

Lemma from_u64_id id : from_u64 (server_id id) = Ok id.
Proof. by destruct id. Qed.

Lemma from_u64_inv i id : from_u64 i = Ok id -> i = server_id id.
Proof.
  unfold from_u64. intros H.
  repeat match type of H with
  | (if ?b then _ else _) = _ => destruct b eqn:E; [apply Z.eqb_eq in E; apply Ok_inj in H; subst; reflexivity|clear E]
  end. discriminate.
Qed.

(** ** Characters *)

Lemma is_cont_range b : is_cont b = true <-> 0x80 <= u8 b <= 0xBF.
Proof. unfold is_cont, in_range. rewrite andb_true_iff, !Z.leb_le. done. Qed.

Lemma lead_not_cont b : u8 b < 0x80 \/ 0xBF < u8 b -> is_cont b = false.
Proof. intros H. apply not_true_is_false. rewrite is_cont_range. lia. Qed.

Lemma second3_cont b0 b : second_of_3 b0 b = true -> is_cont b = true.
Proof.
  unfold second_of_3, is_cont, in_range. repeat case_match; rewrite !andb_true_iff, !Z.leb_le; lia.
Qed.

Lemma second4_cont b0 b : second_of_4 b0 b = true -> is_cont b = true.
Proof.
  unfold second_of_4, is_cont, in_range. repeat case_match; rewrite !andb_true_iff, !Z.leb_le; lia.
Qed.

(** A character: a lead byte and up to three continuation bytes that can be
    put in front of any text. *)
Definition char (c : text) : Prop :=
  exists b0 conts, c = b0 :: conts /\ is_cont b0 = false /\
    Forall (fun b => is_cont b = true) conts /\ (length conts <= 3)%nat /\
    forall r, utf8_valid (c ++ r) = utf8_valid r.

(** Valid UTF-8 is a sequence of characters. *)
Lemma utf8_next s :
  utf8_valid s = true -> s = [] \/ exists c r, s = c ++ r /\ char c /\ utf8_valid r = true.
Proof.
  destruct s as [|b0 r0]; [by left|]. intros H. right. cbn [utf8_valid] in H.
  destruct (Z.ltb_spec (u8 b0) 0x80) as [H0|H0].
  { exists [b0], r0. split; [done|]. split; [|done]. exists b0, []. split_and!; try done.
    - apply lead_not_cont; lia.
    - simpl; lia.
    - intros r. cbn [app utf8_valid]. by rewrite (proj2 (Z.ltb_lt _ _)). }
  assert (Hlo : (u8 b0 <? 0x80) = false) by (apply Z.ltb_ge; lia).
  destruct (in_range 0xC2 0xDF b0) eqn:H2.
  { destruct r0 as [|b1 r1]; [done|]. apply andb_true_iff in H as [Hb1 Hr].
    exists [b0; b1], r1. split; [done|]. split; [|done]. exists b0, [b1]. split_and!; try done.
    - apply lead_not_cont. right. unfold in_range in H2. rewrite andb_true_iff, !Z.leb_le in H2. lia.
    - by each.
    - simpl; lia.
    - intros r. cbn [app utf8_valid]. by rewrite Hlo, H2, Hb1. }
  destruct (in_range 0xE0 0xEF b0) eqn:H3.
  { destruct r0 as [|b1 [|b2 r2]]; try done. rewrite !andb_true_iff in H. destruct H as [[Hb1 Hb2] Hr].
    exists [b0; b1; b2], r2. split; [done|]. split; [|done]. exists b0, [b1; b2]. split_and!; try done.
    - apply lead_not_cont. right. unfold in_range in H3. rewrite andb_true_iff, !Z.leb_le in H3. lia.
    - each; [by eapply second3_cont|done].
    - simpl; lia.
    - intros r. cbn [app utf8_valid]. by rewrite Hlo, H2, H3, Hb1, Hb2. }
  destruct (in_range 0xF0 0xF4 b0) eqn:H4; [|done].
  destruct r0 as [|b1 [|b2 [|b3 r3]]]; try done. rewrite !andb_true_iff in H. destruct H as [[[Hb1 Hb2] Hb3] Hr].
  exists [b0; b1; b2; b3], r3. split; [done|]. split; [|done]. exists b0, [b1; b2; b3]. split_and!; try done.
  - apply lead_not_cont. right. unfold in_range in H4. rewrite andb_true_iff, !Z.leb_le in H4. lia.
  - each; [by eapply second4_cont|done|done].
  - intros r. cbn [app utf8_valid]. by rewrite Hlo, H2, H3, H4, Hb1, Hb2, Hb3.
Qed.

Lemma utf8_chars s : utf8_valid s = true -> exists cs, s = concat cs /\ Forall char cs.
Proof.
  remember (length s) as n eqn:Hn. revert s Hn; induction n as [n IH] using lt_wf_ind; intros s -> H.
  destruct (utf8_next s H) as [->|(c & r & -> & Hc & Hr)]; [by exists []|].
  destruct (IH (length r)) with (s := r) as (cs & -> & Hcs); [|done|done|].
  - destruct Hc as (b0 & cts & -> & _). rewrite length_app. simpl. lia.
  - exists (c :: cs). split; [done|]. by constructor.
Qed.

Lemma chars_valid cs : Forall char cs -> utf8_valid (concat cs) = true.
Proof. induction 1 as [|c cs (b0 & cts & -> & _ & _ & _ & Hc) Hcs IH]; [done|]. cbn [concat]. by rewrite Hc. Qed.

(** *** The boundaries of a text are the ends of its characters *)

Lemma char_pos c : char c -> (0 < length c <= 4)%nat.
Proof. intros (b0 & cts & -> & _ & _ & Hl & _). simpl. lia. Qed.

Lemma boundary_at kept rest :
  Forall char rest -> is_char_boundary (concat (kept ++ rest)) (length (concat kept)) = true.
Proof.
  intros Hr. rewrite concat_app. unfold is_char_boundary.
  destruct (length (concat kept)) as [|n] eqn:Hn; [done|]. rewrite <- Hn.
  rewrite lookup_app_r, Nat.sub_diag by lia.
  destruct Hr as [|c rest Hc Hr]; simpl.
  - rewrite app_nil_r. by rewrite Nat.eqb_refl.
  - destruct Hc as (b0 & cts & -> & Hb & _). simpl. by rewrite Hb.
Qed.

Lemma boundary_split cs i :
  Forall char cs -> (i <= length (concat cs))%nat -> is_char_boundary (concat cs) i = true ->
  exists kept rest, cs = kept ++ rest /\ length (concat kept) = i.
Proof.
  intros Hcs. revert i; induction Hcs as [|c cs Hc Hcs IH]; intros i Hi Hb.
  { exists [], []. simpl in *. split; [done|lia]. }
  destruct i as [|i]; [by exists [], (c :: cs)|]. cbn [concat] in *. rewrite length_app in Hi.
  destruct (lt_eq_lt_dec (S i) (length c)) as [[Hlt|Heq]|Hgt].
  - exfalso. destruct Hc as (b0 & cts & -> & _ & Hcts & _). unfold is_char_boundary in Hb.
    rewrite lookup_app_l in Hb by done. simpl in Hb, Hlt.
    destruct (lookup_lt_is_Some_2 cts i ltac:(lia)) as [b Hbl]. rewrite Hbl in Hb.
    eapply Forall_lookup_1 in Hcts; [|exact Hbl]. simpl in Hcts. by rewrite Hcts in Hb.
  - exists [c], cs. split; [done|]. simpl. rewrite app_nil_r. done.
  - destruct (IH (S i - length c)%nat) as (kept & rest & -> & Hl); [lia| |].
    + unfold is_char_boundary in Hb. rewrite lookup_app_r in Hb by lia.
      destruct (S i - length c)%nat as [|j] eqn:Hj; [lia|]. unfold is_char_boundary.
      destruct (concat cs !! S j) as [b|] eqn:Hl; [exact Hb|].
      apply Nat.eqb_eq in Hb. rewrite length_app in Hb. apply Nat.eqb_eq. lia.
    + exists (c :: kept), rest. split; [done|]. simpl. rewrite length_app. lia.
Qed.

(** The loop stops at the end of the last character within the cap. *)
Lemma boundary_below_chars cs fin :
  Forall char cs -> (fin <= length (concat cs))%nat ->
  exists kept rest, cs = kept ++ rest /\ boundary_below (concat cs) fin = length (concat kept) /\
    (length (concat kept) <= fin)%nat /\
    (forall c rest', rest = c :: rest' -> (fin < length (concat kept) + length c)%nat).
Proof.
  intros Hcs. induction fin as [|fin IH]; intros Hf.
  { exists [], cs. split_and!; try done. intros c r ->. inversion Hcs; subst.
    match goal with H : char c |- _ => apply char_pos in H end. simpl. lia. }
  cbn [boundary_below]. destruct (is_char_boundary (concat cs) (S fin)) eqn:Hb.
  - destruct (boundary_split _ _ Hcs Hf Hb) as (kept & rest & -> & Hl). exists kept, rest.
    split_and!; [done|done|lia|]. intros c r ->. apply Forall_app in Hcs as [_ Hcs]. inversion Hcs; subst.
    match goal with H : char c |- _ => apply char_pos in H end. lia.
  - destruct IH as (kept & rest & -> & Hbb & Hle & Hnext); [lia|]. exists kept, rest.
    split_and!; [done|done|lia|]. intros c r ->. specialize (Hnext c r eq_refl).
    destruct (decide (S fin = length (concat kept) + length c)%nat) as [He|]; [|lia]. exfalso.
    pose proof (boundary_at (kept ++ [c]) r) as Hat.
    replace (concat (kept ++ [c])) with (concat kept ++ c) in Hat by (rewrite concat_app; simpl; by rewrite app_nil_r).
    rewrite length_app, <- He, <- app_assoc in Hat. cbn [app] in Hat. rewrite Hat in Hb; [done|].
    apply Forall_app in Hcs as [_ Hcs]. by inversion Hcs.
Qed.

Lemma truncate_chars s cap :
  utf8_valid s = true ->
  exists kept dropped, s = kept ++ dropped /\ truncate_on_char_boundary s cap = kept /\
    utf8_valid kept = true /\ (length kept <= cap)%nat /\
    (dropped = [] \/ exists c rest, dropped = c ++ rest /\ char c /\ (cap < length (kept ++ c))%nat).
Proof.
  intros Hs. unfold truncate_on_char_boundary. destruct (Nat.leb_spec (length s) cap) as [Hl|Hl].
  { exists s, []. rewrite app_nil_r. split_and!; try done. by left. }
  destruct (utf8_chars s Hs) as (cs & -> & Hcs).
  destruct (boundary_below_chars cs cap Hcs) as (kept & rest & -> & Hb & Hle & Hnext); [lia|].
  rewrite Hb. exists (concat kept), (concat rest). rewrite concat_app. split; [done|].
  split; [by rewrite take_app_length|]. apply Forall_app in Hcs as [Hk Hr].
  split; [by apply chars_valid|]. split; [done|].
  destruct Hr as [|c rest Hc Hr]; [by left|]. right. exists c, (concat rest).
  split_and!; [done|done|]. rewrite length_app. by eapply Hnext.
Qed.

Lemma truncate_idle s cap : (length s <= cap)%nat -> truncate_on_char_boundary s cap = s.
Proof. intros H. unfold truncate_on_char_boundary. by rewrite (proj2 (Nat.leb_le _ _)). Qed.

Lemma capped_text cap s :
  (if (cap <? length s)%nat then truncate_on_char_boundary s cap else s) = truncate_on_char_boundary s cap.
Proof. destruct (Nat.ltb_spec cap (length s)); [done|]. by rewrite truncate_idle by lia. Qed.

(** ** Properties *)

(** cutting server text keeps the longest run of whole characters that
    fits the cap: the result is valid UTF-8 (so [String::truncate] does not panic), it is a prefix of
    the text within the cap, and the next character would not have fitted. *)
Theorem truncate_keeps_characters s cap :
  utf8_valid s = true ->
  exists dropped, s = truncate_on_char_boundary s cap ++ dropped /\
    utf8_valid (truncate_on_char_boundary s cap) = true /\
    (length (truncate_on_char_boundary s cap) <= cap)%nat /\
    (dropped = [] \/ exists c rest, dropped = c ++ rest /\ char c /\
       (cap < length (truncate_on_char_boundary s cap ++ c))%nat).
Proof.
  intros Hs. destruct (truncate_chars s cap Hs) as (kept & dropped & -> & -> & Hv & Hl & Hd).
  by exists dropped.
Qed.

(** Two euro signs against a cap of five bytes. *)
Lemma truncate_keeps_characters_witness :
  exists dropped, [xe2; x82; xac; xe2; x82; xac] = [xe2; x82; xac] ++ dropped /\ utf8_valid [xe2; x82; xac] = true.
Proof.
  destruct (truncate_keeps_characters [xe2; x82; xac; xe2; x82; xac] 5 eq_refl) as (d & Hd & Hv & _).
  exists d. split; [exact Hd|exact Hv].
Defined.

(** an exception becomes one flat error whatever the server sent: the code is kept,
    empty names and traces become [None], message and trace are valid text
    within their caps and start the server's text, and texts within the caps
    are passed on unchanged. *)
Theorem into_error_capped e :
  utf8_valid (Exc.message e) = true -> utf8_valid (Exc.stack_trace e) = true ->
  exists message trace,
    into_error e = ServerException (Exc.code e) (non_empty (Exc.name e)) message (non_empty trace) /\
    message `prefix_of` Exc.message e /\ trace `prefix_of` Exc.stack_trace e /\
    utf8_valid message = true /\ utf8_valid trace = true /\
    (length message <= TCP_EXCEPTION_MESSAGE_CAP)%nat /\
    (length trace <= TCP_EXCEPTION_STACK_TRACE_CAP)%nat /\
    ((length (Exc.message e) <= TCP_EXCEPTION_MESSAGE_CAP)%nat -> message = Exc.message e) /\
    ((length (Exc.stack_trace e) <= TCP_EXCEPTION_STACK_TRACE_CAP)%nat -> trace = Exc.stack_trace e).
Proof.
  intros Hm Ht. unfold into_error. rewrite !capped_text.
  destruct (truncate_chars _ TCP_EXCEPTION_MESSAGE_CAP Hm) as (km & dm & Em & Tm & Vm & Lm & _).
  destruct (truncate_chars _ TCP_EXCEPTION_STACK_TRACE_CAP Ht) as (kt & dt & Et & Tt & Vt & Lt & _).
  exists km, kt. rewrite Tm, Tt. split_and!; try done.
  - by exists dm.
  - by exists dt.
  - intros H. by rewrite <- Tm, truncate_idle.
  - intros H. by rewrite <- Tt, truncate_idle.
Qed.

Lemma into_error_capped_witness :
  let e := {| Exc.code := 60; Exc.name := str "UNKNOWN_TABLE"; Exc.message := str "no table"; Exc.stack_trace := [] |} in
  into_error e = ServerException 60 (Some (str "UNKNOWN_TABLE")) (str "no table") None.
Proof.
  intros e. destruct (into_error_capped e eq_refl eq_refl) as (m & t & -> & _ & _ & _ & _ & _ & _ & Hm & Ht).
  rewrite Hm, Ht; [reflexivity|simpl; apply Nat.leb_le; vm_compute; reflexivity..].
Defined.
