(* ===== verification/Packets.v ===== *)
(** * Reading server packets

    Models [src/tcp/reader.rs]: the server Hello, the exception, progress,
    profile-info and table-columns payloads, the block header and the schema
    block, and the packet dispatcher. A payload block is decoded in place by
    [Decode]. Properties: a packet consumes exactly its own bytes; Hello,
    exception and schema packets written by the wire's layout are read back. *)

From S2P Require Import Prelude Text Errors WireIo ColTypes Json Columns Decode Encode Protocol.

Definition READER_MAX_BLOCK_COLUMNS : Z := 16384.
Definition MAX_PASSWORD_COMPLEXITY_RULES : Z := 256.
Definition DBMS_MIN_REVISION_WITH_TOTAL_ROWS_IN_PROGRESS : Z := 51554.

Module Sp.
Inductive ServerPacket :=
| Data (table_name : option text) (num_columns num_rows : Z) (columns : list (text * text))
| DataBlock (block : DecodedBlock)
| Exception (exc : Protocol.Exception)
| Progress (progress : Protocol.Progress)
| ProfileInfo (info : Protocol.ProfileInfo)
| Pong
| EndOfStream
| Log
| TableColumns (table_columns : Protocol.TableColumns)
| ProfileEvents
| TimezoneUpdate (timezone : text).
End Sp.
Abbreviation ServerPacket := Sp.ServerPacket.

Section packets.
Context `{Platform} `{FloatText}.

(** [read_exception]. *)
Definition read_exception : Read Exception :=
  code ← read_i32_le;
  name ← read_utf8_string;
  message ← read_utf8_string;
  stack_trace ← read_utf8_string;
  let stack_trace :=
    if (TCP_EXCEPTION_STACK_TRACE_CAP <? length stack_trace)%nat
    then truncate_on_char_boundary stack_trace TCP_EXCEPTION_STACK_TRACE_CAP else stack_trace in
  _ ← read_u8;
  mret {| Exc.code := code; Exc.name := name; Exc.message := message; Exc.stack_trace := stack_trace |}.

(** The [Hello] arm of [read_hello]. *)
Definition too_many_rules (rules : Z) : Error :=
  BadResponse (str "tcp: server declared " ++ show rules ++ str " password-complexity rules, over the " ++
    show MAX_PASSWORD_COMPLEXITY_RULES ++ str " cap").

Definition read_password_rules : Read unit :=
  rules ← read_var_uint;
  if MAX_PASSWORD_COMPLEXITY_RULES <? rules then rd_fail (too_many_rules rules)
  else _ ← rd_repeat (Z.to_nat rules) (_ ← read_utf8_string; read_utf8_string); mret tt.

Definition read_hello_body : Read ServerHello :=
  server_name ← read_utf8_string;
  major ← read_var_uint;
  minor ← read_var_uint;
  revision ← read_var_uint;
  let effective := effective revision in
  _ ← (if since DBMS_MIN_REVISION_WITH_VERSIONED_PARALLEL_REPLICAS_PROTOCOL effective
       then read_var_uint else mret 0);
  timezone ← (if since DBMS_MIN_REVISION_WITH_SERVER_TIMEZONE effective
              then s ← read_utf8_string; mret (Some s) else mret None);
  display_name ← (if since DBMS_MIN_REVISION_WITH_SERVER_DISPLAY_NAME effective
                  then s ← read_utf8_string; mret (Some s) else mret None);
  patch ← (if since DBMS_MIN_REVISION_WITH_VERSION_PATCH effective then read_var_uint else mret 0);
  _ ← (if since DBMS_MIN_PROTOCOL_VERSION_WITH_CHUNKED_PACKETS effective
       then _ ← read_utf8_string; read_utf8_string else mret []);
  _ ← (if since DBMS_MIN_PROTOCOL_VERSION_WITH_PASSWORD_COMPLEXITY_RULES effective
       then read_password_rules else mret tt);
  _ ← (if since DBMS_MIN_REVISION_WITH_INTERSERVER_SECRET_V2 effective
       then read_exact 8 else mret []);
  mret {| server_name := server_name; version := (major, minor, patch); revision := revision;
          timezone := timezone; display_name := display_name |}.

(** [read_hello]. *)
Definition read_hello : Read ServerHello :=
  packet_type ← read_var_uint;
  id ← rd_lift (from_u64 packet_type);
  match id with
  | Sid.Hello => read_hello_body
  | Sid.Exception => exc ← read_exception; rd_fail (into_error exc)
  | other => rd_fail (BadResponse (str "tcp: unexpected packet during handshake: " ++ server_id_debug other))
  end.

(** [read_progress]. *)
Definition read_progress (server_revision : Z) : Read Progress :=
  let effective := effective server_revision in
  rows_read ← read_var_uint;
  bytes_read ← read_var_uint;
  total_rows_to_read ←
    (if since DBMS_MIN_REVISION_WITH_TOTAL_ROWS_IN_PROGRESS effective then read_var_uint else mret 0);
  _ ← (if since DBMS_MIN_PROTOCOL_VERSION_WITH_TOTAL_BYTES_IN_PROGRESS effective
       then read_var_uint else mret 0);
  '(written_rows, written_bytes) ←
    (if since DBMS_MIN_REVISION_WITH_CLIENT_WRITE_INFO effective
     then wr ← read_var_uint; wb ← read_var_uint; mret (wr, wb) else mret (0, 0));
  _ ← (if since DBMS_MIN_PROTOCOL_VERSION_WITH_SERVER_QUERY_TIME_IN_PROGRESS effective
       then read_var_uint else mret 0);
  mret {| rows_read := rows_read; bytes_read := bytes_read; total_rows_to_read := total_rows_to_read;
          written_rows := written_rows; written_bytes := written_bytes |}.

(** [read_profile_info]. *)
Definition read_profile_info (server_revision : Z) : Read ProfileInfo :=
  rows ← read_var_uint;
  blocks ← read_var_uint;
  bytes ← read_var_uint;
  flag ← read_u8;
  rows_before_limit ← read_var_uint;
  _ ← read_u8;
  _ ← (if since DBMS_MIN_REVISION_WITH_ROWS_BEFORE_AGGREGATION (effective server_revision)
       then _ ← read_u8; read_var_uint else mret 0);
  mret {| Pi.rows := rows; Pi.blocks := blocks; Pi.bytes := bytes; Pi.applied_limit := negb (flag =? 0);
          Pi.rows_before_limit := rows_before_limit |}.

(** [read_table_columns]. *)
Definition read_table_columns : Read TableColumns :=
  external_table_name ← read_utf8_string;
  columns_definition ← read_utf8_string;
  mret {| external_table_name := external_table_name; columns_definition := columns_definition |}.

(** [read_data_block_header]. *)
Definition too_many_columns (num_columns : Z) : Error :=
  BadResponse (str "tcp: block header declares " ++ show num_columns ++ str " columns, above the " ++
    show READER_MAX_BLOCK_COLUMNS ++ str " cap").

Definition read_data_block_header (server_revision : Z) : Read (option text * Z * Z) :=
  table_name ← (if since DBMS_MIN_REVISION_WITH_TEMPORARY_TABLES server_revision
                then s ← read_utf8_string; mret (Some s) else mret None);
  _ ← (if since DBMS_MIN_REVISION_WITH_BLOCK_INFO server_revision then read_block_info else mret tt);
  num_columns ← read_var_uint;
  if READER_MAX_BLOCK_COLUMNS <? num_columns then rd_fail (too_many_columns num_columns)
  else num_rows ← read_var_uint; mret (table_name, num_columns, num_rows).

(** The [Display] of a [TryReserveError]: past [isize::MAX] bytes the capacity
    overflows, below it the allocator refused. *)
Definition try_reserve_error (bytes : Z) : text :=
  str "memory allocation failed because " ++
  (if 2 ^ 63 <=? bytes then str "the computed capacity exceeded the collection's maximum"
   else str "the memory allocator returned an error").

(** One turn of the column loop of [read_empty_data_block_schema]. *)
Definition read_schema_entry (has_custom_ser : bool) : Read (text * text) :=
  name ← read_utf8_string;
  type_name ← read_utf8_string;
  flag ← (if has_custom_ser then read_u8 else mret 0);
  if negb (flag =? 0) then
    rd_fail (BadResponse (str "tcp: column '" ++ name ++ str "' uses custom serialization flag " ++ show flag ++
      str " -- only normal (0) is supported"))
  else mret (name, type_name).

(** [read_empty_data_block_schema]. *)
Definition read_empty_data_block_schema (num_columns server_revision : Z) : Read (list (text * text)) :=
  let has_custom_ser := since DBMS_MIN_PROTOCOL_VERSION_WITH_CUSTOM_SERIALIZATION server_revision in
  let capacity := num_columns in
  if try_reserve (capacity * (2 * sizeof_Vec)) then
    rd_repeat (Z.to_nat num_columns) (read_schema_entry has_custom_ser)
  else
    rd_fail (BadResponse (str "tcp: cannot reserve " ++ show capacity ++ str " columns: " ++
      try_reserve_error (capacity * (2 * sizeof_Vec)))).

(** [consume_telemetry_block]. *)
Definition consume_telemetry_block (server_revision : Z) : Read unit :=
  '(_, num_columns, num_rows) ← read_data_block_header server_revision;
  if num_rows =? 0 then
    _ ← read_empty_data_block_schema num_columns server_revision; mret tt
  else
    _ ← decode_block num_columns num_rows server_revision; mret tt.

(** The shared [Data], [Totals] and [Extremes] arm of [read_packet]. *)
Definition read_data_packet (server_revision : Z) : Read ServerPacket :=
  '(table_name, num_columns, num_rows) ← read_data_block_header server_revision;
  if num_rows =? 0 then
    columns ← read_empty_data_block_schema num_columns server_revision;
    mret (Sp.Data table_name num_columns num_rows columns)
  else
    block ← decode_block num_columns num_rows server_revision;
    mret (Sp.DataBlock block).

(** [read_packet]. *)
Definition read_packet (server_revision : Z) : Read ServerPacket :=
  packet_type ← read_var_uint;
  id ← rd_lift (from_u64 packet_type);
  match id with
  | Sid.Data | Sid.Totals | Sid.Extremes => read_data_packet server_revision
  | Sid.Exception => exc ← read_exception; mret (Sp.Exception exc)
  | Sid.Progress => p ← read_progress server_revision; mret (Sp.Progress p)
  | Sid.ProfileInfo => p ← read_profile_info server_revision; mret (Sp.ProfileInfo p)
  | Sid.Pong => mret Sp.Pong
  | Sid.EndOfStream => mret Sp.EndOfStream
  | Sid.Log => _ ← consume_telemetry_block server_revision; mret Sp.Log
  | Sid.TableColumns => t ← read_table_columns; mret (Sp.TableColumns t)
  | Sid.ProfileEvents => _ ← consume_telemetry_block server_revision; mret Sp.ProfileEvents
  | Sid.TimezoneUpdate => s ← read_utf8_string; mret (Sp.TimezoneUpdate s)
  | Sid.Hello => rd_fail (BadResponse (str "tcp: unexpected server packet " ++ server_id_debug id ++ str " mid-stream"))
  end.

(** ** Framing *)

Lemma framed_read_u8 : framed read_u8.
Proof. apply framed_read_le. Qed.

Lemma framed_read_exception : framed read_exception.
Proof. pose proof framed_read_u8. unfold read_exception. framed_auto. Qed.

Lemma framed_read_password_rules : framed read_password_rules.
Proof. unfold read_password_rules. framed_auto. Qed.

#[local] Hint Resolve framed_read_u8 framed_read_exception framed_read_password_rules : framed.

Lemma framed_read_hello_body : framed read_hello_body.
Proof. unfold read_hello_body. framed_auto. Qed.

#[local] Hint Resolve framed_read_hello_body : framed.

Lemma framed_read_hello : framed read_hello.
Proof. unfold read_hello. framed_auto. Qed.

Lemma framed_read_progress r : framed (read_progress r).
Proof. unfold read_progress. framed_auto. Qed.

Lemma framed_read_profile_info r : framed (read_profile_info r).
Proof. unfold read_profile_info. framed_auto. Qed.

Lemma framed_read_data_block_header r : framed (read_data_block_header r).
Proof. unfold read_data_block_header. framed_auto. Qed.

Lemma framed_read_schema_entry b : framed (read_schema_entry b).
Proof. unfold read_schema_entry. framed_auto. Qed.

#[local] Hint Resolve framed_read_progress framed_read_profile_info framed_read_data_block_header
  framed_read_schema_entry : framed.

Lemma framed_read_schema n r : framed (read_empty_data_block_schema n r).
Proof. unfold read_empty_data_block_schema. framed_auto. Qed.

#[local] Hint Resolve framed_read_schema : framed.

Lemma framed_telemetry r : framed (consume_telemetry_block r).
Proof. unfold consume_telemetry_block. framed_auto. Qed.

Lemma framed_read_data_packet r : framed (read_data_packet r).
Proof. unfold read_data_packet. framed_auto. Qed.

#[local] Hint Resolve framed_telemetry framed_read_data_packet : framed.

Lemma framed_read_packet r : framed (read_packet r).
Proof. unfold read_packet, read_table_columns. framed_auto. Qed.

(** ** Bounds *)

Lemma yields_var_uint : yields read_var_uint (fun v => 0 <= v < 2 ^ 64).
Proof. intros bs v rest Hr. apply read_var_uint_bounds in Hr. tauto. Qed.

Lemma yields_data_block_header r :
  yields (read_data_block_header r) (fun '(_, nc, n) => 0 <= nc <= READER_MAX_BLOCK_COLUMNS /\ 0 <= n < 2 ^ 64).
Proof.
  unfold read_data_block_header. do 2 (apply yields_bind_; intros ?).
  eapply yields_bind; [apply yields_var_uint|]. intros nc Hnc.
  destruct (Z.ltb_spec READER_MAX_BLOCK_COLUMNS nc); [apply yields_fail|].
  eapply yields_bind; [apply yields_var_uint|]. intros n Hn. apply yields_ret. cbn beta in *. split; lia.
Qed.

(** The blocks of a packet are within the caps. *)
Definition bounded_packet (p : ServerPacket) : Prop :=
  match p with
  | Sp.Data _ nc n cols => n = 0 /\ Z.of_nat (length cols) = nc /\ nc <= READER_MAX_BLOCK_COLUMNS
  | Sp.DataBlock b =>
      0 < num_rows b <= MAX_BLOCK_ROWS /\ Z.of_nat (length (columns b)) <= READER_MAX_BLOCK_COLUMNS /\
      length (schema b) = length (columns b)
  | Sp.Exception e => (length (Exc.stack_trace e) <= TCP_EXCEPTION_STACK_TRACE_CAP)%nat
  | _ => True
  end.

Lemma yields_decode_block nc n r :
  0 <= nc -> yields (decode_block nc n r) (fun b => num_rows b = n /\ n <= MAX_BLOCK_ROWS /\
    Z.of_nat (length (columns b)) = nc /\ length (schema b) = length (columns b)).
Proof.
  intros Hnc. unfold decode_block. cbv zeta.
  destruct (Z.ltb_spec MAX_BLOCK_COLUMNS nc); [apply yields_fail|].
  destruct (Z.ltb_spec MAX_BLOCK_ROWS n); [apply yields_fail|]. do 2 (apply yields_bind_; intros ?).
  eapply yields_bind; [intros bs l rest Hr; exact (rd_repeat_length _ _ _ _ _ Hr)|].
  intros l Hl. apply yields_ret. cbn [num_rows columns schema]. cbn beta in Hl. rewrite !length_map. split_and!; lia.
Qed.

Lemma truncate_le s cap : (length (truncate_on_char_boundary s cap) <= cap)%nat.
Proof.
  unfold truncate_on_char_boundary. destruct (Nat.leb_spec (length s) cap); [done|].
  rewrite length_take. assert (Hb : forall n, (boundary_below s n <= n)%nat); [|pose proof (Hb cap); lia].
  induction n as [|n IH]; [done|]. cbn [boundary_below]. destruct (is_char_boundary s (S n)); lia.
Qed.

Lemma yields_data_packet r : yields (read_data_packet r) bounded_packet.
Proof.
  unfold read_data_packet. eapply yields_bind; [apply yields_data_block_header|].
  intros [[tbl nc] n] [Hnc Hn]. destruct (Z.eqb_spec n 0) as [->|Hz].
  - unfold read_empty_data_block_schema. cbv zeta. destruct (try_reserve _); [|intros bs a rest Hr; discriminate Hr].
    eapply yields_bind; [intros bs l rest Hr; exact (rd_repeat_length _ _ _ _ _ Hr)|].
    intros cols Hl. apply yields_ret. cbn beta in Hl. cbn [bounded_packet]. lia.
  - eapply yields_bind; [apply yields_decode_block; lia|]. intros b Hb. apply yields_ret. cbn beta in Hb.
    cbn [bounded_packet]. lia.
Qed.

Lemma yields_packet r : yields (read_packet r) bounded_packet.
Proof.
  unfold read_packet. apply yields_bind_; intros ty. apply yields_bind_; intros id.
  destruct id; try apply yields_fail; try apply yields_data_packet;
    try (by apply yields_ret); try (apply yields_bind_; intros ?; by apply yields_ret).
  apply (yields_bind (fun e => (length (Exc.stack_trace e) <= TCP_EXCEPTION_STACK_TRACE_CAP)%nat));
    [|intros e He; by apply yields_ret].
  unfold read_exception. do 5 (apply yields_bind_; intros ?). apply yields_ret. cbn [Exc.stack_trace].
  rewrite capped_text. apply truncate_le.
Qed.

(** ** The layout of the packets

    What the server puts on the wire, field by field, from the layouts the
    reader's comments cite; the fields of Hello are gated by the negotiated revision. *)

Record WireHello := {
  wh_name : text;
  wh_major : Z;
  wh_minor : Z;
  wh_revision : Z;
  wh_parallel : Z;
  wh_timezone : text;
  wh_display : text;
  wh_patch : Z;
  wh_send : text;
  wh_recv : text;
  wh_rules : list (text * text);
  wh_nonce : list byte
}.

Definition hello_layout (w : WireHello) : list byte :=
  let negotiated := Z.min (wh_revision w) DBMS_TCP_PROTOCOL_VERSION in
  put_var_uint (server_id Sid.Hello) ++
  put_string (wh_name w) ++ put_var_uint (wh_major w) ++ put_var_uint (wh_minor w) ++
  put_var_uint (wh_revision w) ++
  when (54471 <=? negotiated) (put_var_uint (wh_parallel w)) ++
  when (54058 <=? negotiated) (put_string (wh_timezone w)) ++
  when (54372 <=? negotiated) (put_string (wh_display w)) ++
  when (54401 <=? negotiated) (put_var_uint (wh_patch w)) ++
  when (54470 <=? negotiated) (put_string (wh_send w) ++ put_string (wh_recv w)) ++
  when (54461 <=? negotiated) (put_var_uint (Z.of_nat (length (wh_rules w))) ++
    concat (map (fun r => put_string (fst r) ++ put_string (snd r)) (wh_rules w))) ++
  when (54462 <=? negotiated) (wh_nonce w).

Definition exception_layout (e : Exception) (nested : byte) : list byte :=
  put_le 4 (Exc.code e) ++ put_string (Exc.name e) ++ put_string (Exc.message e) ++
  put_string (Exc.stack_trace e) ++ [nested].

(** Text the string reader accepts; a [u64]. *)
Definition sent_text (s : text) : Prop := Z.of_nat (length s) <= MAX_STRING_SIZE /\ utf8_valid s = true.
Definition u64 (z : Z) : Prop := 0 <= z < 2 ^ 64.

Record hello_fits (w : WireHello) : Prop := {
  fits_strings : Forall sent_text [wh_name w; wh_timezone w; wh_display w; wh_send w; wh_recv w];
  fits_ints : Forall u64 [wh_major w; wh_minor w; wh_revision w; wh_parallel w; wh_patch w];
  fits_rules : Forall (fun r => sent_text (fst r) /\ sent_text (snd r)) (wh_rules w);
  fits_count : Z.of_nat (length (wh_rules w)) <= MAX_PASSWORD_COMPLEXITY_RULES;
  fits_nonce : length (wh_nonce w) = 8%nat
}.

(** The fields of Hello that come back. *)
Definition surfaced (w : WireHello) : ServerHello :=
  let negotiated := Z.min (wh_revision w) DBMS_TCP_PROTOCOL_VERSION in
  {| server_name := wh_name w;
     version := (wh_major w, wh_minor w, if 54401 <=? negotiated then wh_patch w else 0);
     revision := wh_revision w;
     timezone := if 54058 <=? negotiated then Some (wh_timezone w) else None;
     display_name := if 54372 <=? negotiated then Some (wh_display w) else None |}.

Hypothesis Halloc : alloc_total.

Lemma reads_text s : sent_text s -> reads read_utf8_string (put_string s) s.
Proof. intros [Hl Hu]. by apply reads_utf8_string. Qed.

Lemma reads_some_text s : sent_text s ->
  reads (s ← read_utf8_string; mret (Some s)) (put_string s) (Some s).
Proof. intros Hs. eapply reads_bind_last; [by apply reads_text|apply reads_ret]. Qed.

Lemma reads_u64_var z : u64 z -> reads read_var_uint (put_var_uint z) z.
Proof. apply reads_var_uint. Qed.

Lemma reads_password_rules rules :
  Forall (fun r => sent_text (fst r) /\ sent_text (snd r)) rules ->
  Z.of_nat (length rules) <= MAX_PASSWORD_COMPLEXITY_RULES ->
  reads read_password_rules (put_var_uint (Z.of_nat (length rules)) ++
    concat (map (fun r => put_string (fst r) ++ put_string (snd r)) rules)) tt.
Proof.
  intros Hr Hc. unfold read_password_rules. unfold MAX_PASSWORD_COMPLEXITY_RULES in *.
  eapply reads_bind; [apply reads_u64_var; unfold u64; lia|].
  rewrite (proj2 (Z.ltb_ge _ _)) by done. rewrite Nat2Z.id.
  eapply reads_bind_last; [|apply reads_ret]. apply (reads_repeat _ _ snd). intros r Hin.
  eapply Forall_forall in Hr as [H1 H2]; [|exact Hin].
  eapply reads_bind; [by apply reads_text|by apply reads_text].
Qed.

Lemma reads_hello w : hello_fits w -> reads read_hello (hello_layout w) (surfaced w).
Proof.
  intros [Hs Hi Hr Hc Hn]. rewrite !Forall_cons in Hs. rewrite !Forall_cons in Hi.
  destruct Hs as (? & ? & ? & ? & ? & _), Hi as (? & ? & ? & ? & ? & _).
  unfold read_hello, hello_layout. cbv zeta. eapply reads_bind; [by apply (reads_u64_var 0)|].
  eapply reads_bind_nil; [by apply reads_lift, (from_u64_id Sid.Hello)|]. unfold read_hello_body.
  eapply reads_bind; [by apply reads_text|]. do 3 (eapply reads_bind; [by apply reads_u64_var|]). cbv zeta.
  eapply reads_bind_gate; [by apply reads_u64_var|]. do 2 (eapply reads_bind_gate; [by apply reads_some_text|]).
  eapply reads_bind_gate; [by apply reads_u64_var|].
  eapply reads_bind_gate; [eapply reads_bind; by apply reads_text|].
  eapply reads_bind_gate; [by apply reads_password_rules|].
  eapply reads_bind_last; [apply reads_gate; rewrite <- Hn; apply reads_exact|]. apply reads_ret.
Qed.

Lemma reads_i32 z : - 2 ^ 31 <= z < 2 ^ 31 -> reads read_i32_le (put_le 4 z) z.
Proof.
  intros Hz tail. unfold read_i32_le, read_le. rewrite !rd_bind_eq.
  assert (Hl : length (put_le 4 z) = 4%nat) by apply length_le_split.
  rewrite <- Hl at 1. rewrite reads_exact. unfold mret, rd_ret, put_le. rewrite le_split_combine_mod.
  change (8 * Z.of_nat 4) with 32. unfold wrap_signed. do 2 f_equal.
  rewrite <- (Z.add_mod_idemp_l (z mod 2 ^ 32)), Z.mod_mod, Z.add_mod_idemp_l by lia.
  rewrite Z.mod_small by lia. lia.
Qed.

(** The exception as the reader keeps it: its trace cut to the cap. *)
Definition trimmed (e : Exception) : Exception :=
  {| Exc.code := Exc.code e; Exc.name := Exc.name e; Exc.message := Exc.message e;
     Exc.stack_trace := truncate_on_char_boundary (Exc.stack_trace e) TCP_EXCEPTION_STACK_TRACE_CAP |}.

Definition exception_fits (e : Exception) : Prop :=
  - 2 ^ 31 <= Exc.code e < 2 ^ 31 /\ Forall sent_text [Exc.name e; Exc.message e; Exc.stack_trace e].

Lemma reads_exception e nested : exception_fits e -> reads read_exception (exception_layout e nested) (trimmed e).
Proof.
  intros [Hc Hs]. rewrite !Forall_cons in Hs. destruct Hs as (? & ? & ? & _).
  unfold read_exception, exception_layout. eapply reads_bind; [by apply reads_i32|].
  do 3 (eapply reads_bind; [by apply reads_text|]). cbv zeta. rewrite capped_text.
  apply (reads_bind_last _ _ _ (u8 nested)); [|apply reads_ret].
  intros tail. unfold read_u8, read_le. rewrite rd_bind_eq. change 1%nat with (length [nested]).
  rewrite reads_exact. unfold mret, rd_ret. do 2 f_equal. unfold le_combine, u8. rewrite Z.shiftl_0_l. apply Z.lor_0_r.
Qed.

Lemma truncate_twice s cap :
  truncate_on_char_boundary (truncate_on_char_boundary s cap) cap = truncate_on_char_boundary s cap.
Proof. apply truncate_idle, truncate_le. Qed.

Lemma into_error_trimmed e : into_error (trimmed e) = into_error e.
Proof. unfold into_error. cbn [trimmed Exc.code Exc.name Exc.message Exc.stack_trace]. by rewrite !capped_text, truncate_twice. Qed.

End packets.

#[export] Hint Resolve framed_read_hello framed_read_packet : framed.

(** ** Properties *)

(** C28: a packet read off the connection consumes exactly its own bytes and is within the caps,
    whatever its kind and whatever the server sent: the bytes after it change nothing, so
    the next packet is read from where this one ended; a schema block carries one entry per declared column and no
    rows, a data block at least one row and at most [MAX_BLOCK_ROWS], both at most 16384 columns, an exception a trace of
    at most a mebibyte. *)
Theorem packet_framed `{Platform} `{FloatText} rev bs p rest :
  read_packet rev bs = Ok (p, rest) ->
  bounded_packet p /\
  exists used, bs = used ++ rest /\ used <> [] /\
    forall tail, read_packet rev (used ++ tail) = Ok (p, tail).
Proof.
  intros Hr. split; [by eapply yields_packet|]. destruct (framed_read_packet rev bs p rest Hr) as (used & -> & Hu).
  exists used. split_and!; [done| |exact Hu]. intros ->.
  assert (Hn : read_packet rev ([] ++ []) = Err eof) by reflexivity. rewrite Hu in Hn. discriminate.
Qed.

(** A schema block of one column, and a byte after it. *)
Lemma packet_framed_witness :
  let p := Sp.Data (Some []) 1 0 [(str "n", str "UInt64")] in
  let bs := [x01; x00; x01; x00; x02; xff; xff; xff; xff; x00; x01; x00] ++ put_string (str "n") ++ put_string (str "UInt64") ++ [x00] in
  bounded_packet p /\
  exists used, bs ++ [x2a] = used ++ [x2a] /\ used <> [] /\
    forall tail, @read_packet roomy no_floats 54473 (used ++ tail) = Ok (p, tail).
Proof. intros p bs. refine (@packet_framed roomy no_floats 54473 (bs ++ [x2a]) p [x2a] _). vm_compute. reflexivity. Defined.

(** whatever the bytes, a packet that is accepted is within the caps: a schema block
    carries one entry per declared column and no rows, a data block at least one row and
    at most [MAX_BLOCK_ROWS], both at most 16384 columns, an exception a trace of at most a mebibyte. *)
Theorem packet_bounded `{Platform} `{FloatText} rev bs p rest :
  read_packet rev bs = Ok (p, rest) -> bounded_packet p.
Proof. apply yields_packet. Qed.

Lemma packet_bounded_witness :
  bounded_packet (Sp.Data (Some []) 1 0 [(str "n", str "UInt64")]).
Proof.
  refine (@packet_bounded roomy no_floats 54473
    ([x01; x00; x01; x00; x02; xff; xff; xff; xff; x00; x01; x00] ++ put_string (str "n") ++ put_string (str "UInt64") ++
      [x00]) _ [] _).
  vm_compute. reflexivity.
Defined.

(** the handshake reader understands every server Hello of the protocol, at every
    revision below, at or above the one the client advertises, and returns its
    fields with the ones below their gate absent; an exception in its place becomes its flat error;
    any other packet is refused. *)
Theorem hello_understood `{Platform} `{FloatText} w e nested tail :
  alloc_total -> hello_fits w -> exception_fits e ->
  read_hello (hello_layout w ++ tail) = Ok (surfaced w, tail) /\
  read_hello (put_var_uint (server_id Sid.Exception) ++ exception_layout e nested ++ tail) = Err (into_error e) /\
  (forall id more, id <> Sid.Hello -> id <> Sid.Exception ->
     exists why, read_hello (put_var_uint (server_id id) ++ more) = Err (BadResponse why)).
Proof.
  intros Ha Hw He. split_and!.
  - by apply reads_hello.
  - unfold read_hello. rewrite rd_bind_eq, (reads_u64_var 2) by (unfold u64; lia).
    change (from_u64 2) with (Ok (E := Error) Sid.Exception). unfold rd_lift. rewrite !rd_bind_eq.
    rewrite (reads_exception Ha e nested He). unfold rd_fail. by rewrite into_error_trimmed.
  - intros id more H1 H2. unfold read_hello.
    rewrite rd_bind_eq, (reads_u64_var (server_id id)) by (destruct id; unfold u64; simpl; lia).
    unfold rd_lift. rewrite rd_bind_eq, from_u64_id. destruct id; try done; by eexists.
Qed.

Definition wire_hello_example : WireHello :=
  {| wh_name := str "ClickHouse"; wh_major := 25; wh_minor := 8; wh_revision := 54484; wh_parallel := 7;
     wh_timezone := str "UTC"; wh_display := str "node-1"; wh_patch := 3; wh_send := str "chunked";
     wh_recv := str "chunked"; wh_rules := [(str ".{8}", str "too short")]; wh_nonce := replicate 8 x2a |}.

Lemma hello_understood_witness :
  @read_hello roomy (hello_layout wire_hello_example ++ [x01]) =
    Ok ({| server_name := str "ClickHouse"; version := (25, 8, 3); revision := 54484;
           timezone := Some (str "UTC"); display_name := Some (str "node-1") |}, [x01]).
Proof.
  refine (proj1 (@hello_understood roomy no_floats wire_hello_example
    {| Exc.code := 516; Exc.name := str "AUTH"; Exc.message := str "no"; Exc.stack_trace := [] |} x00 [x01] _ _ _)).
  - done.
  - split; [each; (split; [vm_compute; discriminate|reflexivity]) | each; vm_compute; split; congruence
      | each; split; split; [vm_compute; discriminate|reflexivity|vm_compute; discriminate|reflexivity]
      | vm_compute; discriminate | reflexivity].
  - split; [simpl; lia|]. each; (split; [vm_compute; discriminate|reflexivity]).
Defined.
