(* ===== verification/Requests.v ===== *)
(** * Writing client packets and the handshake

    Models [src/tcp/writer.rs], [src/tcp/client_info.rs] and
    [src/tcp/handshake.rs]. A writer appends to the connection, so a packet
    writer is the bytes it appends and whether it gave up half way; a failing
    socket is the business of the connection actor. Properties: the server-side reading of
    a Query packet, written here from the wire's layout, recovers the request. *)

From S2P Require Import Prelude Text Errors WireIo ColTypes Json Columns Decode Encode Protocol Packets.

(** ** Writers *)

Definition Writes : Type := list byte * Result unit.

Definition wr (bs : list byte) : Writes := (bs, Ok tt).
Definition wr_err (e : Error) : Writes := ([], Err e).

(** [a.await?; b]. *)
Definition wr_then (a b : Writes) : Writes :=
  match snd a with
  | Ok _ => (fst a ++ fst b, snd b)
  | Err _ => a
  end.
Notation "a '>>>' b" := (wr_then a b) (at level 60, right associativity).

(** ** Client info *)

Definition QUERY_KIND_INITIAL_QUERY : Z := 1.
Definition INTERFACE_TYPE_TCP : Z := 1.

Record ClientInfo := {
  query_kind : Z;
  initial_user : text;
  initial_query_id : text;
  initial_address : text;
  os_user : text;
  client_hostname : text;
  client_name : text;
  client_version_major : Z;
  client_version_minor : Z;
  client_version_patch : Z;
  client_revision : Z;
  interface : Z;
  ci_quota_key : text;
  distributed_depth : Z
}.

(** [ClientInfo::for_initial_query]. *)
Definition for_initial_query (name : text) (major minor revision : Z) (quota_key : text) : ClientInfo :=
  {| query_kind := QUERY_KIND_INITIAL_QUERY;
     initial_user := [];
     initial_query_id := [];
     initial_address := str "[::ffff:127.0.0.1]:0";
     os_user := [];
     client_hostname := [];
     client_name := name;
     client_version_major := major;
     client_version_minor := minor;
     client_version_patch := 0;
     client_revision := revision;
     interface := INTERFACE_TYPE_TCP;
     ci_quota_key := quota_key;
     distributed_depth := 0 |}.

Definition write_u8 (z : Z) : list byte := put_le 1 z.
Definition write_i32_le (z : Z) : list byte := put_le 4 z.
Definition write_i64_le (z : Z) : list byte := put_le 8 z.

(** [ClientInfo::write_to]. *)
Definition write_to (self : ClientInfo) (server_revision : Z) : list byte :=
  write_u8 (query_kind self) ++
  write_string (initial_user self) ++
  write_string (initial_query_id self) ++
  write_string (initial_address self) ++
  when (since DBMS_MIN_PROTOCOL_VERSION_WITH_INITIAL_QUERY_START_TIME server_revision) (write_i64_le 0) ++
  write_u8 (interface self) ++
  write_string (os_user self) ++
  write_string (client_hostname self) ++
  write_string (client_name self) ++
  write_var_uint (client_version_major self) ++
  write_var_uint (client_version_minor self) ++
  write_var_uint (client_revision self) ++
  when (since DBMS_MIN_REVISION_WITH_QUOTA_KEY_IN_CLIENT_INFO server_revision) (write_string (ci_quota_key self)) ++
  when (since DBMS_MIN_PROTOCOL_VERSION_WITH_DISTRIBUTED_DEPTH server_revision)
    (write_var_uint (distributed_depth self)) ++
  when (since DBMS_MIN_REVISION_WITH_VERSION_PATCH server_revision) (write_var_uint (client_version_patch self)) ++
  when (since DBMS_MIN_REVISION_WITH_OPENTELEMETRY server_revision) (write_u8 0) ++
  when (since DBMS_MIN_PROTOCOL_VERSION_WITH_PARALLEL_REPLICAS server_revision)
    (write_var_uint 0 ++ write_var_uint 0 ++ write_var_uint 0).

(** ** Packets *)

Definition CLIENT_NAME : text := str "ClickHouse rust-client".

(** The crate's version is 0.1.0. *)
Definition client_version_major_const : Z := 0.
Definition client_version_minor_const : Z := 1.

Definition SETTING_FLAG_CUSTOM : Z := 2.

(** [send_hello]. *)
Definition send_hello (database user password : text) : list byte :=
  write_var_uint (client_id Cid.Hello) ++
  write_string CLIENT_NAME ++
  write_var_uint client_version_major_const ++
  write_var_uint client_version_minor_const ++
  write_var_uint DBMS_TCP_PROTOCOL_VERSION ++
  write_string database ++
  write_string user ++
  write_string password.

(** [send_addendum]. *)
Definition send_addendum (server_revision : Z) (quota_key : text) : list byte :=
  let effective := effective server_revision in
  when (since DBMS_MIN_PROTOCOL_VERSION_WITH_ADDENDUM effective) (write_string quota_key) ++
  when (since DBMS_MIN_PROTOCOL_VERSION_WITH_CHUNKED_PACKETS effective)
    (write_string (str "notchunked") ++ write_string (str "notchunked")) ++
  when (since DBMS_MIN_REVISION_WITH_VERSIONED_PARALLEL_REPLICAS_PROTOCOL effective) (write_var_uint 0).

(** One entry of the settings or of the parameters section. *)
Definition write_setting (flags : Z) (entry : text * text) : list byte :=
  write_string (fst entry) ++ write_var_uint flags ++ write_string (snd entry).

Definition write_settings (flags : Z) (entries : list (text * text)) : list byte :=
  concat (map (write_setting flags) entries).

Definition settings_too_old : Error :=
  Other (BoxMsg (str "tcp: cannot send query settings to server older than 20.1.2.4 (revision 54429); upgrade the server or drop the settings")).
Definition params_too_old : Error :=
  Other (BoxMsg (str "tcp: server revision predates bound query parameters (revision 54459); upgrade the server or inline the values")).

(** [!v.is_empty()]. *)
Definition some_entries (l : list (text * text)) : bool :=
  match l with
  | [] => false
  | _ => true
  end.

(** [send_query]. *)
Definition send_query (server_revision : Z) (query_id query : text) (extra_settings params : list (text * text))
    (client_info : ClientInfo) : Writes :=
  wr (write_var_uint (client_id Cid.Query) ++ write_string query_id ++
      when (since DBMS_MIN_REVISION_WITH_CLIENT_INFO server_revision) (write_to client_info server_revision)) >>>
  (if since DBMS_MIN_REVISION_WITH_SETTINGS_SERIALIZED_AS_STRINGS server_revision
   then wr (write_settings 0 extra_settings)
   else if some_entries extra_settings then wr_err settings_too_old else wr []) >>>
  wr (write_string [] ++
      when (since DBMS_MIN_PROTOCOL_VERSION_WITH_INTERSERVER_EXTERNALLY_GRANTED_ROLES (effective server_revision))
        (write_string []) ++
      when (since DBMS_MIN_REVISION_WITH_INTERSERVER_SECRET server_revision) (write_string []) ++
      write_var_uint QueryProcessingStage_Complete ++
      write_var_uint 0 ++
      write_string query) >>>
  (if since DBMS_MIN_PROTOCOL_VERSION_WITH_PARAMETERS server_revision
   then wr (write_settings SETTING_FLAG_CUSTOM params ++ write_string [])
   else if some_entries params then wr_err params_too_old else wr []).

(** [send_data_block]. *)
Definition send_data_block (server_revision : Z) (table_name : text) (column_bytes : list byte)
    (num_columns num_rows : Z) : list byte :=
  write_var_uint (client_id Cid.Data) ++
  when (since DBMS_MIN_REVISION_WITH_TEMPORARY_TABLES server_revision) (write_string table_name) ++
  when (since DBMS_MIN_REVISION_WITH_BLOCK_INFO server_revision)
    (write_var_uint 1 ++ write_u8 0 ++ write_var_uint 2 ++ write_i32_le (-1) ++ write_var_uint 0) ++
  write_var_uint num_columns ++
  write_var_uint num_rows ++
  column_bytes.

(** [send_empty_block], [send_cancel], [send_ping]. *)
Definition send_empty_block (server_revision : Z) : list byte := send_data_block server_revision [] [] 0 0.
Definition send_cancel : list byte := write_var_uint (client_id Cid.Cancel).
Definition send_ping : list byte := write_var_uint (client_id Cid.Ping).

(** ** Handshake *)

Record HandshakeConfig := {
  database : text;
  user : text;
  password : text;
  quota_key : text
}.

Definition HandshakeConfig_default : HandshakeConfig :=
  {| database := str "default"; user := str "default"; password := []; quota_key := [] |}.

(** The hand-written [Debug], [debug_str] the standard library's quoting of a string: the password is not in it. *)
Definition handshake_config_debug (debug_str : text -> text) (cfg : HandshakeConfig) : text :=
  str "HandshakeConfig { database: " ++ debug_str (database cfg) ++ str ", user: " ++ debug_str (user cfg) ++
  str ", password: " ++ debug_str (str "<redacted>") ++ str ", quota_key: " ++ debug_str (quota_key cfg) ++ str " }".

(** [handshake]: the bytes written, and the outcome with what is left to read. *)
Definition handshake `{Platform} (cfg : HandshakeConfig) (incoming : list byte)
    : list byte * Result (ServerHello * list byte) :=
  let sent := send_hello (database cfg) (user cfg) (password cfg) in
  match read_hello incoming with
  | Ok (hello, rest) => (sent ++ send_addendum (revision hello) (quota_key cfg), Ok (hello, rest))
  | Err e => (sent, Err e)
  end.

(** ** The negotiated revision

    No gate lies above the revision the client advertises, so the raw
    revision of the server and the negotiated one pass the same gates. *)

Lemma since_effective gate r : gate <= DBMS_TCP_PROTOCOL_VERSION -> since gate (effective r) = since gate r.
Proof.
  intros Hg. unfold since, effective. destruct (Z.leb_spec gate r), (Z.leb_spec gate (Z.min r DBMS_TCP_PROTOCOL_VERSION)); try done; lia.
Qed.

Lemma pin_value : DBMS_TCP_PROTOCOL_VERSION = 54473.
Proof. reflexivity. Qed.

Lemma effective_idem r : effective (effective r) = effective r.
Proof. unfold effective. lia. Qed.

Lemma write_to_effective info r : write_to info (effective r) = write_to info r.
Proof.
  unfold write_to. rewrite !since_effective; [done|..]; unfold DBMS_TCP_PROTOCOL_VERSION; vm_compute; discriminate.
Qed.

(** ** The server's side

    The reading order of the server for what a client sends, as the writer's
    comments cite it, on the negotiated revision [neg]. *)

(** A section of [(name, flags, value)] entries ends at an empty name. *)
Definition server_section `{Platform} : Read (list (text * Z * text)) :=
  rd_loop eof (fun acc =>
    name ← read_string;
    match name with
    | [] => mret (inr acc)
    | _ => flags ← read_var_uint; value ← read_string; mret (inl (acc ++ [(name, flags, value)]))
    end) [].

Definition server_client_info `{Platform} (neg : Z) : Read ClientInfo :=
  kind ← read_u8;
  user ← read_string; qid ← read_string; addr ← read_string;
  _ ← (if 54449 <=? neg then read_u64_le else mret 0);
  iface ← read_u8;
  os ← read_string; host ← read_string; name ← read_string;
  major ← read_var_uint; minor ← read_var_uint; rev ← read_var_uint;
  quota ← (if 54060 <=? neg then read_string else mret []);
  depth ← (if 54448 <=? neg then read_var_uint else mret 0);
  patch ← (if 54401 <=? neg then read_var_uint else mret 0);
  _ ← (if 54442 <=? neg then read_u8 else mret 0);
  _ ← (if 54453 <=? neg then _ ← read_var_uint; _ ← read_var_uint; read_var_uint else mret 0);
  mret {| query_kind := kind; initial_user := user; initial_query_id := qid; initial_address := addr;
          os_user := os; client_hostname := host; client_name := name; client_version_major := major;
          client_version_minor := minor; client_version_patch := patch; client_revision := rev;
          interface := iface; ci_quota_key := quota; distributed_depth := depth |}.

Record Request := {
  rq_id : text;
  rq_info : option ClientInfo;
  rq_settings : list (text * Z * text);
  rq_stage : Z;
  rq_compression : Z;
  rq_query : text;
  rq_params : list (text * Z * text)
}.

Definition server_query `{Platform} (neg : Z) : Read Request :=
  qid ← read_string;
  info ← (if 54032 <=? neg then i ← server_client_info neg; mret (Some i) else mret None);
  settings ← server_section;
  _ ← (if 54472 <=? neg then read_string else mret []);
  _ ← (if 54441 <=? neg then read_string else mret []);
  stage ← read_var_uint;
  compression ← read_var_uint;
  query ← read_string;
  params ← (if 54459 <=? neg then server_section else mret []);
  mret {| rq_id := qid; rq_info := info; rq_settings := settings; rq_stage := stage;
          rq_compression := compression; rq_query := query; rq_params := params |}.

Definition server_hello `{Platform} : Read (text * Z * text * text * text) :=
  name ← read_string; _ ← read_var_uint; _ ← read_var_uint;
  rev ← read_var_uint;
  db ← read_string; user ← read_string; password ← read_string;
  mret (name, rev, db, user, password).

Definition server_addendum `{Platform} (neg : Z) : Read text :=
  quota ← (if 54458 <=? neg then read_string else mret []);
  modes ← (if 54470 <=? neg then a ← read_string; b ← read_string; mret [a; b] else mret []);
  _ ← (if 54471 <=? neg then read_var_uint else mret 0);
  if forallb (fun m => bool_decide (m = str "notchunked")) modes then mret quota
  else rd_fail (BadResponse (str "chunked")).

(** ** Reading back *)

Definition short (s : text) : Prop := Z.of_nat (length s) <= MAX_STRING_SIZE.
Definition entry_fits (e : text * text) : Prop := fst e <> [] /\ short (fst e) /\ short (snd e).

Record info_fits (i : ClientInfo) : Prop := {
  info_strings : Forall short [initial_user i; initial_query_id i; initial_address i; os_user i;
    client_hostname i; client_name i; ci_quota_key i];
  info_ints : Forall u64 [client_version_major i; client_version_minor i; client_version_patch i;
    client_revision i; distributed_depth i];
  info_bytes : 0 <= query_kind i < 256 /\ 0 <= interface i < 256
}.

(** What the server learns of the client info: the fields above their gates. *)
Definition info_seen (neg : Z) (i : ClientInfo) : ClientInfo :=
  {| query_kind := query_kind i; initial_user := initial_user i; initial_query_id := initial_query_id i;
     initial_address := initial_address i; os_user := os_user i; client_hostname := client_hostname i;
     client_name := client_name i; client_version_major := client_version_major i;
     client_version_minor := client_version_minor i;
     client_version_patch := if 54401 <=? neg then client_version_patch i else 0;
     client_revision := client_revision i; interface := interface i;
     ci_quota_key := if 54060 <=? neg then ci_quota_key i else [];
     distributed_depth := if 54448 <=? neg then distributed_depth i else 0 |}.

Section server.
Context `{Platform}.
Hypothesis Halloc : alloc_total.

Lemma reads_short s : short s -> reads read_string (write_string s) s.
Proof. intros Hs. by apply reads_string. Qed.

Lemma reads_u8_put z : 0 <= z < 256 -> reads read_u8 (write_u8 z) z.
Proof. intros Hz. apply (reads_le 1). done. Qed.

Lemma reads_varint z : u64 z -> reads read_var_uint (write_var_uint z) z.
Proof. apply reads_var_uint. Qed.

Lemma reads_client_info neg i : info_fits i -> reads (server_client_info neg) (write_to i neg) (info_seen neg i).
Proof.
  intros [Hs Hi [Hk Hf]]. rewrite !Forall_cons in Hs. rewrite !Forall_cons in Hi.
  destruct Hs as (? & ? & ? & ? & ? & ? & ? & _), Hi as (? & ? & ? & ? & ? & _).
  assert (Hz : u64 0) by (unfold u64; lia).
  unfold server_client_info, write_to. eapply reads_bind; [by apply reads_u8_put|].
  do 3 (eapply reads_bind; [by apply reads_short|]).
  eapply reads_bind_gate; [apply (reads_le 8 0); lia|]. eapply reads_bind; [by apply reads_u8_put|].
  do 3 (eapply reads_bind; [by apply reads_short|]). do 3 (eapply reads_bind; [by apply reads_varint|]).
  eapply reads_bind_gate; [by apply reads_short|]. do 2 (eapply reads_bind_gate; [by apply reads_varint|]).
  eapply reads_bind_gate; [by apply (reads_u8_put 0)|].
  eapply reads_bind_last; [apply reads_gate; do 2 (eapply reads_bind; [by apply reads_varint|]); by apply reads_varint|].
  apply reads_ret.
Qed.

(** A section of named entries reads back as it was written. *)
Lemma section_loop flags entries acc fuel tail :
  u64 flags -> Forall entry_fits entries -> (length entries < fuel)%nat ->
  rd_loop_fuel eof (fun acc =>
    name ← read_string;
    match name with
    | [] => mret (inr acc)
    | _ => flags ← read_var_uint; value ← read_string; mret (inl (acc ++ [(name, flags, value)]))
    end) fuel acc (write_settings flags entries ++ write_string [] ++ tail) =
  Ok (acc ++ map (fun e => (fst e, flags, snd e)) entries, tail).
Proof.
  intros Hf Hall. revert acc fuel; induction Hall as [|[nm v] es (Hne & Hn & Hv) Hall IH]; intros acc fuel Hfuel.
  - cbn [write_settings map concat app]. rewrite app_nil_r. apply rd_loop_fuel_reads_break; [|simpl in Hfuel; lia].
    eapply reads_bind_last; [by apply (reads_short []); unfold short, MAX_STRING_SIZE; simpl; lia|apply reads_ret].
  - destruct fuel as [|fuel]; [simpl in Hfuel; lia|]. cbn [fst snd] in *.
    assert (He : write_settings flags ((nm, v) :: es) ++ write_string [] ++ tail =
      write_setting flags (nm, v) ++ write_settings flags es ++ write_string [] ++ tail).
    { unfold write_settings. cbn [map concat]. by rewrite <- app_assoc. }
    rewrite He. cbn [rd_loop_fuel].
    assert (Hr : reads (name ← read_string;
      match name with
      | [] => mret (inr acc)
      | _ => flags ← read_var_uint; value ← read_string; mret (inl (acc ++ [(name, flags, value)]))
      end) (write_setting flags (nm, v)) (inl (acc ++ [(nm, flags, v)]) : _ + list (text * Z * text))).
    { unfold write_setting. eapply reads_bind; [by apply reads_short|]. cbn [fst snd]. destruct nm as [|b nm]; [done|].
      eapply reads_bind; [by apply reads_varint|]. eapply reads_bind_last; [by apply reads_short|apply reads_ret]. }
    rewrite rd_bind_eq, Hr. rewrite IH by (simpl in Hfuel; lia). cbn [map fst snd]. by rewrite <- app_assoc.
Qed.

Lemma write_string_pos s : (0 < length (write_string s))%nat.
Proof.
  unfold write_string. rewrite (length_app (write_var_uint _) s).
  pose proof (encode_var_uint_nonempty (Z.of_nat (length s))). unfold write_var_uint. lia.
Qed.

Lemma settings_length flags es : (length es <= length (write_settings flags es))%nat.
Proof.
  induction es as [|[nm v] es IH]; [done|].
  change (write_settings flags ((nm, v) :: es)) with (write_setting flags (nm, v) ++ write_settings flags es).
  rewrite (length_app (write_setting flags (nm, v))).
  change (write_setting flags (nm, v)) with (write_string nm ++ write_var_uint flags ++ write_string v).
  rewrite (length_app (write_string nm)). pose proof (write_string_pos nm). cbn [length]. lia.
Qed.

Lemma reads_section flags entries :
  u64 flags -> Forall entry_fits entries ->
  reads server_section (write_settings flags entries ++ write_string [])
    (map (fun e => (fst e, flags, snd e)) entries).
Proof.
  intros Hf Hall tail. unfold server_section, rd_loop. rewrite <- app_assoc.
  rewrite section_loop; [done|done|done|].
  rewrite (length_app (write_settings flags entries)). pose proof (settings_length flags entries). lia.
Qed.

Lemma reads_empty : reads read_string (write_string []) [].
Proof. apply reads_short. unfold short, MAX_STRING_SIZE. simpl. lia. Qed.

(** The four writes of a query that went through. *)
Lemma send_query_ok rev qid q settings params info bs :
  send_query rev qid q settings params info = (bs, Ok tt) ->
  (settings <> [] -> 54429 <= rev) /\ (params <> [] -> 54459 <= rev) /\
  bs = write_var_uint 1 ++ write_string qid ++ when (54032 <=? effective rev) (write_to info (effective rev)) ++
    write_settings 0 settings ++ write_string [] ++
    when (54472 <=? effective rev) (write_string []) ++ when (54441 <=? effective rev) (write_string []) ++
    write_var_uint 2 ++ write_var_uint 0 ++ write_string q ++
    when (54459 <=? effective rev) (write_settings SETTING_FLAG_CUSTOM params ++ write_string []).
Proof.
  rewrite write_to_effective. intros Hs. unfold send_query in Hs.
  change (54032 <=? effective rev) with (since DBMS_MIN_REVISION_WITH_CLIENT_INFO (effective rev)).
  change (54472 <=? effective rev)
    with (since DBMS_MIN_PROTOCOL_VERSION_WITH_INTERSERVER_EXTERNALLY_GRANTED_ROLES (effective rev)).
  change (54441 <=? effective rev) with (since DBMS_MIN_REVISION_WITH_INTERSERVER_SECRET (effective rev)).
  change (54459 <=? effective rev) with (since DBMS_MIN_PROTOCOL_VERSION_WITH_PARAMETERS (effective rev)).
  rewrite !since_effective in * by (vm_compute; discriminate).
  unfold since, DBMS_MIN_REVISION_WITH_SETTINGS_SERIALIZED_AS_STRINGS, DBMS_MIN_PROTOCOL_VERSION_WITH_PARAMETERS in *.
  unfold wr_then, wr, wr_err in Hs.
  destruct (Z.leb_spec 54429 rev) as [H1|H1], (Z.leb_spec 54459 rev) as [H2|H2]; cbn [fst snd] in Hs;
    [|destruct params|lia|destruct settings, params]; cbn [some_entries fst snd] in Hs; try discriminate Hs;
    (split; [intros ?; done || lia|]); (split; [intros ?; done || lia|]);
    apply (f_equal fst) in Hs; cbn [fst] in Hs; rewrite <- Hs; cbn [when write_settings map concat app];
    rewrite <- ?app_assoc, ?app_nil_r; reflexivity.
Qed.

End server.

(** ** Properties *)

(** C7: a Query packet says exactly what was asked: the server, reading in its own
    order on the negotiated revision, finds the query id, the client info above its
    gates, every setting, the query text and every bound parameter, and the
    packet ends where the next one starts. So no query id, setting value, query text
    or parameter value, whatever bytes it holds, can be taken for another part of the packet. *)
Theorem query_understood `{Platform} rev qid q settings params info bs tail :
  alloc_total -> short qid -> short q -> info_fits info ->
  Forall entry_fits settings -> Forall entry_fits params ->
  send_query rev qid q settings params info = (bs, Ok tt) ->
  let neg := Z.min rev DBMS_TCP_PROTOCOL_VERSION in
  (id ← read_var_uint; r ← server_query neg; mret (id, r)) (bs ++ tail) =
  Ok ((client_id Cid.Query,
       {| rq_id := qid; rq_info := if 54032 <=? neg then Some (info_seen neg info) else None;
          rq_settings := map (fun e => (fst e, 0, snd e)) settings; rq_stage := QueryProcessingStage_Complete;
          rq_compression := 0; rq_query := q;
          rq_params := map (fun e => (fst e, SETTING_FLAG_CUSTOM, snd e)) params |}), tail).
Proof.
  intros Ha Hid Hq Hi Hs Hp Hsend. cbv zeta. apply send_query_ok in Hsend as (_ & Hpar & ->).
  fold (effective rev). set (neg := effective rev).
  assert (Hpn : (if 54459 <=? neg then map (fun e => (fst e, SETTING_FLAG_CUSTOM, snd e)) params else []) =
    map (fun e => (fst e, SETTING_FLAG_CUSTOM, snd e)) params).
  { destruct params as [|e params]; [by destruct (_ <=? _)|]. specialize (Hpar ltac:(done)).
    rewrite (proj2 (Z.leb_le _ _)); [done|]. unfold neg, effective. rewrite pin_value. lia. }
  revert tail. change (reads (id ← read_var_uint; r ← server_query neg; mret (id, r))
    (write_var_uint 1 ++ write_string qid ++ when (54032 <=? neg) (write_to info neg) ++
     write_settings 0 settings ++ write_string [] ++ when (54472 <=? neg) (write_string []) ++
     when (54441 <=? neg) (write_string []) ++ write_var_uint 2 ++ write_var_uint 0 ++ write_string q ++
     when (54459 <=? neg) (write_settings SETTING_FLAG_CUSTOM params ++ write_string []))
    (client_id Cid.Query, {| rq_id := qid; rq_info := if 54032 <=? neg then Some (info_seen neg info) else None;
          rq_settings := map (fun e => (fst e, 0, snd e)) settings; rq_stage := QueryProcessingStage_Complete;
          rq_compression := 0; rq_query := q;
          rq_params := map (fun e => (fst e, SETTING_FLAG_CUSTOM, snd e)) params |})).
  eapply reads_bind; [by apply (reads_varint 1)|]. eapply reads_bind_last; [|apply reads_ret].
  rewrite <- Hpn. unfold server_query. eapply reads_bind; [by apply reads_short|].
  eapply reads_bind_gate; [eapply reads_bind_last; [by apply reads_client_info|apply reads_ret]|].
  rewrite (app_assoc (write_settings 0 settings)). eapply reads_bind; [by apply reads_section|].
  do 2 (eapply reads_bind_gate; [by apply reads_empty|]).
  eapply reads_bind; [by apply (reads_varint 2)|]. eapply reads_bind; [by apply (reads_varint 0)|].
  eapply reads_bind; [by apply reads_short|].
  eapply reads_bind_last; [apply reads_gate; by apply reads_section|]. apply reads_ret.
Qed.

(** The client info the connection actor sends, for a server at 54484. *)
Definition info_example : ClientInfo := for_initial_query CLIENT_NAME 0 1 54484 [].

Lemma info_example_fits : info_fits info_example.
Proof.
  split; [each; vm_compute; discriminate | each; vm_compute; split; congruence | vm_compute; split; split; congruence].
Qed.

Lemma query_understood_witness :
  let settings := [(str "database", str "default")] in
  let params := [(str "db", str "'x'")] in
  let bs := fst (send_query 54484 (str "q1") (str "SELECT 1") settings params info_example) in
  (id ← read_var_uint; r ← @server_query roomy 54473; mret (id, r)) (bs ++ [xff]) =
  Ok ((1, {| rq_id := str "q1"; rq_info := Some info_example; rq_settings := [(str "database", 0, str "default")];
             rq_stage := 2; rq_compression := 0; rq_query := str "SELECT 1";
             rq_params := [(str "db", 2, str "'x'")] |}), [xff]).
Proof.
  intros settings params bs.
  refine (@query_understood roomy 54484 (str "q1") (str "SELECT 1") settings params info_example bs [xff]
    _ _ _ _ _ _ _).
  - done.
  - vm_compute. discriminate.
  - vm_compute. discriminate.
  - exact info_example_fits.
  - each. split; [done|split; vm_compute; discriminate].
  - each. split; [done|split; vm_compute; discriminate].
  - vm_compute. reflexivity.
Defined.

(** a request an old server cannot carry is refused, never trimmed: a query goes out
    whole exactly when its settings and its parameters have a place on the wire; refused
    settings leave only the packet's head on the wire (no query text), and the error names the reason. *)
Theorem query_refused rev qid q settings params info :
  (snd (send_query rev qid q settings params info) = Ok tt <->
     (settings <> [] -> 54429 <= rev) /\ (params <> [] -> 54459 <= rev)) /\
  (settings <> [] -> rev < 54429 ->
     send_query rev qid q settings params info =
       (write_var_uint 1 ++ write_string qid ++
          when (since DBMS_MIN_REVISION_WITH_CLIENT_INFO rev) (write_to info rev), Err settings_too_old)) /\
  ((settings <> [] -> 54429 <= rev) -> params <> [] -> rev < 54459 ->
     snd (send_query rev qid q settings params info) = Err params_too_old).
Proof.
  unfold send_query, since, DBMS_MIN_REVISION_WITH_SETTINGS_SERIALIZED_AS_STRINGS,
    DBMS_MIN_PROTOCOL_VERSION_WITH_PARAMETERS, wr_then, wr, wr_err.
  split_and!.
  - destruct settings, params, (Z.leb_spec 54429 rev), (Z.leb_spec 54459 rev); cbn [some_entries fst snd];
      (split; [intros Hx; try discriminate Hx; split; intros Hn; done || lia | intros [H1 H2]; try reflexivity]);
      exfalso; first [specialize (H1 ltac:(done)); lia | specialize (H2 ltac:(done)); lia].
  - intros Hne Hlt. destruct settings; [done|]. rewrite (proj2 (Z.leb_gt 54429 rev)) by done.
    cbn [some_entries fst snd app]. rewrite (app_nil_r (_ ++ _)). reflexivity.
  - intros H1 Hne Hlt. destruct params; [done|]. rewrite (proj2 (Z.leb_gt 54459 rev)) by done.
    destruct settings; [|rewrite (proj2 (Z.leb_le 54429 rev)) by (apply H1; done)]; cbn [some_entries fst snd]; [|done].
    by destruct (_ <=? _).
Qed.

(** ** Negotiation *)

(** the lower of the two revisions governs: for every packet read and every packet
    written, passing the server's raw revision, as the connection does, is the
    same as passing the negotiated one, since no gate lies above the advertised revision. *)
Theorem negotiated_revision_governs `{Platform} `{FloatText} rev :
  (forall bs, read_packet rev bs = read_packet (effective rev) bs) /\
  (forall qid q settings params info,
     send_query rev qid q settings params info = send_query (effective rev) qid q settings params info) /\
  (forall tbl body nc n, send_data_block rev tbl body nc n = send_data_block (effective rev) tbl body nc n) /\
  (forall key, send_addendum rev key = send_addendum (effective rev) key).
Proof.
  assert (Hg : forall gate, gate <= 54473 -> since gate (effective rev) = since gate rev) by (intros gate Hgate; by apply since_effective).
  set (custom := DBMS_MIN_PROTOCOL_VERSION_WITH_CUSTOM_SERIALIZATION).
  split_and!.
  - intros bs. unfold read_packet, read_progress, read_profile_info, consume_telemetry_block, read_data_packet,
      read_data_block_header, read_empty_data_block_schema, decode_block. fold custom.
    change (custom <=? effective rev) with (since custom (effective rev)).
    change (custom <=? rev) with (since custom rev).
    by rewrite effective_idem, !Hg by (vm_compute; discriminate).
  - intros. unfold send_query. by rewrite effective_idem, write_to_effective, !Hg by (vm_compute; discriminate).
  - intros. unfold send_data_block. by rewrite !Hg by (vm_compute; discriminate).
  - intros. unfold send_addendum. by rewrite effective_idem.
Qed.

(** C27: the handshake ends in agreement: against a server that sends any Hello of the
    protocol the client returns its fields with the stream at the next packet; the server
    reads the client's name, its advertised revision and the credentials, and on the negotiated revision the
    quota key and the refusal of chunked framing, with nothing left over; a
    server that answers with an exception is sent nothing after Hello. *)
Theorem handshake_agrees `{Platform} `{FloatText} cfg w e nested tail :
  alloc_total -> hello_fits w -> exception_fits e ->
  short (database cfg) -> short (user cfg) -> short (password cfg) -> short (quota_key cfg) ->
  let neg := Z.min (wh_revision w) DBMS_TCP_PROTOCOL_VERSION in
  (exists sent, handshake cfg (hello_layout w ++ tail) = (sent, Ok (surfaced w, tail)) /\
     (id ← read_var_uint; h ← server_hello; key ← server_addendum neg; mret (id, h, key)) sent =
       Ok ((client_id Cid.Hello, (CLIENT_NAME, DBMS_TCP_PROTOCOL_VERSION, database cfg, user cfg, password cfg),
            if 54458 <=? neg then quota_key cfg else []), [])) /\
  handshake cfg (put_var_uint (server_id Sid.Exception) ++ exception_layout e nested ++ tail) =
    (send_hello (database cfg) (user cfg) (password cfg), Err (into_error e)).
Proof.
  intros Ha Hw He Hdb Hus Hpw Hqk. cbv zeta. fold (effective (wh_revision w)). set (neg := effective _).
  pose proof (reads_hello Ha w Hw tail) as Hr. split.
  - unfold handshake. rewrite Hr. eexists. split; [reflexivity|].
    assert (Hall : reads (id ← read_var_uint; h ← server_hello; key ← server_addendum neg; mret (id, h, key))
      (send_hello (database cfg) (user cfg) (password cfg) ++ send_addendum (wh_revision w) (quota_key cfg))
      (client_id Cid.Hello, (CLIENT_NAME, DBMS_TCP_PROTOCOL_VERSION, database cfg, user cfg, password cfg),
        if 54458 <=? neg then quota_key cfg else [])).
    { unfold send_hello. rewrite <- !app_assoc. eapply reads_bind; [by apply (reads_varint 0)|].
      rewrite !app_assoc. eapply reads_bind.
      - unfold server_hello. rewrite <- !app_assoc. eapply reads_bind; [by apply reads_short|].
        do 3 (eapply reads_bind; [apply reads_varint; vm_compute; split; congruence|]).
        do 2 (eapply reads_bind; [by apply reads_short|]). eapply reads_bind_last; [by apply reads_short|apply reads_ret].
      - eapply reads_bind_last; [|apply reads_ret]. unfold server_addendum, send_addendum.
        eapply reads_bind_gate; [by apply reads_short|].
        eapply reads_bind_gate.
        { eapply reads_bind; [by apply reads_short|]. eapply reads_bind_last; [by apply reads_short|apply reads_ret]. }
        eapply reads_bind_last; [apply reads_gate; by apply (reads_varint 0)|].
        replace (forallb _ _) with true by (by destruct (since _ _)). apply reads_ret. }
    specialize (Hall []). rewrite app_nil_r in Hall. exact Hall.
  - unfold handshake, read_hello. rewrite rd_bind_eq, (reads_u64_var 2) by (unfold u64; lia).
    change (from_u64 2) with (Ok (E := Error) Sid.Exception). unfold rd_lift. rewrite !rd_bind_eq.
    rewrite (reads_exception Ha e nested He). unfold rd_fail. by rewrite into_error_trimmed.
Qed.

Lemma handshake_agrees_witness :
  exists sent, @handshake roomy HandshakeConfig_default (hello_layout wire_hello_example ++ [x04]) =
    (sent, Ok (surfaced wire_hello_example, [x04])).
Proof.
  edestruct (@handshake_agrees roomy no_floats HandshakeConfig_default wire_hello_example
    {| Exc.code := 516; Exc.name := str "AUTH"; Exc.message := str "no"; Exc.stack_trace := [] |} x00 [x04])
    as [(sent & Hs & _) _]; [done| | |by vm_compute..|].
  - split; [each; (split; [vm_compute; discriminate|reflexivity]) | each; vm_compute; split; congruence
      | each; split; split; [vm_compute; discriminate|reflexivity|vm_compute; discriminate|reflexivity]
      | vm_compute; discriminate | reflexivity].
  - split; [simpl; lia|]. each; (split; [vm_compute; discriminate|reflexivity]).
  - exists sent. exact Hs.
Defined.





