(* ===== verification/Exchange.v ===== *)
(** * A block across the wire

    [writer::send_data_block] against [reader::read_packet]: the frame of a
    block, and the whole way of rows from the encoder to a decoded packet. *)

From S2P Require Import Prelude Text Errors WireIo ColTypes Json Columns Decode Encode RoundTrip Agree Blocks Protocol Packets Requests.

Section frame.
Context `{Platform} `{FloatText}.
Hypothesis Halloc : alloc_total.

(** What follows the packet id in a Data packet. *)
Definition frame (rev : Z) (tbl : text) (body : list byte) (nc n : Z) : list byte :=
  when (since DBMS_MIN_REVISION_WITH_TEMPORARY_TABLES rev) (write_string tbl) ++
  when (since DBMS_MIN_REVISION_WITH_BLOCK_INFO rev)
    (write_var_uint 1 ++ write_u8 0 ++ write_var_uint 2 ++ write_i32_le (-1) ++ write_var_uint 0) ++
  write_var_uint nc ++ write_var_uint n ++ body.

Lemma data_packet_frame rev tbl body nc n :
  send_data_block rev tbl body nc n = write_var_uint (client_id Cid.Data) ++ frame rev tbl body nc n.
Proof. reflexivity. Qed.

Lemma reads_block_info :
  reads read_block_info (write_var_uint 1 ++ write_u8 0 ++ write_var_uint 2 ++ write_i32_le (-1) ++ write_var_uint 0) tt.
Proof. intros tail. reflexivity. Qed.

Lemma reads_header rev tbl nc n :
  sent_text tbl -> 0 <= nc <= READER_MAX_BLOCK_COLUMNS -> u64 n ->
  reads (read_data_block_header rev) (frame rev tbl [] nc n)
    (if since DBMS_MIN_REVISION_WITH_TEMPORARY_TABLES rev then Some tbl else None, nc, n).
Proof.
  intros Ht Hnc Hn. unfold read_data_block_header, frame. rewrite app_nil_r.
  eapply reads_bind_gate; [by apply reads_some_text|]. eapply reads_bind_gate; [apply reads_block_info|].
  eapply reads_bind; [apply reads_varint; unfold u64, READER_MAX_BLOCK_COLUMNS in *; lia|].
  rewrite (proj2 (Z.ltb_ge _ _)) by lia. eapply reads_bind_last; [by apply reads_varint|apply reads_ret].
Qed.

Lemma frame_body rev tbl body nc n : frame rev tbl body nc n = frame rev tbl [] nc n ++ body.
Proof. unfold frame. rewrite app_nil_r, <- !app_assoc. reflexivity. Qed.

(** A frame behind the server's id of a block packet. *)
Lemma framed_block rev tbl body nc n tail p id :
  id = Sid.Data \/ id = Sid.Totals \/ id = Sid.Extremes ->
  sent_text tbl -> 0 <= nc <= READER_MAX_BLOCK_COLUMNS -> u64 n ->
  (if n =? 0 then
     columns ← read_empty_data_block_schema nc rev;
     mret (Sp.Data (if since DBMS_MIN_REVISION_WITH_TEMPORARY_TABLES rev then Some tbl else None) nc n columns)
   else block ← decode_block nc n rev; mret (Sp.DataBlock block)) (body ++ tail) = Ok (p, tail) ->
  read_packet rev (write_var_uint (server_id id) ++ frame rev tbl body nc n ++ tail) = Ok (p, tail).
Proof.
  intros Hid Ht Hnc Hn Hbody. unfold read_packet.
  rewrite rd_bind_eq, (reads_varint (server_id id)) by (destruct id; unfold u64; simpl; lia).
  unfold rd_lift. rewrite rd_bind_eq, from_u64_id.
  assert (Hp : read_data_packet rev (frame rev tbl body nc n ++ tail) = Ok (p, tail)).
  { unfold read_data_packet. rewrite rd_bind_eq, frame_body, <- app_assoc.
    rewrite (reads_header rev tbl nc n Ht Hnc Hn). exact Hbody. }
  destruct Hid as [->|[->| ->]]; exact Hp.
Qed.

(** A Data packet of encoded rows, under any server id of a block. *)
Lemma reads_block_packet cols rows rev tbl id :
  Forall sendable cols -> cols <> [] -> rows <> [] ->
  Forall (enc_all2 enc_cell (map (fun c => wire_type_of (col_type c)) cols)) rows ->
  Z.of_nat (length (concat (concat rows))) <= MAX_COLUMN_BYTES ->
  Z.of_nat (length cols) <= READER_MAX_BLOCK_COLUMNS -> Z.of_nat (length rows) <= MAX_BLOCK_ROWS ->
  sent_text tbl -> id = Sid.Data \/ id = Sid.Totals \/ id = Sid.Extremes ->
  exists out, encode_columns (map (@concat byte) rows) cols rev = Ok out /\
    (Z.of_nat (length out) < 2 ^ 64 ->
     exists b,
       reads (read_packet rev)
         (write_var_uint (server_id id) ++ frame rev tbl out (Z.of_nat (length cols)) (Z.of_nat (length rows)))
         (Sp.DataBlock b) /\
       num_rows b = Z.of_nat (length rows) /\ carries rows 0 cols (zip (schema b) (columns b))).
Proof.
  intros Hs Hc Hr Hrows Hb Hnc Hn Ht Hid. unfold READER_MAX_BLOCK_COLUMNS in Hnc.
  destruct (block_read_back Halloc cols rows rev []) as (out & Henc & Hdec);
    [done..|unfold MAX_BLOCK_COLUMNS; lia|done|].
  exists out. split; [exact Henc|]. intros Hout. destruct (Hdec Hout) as (b & Hb' & Hnum & Hcar).
  exists b. split; [|done].
  assert (Hne : 0 < Z.of_nat (length rows)) by (destruct rows; [done|cbn [length]; lia]).
  assert (Hread : read_packet rev (write_var_uint (server_id id) ++
      frame rev tbl out (Z.of_nat (length cols)) (Z.of_nat (length rows)) ++ []) = Ok (Sp.DataBlock b, [])).
  { apply framed_block; [done|done|unfold READER_MAX_BLOCK_COLUMNS; lia|unfold u64, MAX_BLOCK_ROWS in *; lia|].
    rewrite (proj2 (Z.eqb_neq _ _)) by lia. by rewrite rd_bind_eq, Hb'. }
  rewrite app_nil_r in Hread. destruct (framed_read_packet rev _ _ _ Hread) as (used & Heq & Hu).
  rewrite app_nil_r in Heq. rewrite Heq. exact Hu.
Qed.

End frame.

(** ** Properties *)

(** rows go across the wire unharmed, frame included: the Data packet the client
    writes for encoded rows, sent back by a server under its own id (as data, totals or
    extremes), is read as a block of as many rows with exactly the cells, at
    every revision, and the stream is left at the next packet. *)
Theorem rows_across_the_wire `{Platform} `{FloatText} cols rows rev tbl id tail :
  alloc_total -> Forall sendable cols -> cols <> [] -> rows <> [] ->
  Forall (enc_all2 enc_cell (map (fun c => wire_type_of (col_type c)) cols)) rows ->
  Z.of_nat (length (concat (concat rows))) <= MAX_COLUMN_BYTES ->
  Z.of_nat (length cols) <= READER_MAX_BLOCK_COLUMNS -> Z.of_nat (length rows) <= MAX_BLOCK_ROWS ->
  sent_text tbl -> id = Sid.Data \/ id = Sid.Totals \/ id = Sid.Extremes ->
  exists out, encode_columns (map (@concat byte) rows) cols rev = Ok out /\
    (Z.of_nat (length out) < 2 ^ 64 ->
     exists payload b,
       send_data_block rev tbl out (Z.of_nat (length cols)) (Z.of_nat (length rows)) =
         write_var_uint (client_id Cid.Data) ++ payload /\
       read_packet rev (write_var_uint (server_id id) ++ payload ++ tail) = Ok (Sp.DataBlock b, tail) /\
       num_rows b = Z.of_nat (length rows) /\ carries rows 0 cols (zip (schema b) (columns b))).
Proof.
  intros Ha Hs Hc Hr Hrows Hb Hnc Hn Ht Hid.
  destruct (reads_block_packet Ha cols rows rev tbl id) as (out & Henc & Hread); [done..|].
  exists out. split; [exact Henc|]. intros Hout. destruct (Hread Hout) as (b & Hb' & Hcar).
  eexists. exists b. split; [apply data_packet_frame|]. split; [|exact Hcar]. rewrite app_assoc. apply Hb'.
Qed.

Lemma rows_across_the_wire_witness :
  exists out, encode_columns (map (@concat byte) example_rows) example_cols 54484 = Ok out /\
    (Z.of_nat (length out) < 2 ^ 64 ->
     exists payload b,
       send_data_block 54484 [] out 3 2 = write_var_uint (client_id Cid.Data) ++ payload /\
       @read_packet roomy no_floats 54484 (write_var_uint (server_id Sid.Totals) ++ payload ++ [x05]) =
         Ok (Sp.DataBlock b, [x05]) /\
       num_rows b = 2 /\ carries example_rows 0 example_cols (zip (schema b) (columns b))).
Proof.
  refine (@rows_across_the_wire roomy no_floats example_cols example_rows 54484 [] Sid.Totals [x05] _ _ _ _ _ _ _ _ _ _);
    [done|exact example_sendable|done|done|exact example_cells|vm_compute; discriminate..| |right; by left].
  split; [vm_compute; discriminate|reflexivity].
Defined.

(** the empty block that ends an INSERT has no columns, no rows and no body: read by
    the same reader it is a schema block of nothing, and the stream is at the next packet. *)
Theorem empty_block_is_empty `{Platform} `{FloatText} rev tail :
  alloc_total ->
  exists payload, send_empty_block rev = write_var_uint (client_id Cid.Data) ++ payload /\
    read_packet rev (write_var_uint (server_id Sid.Data) ++ payload ++ tail) =
      Ok (Sp.Data (if since DBMS_MIN_REVISION_WITH_TEMPORARY_TABLES rev then Some [] else None) 0 0 [], tail).
Proof.
  intros Ha. eexists. split; [apply data_packet_frame|].
  apply framed_block; [done|by left| |unfold READER_MAX_BLOCK_COLUMNS; lia|unfold u64; lia|reflexivity].
  split; [unfold MAX_STRING_SIZE; simpl; lia|reflexivity].
Qed.

Lemma empty_block_is_empty_witness :
  exists payload, send_empty_block 54473 = write_var_uint 2 ++ payload /\
    @read_packet roomy no_floats 54473 (write_var_uint 1 ++ payload ++ [x05]) =
      Ok (Sp.Data (Some []) 0 0 [], [x05]).
Proof. refine (@empty_block_is_empty roomy no_floats 54473 [x05] _). done. Defined.
