(* ===== verification/Actor.v ===== *)
(** * The connection actor

    Models [src/tcp/connection_actor.rs]: the command handlers of the actor,
    its INSERT state, its poison flag and the reader task that feeds it. What
    the actor cannot decide (a write finishing or failing, a packet arriving, a timer, a
    caller dropping its end) is a script of events; a handler is a function of
    the connection and the script, and waits when the script has run out.
    Properties: commands never see each other's answers, poison is one-way
    and stops the wire, a connection that is not poisoned has written whole packets only. *)

From S2P Require Import Prelude Text Errors WireIo ColTypes Json Columns Decode Encode Protocol Packets Requests.

(** ** State *)

Inductive ActorState := Idle | InsertActive.

#[global] Instance ActorState_eq_dec : EqDecision ActorState.
Proof. solve_decision. Defined.

Module Rm.
Inductive ReaderMessage := Packet (p : ServerPacket) | Error (e : Errors.Error).
End Rm.
Abbreviation ReaderMessage := Rm.ReaderMessage.

Module Cmd.
Inductive ConnectionCmd :=
| Ping
| ExecuteQuery (query_id query : text) (extra_settings params : list (text * text))
| BeginInsert (query_id query : text) (extra_settings params : list (text * text))
| SendInsertBlock (column_bytes : list byte) (num_columns num_rows : Z)
| FinishInsert
| ExecuteStream (query_id query : text) (extra_settings params : list (text * text)).
End Cmd.
Abbreviation ConnectionCmd := Cmd.ConnectionCmd.

(** What is sent to the caller's end of a command: the one reply of a oneshot
    channel, or the items of a stream. *)
Inductive Reply :=
| ToCaller (r : Result unit)
| ToInsert (r : Result (list (text * text)))
| ToStream (r : Result ServerPacket).

(** The actor's fields. [inbox] holds the messages the reader task has decoded and
    the actor has not taken yet; [wire] is every byte given to the writer;
    [replies] what the callers were sent. *)
Record Actor := {
  hello : ServerHello;
  poisoned : bool;
  state : ActorState;
  read_timeout : option Z;
  actor_quota_key : text;
  inbox : list ReaderMessage;
  wire : list byte;
  replies : list Reply
}.

Definition set_poisoned (c : Actor) : Actor :=
  {| hello := hello c; poisoned := true; state := state c; read_timeout := read_timeout c;
     actor_quota_key := actor_quota_key c; inbox := inbox c; wire := wire c; replies := replies c |}.
Definition set_state (st : ActorState) (c : Actor) : Actor :=
  {| hello := hello c; poisoned := poisoned c; state := st; read_timeout := read_timeout c;
     actor_quota_key := actor_quota_key c; inbox := inbox c; wire := wire c; replies := replies c |}.
Definition put_wire (bs : list byte) (c : Actor) : Actor :=
  {| hello := hello c; poisoned := poisoned c; state := state c; read_timeout := read_timeout c;
     actor_quota_key := actor_quota_key c; inbox := inbox c; wire := wire c ++ bs; replies := replies c |}.
Definition put_reply (r : Reply) (c : Actor) : Actor :=
  {| hello := hello c; poisoned := poisoned c; state := state c; read_timeout := read_timeout c;
     actor_quota_key := actor_quota_key c; inbox := inbox c; wire := wire c; replies := replies c ++ [r] |}.
Definition set_inbox (ms : list ReaderMessage) (c : Actor) : Actor :=
  {| hello := hello c; poisoned := poisoned c; state := state c; read_timeout := read_timeout c;
     actor_quota_key := actor_quota_key c; inbox := ms; wire := wire c; replies := replies c |}.

(** ** Events

    What an await of the actor can be woken by; an event the await does not watch
    passes it by. [Arrives] hands over the first message of the inbox, [Closes] is the
    end of the reader task, seen once the inbox is empty. [Poisons] is another holder of the flag setting it: the reader task,
    the handle, a dropped guard. *)
Module Ev.
Inductive Event :=
| WriteOk
| WriteErr (written : nat) (e : Error)
| WriteStall (written : nat)
| Arrives
| Closes
| Nothing
| Elapses
| CallerGone
| Taken
| Poisons.
End Ev.
Abbreviation Event := Ev.Event.

(** An action: the connection it leaves, the events it has not seen, and its
    value, or [None] while it is still waiting. *)
Definition Act (A : Type) : Type := Actor -> list Event -> Actor * list Event * option A.

#[global] Instance act_ret : MRet Act := fun A a c s => (c, s, Some a).
#[global] Instance act_bind : MBind Act := fun A B f m c s =>
  match m c s with
  | (c', s', Some a) => f a c' s'
  | (c', s', None) => (c', s', None)
  end.

Definition modify (f : Actor -> Actor) : Act unit := fun c s => (f c, s, Some tt).
Definition gets {A} (f : Actor -> A) : Act A := fun c s => (c, s, Some (f c)).
Definition poison : Act unit := modify set_poisoned.
Definition reply (r : Reply) : Act unit := modify (put_reply r).

(** Wait for an event [watch] responds to. *)
Fixpoint await_loop {A} (watch : Event -> Actor -> option (Actor * A)) (c : Actor) (s : list Event)
    : Actor * list Event * option A :=
  match s with
  | [] => (c, [], None)
  | ev :: s' =>
      match watch ev c with
      | Some (c', a) => (c', s', Some a)
      | None => await_loop watch (match ev with Ev.Poisons => set_poisoned c | _ => c end) s'
      end
  end.
Definition await {A} (watch : Event -> Actor -> option (Actor * A)) : Act A := await_loop watch.

(** [loop { ... }]: a turn breaks with a value or goes round. Every turn waits
    for an event, so the length of the script is fuel enough ([act_loop_eq]). *)
Fixpoint act_loop_fuel {A} (fuel : nat) (turn : Act (option A)) : Act A :=
  match fuel with
  | O => fun c s => (c, s, None)
  | S fuel' =>
      r ← turn;
      match r with
      | Some a => mret a
      | None => act_loop_fuel fuel' turn
      end
  end.
Definition act_loop {A} (turn : Act (option A)) : Act A := fun c s => act_loop_fuel (S (length s)) turn c s.

(** ** Awaits *)

(** A socket write: all of it, or a part and an error. *)
Definition write (w : Writes) : Act (Result unit) := await (fun ev c =>
  match ev with
  | Ev.WriteOk => Some (put_wire (fst w) c, snd w)
  | Ev.WriteErr k e => Some (put_wire (take k (fst w)) c, Err e)
  | _ => None
  end).

(** [bounded_io] around a write. *)
Definition bounded_io (w : Writes) : Act (Result unit) := await (fun ev c =>
  match ev with
  | Ev.WriteOk => Some (put_wire (fst w) c, snd w)
  | Ev.WriteErr k e => Some (put_wire (take k (fst w)) c, Err e)
  | Ev.WriteStall k =>
      match read_timeout c with
      | Some _ => Some (put_wire (take k (fst w)) c, Err TimedOut)
      | None => None
      end
  | _ => None
  end).

(** [pkt_rx.recv()]: the next message, [None] once the channel is closed. *)
Definition recv (ev : Event) (c : Actor) : option (Actor * option ReaderMessage) :=
  match ev, inbox c with
  | Ev.Arrives, m :: ms => Some (set_inbox ms c, Some m)
  | Ev.Closes, [] => Some (c, None)
  | _, _ => None
  end.

Inductive QueryEvent :=
| Gone
| IdleFired
| Message (m : option ReaderMessage).

Definition received (o : option (Actor * option ReaderMessage)) : option (Actor * QueryEvent) :=
  match o with
  | Some (c, m) => Some (c, Message m)
  | None => None
  end.

(** The select of the query loops: the caller first, then the timer, then the channel. *)
Definition query_event : Act QueryEvent := await (fun ev c =>
  match ev with
  | Ev.CallerGone => Some (c, Gone)
  | Ev.Elapses => Some (c, IdleFired)
  | _ => received (recv ev c)
  end).

(** [next_packet]: the same without a caller to watch. *)
Definition next_packet : Act QueryEvent := await (fun ev c =>
  match ev with
  | Ev.Elapses => Some (c, IdleFired)
  | _ => received (recv ev c)
  end).

(** [pkt_rx.try_recv()]: [None] when nothing is queued. *)
Definition try_recv : Act (option (option ReaderMessage)) := await (fun ev c =>
  match ev with
  | Ev.Nothing => Some (c, None)
  | _ => match recv ev c with
         | Some (c, m) => Some (c, Some m)
         | None => None
         end
  end).

(** [results.send(item).await]: whether the item was taken. *)
Definition stream_send (item : Result ServerPacket) : Act bool := await (fun ev c =>
  match ev with
  | Ev.Taken => Some (put_reply (ToStream item) c, true)
  | Ev.CallerGone => Some (c, false)
  | _ => None
  end).

(** [idle_timed_out]. *)
Definition idle_timed_out : Act (option Error) :=
  timeout ← gets read_timeout;
  match timeout with
  | None => mret None
  | Some _ => _ ← poison; mret (Some TimedOut)
  end.

Definition MAX_INSERT_BLOCK_BYTES : Z := 512 * 1024 * 1024.

Definition custom (s : string) : Error := Custom (str s).

(** ** Queries *)

(** [client_info_for]. *)
Definition client_info_for (c : Actor) (query_id : text) : ClientInfo :=
  let info := for_initial_query CLIENT_NAME client_version_major_const client_version_minor_const
    (revision (hello c)) (actor_quota_key c) in
  {| query_kind := query_kind info; initial_user := initial_user info;
     initial_query_id := initial_query_id info ++ query_id; initial_address := initial_address info;
     os_user := os_user info; client_hostname := client_hostname info; client_name := client_name info;
     client_version_major := client_version_major info; client_version_minor := client_version_minor info;
     client_version_patch := client_version_patch info; client_revision := client_revision info;
     interface := interface info; ci_quota_key := ci_quota_key info;
     distributed_depth := distributed_depth info |}.

(** [issue_query]. *)
Definition issue_query (query_id query : text) (extra_settings params : list (text * text)) : Act (Result unit) :=
  client_info ← gets (fun c => client_info_for c query_id);
  rev ← gets (fun c => revision (hello c));
  r ← write (send_query rev query_id query extra_settings params client_info);
  match r with
  | Ok _ => write (wr (send_empty_block rev))
  | Err e => mret (Err e)
  end.

(** The connection is torn down: poison and give the error. *)
Definition torn {A} (e : Error) : Act (option (Result A)) := _ ← poison; mret (Some (Err e)).

(** What every loop that returns its result does on a timer that fires. *)
Definition on_idle {A} : Act (option (Result A)) :=
  e ← idle_timed_out;
  match e with
  | Some e => mret (Some (Err e))
  | None => mret None
  end.

(** One turn of the loop of [do_ping]. *)
Definition ping_turn : Act (option (Result unit)) :=
  ev ← next_packet;
  match ev with
  | Message (Some (Rm.Packet Sp.Pong)) => mret (Some (Ok tt))
  | Message (Some (Rm.Packet (Sp.Exception exc))) => mret (Some (Err (into_error exc)))
  | Message (Some (Rm.Packet _)) => mret None
  | Message (Some (Rm.Error e)) => torn e
  | Message None => torn (custom "tcp: reader sub-task exited mid-ping")
  | IdleFired => on_idle
  | Gone => mret None
  end.

(** [do_ping]. *)
Definition do_ping : Act (Result unit) :=
  r ← write (wr send_ping);
  match r with
  | Err e => _ ← poison; mret (Err e)
  | Ok _ => act_loop ping_turn
  end.

(** The drain loop of [drain_to_end_of_stream]; the timer here is [DRAIN_TIMEOUT]. *)
Definition drain_turn : Act (option (Result unit)) :=
  ev ← next_packet;
  match ev with
  | Message (Some (Rm.Packet Sp.EndOfStream)) => mret (Some (Ok tt))
  | Message (Some (Rm.Packet (Sp.Exception exc))) => mret (Some (Err (into_error exc)))
  | Message (Some (Rm.Packet _)) => mret None
  | Message (Some (Rm.Error e)) => torn e
  | Message None => torn (custom "tcp: reader sub-task exited mid-drain")
  | IdleFired => torn (custom "tcp: drain to EndOfStream exceeded 30s timeout")
  | Gone => mret None
  end.

(** [drain_to_end_of_stream]. *)
Definition drain_to_end_of_stream : Act (Result unit) := act_loop drain_turn.

(** [cancel_and_drain]. *)
Definition cancel_and_drain : Act unit :=
  r ← write (wr send_cancel);
  match r with
  | Err _ => poison
  | Ok _ => _ ← drain_to_end_of_stream; mret tt
  end.

(** One turn of the loop of [do_execute_query]. *)
Definition execute_turn : Act (option unit) :=
  let finish r := _ ← reply (ToCaller r); mret (Some tt) in
  ev ← query_event;
  match ev with
  | Gone => _ ← cancel_and_drain; mret (Some tt)
  | IdleFired =>
      e ← idle_timed_out;
      match e with
      | Some e => finish (Err e)
      | None => mret None
      end
  | Message (Some (Rm.Packet Sp.EndOfStream)) => finish (Ok tt)
  | Message (Some (Rm.Packet (Sp.Exception exc))) => finish (Err (into_error exc))
  | Message (Some (Rm.Packet _)) => mret None
  | Message (Some (Rm.Error e)) => _ ← poison; finish (Err e)
  | Message None => _ ← poison; finish (Err (custom "tcp: reader sub-task exited mid-query"))
  end.

(** [do_execute_query]. *)
Definition do_execute_query (query_id query : text) (extra_settings params : list (text * text)) : Act unit :=
  r ← issue_query query_id query extra_settings params;
  match r with
  | Err e => _ ← poison; reply (ToCaller (Err e))
  | Ok _ => act_loop execute_turn
  end.

(** ** INSERT *)

Definition payload_before_schema (num_rows : Z) : Error :=
  BadResponse (str "tcp: server sent payload Data block (num_rows=" ++ show num_rows ++
    str ") before INSERT schema block").
Definition eos_before_schema : Error :=
  BadResponse (str "tcp: server returned EndOfStream before INSERT schema block (was this INSERT ... SELECT?)").

(** One turn of the loop of [do_begin_insert]. *)
Definition begin_turn : Act (option (Result (list (text * text)))) :=
  ev ← next_packet;
  match ev with
  | Message (Some (Rm.Packet (Sp.Data _ _ _ columns))) => mret (Some (Ok columns))
  | Message (Some (Rm.Packet (Sp.DataBlock block))) => torn (payload_before_schema (num_rows block))
  | Message (Some (Rm.Packet (Sp.Exception exc))) => mret (Some (Err (into_error exc)))
  | Message (Some (Rm.Packet Sp.EndOfStream)) => mret (Some (Err eos_before_schema))
  | Message (Some (Rm.Packet _)) => mret None
  | Message (Some (Rm.Error e)) => torn e
  | Message None => torn (custom "tcp: reader sub-task exited mid begin_insert")
  | IdleFired => on_idle
  | Gone => mret None
  end.

(** [do_begin_insert]. *)
Definition do_begin_insert (query_id query : text) (extra_settings params : list (text * text))
    : Act (Result (list (text * text))) :=
  r ← issue_query query_id query extra_settings params;
  match r with
  | Err e => _ ← poison; mret (Err e)
  | Ok _ => act_loop begin_turn
  end.

(** One turn of the [try_recv] loop of [do_send_insert_block]: whether the
    queue was empty, or a reply was given. *)
Definition queued_turn : Act (option bool) :=
  let finish e := _ ← modify (set_state Idle); _ ← reply (ToCaller (Err e)); mret (Some false) in
  m ← try_recv;
  match m with
  | Some (Some (Rm.Packet (Sp.Exception exc))) => finish (into_error exc)
  | Some (Some (Rm.Packet _)) => mret None
  | Some (Some (Rm.Error e)) => _ ← poison; finish e
  | None => mret (Some true)
  | Some None => _ ← poison; finish (custom "tcp: reader sub-task exited mid-INSERT")
  end.

Definition block_too_big (len : Z) : Error :=
  Custom (str "tcp: INSERT block of " ++ show len ++ str " bytes exceeds the " ++ show MAX_INSERT_BLOCK_BYTES ++
    str " byte cap; split the batch into smaller blocks").

(** [do_send_insert_block]. *)
Definition do_send_insert_block (column_bytes : list byte) (num_columns num_rows : Z) : Act unit :=
  let len := Z.of_nat (length column_bytes) in
  if MAX_INSERT_BLOCK_BYTES <? len then reply (ToCaller (Err (block_too_big len)))
  else
    drained ← act_loop queued_turn;
    if (drained : bool) then
      rev ← gets (fun c => revision (hello c));
      result ← bounded_io (wr (send_data_block rev [] column_bytes num_columns num_rows));
      _ ← (if is_ok result then mret tt else _ ← poison; modify (set_state Idle));
      reply (ToCaller result)
    else mret tt.

(** [do_finish_insert]. *)
Definition do_finish_insert : Act (Result unit) :=
  rev ← gets (fun c => revision (hello c));
  r ← bounded_io (wr (send_empty_block rev));
  match r with
  | Err e => _ ← poison; mret (Err e)
  | Ok _ => drain_to_end_of_stream
  end.

(** ** Streams *)

(** One turn of the loop of [do_execute_stream]. *)
Definition stream_turn : Act (option unit) :=
  let finish r := _ ← stream_send r; mret (Some tt) in
  ev ← query_event;
  match ev with
  | Gone => _ ← cancel_and_drain; mret (Some tt)
  | IdleFired =>
      e ← idle_timed_out;
      match e with
      | Some e => finish (Err e)
      | None => mret None
      end
  | Message (Some (Rm.Packet Sp.EndOfStream)) => finish (Ok Sp.EndOfStream)
  | Message (Some (Rm.Packet (Sp.Exception exc))) => finish (Err (into_error exc))
  | Message (Some (Rm.Packet (Sp.Pong | Sp.Log | Sp.ProfileEvents))) => mret None
  | Message (Some (Rm.Packet pkt)) =>
      taken ← stream_send (Ok pkt);
      if (taken : bool) then mret None else _ ← cancel_and_drain; mret (Some tt)
  | Message (Some (Rm.Error e)) => _ ← poison; finish (Err e)
  | Message None => _ ← poison; finish (Err (custom "tcp: reader sub-task exited mid-stream"))
  end.

(** [do_execute_stream]. *)
Definition do_execute_stream (query_id query : text) (extra_settings params : list (text * text)) : Act unit :=
  r ← issue_query query_id query extra_settings params;
  match r with
  | Err e => _ ← poison; _ ← stream_send (Err e); mret tt
  | Ok _ => act_loop stream_turn
  end.

(** ** The command loop *)

Definition refusal : Error := Transient (str "tcp: connection is poisoned; command not sent").

(** [reject_poisoned]. *)
Definition reject_poisoned (cmd : ConnectionCmd) : Act unit :=
  match cmd with
  | Cmd.Ping | Cmd.ExecuteQuery _ _ _ _ | Cmd.SendInsertBlock _ _ _ | Cmd.FinishInsert =>
      reply (ToCaller (Err refusal))
  | Cmd.BeginInsert _ _ _ _ => reply (ToInsert (Err refusal))
  | Cmd.ExecuteStream _ _ _ _ => _ ← stream_send (Err refusal); mret tt
  end.

Definition continues_insert (cmd : ConnectionCmd) : bool :=
  match cmd with
  | Cmd.SendInsertBlock _ _ _ | Cmd.FinishInsert => true
  | _ => false
  end.

(** The state gate of [handle]. *)
Definition dispatch (st : ActorState) (cmd : ConnectionCmd) : Act unit :=
  match st, cmd with
  | InsertActive, (Cmd.Ping | Cmd.ExecuteQuery _ _ _ _) =>
      reply (ToCaller (Err (custom "tcp: actor busy in INSERT")))
  | InsertActive, Cmd.BeginInsert _ _ _ _ => reply (ToInsert (Err (custom "tcp: actor already in INSERT")))
  | InsertActive, Cmd.ExecuteStream _ _ _ _ =>
      _ ← stream_send (Err (custom "tcp: actor busy in INSERT")); mret tt
  | Idle, (Cmd.SendInsertBlock _ _ _ | Cmd.FinishInsert) =>
      reply (ToCaller (Err (custom "tcp: no INSERT session active")))
  | Idle, Cmd.Ping => result ← do_ping; reply (ToCaller result)
  | Idle, Cmd.ExecuteQuery query_id query extra_settings params =>
      do_execute_query query_id query extra_settings params
  | Idle, Cmd.BeginInsert query_id query extra_settings params =>
      result ← do_begin_insert query_id query extra_settings params;
      _ ← (if is_ok result then modify (set_state InsertActive) else mret tt);
      reply (ToInsert result)
  | InsertActive, Cmd.SendInsertBlock column_bytes num_columns num_rows =>
      do_send_insert_block column_bytes num_columns num_rows
  | InsertActive, Cmd.FinishInsert =>
      result ← do_finish_insert;
      _ ← modify (set_state Idle);
      reply (ToCaller result)
  | Idle, Cmd.ExecuteStream query_id query extra_settings params =>
      do_execute_stream query_id query extra_settings params
  end.

(** [handle]. *)
Definition handle (cmd : ConnectionCmd) : Act unit :=
  broken ← gets poisoned;
  if (broken : bool) && negb (continues_insert cmd) then reject_poisoned cmd
  else
    st ← gets state;
    dispatch st cmd.

(** The commands of the channel, one after the other. *)
Fixpoint run_commands (cmds : list ConnectionCmd) : Act unit :=
  match cmds with
  | [] => mret tt
  | cmd :: cmds' => _ ← handle cmd; run_commands cmds'
  end.

(** [spawn_with_config]: the actor over a fresh connection whose reader task
    will hand over [msgs]. *)
Definition spawn (server_hello : ServerHello) (timeout : option Z) (quota_key : text)
    (msgs : list ReaderMessage) : Actor :=
  {| hello := server_hello; poisoned := false; state := Idle; read_timeout := timeout;
     actor_quota_key := quota_key; inbox := msgs; wire := []; replies := [] |}.

(** ** The reader task

    [reader_loop]: the messages it hands over for a stream of bytes. A packet
    takes at least one byte, so the stream's length is fuel enough
    ([reader_loop_eq]). *)
Fixpoint reader_loop_fuel `{Platform} `{FloatText} (fuel : nat) (rev : Z) (bs : list byte) : list ReaderMessage :=
  match fuel with
  | O => []
  | S fuel' =>
      match read_packet rev bs with
      | Ok (pkt, rest) => Rm.Packet pkt :: reader_loop_fuel fuel' rev rest
      | Err e => [Rm.Error e]
      end
  end.
Definition reader_loop `{Platform} `{FloatText} (rev : Z) (bs : list byte) : list ReaderMessage :=
  reader_loop_fuel (S (length bs)) rev bs.

(** [reader_loop] until its receiver is dropped, after [takes] messages: what was handed over, and whether the flag was
    set. A packet no one takes ends the task; an error sets the flag before it is handed over, taken or not. *)
Fixpoint reader_loop_until `{Platform} `{FloatText} (takes fuel : nat) (rev : Z) (bs : list byte) {struct fuel} : list ReaderMessage * bool :=
  match fuel with
  | O => ([], false)
  | S fuel' =>
      match read_packet rev bs, takes with
      | Ok (pkt, rest), O => ([], false)
      | Ok (pkt, rest), S takes' =>
          let '(msgs, poisoned) := reader_loop_until takes' fuel' rev rest in (Rm.Packet pkt :: msgs, poisoned)
      | Err e, O => ([], true)
      | Err e, S _ => ([Rm.Error e], true)
      end
  end.
