(* ===== verification/ActorRules.v ===== *)
(** * Reasoning about the connection actor

    A Hoare logic for the actor's actions ([holds]: what is true of the connection
    when an action has returned, under a restriction on the events of the script)
    and its rules; a second relation ([grows]) that also covers an action still
    waiting. First consequences: poison is one-way and the logs only grow. *)

From S2P Require Import Prelude Text Errors WireIo ColTypes Json Columns Decode Encode Protocol Packets Requests Actor.

(** ** Returned actions *)

Definition holds (ok : Event -> Prop) (P : Actor -> Prop) {A} (m : Act A) (Q : A -> Actor -> Prop) : Prop :=
  forall c s c' s' a, Forall ok s -> P c -> m c s = (c', s', Some a) -> Q a c' /\ Forall ok s'.

(** What is required of a connection only while it is not poisoned. *)
Definition clean (P : Actor -> Prop) (c : Actor) : Prop := poisoned c = false -> P c.

Lemma clean_poisoned P c : clean P (set_poisoned c).
Proof. intros H. discriminate H. Qed.

Section rules.
Context (ok : Event -> Prop).

Lemma holds_ret {A} (P : Actor -> Prop) (Q : A -> Actor -> Prop) a :
  (forall c, P c -> Q a c) -> holds ok P (mret a) Q.
Proof. intros HQ c s c' s' b Hs HP Hm. cbv [mret act_ret] in Hm. simplify_eq. auto. Qed.

Lemma holds_bind {A B} P (R : A -> Actor -> Prop) (Q : B -> Actor -> Prop) (m : Act A) (f : A -> Act B) :
  holds ok P m R -> (forall a, holds ok (R a) (f a) Q) -> holds ok P (m ≫= f) Q.
Proof.
  intros Hm Hf c s c' s' b Hs HP Hr. cbv [mbind act_bind] in Hr. destruct (m c s) as [[c1 s1] [a|]] eqn:E; [|discriminate].
  destruct (Hm _ _ _ _ _ Hs HP E) as [HR Hs1]. exact (Hf a _ _ _ _ _ Hs1 HR Hr).
Qed.

Lemma holds_impl {A} (P P' : Actor -> Prop) (Q Q' : A -> Actor -> Prop) m :
  holds ok P' m Q' -> (forall c, P c -> P' c) -> (forall a c, Q' a c -> Q a c) -> holds ok P m Q.
Proof. intros Hm HP HQ c s c' s' a Hs Hc Hr. destruct (Hm _ _ _ _ _ Hs (HP _ Hc) Hr). auto. Qed.

Lemma holds_pre {A} (P P' : Actor -> Prop) (Q : A -> Actor -> Prop) m :
  holds ok P' m Q -> (forall c, P c -> P' c) -> holds ok P m Q.
Proof. intros Hm HP. eapply holds_impl; eauto. Qed.

(** A proposition that does not depend on the connection comes out of the precondition. *)
Lemma holds_pure {A} (phi : Prop) (P : Actor -> Prop) (Q : A -> Actor -> Prop) m :
  (phi -> holds ok P m Q) -> holds ok (fun c => phi /\ P c) m Q.
Proof. intros Hm c s c' s' a Hs [Hphi HP] Hr. exact (Hm Hphi _ _ _ _ _ Hs HP Hr). Qed.

Lemma holds_modify (P : Actor -> Prop) (Q : unit -> Actor -> Prop) f :
  (forall c, P c -> Q tt (f c)) -> holds ok P (modify f) Q.
Proof. intros HQ c s c' s' [] Hs HP Hm. unfold modify in Hm. simplify_eq. auto. Qed.

Lemma holds_gets {A} (P : Actor -> Prop) (Q : A -> Actor -> Prop) f :
  (forall c, P c -> Q (f c) c) -> holds ok P (gets f) Q.
Proof. intros HQ c s c' s' a Hs HP Hm. unfold gets in Hm. simplify_eq. auto. Qed.

Lemma holds_await {A} (P : Actor -> Prop) (Q : A -> Actor -> Prop) watch :
  (forall c, P c -> P (set_poisoned c)) ->
  (forall ev c c' a, ok ev -> P c -> watch ev c = Some (c', a) -> Q a c') ->
  holds ok P (await watch) Q.
Proof.
  intros Hp HQ c s. revert c; induction s as [|ev s IH]; intros c c' s' a Hs HP Hr; [discriminate|].
  apply Forall_cons in Hs as [Hev Hs]. cbn [await await_loop] in Hr. unfold await in IH.
  cbn [await_loop] in Hr. destruct (watch ev c) as [[c1 b]|] eqn:E.
  - simplify_eq. split; [by eapply HQ|done].
  - eapply IH in Hr; [exact Hr|done|]. destruct ev; auto.
Qed.

Lemma holds_loop_fuel {A} (I : Actor -> Prop) (Q : A -> Actor -> Prop) fuel turn :
  holds ok I turn (fun r c => match r with Some a => Q a c | None => I c end) ->
  holds ok I (act_loop_fuel fuel turn) Q.
Proof.
  intros Ht. induction fuel as [|fuel IH]; [intros c s c' s' a _ _ Hr; discriminate Hr|].
  cbn [act_loop_fuel]. eapply holds_bind; [exact Ht|]. intros [a|]; [by apply holds_ret|exact IH].
Qed.

Lemma holds_loop {A} (I : Actor -> Prop) (Q : A -> Actor -> Prop) turn :
  holds ok I turn (fun r c => match r with Some a => Q a c | None => I c end) ->
  holds ok I (act_loop turn) Q.
Proof. intros Ht c s c' s' a Hs HP Hr. exact (holds_loop_fuel I Q _ turn Ht _ _ _ _ _ Hs HP Hr). Qed.

(** ** The awaits *)

Lemma holds_write (P : Actor -> Prop) (Q : Result unit -> Actor -> Prop) w :
  (forall c, P c -> P (set_poisoned c)) ->
  (forall c, P c -> Q (snd w) (put_wire (fst w) c)) ->
  (forall c k e, P c -> Q (Err e) (put_wire (take k (fst w)) c)) ->
  holds ok P (write w) Q.
Proof. intros Hp HO HE. apply holds_await; [done|]. intros ev c c' a Hev HP Hw. destruct ev; simplify_eq; auto. Qed.

Lemma holds_bounded_io (P : Actor -> Prop) (Q : Result unit -> Actor -> Prop) w :
  (forall c, P c -> P (set_poisoned c)) ->
  (forall c, P c -> Q (snd w) (put_wire (fst w) c)) ->
  (forall c k e, P c -> Q (Err e) (put_wire (take k (fst w)) c)) ->
  holds ok P (bounded_io w) Q.
Proof.
  intros Hp HO HE. apply holds_await; [done|]. intros ev c c' a Hev HP Hw.
  destruct ev; simplify_eq; auto. destruct (read_timeout c); simplify_eq; auto.
Qed.

Lemma holds_query_event (P : Actor -> Prop) (Q : QueryEvent -> Actor -> Prop) :
  (forall c, P c -> P (set_poisoned c)) ->
  (ok Ev.CallerGone -> forall c, P c -> Q Gone c) ->
  (forall c, P c -> Q IdleFired c) ->
  (forall c m ms, P c -> inbox c = m :: ms -> Q (Message (Some m)) (set_inbox ms c)) ->
  (forall c, P c -> Q (Message None) c) ->
  holds ok P query_event Q.
Proof.
  intros Hp Hg Hi Hm Hn. apply holds_await; [done|]. intros ev c c' a Hev HP Hw.
  destruct ev; cbn [recv received] in Hw; try (destruct (inbox c) eqn:E; cbn [received] in Hw); simplify_eq; eauto.
Qed.

Lemma holds_next_packet (P : Actor -> Prop) (Q : QueryEvent -> Actor -> Prop) :
  (forall c, P c -> P (set_poisoned c)) ->
  (forall c, P c -> Q IdleFired c) ->
  (forall c m ms, P c -> inbox c = m :: ms -> Q (Message (Some m)) (set_inbox ms c)) ->
  (forall c, P c -> Q (Message None) c) ->
  holds ok P next_packet Q.
Proof.
  intros Hp Hi Hm Hn. apply holds_await; [done|]. intros ev c c' a Hev HP Hw.
  destruct ev; cbn [recv received] in Hw; try (destruct (inbox c) eqn:E; cbn [received] in Hw); simplify_eq; eauto.
Qed.

Lemma holds_try_recv (P : Actor -> Prop) (Q : option (option ReaderMessage) -> Actor -> Prop) :
  (forall c, P c -> P (set_poisoned c)) ->
  (forall c, P c -> Q None c) ->
  (forall c m ms, P c -> inbox c = m :: ms -> Q (Some (Some m)) (set_inbox ms c)) ->
  (forall c, P c -> Q (Some None) c) ->
  holds ok P try_recv Q.
Proof.
  intros Hp Hi Hm Hn. apply holds_await; [done|]. intros ev c c' a Hev HP Hw.
  destruct ev; cbn [recv] in Hw; try (destruct (inbox c) eqn:E; cbn [received] in Hw); simplify_eq; eauto.
Qed.

Lemma holds_stream_send (P : Actor -> Prop) (Q : bool -> Actor -> Prop) item :
  (forall c, P c -> P (set_poisoned c)) ->
  (forall c, P c -> Q true (put_reply (ToStream item) c)) ->
  (ok Ev.CallerGone -> forall c, P c -> Q false c) ->
  holds ok P (stream_send item) Q.
Proof. intros Hp Ht Hg. apply holds_await; [done|]. intros ev c c' a Hev HP Hw. destruct ev; simplify_eq; auto. Qed.

End rules.

(** ** Waiting actions too *)

(** Poison is one-way; what was written and what was answered stays. *)
Definition later (c c' : Actor) : Prop :=
  (poisoned c = true -> poisoned c' = true) /\ wire c `prefix_of` wire c' /\ replies c `prefix_of` replies c' /\
  hello c' = hello c /\ read_timeout c' = read_timeout c /\ actor_quota_key c' = actor_quota_key c.

Definition grows {A} (m : Act A) : Prop := forall c s c' s' r, m c s = (c', s', r) -> later c c' /\ s' `suffix_of` s.

Lemma later_refl c : later c c.
Proof. unfold later. auto 10. Qed.

Lemma later_trans c1 c2 c3 : later c1 c2 -> later c2 c3 -> later c1 c3.
Proof.
  intros (? & ? & ? & ? & ? & ?) (? & ? & ? & ? & ? & ?).
  unfold later. split_and!; [auto|by etransitivity|by etransitivity|congruence..].
Qed.

Create HintDb grows.

Lemma grows_ret {A} (a : A) : grows (mret a : Act A).
Proof. intros c s c' s' r Hm. cbv [mret act_ret] in Hm. simplify_eq. split; [apply later_refl|done]. Qed.

Lemma grows_bind {A B} (m : Act A) (f : A -> Act B) : grows m -> (forall a, grows (f a)) -> grows (m ≫= f).
Proof.
  intros Hm Hf c s c' s' r Hr. cbv [mbind act_bind] in Hr. destruct (m c s) as [[c1 s1] [a|]] eqn:E.
  - destruct (Hm _ _ _ _ _ E), (Hf a _ _ _ _ _ Hr). split; [by eapply later_trans|by etransitivity].
  - simplify_eq. by eapply Hm.
Qed.

Lemma grows_modify f : (forall c, later c (f c)) -> grows (modify f).
Proof. intros Hf c s c' s' r Hm. unfold modify in Hm. simplify_eq. split; [apply Hf|done]. Qed.

Lemma grows_gets {A} (f : Actor -> A) : grows (gets f).
Proof. intros c s c' s' r Hm. unfold gets in Hm. simplify_eq. split; [apply later_refl|done]. Qed.

Lemma later_poison c : later c (set_poisoned c).
Proof. unfold later. simpl. auto 10. Qed.

Lemma later_inbox ms c : later c (set_inbox ms c).
Proof. unfold later. simpl. auto 10. Qed.

Lemma later_wire bs c : later c (put_wire bs c).
Proof. unfold later. simpl. split_and!; try done. by exists bs. Qed.

Lemma later_reply r c : later c (put_reply r c).
Proof. unfold later. simpl. split_and!; try done. by exists [r]. Qed.

Lemma grows_await {A} (watch : Event -> Actor -> option (Actor * A)) :
  (forall ev c c' a, watch ev c = Some (c', a) -> later c c') -> grows (await watch).
Proof.
  intros Hw c s. revert c; induction s as [|ev s IH]; intros c c' s' r Hr; unfold await in *; cbn [await_loop] in Hr.
  { simplify_eq. split; [apply later_refl|done]. }
  destruct (watch ev c) as [[c1 b]|] eqn:E.
  { simplify_eq. split; [by eapply Hw|by apply suffix_cons_r]. }
  destruct (IH _ _ _ _ Hr) as [Hl Hs]. split; [|by apply suffix_cons_r].
  eapply later_trans; [|exact Hl]. destruct ev; try apply later_refl. apply later_poison.
Qed.

Lemma grows_loop {A} (turn : Act (option A)) : grows turn -> grows (act_loop turn).
Proof.
  intros Ht c s. unfold act_loop. generalize (S (length s)) as fuel. intros fuel. revert c s.
  induction fuel as [|fuel IH]; intros c s c' s' r Hr.
  { simpl in Hr. simplify_eq. split; [apply later_refl|done]. }
  cbn [act_loop_fuel] in Hr. revert Hr. apply grows_bind; [exact Ht|]. intros [a|]; [apply grows_ret|].
  intros ? ? ? ? ? Hr. by eapply IH.
Qed.

Lemma recv_later ev c c' m : recv ev c = Some (c', m) -> later c c'.
Proof. unfold recv. intros Hr. repeat case_match; simplify_eq; auto using later_refl, later_inbox. Qed.

Lemma received_later ev c c' m : received (recv ev c) = Some (c', m) -> later c c'.
Proof. destruct (recv ev c) as [[c1 m1]|] eqn:E; cbn [received]; intros Hr; simplify_eq. by apply recv_later in E. Qed.

Lemma grows_write w : grows (write w).
Proof. apply grows_await. intros ev c c' a Hw. destruct ev; simplify_eq; apply later_wire. Qed.
Lemma grows_bounded_io w : grows (bounded_io w).
Proof. apply grows_await. intros ev c c' a Hw. destruct ev; repeat case_match; simplify_eq; apply later_wire. Qed.
Lemma grows_query_event : grows query_event.
Proof.
  apply grows_await. intros ev c c' a Hw. destruct ev; try (eapply received_later; exact Hw); cbn beta iota in Hw; simplify_eq; apply later_refl.
Qed.
Lemma grows_next_packet : grows next_packet.
Proof.
  apply grows_await. intros ev c c' a Hw. destruct ev; try (eapply received_later; exact Hw); cbn beta iota in Hw; simplify_eq; apply later_refl.
Qed.
Lemma grows_try_recv : grows try_recv.
Proof.
  apply grows_await. intros ev c c' a Hw.
  destruct ev; try (destruct (recv _ c) as [[c1 m]|] eqn:E; simplify_eq; by apply recv_later in E).
  simplify_eq. apply later_refl.
Qed.
Lemma grows_stream_send item : grows (stream_send item).
Proof. apply grows_await. intros ev c c' a Hw. destruct ev; simplify_eq; [apply later_refl|apply later_reply]. Qed.
Lemma grows_poison : grows poison.
Proof. apply grows_modify, later_poison. Qed.
Lemma grows_reply r : grows (reply r).
Proof. apply grows_modify. intros c. apply later_reply. Qed.
Lemma grows_state st : grows (modify (set_state st)).
Proof. apply grows_modify. intros c. unfold later. simpl. auto 10. Qed.

#[export] Hint Resolve grows_ret grows_write grows_bounded_io grows_query_event grows_next_packet grows_try_recv
  grows_stream_send grows_poison grows_reply grows_state : grows.

Ltac grows_auto :=
  repeat first
    [ solve [auto 1 with grows] | apply grows_gets | apply grows_bind; [|intros ?] | apply grows_loop
    | match goal with |- grows (match ?x with _ => _ end) => destruct x end ].

Lemma grows_idle : grows idle_timed_out.
Proof. unfold idle_timed_out. grows_auto. Qed.
#[export] Hint Resolve grows_idle : grows.

Lemma grows_torn {A} e : grows (torn e : Act (option (Result A))).
Proof. unfold torn. grows_auto. Qed.
Lemma grows_on_idle {A} : grows (on_idle : Act (option (Result A))).
Proof. unfold on_idle. grows_auto. Qed.
#[export] Hint Resolve @grows_torn @grows_on_idle : grows.

Lemma grows_drain : grows drain_to_end_of_stream.
Proof. unfold drain_to_end_of_stream, drain_turn. grows_auto. Qed.
#[export] Hint Resolve grows_drain : grows.

Lemma grows_cancel : grows cancel_and_drain.
Proof. unfold cancel_and_drain. grows_auto. Qed.
Lemma grows_issue qid q st pr : grows (issue_query qid q st pr).
Proof. unfold issue_query. grows_auto. Qed.
#[export] Hint Resolve grows_cancel grows_issue : grows.

Lemma grows_dispatch st cmd : grows (dispatch st cmd).
Proof.
  destruct st, cmd; cbn [dispatch];
    unfold do_ping, ping_turn, do_execute_query, execute_turn, do_begin_insert, begin_turn, do_send_insert_block,
      queued_turn, do_finish_insert, do_execute_stream, stream_turn; cbv zeta; grows_auto.
Qed.

Lemma grows_handle cmd : grows (handle cmd).
Proof. unfold handle. pose proof grows_dispatch. destruct cmd; cbn [reject_poisoned]; grows_auto. Qed.

Lemma grows_run cmds : grows (run_commands cmds).
Proof. induction cmds; cbn [run_commands]; [apply grows_ret|apply grows_bind; [apply grows_handle|done]]. Qed.
