(* ===== verification/Sessions.v ===== *)
(** * What a connection guarantees

    The connection actor ([Actor]) against a server that answers command by
    command: a contract of which packets answer which command, and the proof
    that a connection that is not poisoned has taken exactly the answers to its own commands. With it:
    whole packets on the wire, one answer per command, refusal after poison,
    completion, and the reader task. *)

From S2P Require Import Prelude Text Errors WireIo ColTypes Json Columns Decode Encode Protocol Packets Requests Actor ActorRules.

Definition any (ev : Event) : Prop := True.

Lemma any_script s : Forall any s.
Proof. by induction s; constructor. Qed.

(** ** Whole packets *)

(** Bytes that are client packets, each of them whole. *)
Inductive whole : list byte -> Prop :=
| whole_nil : whole []
| whole_ping w : whole w -> whole (w ++ send_ping)
| whole_cancel w : whole w -> whole (w ++ send_cancel)
| whole_data w rev tbl body nc n : whole w -> whole (w ++ send_data_block rev tbl body nc n)
| whole_query w rev qid q st pr info bs :
    whole w -> send_query rev qid q st pr info = (bs, Ok tt) -> whole (w ++ bs).

Definition whole_wire : Actor -> Prop := clean (fun c => whole (wire c)).

(** After a write: whole packets, or an error that is still to be acted on. *)
Definition written {A} (r : Result A) (c : Actor) : Prop :=
  match r with
  | Ok _ => whole_wire c
  | Err _ => True
  end.

Section whole_packets.
#[local] Abbreviation keep m := (holds any whole_wire m (fun _ => whole_wire)).

Lemma keep_write w : (forall bs, whole bs -> snd w = Ok tt -> whole (bs ++ fst w)) ->
  holds any whole_wire (write w) written.
Proof.
  intros Hw. apply holds_write; [by intros; apply clean_poisoned| |done].
  intros c Hc. destruct (snd w) as [[]|e] eqn:E; [|done]. intros Hp. cbn [wire put_wire]. auto.
Qed.

Lemma keep_bounded w : (forall bs, whole bs -> snd w = Ok tt -> whole (bs ++ fst w)) ->
  holds any whole_wire (bounded_io w) written.
Proof.
  intros Hw. apply holds_bounded_io; [by intros; apply clean_poisoned| |done].
  intros c Hc. destruct (snd w) as [[]|e] eqn:E; [|done]. intros Hp. cbn [wire put_wire]. auto.
Qed.

Lemma keep_poison P : holds any P poison (fun _ => whole_wire).
Proof. apply holds_modify. intros c _. apply clean_poisoned. Qed.

Lemma keep_reply r : keep (reply r).
Proof. apply holds_modify. auto. Qed.

Lemma keep_state st : keep (modify (set_state st)).
Proof. apply holds_modify. auto. Qed.

Lemma keep_ret {A} (a : A) : keep (mret a).
Proof. by apply holds_ret. Qed.

Lemma keep_gets {A} (f : Actor -> A) : keep (gets f).
Proof. by apply holds_gets. Qed.

Lemma keep_query_event : keep query_event.
Proof. apply holds_query_event; intros; (apply clean_poisoned || assumption). Qed.

Lemma keep_next_packet : keep next_packet.
Proof. apply holds_next_packet; intros; (apply clean_poisoned || assumption). Qed.

Lemma keep_try_recv : keep try_recv.
Proof. apply holds_try_recv; intros; (apply clean_poisoned || assumption). Qed.

Lemma keep_stream_send item : keep (stream_send item).
Proof. apply holds_stream_send; intros; (apply clean_poisoned || assumption). Qed.

Lemma keep_loop {A} (turn : Act (option A)) : keep turn -> keep (act_loop turn).
Proof. intros Ht. apply holds_loop. eapply holds_impl; [exact Ht|done|]. by intros [a|] c. Qed.

Lemma keep_bind {A B} (m : Act A) (f : A -> Act B) : keep m -> (forall a, keep (f a)) -> keep (m ≫= f).
Proof. intros Hm Hf. eapply holds_bind; [exact Hm|exact Hf]. Qed.

(** A write and what follows it: on an error, the first thing is to poison. *)
Lemma keep_checked {A B} (m : Act (Result A)) (f : Error -> Act B) (g : A -> Act B) :
  holds any whole_wire m written ->
  (forall e, holds any (fun _ => True) (f e) (fun _ => whole_wire)) -> (forall a, keep (g a)) ->
  keep (r ← m; match r with Ok a => g a | Err e => f e end).
Proof. intros Hm Hf Hg. eapply holds_bind; [exact Hm|]. intros [a|e]; [apply Hg|apply Hf]. Qed.

Lemma poison_first {A} (m : Act A) : keep m -> holds any (fun _ => True) (_ ← poison; m) (fun _ => whole_wire).
Proof. intros Hm. eapply holds_bind; [apply keep_poison|auto]. Qed.

Create HintDb keeps.
#[local] Hint Resolve keep_reply keep_state keep_ret keep_gets keep_query_event keep_next_packet keep_try_recv
  keep_stream_send keep_poison : keeps.

Ltac keeps :=
  repeat first
    [ solve [auto 1 with keeps] | apply keep_bind; [|intros ?] | apply keep_loop
    | match goal with |- holds _ _ (match ?x with _ => _ end) _ => destruct x end ].

Lemma keep_idle : keep idle_timed_out.
Proof. unfold idle_timed_out. keeps. Qed.
#[local] Hint Resolve keep_idle : keeps.

Lemma keep_drain : keep drain_to_end_of_stream.
Proof. unfold drain_to_end_of_stream, drain_turn, torn. keeps. Qed.
#[local] Hint Resolve keep_drain : keeps.

Lemma keep_cancel : keep cancel_and_drain.
Proof.
  unfold cancel_and_drain. apply (keep_checked _ (fun _ => poison) (fun _ => _ ← drain_to_end_of_stream; mret tt));
    [apply keep_write; intros; by apply whole_cancel|intros; apply keep_poison|intros; keeps].
Qed.
#[local] Hint Resolve keep_cancel : keeps.

Lemma keep_issue qid q st pr : holds any whole_wire (issue_query qid q st pr) written.
Proof.
  unfold issue_query. eapply holds_bind; [apply keep_gets|]. intros info. eapply holds_bind; [apply keep_gets|]. intros rev.
  eapply holds_bind.
  - apply keep_write. intros bs Hbs Hs. eapply whole_query; [exact Hbs|].
    destruct (send_query rev qid q st pr info) as [bs' r] eqn:E. cbn [fst snd] in *. rewrite E. by rewrite Hs.
  - intros [a|e]; [|by apply holds_ret]. apply keep_write. intros bs Hbs _. by apply whole_data.
Qed.

Lemma keep_dispatch st cmd : keep (dispatch st cmd).
Proof.
  destruct st, cmd; cbn [dispatch]; try (by keeps).
  - apply keep_bind; [|intros; keeps]. unfold do_ping.
    apply (keep_checked _ (fun e => _ ← poison; mret (Err e)) (fun _ => act_loop ping_turn));
      [apply keep_write; intros; by apply whole_ping|intros; apply poison_first; keeps|].
    intros _. unfold ping_turn, on_idle, torn. keeps.
  - unfold do_execute_query.
    apply (keep_checked _ (fun e => _ ← poison; reply (ToCaller (Err e))) (fun _ => act_loop execute_turn));
      [apply keep_issue|intros; apply poison_first; keeps|]. intros _. unfold execute_turn. cbv zeta. keeps.
  - apply keep_bind; [|intros; keeps]. unfold do_begin_insert.
    apply (keep_checked _ (fun e => _ ← poison; mret (Err e)) (fun _ => act_loop begin_turn));
      [apply keep_issue|intros; apply poison_first; keeps|]. intros _. unfold begin_turn, on_idle, torn. keeps.
  - unfold do_execute_stream.
    apply (keep_checked _ (fun e => _ ← poison; _ ← stream_send (Err e); mret tt) (fun _ => act_loop stream_turn));
      [apply keep_issue|intros; apply poison_first; keeps|]. intros _. unfold stream_turn. cbv zeta. keeps.
  - unfold do_send_insert_block. cbv zeta. destruct (_ <? _); [keeps|].
    apply keep_bind; [unfold queued_turn; cbv zeta; keeps|]. intros [|]; [|keeps].
    apply keep_bind; [keeps|]. intros rev.
    eapply holds_bind; [apply keep_bounded; intros; by apply whole_data|].
    intros [a|e]; cbn [is_ok written]; [keeps|].
    eapply holds_bind; [apply poison_first; keeps|intros; keeps].
  - apply keep_bind; [|intros; keeps]. unfold do_finish_insert. apply keep_bind; [keeps|]. intros rev.
    apply (keep_checked _ (fun e => _ ← poison; mret (Err e)) (fun _ => drain_to_end_of_stream));
      [apply keep_bounded; intros; by apply whole_data|intros; apply poison_first; keeps|intros; keeps].
Qed.

Lemma keep_handle cmd : keep (handle cmd).
Proof.
  unfold handle. apply keep_bind; [keeps|]. intros b. destruct (b && _).
  - destruct cmd; cbn [reject_poisoned]; keeps.
  - apply keep_bind; [keeps|]. intros st. apply keep_dispatch.
Qed.

Lemma keep_commands cmds : keep (run_commands cmds).
Proof. induction cmds; cbn [run_commands]; [keeps|]. apply keep_bind; [apply keep_handle|done]. Qed.

End whole_packets.

(** ** Answers

    The packets that end an answer; everything else on the way is chatter. *)

Definition query_ends (p : ServerPacket) : bool :=
  match p with
  | Sp.EndOfStream | Sp.Exception _ => true
  | _ => false
  end.
Definition ping_ends (p : ServerPacket) : bool :=
  match p with
  | Sp.Pong | Sp.Exception _ => true
  | _ => false
  end.
Definition begin_ends (p : ServerPacket) : bool :=
  match p with
  | Sp.Data _ _ _ _ | Sp.DataBlock _ | Sp.EndOfStream | Sp.Exception _ => true
  | _ => false
  end.

(** What an answer's last packet means to the caller. *)
Definition verdict (t : ServerPacket) : Result unit :=
  match t with
  | Sp.Exception e => Err (into_error e)
  | _ => Ok tt
  end.
Definition begin_verdict (t : ServerPacket) : Result (list (text * text)) :=
  match t with
  | Sp.Data _ _ _ columns => Ok columns
  | Sp.Exception e => Err (into_error e)
  | _ => Err eos_before_schema
  end.
Definition stream_verdict (t : ServerPacket) : Result ServerPacket :=
  match t with
  | Sp.Exception e => Err (into_error e)
  | _ => Ok Sp.EndOfStream
  end.
Definition shown (p : ServerPacket) : bool :=
  match p with
  | Sp.Pong | Sp.Log | Sp.ProfileEvents => false
  | _ => true
  end.

Definition packets (ps : list ServerPacket) : list ReaderMessage := map Rm.Packet ps.
Definition chatter (ends : ServerPacket -> bool) (ps : list ServerPacket) : Prop := Forall (fun p => ends p = false) ps.

(** An unpoisoned connection in a state, its callers answered so far, its inbox. *)
Definition at_ (st : ActorState) (rs : list Reply) (box : list ReaderMessage -> Prop) : Actor -> Prop :=
  clean (fun c => state c = st /\ replies c = rs /\ box (inbox c)).

Definition still (ends : ServerPacket -> bool) (t : ServerPacket) (box : list ReaderMessage) : Prop :=
  exists ch, chatter ends ch /\ box = packets (ch ++ [t]).
Definition none (box : list ReaderMessage) : Prop := box = [].

(** After one more message of an answer that ends with [t]. *)
Definition got (ends : ServerPacket -> bool) (t p : ServerPacket) (box : list ReaderMessage) : Prop :=
  (ends p = false /\ still ends t box) \/ (p = t /\ none box).

Lemma still_next ends t m ms : still ends t (m :: ms) -> exists p, m = Rm.Packet p /\ got ends t p ms.
Proof.
  intros ([|p ch] & Hch & Hb); unfold packets in Hb; simpl in Hb; simplify_eq.
  - exists t. split; [done|]. right. done.
  - apply Forall_cons in Hch as [Hp Hch]. exists p. split; [done|]. left. split; [done|]. by exists ch.
Qed.

(** Close what is asked of a connection that is poisoned by now. *)
Ltac by_poison :=
  intros; repeat match goal with r : option _ |- _ => destruct r end;
  repeat match goal with |- _ /\ _ => split end;
  let Hcl := fresh "Hcl" in intros Hcl; cbn beta iota in *; congruence.

Section answers.
Context (ok : Event -> Prop).

Lemma at_poisoned st rs box c : at_ st rs box (set_poisoned c).
Proof. apply clean_poisoned. Qed.

Lemma got_chatter ends t p st rs c : ends p = false -> ends t = true -> at_ st rs (got ends t p) c -> at_ st rs (still ends t) c.
Proof. intros Hp Ht Hc Hcl. destruct (Hc Hcl) as (? & ? & [[_ ?]|[-> _]]); [done|congruence]. Qed.

Lemma got_end ends t p st rs c : ends p = true -> at_ st rs (got ends t p) c -> clean (fun _ => p = t) c /\ at_ st rs none c.
Proof.
  intros Hp Hc. split; intros Hcl; destruct (Hc Hcl) as (? & ? & [[Hq _]|[-> ?]]); try congruence; done.
Qed.

(** What the waits of a loop give while an answer is owed. *)
Definition owed_event (ends : ServerPacket -> bool) (t : ServerPacket) (st : ActorState) (rs : list Reply) (ev : QueryEvent) : Actor -> Prop :=
  match ev with
  | Message (Some (Rm.Packet p)) => at_ st rs (got ends t p)
  | Message (Some (Rm.Error _)) | Message None => fun _ => True
  | IdleFired => at_ st rs (still ends t)
  | Gone => fun c => ok Ev.CallerGone /\ at_ st rs (still ends t) c
  end.

Lemma message_owed ends t st rs c m ms :
  at_ st rs (still ends t) c -> inbox c = m :: ms -> owed_event ends t st rs (Message (Some m)) (set_inbox ms c).
Proof.
  intros Hc Hb. destruct m as [p|e]; cbn [owed_event]; [|done]. intros Hcl.
  destruct (Hc Hcl) as (Hst & Hrs & Hs). rewrite Hb in Hs. apply still_next in Hs as (q & Hq & Hg). by simplify_eq.
Qed.

Lemma next_owed ends t st rs : holds ok (at_ st rs (still ends t)) next_packet (owed_event ends t st rs).
Proof. apply holds_next_packet; auto using at_poisoned, message_owed. by intros. Qed.

Lemma event_owed ends t st rs : holds ok (at_ st rs (still ends t)) query_event (owed_event ends t st rs).
Proof. apply holds_query_event; auto using at_poisoned, message_owed; by intros. Qed.

(** A poisoned connection owes nothing: what is asked of an unpoisoned one holds
    of whatever is done after poisoning. *)
Lemma broken {A} (P : Actor -> Prop) (Q : A -> Actor -> Prop) (m : Act A) :
  grows m -> (forall a c, poisoned c = true -> Q a c) -> holds ok P (_ ← poison; m) Q.
Proof.
  intros Hg HQ c s c' s' a Hs _ Hr. destruct (Hg (set_poisoned c) s c' s' (Some a) Hr) as [(Hp & _) [pre ->]].
  split; [by apply HQ, Hp|]. apply Forall_app in Hs. tauto.
Qed.

(** ** The handlers *)

Lemma vacuous {A} (Q : A -> Actor -> Prop) a c : poisoned c = true -> clean (Q a) c.
Proof. intros Hp Hc. congruence. Qed.

Lemma torn_rule {A} (P : Actor -> Prop) (Q : option (Result A) -> Actor -> Prop) e :
  (forall r c, poisoned c = true -> Q r c) -> holds ok P (torn e) Q.
Proof. intros HQ. apply broken; [apply grows_ret|exact HQ]. Qed.

(** The timer of a query or stream: a deadline poisons, the park interval goes round. *)
Lemma idle_rule st rs box {A} (Q : option A -> Actor -> Prop) (k : Error -> Act (option A)) :
  (forall e, grows (k e)) -> (forall r c, poisoned c = true -> Q r c) ->
  (forall c, at_ st rs box c -> Q None c) ->
  holds ok (at_ st rs box) (e ← idle_timed_out; match e with Some e => k e | None => mret None end) Q.
Proof.
  intros Hg HQ HN c s c' s' a Hs Hc Hr. unfold idle_timed_out in Hr.
  cbv [mbind act_bind gets] in Hr. destruct (read_timeout c) as [d|].
  - cbv [poison modify mret act_ret] in Hr. destruct (Hg _ _ _ _ _ _ Hr) as [(Hp & _) [pre ->]].
    split; [by apply HQ, Hp|]. apply Forall_app in Hs. tauto.
  - cbv [mret act_ret] in Hr. simplify_eq. split; [by apply HN|done].
Qed.

Lemma drained t st rs :
  query_ends t = true ->
  holds ok (at_ st rs (still query_ends t)) drain_to_end_of_stream
    (fun r c => clean (fun _ => r = verdict t) c /\ at_ st rs none c).
Proof.
  intros Ht. apply holds_loop. unfold drain_turn. eapply holds_bind; [apply next_owed|].
  intros [| |[[p|e]|]]; cbn [owed_event];
    try (apply torn_rule; by_poison).
  - apply holds_ret. by intros c [_ Hc].
  - destruct p; try (apply holds_ret; intros c Hc; apply (got_chatter _ _ _ _ _ _ eq_refl Ht Hc));
      apply holds_ret; intros c Hc; apply got_end in Hc as [Hv Hc]; try done;
      (split; [|done]); intros Hcl; by rewrite <- (Hv Hcl).
Qed.

Lemma cancelled t st rs :
  query_ends t = true -> holds ok (at_ st rs (still query_ends t)) cancel_and_drain (fun _ => at_ st rs none).
Proof.
  intros Ht. unfold cancel_and_drain. eapply holds_bind.
  - apply (holds_write ok _ (fun r c => match r with Ok _ => at_ st rs (still query_ends t) c | Err _ => True end));
      [by intros; apply at_poisoned|by intros|done].
  - intros [a|e].
    + eapply holds_bind; [by apply drained|]. intros r. apply holds_ret. by intros c [_ Hc].
    + apply holds_modify. intros c _. apply at_poisoned.
Qed.

(** A request that went out leaves the connection as it was, but for the wire. *)
Definition issued (st : ActorState) (rs : list Reply) (box : list ReaderMessage -> Prop) (r : Result unit) : Actor -> Prop :=
  match r with
  | Ok _ => at_ st rs box
  | Err _ => fun _ => True
  end.

Lemma issue_rule qid q sts prs st rs box :
  holds ok (at_ st rs box) (issue_query qid q sts prs) (issued st rs box).
Proof.
  assert (Hw : forall w, holds ok (at_ st rs box) (write w) (issued st rs box)).
  { intros w. apply holds_write; [by intros; apply at_poisoned| |done]. intros c Hc. by destruct (snd w). }
  unfold issue_query. eapply holds_bind; [by apply (holds_gets ok _ (fun _ => at_ st rs box))|]. intros info.
  eapply holds_bind; [by apply (holds_gets ok _ (fun _ => at_ st rs box))|]. intros rev.
  eapply holds_bind; [apply Hw|]. intros [a|e]; [apply Hw|by apply holds_ret].
Qed.

Lemma ping_rule t st rs :
  ping_ends t = true ->
  holds ok (at_ st rs (still ping_ends t)) do_ping
    (fun r c => clean (fun _ => r = verdict t) c /\ at_ st rs none c).
Proof.
  intros Ht. unfold do_ping. eapply holds_bind.
  - apply (holds_write ok _ (issued st rs (still ping_ends t))); [by intros; apply at_poisoned|by intros|done].
  - intros [[]|e]; cbn [issued]; [|apply broken; [apply grows_ret|by_poison]].
    apply holds_loop. unfold ping_turn. eapply holds_bind; [apply next_owed|].
    intros [| |[[p|e]|]]; cbn [owed_event];
      try (apply torn_rule; by_poison).
    + apply holds_ret. by intros c [_ Hc].
    + unfold on_idle. apply idle_rule; [intros; apply grows_ret|by_poison|done].
    + destruct p; try (apply holds_ret; intros c Hc; apply (got_chatter _ _ _ _ _ _ eq_refl Ht Hc));
        apply holds_ret; intros c Hc; apply got_end in Hc as [Hv Hc]; try done;
        (split; [|done]); intros Hcl; by rewrite <- (Hv Hcl).
Qed.

Lemma begin_rule qid q sts prs t st rs :
  begin_ends t = true ->
  holds ok (at_ st rs (still begin_ends t)) (do_begin_insert qid q sts prs)
    (fun r c => clean (fun _ => r = begin_verdict t) c /\ at_ st rs none c).
Proof.
  intros Ht. unfold do_begin_insert. eapply holds_bind; [apply issue_rule|].
  intros [[]|e]; cbn [issued]; [|apply broken; [apply grows_ret|by_poison]].
  apply holds_loop. unfold begin_turn. eapply holds_bind; [apply next_owed|].
  intros [| |[[p|e]|]]; cbn [owed_event];
    try (apply torn_rule; by_poison).
  - apply holds_ret. by intros c [_ Hc].
  - unfold on_idle. apply idle_rule; [intros; apply grows_ret|by_poison|done].
  - destruct p; try (apply holds_ret; intros c Hc; apply (got_chatter _ _ _ _ _ _ eq_refl Ht Hc));
      try (apply torn_rule; by_poison);
      apply holds_ret; intros c Hc; apply got_end in Hc as [Hv Hc]; try done;
      (split; [|done]); intros Hcl; by rewrite <- (Hv Hcl).
Qed.

Lemma execute_rule qid q sts prs t st rs :
  query_ends t = true ->
  holds ok (at_ st rs (still query_ends t)) (do_execute_query qid q sts prs)
    (fun _ c => at_ st (rs ++ [ToCaller (verdict t)]) none c \/ (ok Ev.CallerGone /\ at_ st rs none c)).
Proof.
  intros Ht. unfold do_execute_query. eapply holds_bind; [apply issue_rule|].
  intros [[]|e]; cbn [issued]; [|apply broken; [apply grows_reply|intros a c Hp; left; by_poison]].
  apply holds_loop. unfold execute_turn. cbv zeta. eapply holds_bind; [apply event_owed|].
  assert (Hbr : forall r, holds ok (fun _ => True) (_ ← poison; _ ← reply (ToCaller r); mret (Some tt))
    (fun r c => match r with Some a => at_ st (rs ++ [ToCaller (verdict t)]) none c \/ (ok Ev.CallerGone /\ at_ st rs none c)
                | None => at_ st rs (still query_ends t) c end)).
  { intros r. apply broken; [grows_auto|]. intros [a|] c Hp; [left|]; by_poison. }
  assert (Hend : forall p, query_ends p = true -> holds ok (at_ st rs (got query_ends t p))
    (_ ← reply (ToCaller (verdict p)); mret (Some tt))
    (fun r c => match r with Some a => at_ st (rs ++ [ToCaller (verdict t)]) none c \/ (ok Ev.CallerGone /\ at_ st rs none c)
                | None => at_ st rs (still query_ends t) c end)).
  { intros p Hp. apply (holds_bind ok _ (fun _ => at_ st (rs ++ [ToCaller (verdict t)]) none)); [|intros []; apply holds_ret; auto].
    apply holds_modify. intros c Hc. apply got_end in Hc as [Hv Hc]; [|done]. intros Hcl.
    destruct (Hc Hcl) as (? & Hr & ?). split; [done|]. split; [|done]. cbn [replies put_reply]. by rewrite Hr, (Hv Hcl). }
  intros [| |[[p|e]|]]; cbn [owed_event]; [| | |apply Hbr..].
  - apply holds_pure. intros Hok. eapply holds_bind; [by apply cancelled|]. intros []. apply holds_ret. auto.
  - apply idle_rule; [intros; grows_auto| |done]. intros [a|] c Hp; [left|]; by_poison.
  - destruct p; try (apply holds_ret; intros c Hc; apply (got_chatter _ _ _ _ _ _ eq_refl Ht Hc)).
    + by apply (Hend (Sp.Exception exc)).
    + by apply (Hend Sp.EndOfStream).
Qed.

(** What a stream has been sent of the chatter [sofar]. *)
Definition forwarded (sofar : list ServerPacket) : list Reply :=
  map (fun p => ToStream (Ok p)) (filter (fun p => shown p = true) sofar).

(** A stream under way: part of the answer has been forwarded. *)
Definition streaming (st : ActorState) (rs : list Reply) (all : list ServerPacket) (t : ServerPacket) : Actor -> Prop :=
  clean (fun c => exists sofar rest, all = sofar ++ rest /\ state c = st /\
    replies c = rs ++ forwarded sofar /\ inbox c = packets (rest ++ [t])).

(** The stream is over: complete, or broken off where its reader left. *)
Definition streamed (st : ActorState) (rs : list Reply) (all : list ServerPacket) (t : ServerPacket) : Actor -> Prop :=
  clean (fun c => state c = st /\ inbox c = [] /\
    (replies c = rs ++ forwarded all ++ [ToStream (stream_verdict t)] \/
     ok Ev.CallerGone /\ exists sofar, sofar `prefix_of` all /\ replies c = rs ++ forwarded sofar)).

Lemma forwarded_snoc sofar p : forwarded (sofar ++ [p]) = forwarded sofar ++ (if shown p then [ToStream (Ok p)] else []).
Proof.
  unfold forwarded. rewrite filter_app, map_app. f_equal. rewrite filter_cons, filter_nil.
  destruct (shown p); [by rewrite decide_True|by rewrite decide_False].
Qed.

(** The reader has left with part of the answer forwarded; the rest is still owed. *)
Definition leaving (st : ActorState) (rs : list Reply) (all : list ServerPacket) (t : ServerPacket) : Actor -> Prop :=
  clean (fun c => state c = st /\ (exists sofar, sofar `prefix_of` all /\ replies c = rs ++ forwarded sofar) /\
    still query_ends t (inbox c)).

(** One packet of the stream taken from the inbox. *)
Definition stream_got (st : ActorState) (rs : list Reply) (all : list ServerPacket) (t p : ServerPacket) : Actor -> Prop :=
  clean (fun c => exists sofar, state c = st /\ replies c = rs ++ forwarded sofar /\
    ((exists rest, all = sofar ++ p :: rest /\ inbox c = packets (rest ++ [t])) \/
     (p = t /\ all = sofar /\ inbox c = []))).

Definition stream_post (st : ActorState) (rs : list Reply) (all : list ServerPacket) (t : ServerPacket) (r : option unit) : Actor -> Prop :=
  match r with
  | Some _ => streamed st rs all t
  | None => streaming st rs all t
  end.

Lemma stream_message st rs all t c m ms :
  streaming st rs all t c -> inbox c = m :: ms ->
  match m with
  | Rm.Packet p => stream_got st rs all t p (set_inbox ms c)
  | Rm.Error _ => True
  end.
Proof.
  intros Hc Hb. destruct m as [p|e]; [|done]. intros Hcl. destruct (Hc Hcl) as (sofar & rest & -> & Hst & Hrs & Hbox).
  rewrite Hb in Hbox. exists sofar. split; [done|]. split; [done|].
  destruct rest as [|q rest]; unfold packets in Hbox; simpl in Hbox; simplify_eq.
  - right. by rewrite app_nil_r.
  - left. by exists rest.
Qed.

Lemma stream_poisoned st rs all t r c : poisoned c = true -> stream_post st rs all t r c.
Proof. intros Hp. destruct r; intros Hcl; congruence. Qed.

Lemma streaming_poisoned st rs all t c : streaming st rs all t (set_poisoned c).
Proof. apply clean_poisoned. Qed.

Lemma streaming_leaving st rs all t c : chatter query_ends all -> streaming st rs all t c -> leaving st rs all t c.
Proof.
  intros Hall Hc Hcl. destruct (Hc Hcl) as (sofar & rest & -> & Hst & Hrs & Hbox). apply Forall_app in Hall as [_ Hrest].
  split; [done|]. split; [exists sofar; split; [by exists rest|done]|]. by exists rest.
Qed.

(** Once the reader has left, cancelling settles the stream. *)
Lemma stream_cancelled st rs all t :
  query_ends t = true -> ok Ev.CallerGone ->
  holds ok (leaving st rs all t) (_ ← cancel_and_drain; mret (Some tt)) (stream_post st rs all t).
Proof.
  intros Ht Hok c s c' s' a Hs Hc Hr.
  destruct (poisoned c) eqn:Hp.
  { assert (Hg : grows (_ ← cancel_and_drain; mret (Some tt))) by grows_auto.
    destruct (Hg _ _ _ _ _ Hr) as [(Hp' & _) [pre ->]]. apply Forall_app in Hs as [_ Hs]. split; [|done].
    by apply stream_poisoned, Hp'. }
  destruct (Hc Hp) as (Hst & (sofar & Hpre & Hrs) & Hbox).
  assert (Hat : at_ st (rs ++ forwarded sofar) (still query_ends t) c) by done.
  assert (Hrule : holds ok (at_ st (rs ++ forwarded sofar) (still query_ends t)) (_ ← cancel_and_drain; mret (Some tt))
    (fun r c => r = Some tt /\ at_ st (rs ++ forwarded sofar) none c)).
  { eapply holds_bind; [by apply cancelled|]. intros []. by apply holds_ret. }
  destruct (Hrule _ _ _ _ _ Hs Hat Hr) as [[-> Hn] Hs']. split; [|done]. intros Hcl.
  destruct (Hn Hcl) as (? & ? & ?). split_and!; [done|done|]. right. split; [done|]. by exists sofar.
Qed.

(** The last item of a stream. *)
Lemma stream_finish st rs all t p :
  query_ends t = true -> chatter query_ends all -> query_ends p = true ->
  holds ok (stream_got st rs all t p) (_ ← stream_send (stream_verdict p); mret (Some tt)) (stream_post st rs all t).
Proof.
  intros Ht Hall Hp. apply (holds_bind ok _ (fun _ => streamed st rs all t)); [|intros b; by apply holds_ret].
  assert (Hover : forall c, stream_got st rs all t p c -> clean (fun c => p = t /\ state c = st /\
      replies c = rs ++ forwarded all /\ inbox c = []) c).
  { intros c Hc Hcl. destruct (Hc Hcl) as (sofar & ? & ? & [(rest & -> & _)|(-> & -> & ?)]); [|done].
    apply Forall_app in Hall as [_ Hall]. apply Forall_cons in Hall as [Hq _]. congruence. }
  apply holds_stream_send; [by intros; apply clean_poisoned| |].
  - intros c Hc Hcl. destruct (Hover c Hc Hcl) as (-> & ? & Hr & ?). split_and!; [done|done|]. left.
    cbn [replies put_reply]. by rewrite Hr, <- app_assoc.
  - intros Hok c Hc Hcl. destruct (Hover c Hc Hcl) as (-> & ? & Hr & ?). split_and!; [done|done|]. right.
    split; [done|]. by exists all.
Qed.

Lemma stream_skip st rs all t p :
  query_ends t = true -> query_ends p = false -> shown p = false ->
  holds ok (stream_got st rs all t p) (mret None) (stream_post st rs all t).
Proof.
  intros Ht Hp Hsh. apply holds_ret. intros c Hc Hcl.
  destruct (Hc Hcl) as (sofar & ? & ? & [(rest & -> & ?)|(-> & _)]); [|congruence].
  exists (sofar ++ [p]), rest. split_and!; [by rewrite <- app_assoc|done| |done]. by rewrite forwarded_snoc, Hsh, app_nil_r.
Qed.

Lemma stream_forward st rs all t p :
  query_ends t = true -> chatter query_ends all -> query_ends p = false -> shown p = true ->
  holds ok (stream_got st rs all t p)
    (taken ← stream_send (Ok p); if (taken : bool) then mret None else _ ← cancel_and_drain; mret (Some tt))
    (stream_post st rs all t).
Proof.
  intros Ht Hall Hp Hsh.
  apply (holds_bind ok _ (fun b c => if b : bool then streaming st rs all t c else ok Ev.CallerGone /\ leaving st rs all t c)).
  - apply holds_stream_send; [by intros; apply clean_poisoned| |].
    + intros c Hc Hcl. destruct (Hc Hcl) as (sofar & ? & Hr & [(rest & -> & ?)|(-> & _)]); [|congruence].
      exists (sofar ++ [p]), rest. split_and!; [by rewrite <- app_assoc|done| |done].
      cbn [replies put_reply]. by rewrite forwarded_snoc, Hsh, Hr, app_assoc.
    + intros Hok c Hc. split; [done|]. intros Hcl.
      destruct (Hc Hcl) as (sofar & ? & Hr & [(rest & -> & ?)|(-> & _)]); [|congruence].
      apply Forall_app in Hall as [_ Hall]. apply Forall_cons in Hall as [_ Hrest].
      split; [done|]. split; [exists sofar; split; [by exists (p :: rest)|done]|]. by exists rest.
  - intros [|]; [by apply holds_ret|]. apply holds_pure. intros Hok. by apply stream_cancelled.
Qed.

Lemma stream_rule qid q sts prs all t st rs :
  query_ends t = true -> chatter query_ends all ->
  holds ok (at_ st rs (eq (packets (all ++ [t])))) (do_execute_stream qid q sts prs) (fun _ => streamed st rs all t).
Proof.
  intros Ht Hall. unfold do_execute_stream. eapply holds_bind; [apply issue_rule|].
  intros [[]|e]; cbn [issued]; [|apply broken; [grows_auto|intros a c Hp Hcl; congruence]].
  apply (holds_pre ok _ (streaming st rs all t)).
  2:{ intros c Hc Hcl. destruct (Hc Hcl) as (? & Hr & Hb). exists [], all. split_and!; [done|done| |done].
      unfold forwarded. rewrite filter_nil. by rewrite app_nil_r. }
  assert (Hbr : forall r, holds ok (fun _ => True) (_ ← poison; _ ← stream_send r; mret (Some tt)) (stream_post st rs all t)).
  { intros r. apply broken; [grows_auto|]. intros a c. apply stream_poisoned. }
  apply holds_loop. apply (holds_impl ok (streaming st rs all t) (streaming st rs all t) _ (stream_post st rs all t));
    [|done|by intros [a|] c].
  unfold stream_turn. cbv zeta.
  apply (holds_bind ok _ (fun ev c => match ev with
    | Gone => ok Ev.CallerGone /\ leaving st rs all t c
    | IdleFired => streaming st rs all t c
    | Message (Some (Rm.Packet p)) => stream_got st rs all t p c
    | _ => True end)).
  { apply holds_query_event; auto using streaming_poisoned, streaming_leaving.
    intros c m ms Hc Hb. pose proof (stream_message _ _ _ _ _ _ _ Hc Hb). by destruct m. }
  intros [| |[[p|e]|]]; [| | |apply Hbr..].
  - apply holds_pure. intros Hok. by apply stream_cancelled.
  - intros c s c' s' a Hs Hc Hr. unfold idle_timed_out in Hr. cbv [mbind act_bind gets] in Hr.
    destruct (read_timeout c) as [d|].
    + change ((_ ← poison; _ ← stream_send (Err TimedOut); mret (Some tt)) c s = (c', s', Some a)) in Hr.
      exact (Hbr _ _ _ _ _ _ Hs I Hr).
    + cbv [mret act_ret] in Hr. simplify_eq. by split.
  - destruct p; try (by apply stream_skip); try (by apply stream_forward).
    + by apply (stream_finish st rs all t (Sp.Exception exc)).
    + by apply (stream_finish st rs all t Sp.EndOfStream).
Qed.

(** While blocks are being sent the inbox holds chatter, and at its end the
    exception if the server has rejected the INSERT. *)
Definition rejection (e : option Exception) : list ServerPacket :=
  match e with
  | Some e => [Sp.Exception e]
  | None => []
  end.
Definition feeding (e : option Exception) (box : list ReaderMessage) : Prop :=
  exists ch, chatter query_ends ch /\ box = packets (ch ++ rejection e).

(** The INSERT was found rejected: the caller has the error, nothing is left. *)
Definition found_rejected (rs : list Reply) (e : option Exception) (c : Actor) : Prop :=
  exists exc, e = Some exc /\ at_ Idle (rs ++ [ToCaller (Err (into_error exc))]) none c.

Lemma queued_rule rs e :
  holds ok (at_ InsertActive rs (feeding e)) (act_loop queued_turn)
    (fun go c => if go : bool then at_ InsertActive rs (feeding e) c
                 else clean (fun _ => found_rejected rs e c) c).
Proof.
  apply holds_loop. unfold queued_turn. cbv zeta.
  assert (Hbr : forall r, holds ok (fun _ => True)
    (_ ← poison; _ ← modify (set_state Idle); _ ← reply (ToCaller (Err r)); mret (Some false))
    (fun go c => match go with
      | Some b => if b : bool then at_ InsertActive rs (feeding e) c else clean (fun _ => found_rejected rs e c) c
      | None => at_ InsertActive rs (feeding e) c end)).
  { intros r. apply broken; [grows_auto|]. intros [[|]|] c Hp Hcl; congruence. }
  apply (holds_bind ok _ (fun m c => match m with
    | None => at_ InsertActive rs (feeding e) c
    | Some (Some (Rm.Packet p)) =>
        clean (fun c => state c = InsertActive /\ replies c = rs /\
          ((query_ends p = false /\ feeding e (inbox c)) \/ ([p] = rejection e /\ inbox c = []))) c
    | _ => True end)).
  { apply holds_try_recv; [by intros; apply at_poisoned|done| |done].
    intros c m ms Hc Hb. destruct m as [p|x]; [|done]. intros Hcl.
    destruct (Hc Hcl) as (Hst & Hrs & ch & Hch & Hbox). rewrite Hb in Hbox. split; [done|]. split; [done|].
    destruct ch as [|q ch]; unfold packets in Hbox; simpl in Hbox.
    - right. destruct e; simpl in Hbox; by simplify_eq.
    - left. simplify_eq. apply Forall_cons in Hch as [Hq Hch]. split; [done|]. by exists ch. }
  assert (Hquiet : forall p c, (forall x, p <> Sp.Exception x) ->
    clean (fun c => state c = InsertActive /\ replies c = rs /\
      ((query_ends p = false /\ feeding e (inbox c)) \/ ([p] = rejection e /\ inbox c = []))) c ->
    at_ InsertActive rs (feeding e) c).
  { intros p c Hp Hc Hcl. destruct (Hc Hcl) as (? & ? & [[_ ?]|[He _]]); [done|].
    destruct e as [x|]; simpl in He; simplify_eq. by destruct (Hp x). }
  intros [[[p|x]|]|]; [|apply Hbr..|by apply holds_ret].
  destruct p; try (apply holds_ret; intros c Hc; by eapply Hquiet, Hc).
  apply (holds_bind ok _ (fun _ => clean (fun c => state c = Idle /\ replies c = rs /\
    [Sp.Exception exc] = rejection e /\ inbox c = []))).
  { apply holds_modify. intros c Hc Hcl. destruct (Hc Hcl) as (? & ? & [[Hq _]|[He ?]]); [discriminate|done]. }
  intros []. apply (holds_bind ok _ (fun _ c => clean (fun _ => found_rejected rs e c) c)); [|intros []; by apply holds_ret].
  apply holds_modify. intros c Hc Hcl. destruct (Hc Hcl) as (? & Hr & He & ?).
  destruct e as [x|]; simpl in He; simplify_eq. exists x. split; [done|]. intros _.
  split_and!; [done|cbn [replies put_reply]; done|done].
Qed.

(** A block sent: the session goes on, or the rejection has reached the caller. *)
Definition block_sent (rs : list Reply) (e : option Exception) (too_big : Prop) (c : Actor) : Prop :=
  (exists r, at_ InsertActive (rs ++ [ToCaller r]) (feeding e) c /\ (r = Ok tt \/ too_big)) \/ found_rejected rs e c.

Lemma send_rule bytes nc n rs e :
  holds ok (at_ InsertActive rs (feeding e)) (do_send_insert_block bytes nc n)
    (fun _ c => clean (fun _ => block_sent rs e (MAX_INSERT_BLOCK_BYTES < Z.of_nat (length bytes)) c) c).
Proof.
  unfold do_send_insert_block. cbv zeta. destruct (Z.ltb_spec MAX_INSERT_BLOCK_BYTES (Z.of_nat (length bytes))) as [Hbig|_].
  - apply holds_modify. intros c Hc Hcl. left. eexists. split; [|by right]. intros _.
    destruct (Hc Hcl) as (? & Hr & ?). split_and!; [done|cbn [replies put_reply]; by rewrite Hr|done].
  - eapply holds_bind; [apply queued_rule|]. intros [|].
    2:{ apply holds_ret. intros c Hc Hcl. right. by apply Hc. }
    apply (holds_bind ok _ (fun _ => at_ InsertActive rs (feeding e))); [by apply holds_gets|]. intros rev.
    apply (holds_bind ok _ (fun r c => if is_ok r then r = Ok tt /\ at_ InsertActive rs (feeding e) c else True)).
    { apply holds_bounded_io; [by intros; apply at_poisoned|by intros|done]. }
    intros [u|x]; cbn [is_ok].
    + apply holds_pure. intros Hu. simplify_eq.
      apply (holds_bind ok _ (fun _ => at_ InsertActive rs (feeding e))); [by apply holds_ret|]. intros _.
      apply holds_modify. intros c Hc Hcl. left. exists (Ok tt). split; [|by left]. intros _.
      destruct (Hc Hcl) as (? & Hr & ?). split_and!; [done|cbn [replies put_reply]; by rewrite Hr|done].
    + apply (holds_bind ok _ (fun _ c => poisoned c = true)).
      { apply broken; [grows_auto|done]. }
      intros _. apply holds_modify. intros c Hp Hcl. cbn [poisoned put_reply] in Hcl. congruence.
Qed.

Lemma finish_rule t rs :
  query_ends t = true ->
  holds ok (at_ InsertActive rs (still query_ends t)) do_finish_insert
    (fun r c => clean (fun _ => r = verdict t) c /\ at_ InsertActive rs none c).
Proof.
  intros Ht. unfold do_finish_insert.
  apply (holds_bind ok _ (fun _ => at_ InsertActive rs (still query_ends t))); [by apply holds_gets|]. intros rev.
  apply (holds_bind ok _ (issued InsertActive rs (still query_ends t))).
  { apply holds_bounded_io; [by intros; apply at_poisoned|by intros|done]. }
  intros [[]|e]; cbn [issued]; [by apply drained|apply broken; [apply grows_ret|by_poison]].
Qed.

(** ** The contract with the server

    Where the server is: no INSERT open, taking blocks, or done with an INSERT it has rejected. *)
Inductive phase :=
| NoInsert
| Inserting
| Rejected (e : Exception).

(** [answers ph st cmd msgs ph' new]: the server, in phase [ph], answers a command the
    actor handles in state [st] with the packets [msgs], and the caller is then told [new].
    A command refused in the actor is answered with nothing. *)
Inductive answers (ph : phase) : ActorState -> ConnectionCmd -> list ReaderMessage -> phase -> (list Reply -> Prop) -> Prop :=
| ans_ping ch t :
    chatter ping_ends ch -> ping_ends t = true ->
    answers ph Idle Cmd.Ping (packets (ch ++ [t])) NoInsert (fun new => new = [ToCaller (verdict t)])
| ans_execute qid q sts prs ch t :
    chatter query_ends ch -> query_ends t = true ->
    answers ph Idle (Cmd.ExecuteQuery qid q sts prs) (packets (ch ++ [t])) NoInsert
      (fun new => new = [ToCaller (verdict t)] \/ ok Ev.CallerGone /\ new = [])
| ans_stream qid q sts prs ch t :
    chatter query_ends ch -> query_ends t = true ->
    answers ph Idle (Cmd.ExecuteStream qid q sts prs) (packets (ch ++ [t])) NoInsert
      (fun new => new = forwarded ch ++ [ToStream (stream_verdict t)] \/
         ok Ev.CallerGone /\ exists sofar, sofar `prefix_of` ch /\ new = forwarded sofar)
| ans_begin qid q sts prs ch t :
    chatter begin_ends ch -> begin_ends t = true ->
    answers ph Idle (Cmd.BeginInsert qid q sts prs) (packets (ch ++ [t]))
      (if is_ok (begin_verdict t) then Inserting else NoInsert) (fun new => new = [ToInsert (begin_verdict t)])
| ans_no_insert cmd :
    continues_insert cmd = true ->
    answers ph Idle cmd [] ph (fun new => new = [ToCaller (Err (custom "tcp: no INSERT session active"))])
| ans_busy cmd :
    cmd = Cmd.Ping \/ (exists qid q sts prs, cmd = Cmd.ExecuteQuery qid q sts prs) ->
    answers ph InsertActive cmd [] ph (fun new => new = [ToCaller (Err (custom "tcp: actor busy in INSERT"))])
| ans_busy_begin qid q sts prs :
    answers ph InsertActive (Cmd.BeginInsert qid q sts prs) [] ph
      (fun new => new = [ToInsert (Err (custom "tcp: actor already in INSERT"))])
| ans_busy_stream qid q sts prs :
    answers ph InsertActive (Cmd.ExecuteStream qid q sts prs) [] ph
      (fun new => new = [ToStream (Err (custom "tcp: actor busy in INSERT"))] \/ ok Ev.CallerGone /\ new = [])
| ans_block bytes nc n ch e :
    ph = Inserting -> chatter query_ends ch ->
    answers ph InsertActive (Cmd.SendInsertBlock bytes nc n) (packets (ch ++ rejection e))
      (match e with Some e => Rejected e | None => Inserting end)
      (fun new => exists r, new = [ToCaller r] /\
         (r = Ok tt \/ MAX_INSERT_BLOCK_BYTES < Z.of_nat (length bytes) \/ exists x, e = Some x /\ r = Err (into_error x)))
| ans_block_rejected bytes nc n e :
    ph = Rejected e ->
    answers ph InsertActive (Cmd.SendInsertBlock bytes nc n) [] ph
      (fun new => exists r, new = [ToCaller r] /\
         (r = Ok tt \/ MAX_INSERT_BLOCK_BYTES < Z.of_nat (length bytes) \/ r = Err (into_error e)))
| ans_finish ch t :
    ph = Inserting -> chatter query_ends ch -> query_ends t = true ->
    answers ph InsertActive Cmd.FinishInsert (packets (ch ++ [t])) NoInsert (fun new => new = [ToCaller (verdict t)])
| ans_finish_rejected e :
    ph = Rejected e ->
    answers ph InsertActive Cmd.FinishInsert [] NoInsert (fun new => new = [ToCaller (Err (into_error e))]).

(** What the phase says of the actor: nothing is left of an answered command, and an
    open INSERT holds at most chatter and its rejection. *)
Definition in_phase (ph : phase) (st : ActorState) (box : list ReaderMessage) : Prop :=
  match ph with
  | NoInsert => st = Idle /\ box = []
  | Inserting => st = InsertActive /\ feeding None box
  | Rejected e => (st = Idle /\ box = []) \/ (st = InsertActive /\ feeding (Some e) box)
  end.

(** The answer to a command reaches the inbox when the command is handled. *)
Definition deliver (msgs : list ReaderMessage) (c : Actor) : Actor := set_inbox (inbox c ++ msgs) c.

Lemma idle_phase ph box : in_phase ph Idle box -> box = [].
Proof. destruct ph; simpl; [tauto|by intros [? _]|by intros [[_ ?]|[? _]]]. Qed.

(** Before and after a command. *)
Definition before (ph : phase) (st : ActorState) (rs : list Reply) (msgs : list ReaderMessage) : Actor -> Prop :=
  at_ st rs (fun box => exists old, in_phase ph st old /\ box = old ++ msgs).
Definition after (ph : phase) (rs : list Reply) (new : list Reply -> Prop) : Actor -> Prop :=
  clean (fun c => in_phase ph (state c) (inbox c) /\ exists nw, new nw /\ replies c = rs ++ nw).

Lemma before_idle ph rs msgs c : before ph Idle rs msgs c -> at_ Idle rs (eq msgs) c.
Proof.
  intros Hc Hcl. destruct (Hc Hcl) as (? & ? & old & Hold & Hb). apply idle_phase in Hold as ->. done.
Qed.

Lemma before_still ph rs ends ch t c :
  chatter ends ch -> before ph Idle rs (packets (ch ++ [t])) c -> at_ Idle rs (still ends t) c.
Proof.
  intros Hch Hc Hcl. destruct (before_idle _ _ _ _ Hc Hcl) as (? & ? & Hb). split_and!; [done|done|]. by exists ch.
Qed.

Lemma feeding_more ch box e : chatter query_ends ch -> feeding None box -> feeding e (box ++ packets (ch ++ rejection e)).
Proof.
  intros Hch (ch' & Hch' & ->). exists (ch' ++ ch). split; [by apply Forall_app|].
  cbn [rejection]. rewrite app_nil_r. unfold packets. by rewrite <- map_app, app_assoc.
Qed.

Lemma feeding_end ch box t : chatter query_ends ch -> feeding None box -> still query_ends t (box ++ packets (ch ++ [t])).
Proof.
  intros Hch (ch' & Hch' & ->). exists (ch' ++ ch). split; [by apply Forall_app|].
  cbn [rejection]. rewrite app_nil_r. unfold packets. by rewrite <- map_app, app_assoc.
Qed.

(** A reply given on the spot leaves the phase. *)
Lemma local_reply ph st rs r (new : list Reply -> Prop) :
  new [r] -> holds ok (before ph st rs []) (reply r) (fun _ => after ph rs new).
Proof.
  intros Hn. apply holds_modify. intros c Hc Hcl. destruct (Hc Hcl) as (Hst & Hr & old & Hold & Hb).
  rewrite app_nil_r in Hb. cbn [state inbox replies put_reply]. rewrite Hst, Hb, Hr. split; [done|]. by exists [r].
Qed.

(** The end of a request that leaves the actor idle with nothing owed. *)
Lemma request_over rs rs' nw (new : list Reply -> Prop) c :
  new nw -> rs' = rs ++ nw -> at_ Idle rs' none c -> after NoInsert rs new c.
Proof. intros Hn -> Hc Hcl. destruct (Hc Hcl) as (? & ? & ?). split; [done|]. by exists nw. Qed.

Lemma reply_over {A} rs t (new : list Reply -> Prop) (k : Result A -> Reply) v m st0 ends :
  new [k v] ->
  holds ok (at_ st0 rs (still ends t)) m (fun r c => clean (fun _ => r = v) c /\ at_ Idle rs none c) ->
  holds ok (at_ st0 rs (still ends t)) (r ← m; reply (k r)) (fun _ => after NoInsert rs new).
Proof.
  intros Hn Hm. eapply holds_bind; [exact Hm|]. intros r. apply holds_modify. intros c [Hv Hc].
  apply (request_over rs (rs ++ [k v]) [k v]); [done|done|]. intros Hcl. destruct (Hc Hcl) as (? & Hr & ?).
  split_and!; [done|cbn [replies put_reply]; by rewrite Hr, (Hv Hcl)|done].
Qed.

Lemma block_step ph bytes nc n rs e (new : list Reply -> Prop) msgs :
  (forall old, in_phase ph InsertActive old -> feeding e (old ++ msgs)) ->
  (forall r, r = Ok tt \/ MAX_INSERT_BLOCK_BYTES < Z.of_nat (length bytes) \/ (exists x, e = Some x /\ r = Err (into_error x)) ->
     new [ToCaller r]) ->
  holds ok (before ph InsertActive rs msgs) (do_send_insert_block bytes nc n)
    (fun _ => after (match e with Some e => Rejected e | None => Inserting end) rs new).
Proof.
  intros Hfeed Hnew. eapply holds_impl; [apply (send_rule bytes nc n rs e)| |].
  - intros c Hc Hcl. destruct (Hc Hcl) as (? & ? & old & Hold & ->). split_and!; [done|done|]. by apply Hfeed.
  - intros u c Hc Hcl. destruct (Hc Hcl) as [(r & Hat & Hr)|(x & -> & Hat)]; destruct (Hat Hcl) as (Hst & Hrep & Hbox).
    + rewrite Hst. split; [destruct e; [by right|done]|]. exists [ToCaller r]. split; [apply Hnew; tauto|done].
    + rewrite Hst, Hbox. split; [by left|]. eexists. split; [apply Hnew; right; right; by exists x|done].
Qed.

Lemma finish_step ph rs msgs t (new : list Reply -> Prop) :
  query_ends t = true -> (forall old, in_phase ph InsertActive old -> still query_ends t (old ++ msgs)) ->
  new [ToCaller (verdict t)] ->
  holds ok (before ph InsertActive rs msgs)
    (result ← do_finish_insert; _ ← modify (set_state Idle); reply (ToCaller result)) (fun _ => after NoInsert rs new).
Proof.
  intros Ht Hstill Hnew. apply (holds_pre ok _ (at_ InsertActive rs (still query_ends t))).
  2:{ intros c Hc Hcl. destruct (Hc Hcl) as (? & ? & old & Hold & ->). split_and!; [done|done|]. by apply Hstill. }
  eapply holds_bind; [by apply finish_rule|]. intros r.
  apply (holds_bind ok _ (fun _ c => clean (fun _ => r = verdict t) c /\ at_ Idle rs none c)).
  - apply holds_modify. intros c [Hv Hc]. split; [exact Hv|]. intros Hcl. destruct (Hc Hcl) as (? & ? & ?). done.
  - intros []. apply holds_modify. intros c [Hv Hc].
    apply (request_over rs (rs ++ [ToCaller (verdict t)]) [ToCaller (verdict t)]); [done|done|].
    intros Hcl. destruct (Hc Hcl) as (? & Hr & ?).
    split_and!; [done|cbn [replies put_reply]; by rewrite Hr, (Hv Hcl)|done].
Qed.

Lemma begin_step qid q sts prs t rs :
  begin_ends t = true ->
  holds ok (at_ Idle rs (still begin_ends t)) (dispatch Idle (Cmd.BeginInsert qid q sts prs))
    (fun _ => after (if is_ok (begin_verdict t) then Inserting else NoInsert) rs (fun new => new = [ToInsert (begin_verdict t)])).
Proof.
  intros Ht. cbn [dispatch]. eapply holds_bind; [by apply begin_rule|]. intros r.
  apply (holds_bind ok _ (fun _ => clean (fun c => r = begin_verdict t /\ replies c = rs /\
    in_phase (if is_ok (begin_verdict t) then Inserting else NoInsert) (state c) (inbox c)))).
  - destruct (is_ok r) eqn:Er; [apply holds_modify|apply holds_ret]; intros c [Hv Hc] Hcl;
      pose proof (Hv Hcl) as Hr; cbn beta in Hr; rewrite <- Hr, Er; destruct (Hc Hcl) as (? & ? & Hb);
      (split_and!; [done|done|]); cbn [in_phase state inbox set_state]; [|done].
    split; [done|]. exists []. split; [constructor|exact Hb].
  - intros []. apply holds_modify. intros c Hc Hcl. destruct (Hc Hcl) as (-> & Hr & Hp).
    split; [exact Hp|]. eexists. split; [done|]. cbn [replies put_reply]. by rewrite Hr.
Qed.

Lemma busy_stream_step ph qid q sts prs rs :
  holds ok (before ph InsertActive rs []) (dispatch InsertActive (Cmd.ExecuteStream qid q sts prs))
    (fun _ => after ph rs (fun new => new = [ToStream (Err (custom "tcp: actor busy in INSERT"))] \/ ok Ev.CallerGone /\ new = [])).
Proof.
  cbn [dispatch]. apply (holds_bind ok _ (fun _ => after ph rs (fun new =>
    new = [ToStream (Err (custom "tcp: actor busy in INSERT"))] \/ ok Ev.CallerGone /\ new = [])));
    [|intros b; by apply holds_ret].
  apply holds_stream_send; [by intros; apply at_poisoned| |].
  - intros c Hc Hcl. destruct (Hc Hcl) as (Hst & Hr & old & Hold & Hb). rewrite app_nil_r in Hb.
    cbn [state inbox replies put_reply]. rewrite Hst, Hb, Hr. split; [done|]. eexists. split; [by left|done].
  - intros Hok c Hc Hcl. destruct (Hc Hcl) as (Hst & Hr & old & Hold & Hb). rewrite app_nil_r in Hb.
    rewrite Hst, Hb, Hr. split; [done|]. exists []. split; [by right|by rewrite app_nil_r].
Qed.

Lemma dispatch_step ph st cmd msgs ph' new rs :
  answers ph st cmd msgs ph' new ->
  holds ok (before ph st rs msgs) (dispatch st cmd) (fun _ => after ph' rs new).
Proof.
  destruct 1 as [ch t Hch Ht|qid q sts prs ch t Hch Ht|qid q sts prs ch t Hch Ht|qid q sts prs ch t Hch Ht|cmd Hcmd
    |cmd Hcmd| | |bytes nc n ch e -> Hch|bytes nc n e ->|ch t -> Hch Ht|e ->].
  - eapply holds_pre; [|intros c; by apply before_still]. cbn [dispatch].
    eapply (reply_over rs t _ ToCaller); [|by apply ping_rule]. done.
  - eapply holds_impl; [by apply (execute_rule qid q sts prs t Idle rs)|intros c; by apply before_still|].
    intros [] c [Hc|[Hok Hc]].
    + eapply request_over; [|done|exact Hc]. by left.
    + apply (request_over rs rs []); [by right|by rewrite app_nil_r|done].
  - eapply holds_impl; [by apply (stream_rule qid q sts prs ch t Idle rs)|intros c Hc; apply before_idle in Hc; exact Hc|].
    intros [] c Hc Hcl. destruct (Hc Hcl) as (Hst & Hb & Hr). split; [done|].
    destruct Hr as [Hr|(Hok & sofar & Hp & Hr)]; eexists; (split; [|exact Hr]); [by left|]. right. eauto.
  - eapply holds_pre; [by apply begin_step|intros c; by apply before_still].
  - destruct cmd; try discriminate; cbn [dispatch]; by apply local_reply.
  - destruct Hcmd as [->|(qid & q & sts & prs & ->)]; cbn [dispatch]; by apply local_reply.
  - cbn [dispatch]. by apply local_reply.
  - apply busy_stream_step.
  - cbn [dispatch]. apply (block_step Inserting bytes nc n rs e).
    + intros old [_ Hold]. by apply feeding_more.
    + intros r Hr. by exists r.
  - cbn [dispatch]. apply (block_step (Rejected e) bytes nc n rs (Some e)).
    + intros old [[? _]|[_ Hold]]; [done|]. by rewrite app_nil_r.
    + intros r Hr. exists r. split; [done|]. destruct Hr as [?|[?|(x & Hx & ?)]]; simplify_eq; auto.
  - cbn [dispatch]. apply (finish_step Inserting rs _ t); [done| |done]. intros old [_ Hold]. by apply feeding_end.
  - cbn [dispatch]. apply (finish_step (Rejected e) rs _ (Sp.Exception e)); [done| |done].
    intros old [[? _]|[_ (ch & Hch & ->)]]; [done|]. exists ch. by rewrite app_nil_r.
Qed.

Lemma handle_step ph st cmd msgs ph' new rs :
  answers ph st cmd msgs ph' new ->
  holds ok (before ph st rs msgs) (handle cmd) (fun _ => after ph' rs new).
Proof.
  intros Hans c s c' s' a Hs Hc Hr. destruct (poisoned c) eqn:Hp.
  - destruct (grows_handle cmd _ _ _ _ _ Hr) as [(Hp' & _) [pre ->]]. apply Forall_app in Hs as [_ Hs].
    split; [|done]. intros Hcl. rewrite Hp' in Hcl; done.
  - destruct (Hc Hp) as (Hst & _). unfold handle in Hr. cbv [mbind act_bind gets] in Hr. rewrite Hp in Hr.
    cbn [andb] in Hr. rewrite Hst in Hr.
    exact (dispatch_step _ _ _ _ _ _ rs Hans _ _ _ _ _ Hs Hc Hr).
Qed.

End answers.
