(* ===== verification/Connection.v ===== *)
(** * The guarantees of a connection

    The properties of the connection actor: sessions of commands against the contract
    of [Sessions], poison, whole packets, one answer per command, completion
    and stalls, and the reader task. *)

From S2P Require Import Prelude Text Errors WireIo ColTypes Json Columns Decode Encode Protocol Packets Requests Actor ActorRules Sessions.

(** ** Sessions *)

(** A connection and the commands it has handled, each with the server's answer; [ps]
    is what each caller must have been told. *)
Inductive reached (ok : Event -> Prop) : phase -> Actor -> list (list Reply -> Prop) -> Prop :=
| reached_spawn server_hello timeout key :
    reached ok NoInsert (spawn server_hello timeout key []) []
| reached_command ph c ps cmd msgs ph' new s c' s' :
    reached ok ph c ps -> answers ok ph (state c) cmd msgs ph' new -> Forall ok s ->
    handle cmd (deliver msgs c) s = (c', s', Some tt) ->
    reached ok ph' c' (ps ++ [new]).

(** ** Loops and waiting *)

(** The action takes at least one event before it returns. *)
Definition waits {A} (m : Act A) : Prop :=
  forall c s c' s' a, m c s = (c', s', Some a) -> (length s' < length s)%nat.

Lemma waits_await {A} (watch : Event -> Actor -> option (Actor * A)) : waits (await watch).
Proof.
  intros c s. revert c; induction s as [|ev s IH]; intros c c' s' a Hr; [discriminate|].
  unfold await in *. cbn [await_loop] in Hr. destruct (watch ev c) as [[c1 b]|]; [simplify_eq; simpl; lia|].
  apply IH in Hr. simpl. lia.
Qed.

Lemma waits_bind {A B} (m : Act A) (f : A -> Act B) : waits m -> (forall a, grows (f a)) -> waits (m ≫= f).
Proof.
  intros Hm Hf c s c' s' b Hr. cbv [mbind act_bind] in Hr. destruct (m c s) as [[c1 s1] [a|]] eqn:E; [|discriminate].
  apply Hm in E. apply Hf in Hr as [_ Hs]. apply suffix_length in Hs. lia.
Qed.

Lemma act_loop_enough {A} (turn : Act (option A)) f1 f2 c s :
  waits turn -> (length s < f1)%nat -> (length s < f2)%nat -> act_loop_fuel f1 turn c s = act_loop_fuel f2 turn c s.
Proof.
  intros Hw. revert f2 c s; induction f1 as [|f1 IH]; intros [|f2] c s H1 H2; try lia.
  cbn [act_loop_fuel]. cbv [mbind act_bind]. destruct (turn c s) as [[c1 s1] [[a|]|]] eqn:E; [done| |done].
  apply Hw in E. apply IH; lia.
Qed.

Lemma act_loop_eq {A} (turn : Act (option A)) c s :
  waits turn ->
  act_loop turn c s =
    match turn c s with
    | (c', s', Some (Some a)) => (c', s', Some a)
    | (c', s', Some None) => act_loop turn c' s'
    | (c', s', None) => (c', s', None)
    end.
Proof.
  intros Hw. unfold act_loop at 1. cbn [act_loop_fuel]. cbv [mbind act_bind].
  destruct (turn c s) as [[c1 s1] [[a|]|]] eqn:E; [done| |done].
  apply Hw in E. by apply act_loop_enough; [|lia..].
Qed.

Lemma waits_execute : waits execute_turn.
Proof. unfold execute_turn. cbv zeta. apply waits_bind; [apply waits_await|]. intros ev. grows_auto. Qed.

Lemma waits_drain : waits drain_turn.
Proof. unfold drain_turn. apply waits_bind; [apply waits_await|]. intros ev. grows_auto. Qed.

(** ** Actions that answer nobody *)

Section silent.
Context (ok : Event -> Prop) (I : Actor -> Prop).
Hypothesis Ipoison : forall c, I c -> I (set_poisoned c).
Hypothesis Iinbox : forall ms c, I c -> I (set_inbox ms c).
Hypothesis Iwire : forall bs c, I c -> I (put_wire bs c).
Hypothesis Istate : forall st c, I c -> I (set_state st c).

Definition silent {A} (m : Act A) : Prop := holds ok I m (fun _ => I).

Lemma silent_ret {A} (a : A) : silent (mret a).
Proof. by apply holds_ret. Qed.
Lemma silent_bind {A B} (m : Act A) (f : A -> Act B) : silent m -> (forall a, silent (f a)) -> silent (m ≫= f).
Proof. intros Hm Hf. eapply holds_bind; [exact Hm|exact Hf]. Qed.
Lemma silent_gets {A} (f : Actor -> A) : silent (gets f).
Proof. by apply holds_gets. Qed.
Lemma silent_poison : silent poison.
Proof. by apply holds_modify. Qed.
Lemma silent_state st : silent (modify (set_state st)).
Proof. apply holds_modify. auto. Qed.
Lemma silent_write w : silent (write w).
Proof. apply holds_write; auto. Qed.
Lemma silent_bounded_io w : silent (bounded_io w).
Proof. apply holds_bounded_io; auto. Qed.
Lemma silent_query_event : silent query_event.
Proof. apply holds_query_event; auto. Qed.
Lemma silent_next_packet : silent next_packet.
Proof. apply holds_next_packet; auto. Qed.
Lemma silent_try_recv : silent try_recv.
Proof. apply holds_try_recv; auto. Qed.
Lemma silent_loop {A} (turn : Act (option A)) : silent turn -> silent (act_loop turn).
Proof. intros Ht. apply holds_loop. eapply holds_impl; [exact Ht|done|]. by intros [a|] c. Qed.

Create HintDb silent.
#[local] Hint Resolve silent_ret silent_gets silent_poison silent_state silent_write silent_bounded_io
  silent_query_event silent_next_packet silent_try_recv : silent.

Ltac silent_auto :=
  repeat first
    [ solve [auto 1 with silent] | apply silent_bind; [|intros ?] | apply silent_loop
    | match goal with |- silent (match ?x with _ => _ end) => destruct x end ].

Lemma silent_idle : silent idle_timed_out.
Proof. unfold idle_timed_out. silent_auto. Qed.
#[local] Hint Resolve silent_idle : silent.
Lemma silent_drain : silent drain_to_end_of_stream.
Proof. unfold drain_to_end_of_stream, drain_turn, torn. silent_auto. Qed.
#[local] Hint Resolve silent_drain : silent.
Lemma silent_cancel : silent cancel_and_drain.
Proof. unfold cancel_and_drain. silent_auto. Qed.
Lemma silent_issue qid q sts prs : silent (issue_query qid q sts prs).
Proof. unfold issue_query. silent_auto. Qed.
#[local] Hint Resolve silent_issue : silent.
Lemma silent_ping : silent do_ping.
Proof. unfold do_ping, ping_turn, on_idle, torn. silent_auto. Qed.
Lemma silent_begin qid q sts prs : silent (do_begin_insert qid q sts prs).
Proof. unfold do_begin_insert, begin_turn, on_idle, torn. silent_auto. Qed.
Lemma silent_finish : silent do_finish_insert.
Proof. unfold do_finish_insert. silent_auto. Qed.

End silent.

(** ** One answer per command *)

(** No caller drops its end. *)
Definition stays (ev : Event) : Prop := ev <> Ev.CallerGone.

(** What the caller of a command is sent, all of it. *)
Definition told (cmd : ConnectionCmd) (new : list Reply) : Prop :=
  match cmd with
  | Cmd.ExecuteStream _ _ _ _ =>
      exists items last, new = map (fun p => ToStream (Ok p)) items ++ [ToStream last] /\
        chatter query_ends items /\ (last = Ok Sp.EndOfStream \/ exists e, last = Err e)
  | Cmd.BeginInsert _ _ _ _ => exists r, new = [ToInsert r]
  | _ => exists r, new = [ToCaller r]
  end.

(** With the caller there, a select returns a timer or a message. *)
Lemma stays_event (I : Actor -> Prop) :
  (forall c, I c -> I (set_poisoned c)) -> (forall ms c, I c -> I (set_inbox ms c)) ->
  holds stays I query_event (fun ev c => ev <> Gone /\ I c).
Proof.
  intros Hp Hi. apply holds_query_event; [exact Hp|intros Hs; by destruct Hs|done| |done].
  intros c m ms Hc _. by split; [|apply Hi].
Qed.

Section told.
Context (rs : list Reply).

Definition untold (c : Actor) : Prop := replies c = rs.
Definition caller_told (c : Actor) : Prop := exists r, replies c = rs ++ [ToCaller r].

#[local] Abbreviation quiet m := (silent stays untold m).

Lemma untold_poison c : untold c -> untold (set_poisoned c).
Proof. done. Qed.
Lemma untold_inbox ms c : untold c -> untold (set_inbox ms c).
Proof. done. Qed.
Lemma untold_wire bs c : untold c -> untold (put_wire bs c).
Proof. done. Qed.
Lemma untold_state st c : untold c -> untold (set_state st c).
Proof. done. Qed.
#[local] Hint Resolve untold_poison untold_inbox untold_wire untold_state : core.

Lemma reply_told r : holds stays untold (reply (ToCaller r)) (fun _ => caller_told).
Proof. apply holds_modify. intros c Hc. exists r. cbn [replies put_reply]. by rewrite Hc. Qed.

Lemma reply_told_then {A} r (a : A) (Q : A -> Actor -> Prop) :
  (forall c, caller_told c -> Q a c) -> holds stays untold (_ ← reply (ToCaller r); mret a) Q.
Proof. intros HQ. eapply holds_bind; [apply reply_told|]. intros []. by apply holds_ret. Qed.

Lemma poisoned_untold {A} (m : Act A) Q : holds stays untold m Q -> holds stays untold (_ ← poison; m) Q.
Proof. intros Hm. eapply holds_bind; [apply (silent_poison stays untold); auto|by intros []]. Qed.

Lemma execute_told qid q sts prs : holds stays untold (do_execute_query qid q sts prs) (fun _ => caller_told).
Proof.
  unfold do_execute_query. eapply holds_bind; [apply (silent_issue stays untold); auto|].
  intros [u|e]; [|apply poisoned_untold, reply_told].
  apply holds_loop. unfold execute_turn. cbv zeta.
  apply (holds_bind stays _ (fun ev c => ev <> Gone /\ untold c)); [by apply stays_event|].
  intros ev. apply holds_pure. intros Hev. destruct ev as [| |[[p|e]|]]; [done| | |by apply poisoned_untold, reply_told_then..].
  - apply (holds_bind stays _ (fun _ => untold)); [apply (silent_idle stays untold); auto|].
    intros [e|]; [by apply reply_told_then|by apply holds_ret].
  - destruct p; try (by apply holds_ret); by apply reply_told_then.
Qed.

Lemma block_told bytes nc n : holds stays untold (do_send_insert_block bytes nc n) (fun _ => caller_told).
Proof.
  unfold do_send_insert_block. cbv zeta. destruct (_ <? _); [apply reply_told|].
  apply (holds_bind stays _ (fun (go : bool) c => if go then untold c else caller_told c)).
  - apply holds_loop. unfold queued_turn. cbv zeta.
    assert (Hfin : forall e, holds stays untold (_ ← modify (set_state Idle); _ ← reply (ToCaller (Err e)); mret (Some false))
      (fun r c => match r with Some go => if go : bool then untold c else caller_told c | None => untold c end)).
    { intros e. eapply holds_bind; [by apply (silent_state stays untold)|]. intros []. by apply reply_told_then. }
    eapply holds_bind; [apply (silent_try_recv stays untold); auto|].
    intros [[[p|e]|]|]; [|by apply poisoned_untold..|by apply holds_ret].
    destruct p; try (by apply holds_ret); apply Hfin.
  - intros [|]; [|by apply holds_ret].
    eapply holds_bind; [by apply (silent_gets stays untold)|]. intros rev.
    eapply holds_bind; [apply (silent_bounded_io stays untold); auto|]. intros r.
    apply (holds_bind stays _ (fun _ => untold)); [|intros []; apply reply_told].
    destruct (is_ok r); [by apply holds_ret|]. apply poisoned_untold. by apply (silent_state stays untold).
Qed.

(** A stream so far: items, none of which ends it. *)
Definition stream_told (c : Actor) : Prop :=
  exists items, replies c = rs ++ map (fun p => ToStream (Ok p)) items /\ chatter query_ends items.
Definition stream_ended (c : Actor) : Prop :=
  exists items last, replies c = rs ++ map (fun p => ToStream (Ok p)) items ++ [ToStream last] /\
    chatter query_ends items /\ (last = Ok Sp.EndOfStream \/ exists e, last = Err e).

Lemma stream_last r : r = Ok Sp.EndOfStream \/ (exists e, r = Err e) ->
  holds stays stream_told (_ ← stream_send r; mret (Some tt))
    (fun a c => match a with Some _ => stream_ended c | None => stream_told c end).
Proof.
  intros Hr. apply (holds_bind stays _ (fun _ => stream_ended)); [|intros b; by apply holds_ret].
  apply holds_stream_send; [done| |intros Hs; by destruct Hs].
  intros c (items & Hc & Hi). exists items, r. cbn [replies put_reply]. by rewrite Hc, <- app_assoc.
Qed.

Lemma stream_item p : query_ends p = false ->
  holds stays stream_told
    (taken ← stream_send (Ok p); if (taken : bool) then mret None else _ ← cancel_and_drain; mret (Some tt))
    (fun a c => match a with Some _ => stream_ended c | None => stream_told c end).
Proof.
  intros Hp. apply (holds_bind stays _ (fun (b : bool) c => b = true /\ stream_told c)).
  - apply holds_stream_send; [done| |intros Hs; by destruct Hs]. intros c (items & Hc & Hi). split; [done|].
    exists (items ++ [p]). cbn [replies put_reply]. rewrite Hc, map_app, <- app_assoc. split; [done|].
    apply Forall_app. split; [done|by constructor].
  - intros b. apply holds_pure. intros ->. by apply holds_ret.
Qed.

Lemma stream_poisoned_first {A} (m : Act A) Q : holds stays stream_told m Q -> holds stays stream_told (_ ← poison; m) Q.
Proof. intros Hm. eapply holds_bind; [by apply (silent_poison stays stream_told)|by intros []]. Qed.

Lemma stream_rule_told qid q sts prs : holds stays stream_told (do_execute_stream qid q sts prs) (fun _ => stream_ended).
Proof.
  unfold do_execute_stream. eapply holds_bind; [by apply (silent_issue stays stream_told)|].
  intros [u|e].
  2:{ apply stream_poisoned_first. apply (holds_bind stays _ (fun _ => stream_ended)); [|intros b; by apply holds_ret].
      apply holds_stream_send; [done| |intros Hs; by destruct Hs].
      intros c (items & Hc & Hi). exists items, (Err e). cbn [replies put_reply]. rewrite Hc, <- app_assoc.
      split_and!; [done|done|]. right. by exists e. }
  apply holds_loop. unfold stream_turn. cbv zeta.
  apply (holds_bind stays _ (fun ev c => ev <> Gone /\ stream_told c)); [by apply stays_event|].
  intros ev. apply holds_pure. intros Hev.
  destruct ev as [| |[[p|e]|]]; [done| | |apply stream_poisoned_first, stream_last; right; by eexists..].
  - apply (holds_bind stays _ (fun _ => stream_told)); [by apply (silent_idle stays stream_told)|].
    intros [e|]; [apply stream_last; right; by eexists|by apply holds_ret].
  - destruct p; try (by apply holds_ret); try (by apply stream_item).
    + apply stream_last. right. by eexists.
    + apply stream_last. by left.
Qed.

End told.

Lemma handle_told cmd rs :
  holds stays (fun c => replies c = rs) (handle cmd) (fun _ c => exists new, told cmd new /\ replies c = rs ++ new).
Proof.
  assert (Hreply : forall r, told cmd [r] -> holds stays (fun c => replies c = rs) (reply r)
    (fun _ c => exists new, told cmd new /\ replies c = rs ++ new)).
  { intros r Hr. apply holds_modify. intros c Hc. exists [r]. split; [done|]. cbn [replies put_reply]. by rewrite Hc. }
  assert (Hthen : forall {A} (m : Act A) (k : A -> Act unit), silent stays (fun c => replies c = rs) m ->
    (forall a, holds stays (fun c => replies c = rs) (k a) (fun _ c => exists new, told cmd new /\ replies c = rs ++ new)) ->
    holds stays (fun c => replies c = rs) (m ≫= k) (fun _ c => exists new, told cmd new /\ replies c = rs ++ new)).
  { intros A m k Hm Hk. eapply holds_bind; [exact Hm|exact Hk]. }
  assert (Hcaller : forall {A} (m : Act A), (forall r, told cmd [ToCaller r]) ->
    holds stays (untold rs) m (fun _ => caller_told rs) ->
    holds stays (fun c => replies c = rs) m (fun _ c => exists new, told cmd new /\ replies c = rs ++ new)).
  { intros A m Ht Hm. eapply holds_impl; [exact Hm|done|]. intros a c (r & Hr). by exists [ToCaller r]. }
  assert (Hstream : forall e, (forall r, told cmd [ToStream (Err r)]) ->
    holds stays (fun c => replies c = rs) (_ ← stream_send (Err e); mret tt)
      (fun _ c => exists new, told cmd new /\ replies c = rs ++ new)).
  { intros e Ht. apply (holds_bind stays _ (fun _ c => exists new, told cmd new /\ replies c = rs ++ new)); [|intros b; by apply holds_ret].
    apply holds_stream_send; [done| |intros Hs; by destruct Hs]. intros c Hc. eexists. split; [by apply Ht|].
    cbn [replies put_reply]. by rewrite Hc. }
  unfold handle. apply Hthen; [by apply holds_gets|]. intros b. destruct (b && _).
  { destruct cmd; cbn [reject_poisoned]; try (apply Hreply; by eexists).
    apply Hstream. intros r. exists [], (Err r). split_and!; [done|constructor|]. right. by eexists. }
  apply Hthen; [by apply holds_gets|]. intros [|]; destruct cmd; cbn [dispatch]; try (apply Hreply; by eexists).
  - apply Hthen; [by apply silent_ping|]. intros r. apply Hreply. by eexists.
  - apply Hcaller; [by eexists|apply execute_told].
  - apply Hthen; [by apply silent_begin|]. intros r.
    apply Hthen; [destruct (is_ok r); [by apply silent_state|by apply silent_ret]|]. intros _. apply Hreply. by eexists.
  - eapply holds_impl; [apply (stream_rule_told rs)| |].
    + intros c Hc. exists []. split; [by rewrite app_nil_r|constructor].
    + intros u c (items & last & Hc & Hi & Hl). eexists. split; [|exact Hc]. by exists items, last.
  - apply Hcaller; [by eexists|apply block_told].
  - apply Hthen; [by apply silent_finish|]. intros r. apply Hthen; [by apply silent_state|]. intros _.
    apply Hreply. by eexists.
  - apply Hstream. intros r. exists [], (Err r). split_and!; [done|constructor|]. right. by eexists.
Qed.

(** ** After poison *)

Definition refused_reply (cmd : ConnectionCmd) : Reply :=
  match cmd with
  | Cmd.BeginInsert _ _ _ _ => ToInsert (Err refusal)
  | Cmd.ExecuteStream _ _ _ _ => ToStream (Err refusal)
  | _ => ToCaller (Err refusal)
  end.

(** Nothing but the replies has changed. *)
Definition untouched (c c' : Actor) : Prop :=
  poisoned c' = true /\ wire c' = wire c /\ inbox c' = inbox c /\ state c' = state c.

Lemma send_untouched item c s c' s' r :
  poisoned c = true -> stream_send item c s = (c', s', r) -> untouched c c'.
Proof.
  revert c; induction s as [|ev s IH]; intros c Hp Hr; unfold stream_send, await in *; cbn [await_loop] in Hr;
    [by simplify_eq|].
  destruct ev; try (by apply IH in Hr); simplify_eq; try done.
Qed.

Lemma handle_untouched cmd c s c' s' r :
  poisoned c = true -> continues_insert cmd = false -> handle cmd c s = (c', s', r) -> untouched c c'.
Proof.
  intros Hp Hc Hr. unfold handle in Hr. cbv [mbind act_bind gets] in Hr. rewrite Hp, Hc in Hr. cbn [andb negb] in Hr.
  destruct cmd; try discriminate Hc; cbn [reject_poisoned] in Hr;
    try (cbv [reply modify] in Hr; by simplify_eq).
  cbv [mbind act_bind] in Hr. destruct (stream_send _ c s) as [[c1 s1] [b|]] eqn:E.
  - cbv [mret act_ret] in Hr. simplify_eq. by eapply send_untouched.
  - simplify_eq. by eapply send_untouched.
Qed.

(** ** The reader task *)

Section reader.
Context `{Platform} `{FloatText}.

Lemma read_packet_shorter rev bs p rest : read_packet rev bs = Ok (p, rest) -> (length rest < length bs)%nat.
Proof.
  intros Hr. destruct (framed_read_packet rev bs p rest Hr) as ([|b used] & -> & Hu).
  - assert (Hn : read_packet rev [] = Err eof) by reflexivity. specialize (Hu []). simpl in Hu. congruence.
  - rewrite length_app. simpl. lia.
Qed.

Lemma reader_enough rev f1 f2 bs :
  (length bs < f1)%nat -> (length bs < f2)%nat -> reader_loop_fuel f1 rev bs = reader_loop_fuel f2 rev bs.
Proof.
  revert f2 bs; induction f1 as [|f1 IH]; intros [|f2] bs H1 H2; try lia. cbn [reader_loop_fuel].
  destruct (read_packet rev bs) as [[p rest]|e] eqn:E; [|done]. apply read_packet_shorter in E.
  f_equal. apply IH; lia.
Qed.

(** A receiver that is dropped sees the front of what the loop hands over to one that stays, and the flag is set when the loop
    comes upon an error before it finds the receiver gone. *)
Lemma reader_loop_stops takes fuel rev bs :
  reader_loop_until takes fuel rev bs =
    (take takes (reader_loop_fuel fuel rev bs),
     existsb (fun m => match m with Rm.Error _ => true | _ => false end) (take (S takes) (reader_loop_fuel fuel rev bs))).
Proof.
  revert takes bs; induction fuel as [|fuel IH]; intros takes bs; [by destruct takes|]. cbn [reader_loop_until reader_loop_fuel].
  destruct (read_packet rev bs) as [[pkt rest]|e]; [|destruct takes as [|takes]; [done|]; cbn; by rewrite take_nil].
  destruct takes as [|takes]; [done|]. by rewrite IH.
Qed.

Lemma reader_loop_eq rev bs :
  reader_loop rev bs =
    match read_packet rev bs with
    | Ok (p, rest) => Rm.Packet p :: reader_loop rev rest
    | Err e => [Rm.Error e]
    end.
Proof.
  unfold reader_loop at 1. cbn [reader_loop_fuel]. destruct (read_packet rev bs) as [[p rest]|e] eqn:E; [|done].
  apply read_packet_shorter in E. f_equal. apply reader_enough; lia.
Qed.

Lemma reader_splits rev encs ps tail :
  Forall2 (fun enc p => reads (read_packet rev) enc p) encs ps ->
  reader_loop rev (concat encs ++ tail) = packets ps ++ reader_loop rev tail.
Proof.
  induction 1 as [|enc p encs ps Hp Hall IH]; [done|]. cbn [concat]. rewrite <- app_assoc, reader_loop_eq, Hp, IH. done.
Qed.

Lemma reader_ends rev bs : exists ps e, reader_loop rev bs = packets ps ++ [Rm.Error e].
Proof.
  remember (length bs) as n eqn:Hn. revert bs Hn; induction n as [n IH] using lt_wf_ind; intros bs ->.
  rewrite reader_loop_eq. destruct (read_packet rev bs) as [[p rest]|e] eqn:E; [|by exists [], e].
  apply read_packet_shorter in E. destruct (IH _ E rest eq_refl) as (ps & e & ->). by exists (p :: ps), e.
Qed.

End reader.

(** ** Completion *)

(** Chatter arriving, then whatever comes. *)
Lemma execute_chatter ch c s rest :
  chatter query_ends ch -> inbox c = packets ch ++ rest ->
  act_loop execute_turn c (replicate (length ch) Ev.Arrives ++ s) = act_loop execute_turn (set_inbox rest c) s.
Proof.
  revert c; induction ch as [|p ch IH]; intros c Hch Hb.
  - simpl in *. replace (set_inbox rest c) with c; [done|]. destruct c; simpl in *; by subst.
  - apply Forall_cons in Hch as [Hp Hch]. cbn [length replicate app]. rewrite act_loop_eq by apply waits_execute.
    unfold execute_turn at 1. cbv zeta. cbv [mbind act_bind query_event await]. cbn [await_loop recv received].
    rewrite Hb. cbn [packets map app received].
    assert (Hgo : act_loop execute_turn (set_inbox (packets ch ++ rest) c) (replicate (length ch) Ev.Arrives ++ s) =
      act_loop execute_turn (set_inbox rest c) s) by (by rewrite IH).
    destruct p; try discriminate Hp; exact Hgo.
Qed.

Lemma drain_chatter ch c s rest :
  chatter query_ends ch -> inbox c = packets ch ++ rest ->
  act_loop drain_turn c (replicate (length ch) Ev.Arrives ++ s) = act_loop drain_turn (set_inbox rest c) s.
Proof.
  revert c; induction ch as [|p ch IH]; intros c Hch Hb.
  - simpl in *. replace (set_inbox rest c) with c; [done|]. destruct c; simpl in *; by subst.
  - apply Forall_cons in Hch as [Hp Hch]. cbn [length replicate app]. rewrite act_loop_eq by apply waits_drain.
    unfold drain_turn at 1. cbv [mbind act_bind next_packet await]. cbn [await_loop recv received].
    rewrite Hb. cbn [packets map app received].
    assert (Hgo : act_loop drain_turn (set_inbox (packets ch ++ rest) c) (replicate (length ch) Ev.Arrives ++ s) =
      act_loop drain_turn (set_inbox rest c) s) by (by rewrite IH).
    destruct p; try discriminate Hp; exact Hgo.
Qed.

(** The connection after a request has gone out. *)
Definition after_request (c : Actor) (qid q : text) (sts prs : list (text * text)) : Actor :=
  put_wire (send_empty_block (revision (hello c)))
    (put_wire (fst (send_query (revision (hello c)) qid q sts prs (client_info_for c qid))) c).

Lemma issue_completes c qid q sts prs s :
  snd (send_query (revision (hello c)) qid q sts prs (client_info_for c qid)) = Ok tt ->
  issue_query qid q sts prs c (Ev.WriteOk :: Ev.WriteOk :: s) = (after_request c qid q sts prs, s, Some (Ok tt)).
Proof.
  intros Hs. unfold issue_query. cbv [mbind act_bind gets write await]. cbn [await_loop]. rewrite Hs. done.
Qed.

Lemma execute_started c qid q sts prs s :
  poisoned c = false -> state c = Idle ->
  snd (send_query (revision (hello c)) qid q sts prs (client_info_for c qid)) = Ok tt ->
  handle (Cmd.ExecuteQuery qid q sts prs) c (Ev.WriteOk :: Ev.WriteOk :: s) =
    act_loop execute_turn (after_request c qid q sts prs) s.
Proof.
  intros Hp Hst Hs. unfold handle. cbv [mbind act_bind gets]. rewrite Hp. cbn [andb]. rewrite Hst. cbn [dispatch].
  unfold do_execute_query. cbv [mbind act_bind]. by rewrite issue_completes.
Qed.

Lemma execute_last c t s :
  query_ends t = true -> inbox c = packets [t] ->
  act_loop execute_turn c (Ev.Arrives :: s) = (put_reply (ToCaller (verdict t)) (set_inbox [] c), s, Some tt).
Proof.
  intros Ht Hb. rewrite act_loop_eq by apply waits_execute. unfold execute_turn at 1. cbv zeta.
  cbv [mbind act_bind query_event await]. cbn [await_loop recv received]. rewrite Hb. cbn [packets map received].
  destruct t; try discriminate Ht; reflexivity.
Qed.

Lemma drain_last c t s :
  query_ends t = true -> inbox c = packets [t] ->
  act_loop drain_turn c (Ev.Arrives :: s) = (set_inbox [] c, s, Some (verdict t)).
Proof.
  intros Ht Hb. rewrite act_loop_eq by apply waits_drain. unfold drain_turn at 1.
  cbv [mbind act_bind next_packet await]. cbn [await_loop recv received]. rewrite Hb. cbn [packets map received].
  destruct t; try discriminate Ht; reflexivity.
Qed.

Lemma execute_cancel c ch t s :
  chatter query_ends ch -> query_ends t = true -> inbox c = packets (ch ++ [t]) ->
  act_loop execute_turn c (Ev.CallerGone :: Ev.WriteOk :: replicate (S (length ch)) Ev.Arrives ++ s) =
    (set_inbox [] (put_wire send_cancel c), s, Some tt).
Proof.
  intros Hch Ht Hb. rewrite act_loop_eq by apply waits_execute. unfold execute_turn at 1. cbv zeta.
  cbv [mbind act_bind query_event await]. cbn [await_loop].
  unfold cancel_and_drain. cbv [mbind act_bind write await]. cbn [await_loop fst snd wr]. unfold drain_to_end_of_stream.
  replace (replicate (S (length ch)) Ev.Arrives ++ s) with (replicate (length ch) Ev.Arrives ++ Ev.Arrives :: s).
  - rewrite (drain_chatter ch _ _ (packets [t])); [|done|].
    + by rewrite (drain_last _ t).
    + cbn [inbox put_wire]. rewrite Hb. unfold packets. by rewrite map_app.
  - change (Ev.Arrives :: s) with ([Ev.Arrives] ++ s). rewrite app_assoc. f_equal.
    by rewrite <- replicate_S_end.
Qed.

(** ** An example connection *)

Definition hello_example : ServerHello :=
  {| server_name := str "ClickHouse"; version := (25, 8, 3); revision := 54484;
     timezone := None; display_name := None |}.
Definition fresh (msgs : list ReaderMessage) : Actor := spawn hello_example (Some 30) [] msgs.
Definition one_query : ConnectionCmd := Cmd.ExecuteQuery (str "q1") (str "SELECT 1") [] [].
Definition progress_example : ServerPacket := Sp.Progress {| rows_read := 1; bytes_read := 8; total_rows_to_read := 1; written_rows := 0; written_bytes := 0 |}.
(** A query answered, then one whose caller leaves after the first packet. *)
Definition script_answered : list Event := [Ev.WriteOk; Ev.WriteOk; Ev.Arrives; Ev.Arrives].
Definition script_left : list Event := [Ev.WriteOk; Ev.WriteOk; Ev.Arrives; Ev.CallerGone; Ev.WriteOk; Ev.Arrives].
Definition answer_example : list ServerPacket := [progress_example; Sp.EndOfStream].
Definition after_query (c : Actor) (s : list Event) : Actor :=
  fst (fst (handle one_query (deliver (packets answer_example) c) s)).

(** ** Properties *)

(** C1: commands never see each other's answers. Take any sequence of commands the
    actor has handled, the server answering each of them by the contract, and any writes, timers,
    arrivals and callers leaving in between: unless the connection was poisoned, the actor's state and
    inbox are exactly those of the phase (idle with nothing left over, or in an INSERT
    with no more than chatter and its rejection), and every caller was told the
    outcome of its own command. *)
Theorem sessions_do_not_mix ok ph c ps :
  reached ok ph c ps -> poisoned c = false ->
  in_phase ph (state c) (inbox c) /\
  exists rss, replies c = concat rss /\ Forall2 (fun (p : list Reply -> Prop) rs => p rs) ps rss.
Proof.
  induction 1 as [h d k|ph c ps cmd msgs ph' new s c' s' Hr IH Hans Hs Hh]; intros Hp.
  { split; [done|]. by exists []. }
  assert (Hc : poisoned c = false).
  { destruct (poisoned c) eqn:E; [|done]. destruct (grows_handle _ _ _ _ _ _ Hh) as [(Hp' & _) _]. by rewrite Hp' in Hp. }
  destruct (IH Hc) as [Hph (rss & Hrss & Hall)].
  assert (Hb : before ph (state c) (replies c) msgs (deliver msgs c)).
  { intros _. split_and!; [done|done|]. by exists (inbox c). }
  destruct (handle_step ok _ _ _ _ _ _ (replies c) Hans _ _ _ _ _ Hs Hb Hh) as [Ha _].
  destruct (Ha Hp) as (Hin & nw & Hnw & Hrep). split; [exact Hin|]. exists (rss ++ [nw]). split.
  - rewrite Hrep, Hrss, concat_app. simpl. by rewrite app_nil_r.
  - apply Forall2_app; [done|by constructor].
Qed.

Lemma sessions_do_not_mix_witness :
  let mine := fun new => new = [ToCaller (Ok tt)] \/ any Ev.CallerGone /\ new = [] in
  let c := after_query (after_query (fresh []) script_left) script_answered in
  in_phase NoInsert (state c) (inbox c) /\
  exists rss, replies c = concat rss /\
    Forall2 (fun (p : list Reply -> Prop) rs => p rs) ([mine] ++ [mine]) rss.
Proof.
  intros mine c.
  refine (@sessions_do_not_mix any NoInsert c ([mine] ++ [mine]) _ _).
  - refine (reached_command _ NoInsert (after_query (fresh []) script_left) [mine] one_query
      (packets answer_example) NoInsert mine script_answered c [] _ _ _ _).
    + refine (reached_command _ NoInsert (fresh []) [] one_query
        (packets answer_example) NoInsert mine script_left _ [] _ _ _ _).
      * apply reached_spawn.
      * apply (ans_execute _ _ _ _ _ _ [progress_example] Sp.EndOfStream); [by repeat constructor|done].
      * by repeat constructor.
      * vm_compute. reflexivity.
    + apply (ans_execute _ _ _ _ _ _ [progress_example] Sp.EndOfStream); [by repeat constructor|done].
    + by repeat constructor.
    + vm_compute. reflexivity.
  - vm_compute. reflexivity.
Defined.

(** C10: poison is one-way and stops the wire: once the flag is set, no command
    but the blocks and the end of an INSERT writes a byte, takes a packet or changes the
    state, whatever happens and however many commands follow; while they wait, too. *)
Theorem poison_stops_the_wire cmds c s c' s' r :
  poisoned c = true -> Forall (fun cmd => continues_insert cmd = false) cmds ->
  run_commands cmds c s = (c', s', r) ->
  poisoned c' = true /\ wire c' = wire c /\ inbox c' = inbox c /\ state c' = state c.
Proof.
  intros Hp Hall. revert c s Hp; induction Hall as [|cmd cmds Hc Hall IH]; intros c s Hp Hr; cbn [run_commands] in Hr.
  { cbv [mret act_ret] in Hr. by simplify_eq. }
  cbv [mbind act_bind] in Hr. destruct (handle cmd c s) as [[c1 s1] [[]|]] eqn:E;
    pose proof (handle_untouched _ _ _ _ _ _ Hp Hc E) as (H1 & H2 & H3 & H4).
  - apply IH in Hr as (? & -> & -> & ->); done.
  - by simplify_eq.
Qed.

Lemma poison_stops_the_wire_witness :
  let c := set_poisoned (fresh (packets [Sp.Pong])) in
  let run := run_commands [Cmd.Ping; one_query] c [Ev.WriteOk; Ev.Arrives] in
  poisoned (fst (fst run)) = true /\ wire (fst (fst run)) = [] /\
  inbox (fst (fst run)) = packets [Sp.Pong] /\ state (fst (fst run)) = Idle.
Proof.
  intros c run.
  refine (@poison_stops_the_wire [Cmd.Ping; one_query] c [Ev.WriteOk; Ev.Arrives] (fst (fst run)) (snd (fst run)) (snd run) _ _ _).
  - reflexivity.
  - by repeat constructor.
  - vm_compute. reflexivity.
Defined.



(** C11: every command is answered, in every state, on every error and after poison: a handled command whose
    caller stays has sent exactly one reply, of its own kind, and a stream its items and
    exactly one end, which is the end of the stream or an error. *)
Theorem every_command_is_answered cmd c s c' s' :
  Forall stays s -> handle cmd c s = (c', s', Some tt) ->
  exists new, told cmd new /\ replies c' = replies c ++ new.
Proof. intros Hs Hh. by destruct (handle_told cmd (replies c) c s c' s' tt Hs eq_refl Hh). Qed.

Lemma every_command_is_answered_witness :
  exists new, told one_query new /\
    replies (fst (fst (handle one_query (fresh []) [Ev.WriteErr 1 eof]))) = [] ++ new.
Proof.
  refine (@every_command_is_answered one_query (fresh []) [Ev.WriteErr 1 eof] _ [] _ _).
  - by repeat constructor.
  - vm_compute. reflexivity.
Defined.

(** C12: a query whose answer arrives completes: the caller gets the verdict of
    its last packet; a caller that leaves at any point before costs one Cancel packet, and the
    rest of the answer is taken off the stream; either way the connection is left
    unpoisoned with nothing owed. A server that falls silent at any point is a timeout and poisons
    where a deadline is set, and is waited for where none is. *)
Theorem query_completes c qid q sts prs ch t :
  poisoned c = false -> state c = Idle -> chatter query_ends ch -> query_ends t = true ->
  inbox c = packets (ch ++ [t]) ->
  snd (send_query (revision (hello c)) qid q sts prs (client_info_for c qid)) = Ok tt ->
  let run := handle (Cmd.ExecuteQuery qid q sts prs) c in
  let sent := after_request c qid q sts prs in
  run ([Ev.WriteOk; Ev.WriteOk] ++ replicate (S (length ch)) Ev.Arrives) =
    (put_reply (ToCaller (verdict t)) (set_inbox [] sent), [], Some tt) /\
  (forall ch1 ch2, ch = ch1 ++ ch2 ->
    run ([Ev.WriteOk; Ev.WriteOk] ++ replicate (length ch1) Ev.Arrives ++ [Ev.CallerGone; Ev.WriteOk] ++
        replicate (S (length ch2)) Ev.Arrives) =
      (set_inbox [] (put_wire send_cancel (set_inbox (packets (ch2 ++ [t])) sent)), [], Some tt) /\
    run ([Ev.WriteOk; Ev.WriteOk] ++ replicate (length ch1) Ev.Arrives ++ [Ev.Elapses]) =
      match read_timeout c with
      | Some _ => (put_reply (ToCaller (Err TimedOut)) (set_poisoned (set_inbox (packets (ch2 ++ [t])) sent)), [], Some tt)
      | None => (set_inbox (packets (ch2 ++ [t])) sent, [], None)
      end).
Proof.
  intros Hp Hst Hch Ht Hb Hs. cbv zeta. split.
  - cbn [app]. rewrite execute_started by done. rewrite replicate_S_end.
    rewrite (execute_chatter ch _ _ (packets [t])); [|done|].
    + by rewrite (execute_last _ t).
    + cbn [inbox after_request put_wire]. rewrite Hb. unfold packets. by rewrite map_app.
  - intros ch1 ch2 ->. apply Forall_app in Hch as [Hch1 Hch2].
    assert (Hb' : inbox (after_request c qid q sts prs) = packets ch1 ++ packets (ch2 ++ [t])).
    { cbn [inbox after_request put_wire]. rewrite Hb. unfold packets. by rewrite <- app_assoc, map_app. }
    split; cbn [app]; rewrite execute_started by done; rewrite (execute_chatter ch1 _ _ _ Hch1 Hb').
    + rewrite <- (app_nil_r (replicate (S (length ch2)) Ev.Arrives)). by rewrite (execute_cancel _ ch2 t).
    + rewrite act_loop_eq by apply waits_execute. unfold execute_turn at 1. cbv zeta.
      cbv [mbind act_bind query_event await idle_timed_out gets]. cbn [await_loop]. cbn [read_timeout set_inbox after_request put_wire].
      by destruct (read_timeout c).
Qed.

Lemma query_completes_witness :
  let c := fresh (packets answer_example) in
  let sent := after_request c (str "q1") (str "SELECT 1") [] [] in
  handle one_query c script_answered = (put_reply (ToCaller (Ok tt)) (set_inbox [] sent), [], Some tt).
Proof.
  intros c sent.
  refine (proj1 (@query_completes c (str "q1") (str "SELECT 1") [] [] [progress_example] Sp.EndOfStream _ _ _ _ _ _));
    [done|done|by repeat constructor|done|done|vm_compute; reflexivity].
Defined.

(** C24: the reader task hands over exactly the packets on the stream, in order,
    and then one error: packets written one behind the other are split at their own ends,
    the bytes of a broken packet are never taken for packets, and on every input the task comes to its error. *)
Theorem reader_task_splits `{Platform} `{FloatText} rev encs ps junk e :
  Forall2 (fun enc p => forall tail, read_packet rev (enc ++ tail) = Ok (p, tail)) encs ps ->
  read_packet rev junk = Err e ->
  reader_loop rev (concat encs ++ junk) = packets ps ++ [Rm.Error e] /\
  (forall bs, exists ps' e', reader_loop rev bs = packets ps' ++ [Rm.Error e']).
Proof.
  intros Hall He. split; [|intros bs; apply reader_ends].
  rewrite (reader_splits rev encs ps junk) by exact Hall. by rewrite reader_loop_eq, He.
Qed.

Lemma reader_task_splits_witness :
  @reader_loop roomy no_floats 54473 ([x04] ++ [x05] ++ [x63]) =
    packets [Sp.Pong; Sp.EndOfStream] ++ [Rm.Error (BadResponse (str "tcp: unknown server packet id 99"))].
Proof.
  refine (proj1 (@reader_task_splits roomy no_floats 54473 [[x04]; [x05]] [Sp.Pong; Sp.EndOfStream] [x63] _ _ _)).
  - repeat constructor.
  - vm_compute. reflexivity.
Defined.
