(* ===== verification/Cursor.v ===== *)
(** * Streaming a SELECT

    Models [src/tcp/cursor.rs] and the statement builder of [src/tcp/query.rs]:
    the cursor that turns what the actor sends a stream's caller into blocks, and
    the loop that collects them. The receiver is the items the actor
    sends before it drops its end. Properties: a result set is never cut short
    silently, and the whole way from the server's bytes to the blocks. *)

From S2P Require Import Prelude Text Errors WireIo ColTypes Json Columns Decode Encode RoundTrip Agree Blocks Protocol Packets Requests Exchange Actor ActorRules Sessions Connection.

(** ** The cursor *)

(** [pool_slot] is the pooled connection held, by its number. *)
Record TcpRawCursor := {
  rx : list (Result ServerPacket);
  pool_slot : option nat;
  is_done : bool;
  saw_eos : bool
}.

(** [from_receiver], [hold_pool_slot]. *)
Definition from_receiver (items : list (Result ServerPacket)) : TcpRawCursor :=
  {| rx := items; pool_slot := None; is_done := false; saw_eos := false |}.
Definition hold_pool_slot (slot : nat) (c : TcpRawCursor) : TcpRawCursor :=
  {| rx := rx c; pool_slot := Some slot; is_done := is_done c; saw_eos := saw_eos c |}.

Definition exited_early : Error := custom "tcp: connection actor exited before EndOfStream".

(** The loop of [next_block] over the receiver. *)
Fixpoint pull (slot : option nat) (saw : bool) (items : list (Result ServerPacket))
    : TcpRawCursor * Result (option DecodedBlock) :=
  let at_ rest fin eos := {| rx := rest; pool_slot := slot; is_done := fin; saw_eos := eos |} in
  match items with
  | [] => (at_ [] true saw, if saw then Ok None else Err exited_early)
  | Err e :: rest => (at_ rest true saw, Err e)
  | Ok Sp.EndOfStream :: rest => (at_ rest true true, Ok None)
  | Ok (Sp.DataBlock block) :: rest => (at_ rest false saw, Ok (Some block))
  | Ok (Sp.Data _ _ n cols) :: rest =>
      (at_ rest false saw, Ok (Some {| columns := []; schema := cols; num_rows := n |}))
  | Ok _ :: rest => pull slot saw rest
  end.

(** [next_block]. *)
Definition next_block (c : TcpRawCursor) : TcpRawCursor * Result (option DecodedBlock) :=
  if is_done c then (c, Ok None) else pull (pool_slot c) (saw_eos c) (rx c).

(** ** The statement builder *)

Record TcpQuery := {
  q_sql : text;
  q_query_id : text;
  q_params : list (text * text)
}.

Definition TcpQuery_new (sql : text) : TcpQuery := {| q_sql := sql; q_query_id := []; q_params := [] |}.
Definition with_query_id (query_id : text) (q : TcpQuery) : TcpQuery :=
  {| q_sql := q_sql q; q_query_id := query_id; q_params := q_params q |}.
Definition param (name value : text) (q : TcpQuery) : TcpQuery :=
  {| q_sql := q_sql q; q_query_id := q_query_id q; q_params := q_params q ++ [(name, value)] |}.

(** The command a cursor's stream is opened with. *)
Definition stream_command (settings : list (text * text)) (q : TcpQuery) : ConnectionCmd :=
  Cmd.ExecuteStream (q_query_id q) (q_sql q) settings (q_params q).

(** The loop of [fetch_blocks]; every block is an item of the receiver, so one more
    than its length is fuel enough ([fetch_blocks_eq]). *)
Fixpoint fetch_loop (fuel : nat) (c : TcpRawCursor) (blocks : list DecodedBlock) : option (Result (list DecodedBlock)) :=
  match fuel with
  | O => None
  | S fuel' =>
      match next_block c with
      | (c', Ok (Some block)) => fetch_loop fuel' c' (blocks ++ [block])
      | (_, Ok None) => Some (Ok blocks)
      | (_, Err e) => Some (Err e)
      end
  end.
Definition fetch_blocks (c : TcpRawCursor) : option (Result (list DecodedBlock)) :=
  fetch_loop (S (length (rx c))) c [].

(** ** What a stream amounts to *)

(** The block of an item, where it has one. *)
Definition block_of (p : ServerPacket) : option DecodedBlock :=
  match p with
  | Sp.DataBlock block => Some block
  | Sp.Data _ _ n cols => Some {| columns := []; schema := cols; num_rows := n |}
  | _ => None
  end.

(** The result set of a stream: the blocks up to its end, or the error it broke off with. *)
Fixpoint result_set (items : list (Result ServerPacket)) : Result (list DecodedBlock) :=
  match items with
  | [] => Err exited_early
  | Err e :: _ => Err e
  | Ok Sp.EndOfStream :: _ => Ok []
  | Ok p :: rest => blocks ← result_set rest; Ok (option_list (block_of p) ++ blocks)
  end.

(** What the actor sent to a stream, of all it sent. *)
Definition stream_item (r : Reply) : option (Result ServerPacket) :=
  match r with
  | ToStream item => Some item
  | _ => None
  end.
Definition stream_items (rs : list Reply) : list (Result ServerPacket) := omap stream_item rs.

Lemma pull_shorter slot saw items c b :
  pull slot saw items = (c, Ok (Some b)) ->
  is_done c = false /\ saw_eos c = saw /\ pool_slot c = slot /\ (length (rx c) < length items)%nat.
Proof.
  induction items as [|[p|e] items IH]; cbn [pull]; intros Hr; [by destruct saw| |done].
  destruct p; first [by simplify_eq | apply IH in Hr as (? & ? & ? & ?); split_and!; simpl; (done || lia) | idtac];
    injection Hr as <- <-; split_and!; simpl; (done || lia).
Qed.

Lemma fetch_loop_eq fuel slot items blocks :
  (length items < fuel)%nat ->
  fetch_loop fuel {| rx := items; pool_slot := slot; is_done := false; saw_eos := false |} blocks =
    Some (more ← result_set items; Ok (blocks ++ more)).
Proof.
  revert items blocks; induction fuel as [|fuel IH]; intros items blocks Hf; [lia|].
  cbn [fetch_loop]. cbv [next_block]. cbn [is_done rx pool_slot saw_eos].
  assert (Hpull : (length items < S fuel)%nat -> match pull slot false items with
    | (c', Ok (Some block)) => fetch_loop fuel c' (blocks ++ [block])
    | (_, Ok None) => Some (Ok blocks)
    | (_, Err e) => Some (Err e)
    end = Some (more ← result_set items; Ok (blocks ++ more))).
  2: by apply Hpull.
  clear Hf. revert blocks; induction items as [|[p|e] items IHi]; intros blocks Hf; [done| |done]. cbn [length] in Hf.
  cbn [pull result_set].
  assert (Hskip : option_list (block_of p) = [] ->
    (more ← (bs ← result_set items; Ok (option_list (block_of p) ++ bs)); Ok (blocks ++ more)) =
    (more ← result_set items; Ok (blocks ++ more)) :> Result (list DecodedBlock)).
  { intros ->. by destruct (result_set items). }
  assert (Htake : forall b, option_list (block_of p) = [b] ->
    Some (more ← (bs ← result_set items; Ok (option_list (block_of p) ++ bs)); Ok (blocks ++ more)) =
    Some (more ← result_set items; Ok ((blocks ++ [b]) ++ more)) :> option (Result (list DecodedBlock))).
  { intros b ->. destruct (result_set items); [|done]. cbn. by rewrite <- app_assoc. }
  destruct p; try (rewrite Hskip by done; apply IHi; lia).
  - rewrite IH by lia. by erewrite Htake.
  - rewrite IH by lia. by erewrite Htake.
  - cbn. by rewrite app_nil_r.
Qed.

Lemma fetch_blocks_eq slot items :
  fetch_blocks {| rx := items; pool_slot := slot; is_done := false; saw_eos := false |} = Some (result_set items).
Proof.
  unfold fetch_blocks. rewrite fetch_loop_eq by (cbn [rx]; lia). by destruct (result_set items).
Qed.

(** ** The run of a stream *)

(** The events that take one packet of an answer through the actor. *)
Definition takes (p : ServerPacket) : list Event := if shown p then [Ev.Arrives; Ev.Taken] else [Ev.Arrives].
Definition stream_script (ch : list ServerPacket) : list Event :=
  [Ev.WriteOk; Ev.WriteOk] ++ concat (map takes ch) ++ [Ev.Arrives; Ev.Taken].

Lemma stream_script_stays ch : Forall stays (stream_script ch).
Proof.
  unfold stream_script. apply Forall_app. split; [by repeat constructor|]. apply Forall_app. split; [|by repeat constructor].
  induction ch as [|p ch IH]; [constructor|]. cbn [map concat]. apply Forall_app. split; [|exact IH].
  unfold takes. destruct (shown p); by repeat constructor.
Qed.

(** The connection once [ch] has been forwarded. *)
Definition tell (new : list Reply) (c : Actor) : Actor := foldl (fun c r => put_reply r c) c new.

Lemma tell_fields new c :
  poisoned (tell new c) = poisoned c /\ state (tell new c) = state c /\ inbox (tell new c) = inbox c /\
  replies (tell new c) = replies c ++ new.
Proof.
  revert c; induction new as [|r new IH]; intros c; cbn [tell foldl]; [by rewrite app_nil_r|].
  destruct (IH (put_reply r c)) as (? & ? & ? & Hr). split_and!; [done..|]. unfold tell in Hr. rewrite Hr.
  cbn [replies put_reply]. by rewrite <- app_assoc.
Qed.

Lemma waits_stream : waits stream_turn.
Proof. unfold stream_turn. cbv zeta. apply waits_bind; [apply waits_await|]. intros ev. grows_auto. Qed.

Lemma stream_chatter ch c s rest :
  chatter query_ends ch -> inbox c = packets ch ++ rest ->
  act_loop stream_turn c (concat (map takes ch) ++ s) =
    act_loop stream_turn (tell (forwarded ch) (set_inbox rest c)) s.
Proof.
  revert c; induction ch as [|p ch IH]; intros c Hch Hb.
  - simpl in *. replace (set_inbox rest c) with c; [done|]. destruct c; simpl in *; by subst.
  - apply Forall_cons in Hch as [Hp Hch]. cbn [map concat]. rewrite <- app_assoc.
    rewrite act_loop_eq by apply waits_stream. unfold stream_turn at 1. cbv zeta.
    set (c1 := let c1 := set_inbox (packets ch ++ rest) c in if shown p then put_reply (ToStream (Ok p)) c1 else c1).
    assert (Hgo : act_loop stream_turn c1 (concat (map takes ch) ++ s) =
      act_loop stream_turn (tell (forwarded (p :: ch)) (set_inbox rest c)) s).
    { rewrite IH; [|done|by destruct p]. unfold forwarded. rewrite filter_cons. by destruct p. }
    unfold packets in Hb. cbn [map app] in Hb. unfold takes.
    destruct p; try discriminate Hp; cbn [shown app]; cbv [mbind act_bind query_event await]; cbn [await_loop recv];
      rewrite Hb; cbn [received]; cbv [stream_send await]; cbn [await_loop]; exact Hgo.
Qed.

Lemma stream_started c qid q sts prs s :
  poisoned c = false -> state c = Idle ->
  snd (send_query (revision (hello c)) qid q sts prs (client_info_for c qid)) = Ok tt ->
  handle (Cmd.ExecuteStream qid q sts prs) c (Ev.WriteOk :: Ev.WriteOk :: s) =
    act_loop stream_turn (after_request c qid q sts prs) s.
Proof.
  intros Hp Hst Hs. unfold handle. cbv [mbind act_bind gets]. rewrite Hp. cbn [andb]. rewrite Hst. cbn [dispatch].
  unfold do_execute_stream. cbv [mbind act_bind]. by rewrite issue_completes.
Qed.

(** An answer goes through whole. *)
Lemma stream_completes c qid q sts prs ch t rest :
  poisoned c = false -> state c = Idle -> chatter query_ends ch -> query_ends t = true ->
  inbox c = packets (ch ++ [t]) ++ rest ->
  snd (send_query (revision (hello c)) qid q sts prs (client_info_for c qid)) = Ok tt ->
  exists c', handle (Cmd.ExecuteStream qid q sts prs) c (stream_script ch) = (c', [], Some tt) /\
    poisoned c' = false /\ state c' = Idle /\ inbox c' = rest /\
    replies c' = replies c ++ forwarded ch ++ [ToStream (stream_verdict t)].
Proof.
  intros Hp Hst Hch Ht Hb Hs. unfold stream_script. cbn [app]. rewrite stream_started by done.
  rewrite (stream_chatter ch _ _ (packets [t] ++ rest)); [|done|].
  2:{ cbn [inbox after_request put_wire]. rewrite Hb. unfold packets. by rewrite map_app, <- app_assoc. }
  rewrite act_loop_eq by apply waits_stream. unfold stream_turn at 1. cbv zeta.
  destruct (tell_fields (forwarded ch) (set_inbox (packets [t] ++ rest) (after_request c qid q sts prs)))
    as (Hp' & Hst' & Hb' & Hr').
  cbn [poisoned state inbox replies set_inbox after_request put_wire] in *.
  set (d := tell _ _) in *. cbv [mbind act_bind query_event await]. cbn [await_loop recv]. rewrite Hb'.
  destruct t; try discriminate Ht; cbn; eexists; (split; [reflexivity|]); cbn;
    rewrite Hp', Hst', Hr', <- app_assoc; split_and!; done.
Qed.

(** ** Items and blocks *)

Lemma stream_items_app rs rs' : stream_items (rs ++ rs') = stream_items rs ++ stream_items rs'.
Proof. unfold stream_items. by rewrite omap_app. Qed.

Lemma stream_items_ok ps : stream_items (map (fun p => ToStream (Ok p)) ps) = map Ok ps.
Proof. unfold stream_items. induction ps as [|p ps IH]; [done|]. cbn. by rewrite IH. Qed.

Lemma result_set_items ps items :
  chatter query_ends ps -> result_set (map Ok ps ++ items) = (blocks ← result_set items; Ok (omap block_of ps ++ blocks)).
Proof.
  induction 1 as [|p ps Hp Hps IH]; [cbn; by destruct (result_set items)|].
  cbn [map app result_set]. destruct p; try discriminate Hp; rewrite IH; destruct (result_set items); reflexivity.
Qed.

Lemma forwarded_items ch : stream_items (forwarded ch) = map Ok (filter (fun p => shown p = true) ch).
Proof. apply stream_items_ok. Qed.

Lemma shown_chatter ch : chatter query_ends ch -> chatter query_ends (filter (fun p => shown p = true) ch).
Proof. intros Hch. apply Forall_forall. intros p [_ Hp]%list_elem_of_filter. by apply (proj1 (Forall_forall _ _) Hch). Qed.

Lemma shown_blocks (ch : list ServerPacket) : omap block_of (filter (fun p => shown p = true) ch) = omap block_of ch.
Proof.
  induction ch as [|p ch IH]; [done|]. rewrite filter_cons. case_decide as Hp.
  - cbn [omap list_omap]. by rewrite IH.
  - rewrite IH. destruct p; done || by destruct Hp.
Qed.

(** What the caller of a SELECT gets for an answer. *)
Definition outcome_of (ch : list ServerPacket) (t : ServerPacket) : Result (list DecodedBlock) :=
  match t with
  | Sp.Exception e => Err (into_error e)
  | _ => Ok (omap block_of ch)
  end.

Lemma answered_result ch t :
  chatter query_ends ch -> query_ends t = true ->
  result_set (stream_items (forwarded ch ++ [ToStream (stream_verdict t)])) = outcome_of ch t.
Proof.
  intros Hch Ht. rewrite stream_items_app, forwarded_items. rewrite result_set_items by by apply shown_chatter.
  rewrite shown_blocks. destruct t; try discriminate Ht; [done|]. cbn. by rewrite app_nil_r.
Qed.

(** ** Batches of rows as an answer *)

(** What a batch has to be for the encoder and the caps. *)
Definition batch_fits (cols : list ColumnSchema) (rows : list (list (list byte))) : Prop :=
  rows <> [] /\ Forall (enc_all2 enc_cell (map (fun c => wire_type_of (col_type c)) cols)) rows /\
  Z.of_nat (length (concat (concat rows))) <= MAX_COLUMN_BYTES /\ Z.of_nat (length rows) <= MAX_BLOCK_ROWS.

(** A Data packet per batch, as the server frames it, and the end of the stream. *)
Definition batch_packet (rev : Z) (cols : list ColumnSchema) (rows : list (list (list byte))) (out : list byte) : list byte :=
  write_var_uint (server_id Sid.Data) ++ frame rev [] out (Z.of_nat (length cols)) (Z.of_nat (length rows)).
Definition answer_bytes (rev : Z) (cols : list ColumnSchema) (batches : list (list (list (list byte))))
    (outs : list (list byte)) : list byte :=
  concat (zip_with (batch_packet rev cols) batches outs) ++ write_var_uint (server_id Sid.EndOfStream).

Section batches.
Context `{Platform} `{FloatText}.
Hypothesis Halloc : alloc_total.

Lemma batches_read_back rev cols batches :
  Forall sendable cols -> cols <> [] -> Z.of_nat (length cols) <= READER_MAX_BLOCK_COLUMNS ->
  Forall (batch_fits cols) batches ->
  exists outs, Forall2 (fun rows out => encode_columns (map (@concat byte) rows) cols rev = Ok out) batches outs /\
    (Forall (fun out => Z.of_nat (length out) < 2 ^ 64) outs ->
     exists blocks,
       reader_loop rev (answer_bytes rev cols batches outs) =
         packets (map Sp.DataBlock blocks ++ [Sp.EndOfStream]) ++ reader_loop rev [] /\
       Forall2 (fun rows b => num_rows b = Z.of_nat (length rows) /\
         carries rows 0 cols (zip (schema b) (columns b))) batches blocks).
Proof.
  intros Hs Hc Hnc. induction 1 as [|rows batches (Hne & Hrows & Hb & Hn) Hall IH].
  { exists []. split; [constructor|]. intros _. exists []. split; [reflexivity|constructor]. }
  destruct IH as (outs & Houts & Hread).
  destruct (reads_block_packet Halloc cols rows rev [] Sid.Data) as (out & Henc & Hblock);
    [done..|split; [unfold MAX_STRING_SIZE; simpl; lia|done]|by left|].
  exists (out :: outs). split; [by constructor|]. intros [Hlen Hlens]%Forall_cons.
  destruct (Hblock Hlen) as (b & Hb' & Hcar). destruct (Hread Hlens) as (blocks & Hsplit & Hcars).
  exists (b :: blocks). split; [|by constructor]. unfold answer_bytes. cbn [zip_with concat].
  rewrite <- app_assoc. unfold batch_packet at 1. rewrite reader_loop_eq, Hb'. unfold answer_bytes in Hsplit.
  by rewrite Hsplit.
Qed.

End batches.

(** ** Properties *)

(** a SELECT returns its answer. Whatever timers, arrivals and poison are interleaved,
    a stream whose caller stays and which leaves the connection unpoisoned gives the caller
    exactly the blocks of the answer, in order and header blocks included, or the
    server's exception; and there is a run that completes, leaving nothing owed. *)
Theorem select_returns_the_answer c settings q ch t :
  poisoned c = false -> state c = Idle -> chatter query_ends ch -> query_ends t = true ->
  inbox c = packets (ch ++ [t]) ->
  snd (send_query (revision (hello c)) (q_query_id q) (q_sql q) settings (q_params q) (client_info_for c (q_query_id q))) = Ok tt ->
  (forall s c' s', Forall stays s -> handle (stream_command settings q) c s = (c', s', Some tt) -> poisoned c' = false ->
     exists new, replies c' = replies c ++ new /\
       fetch_blocks (from_receiver (stream_items new)) = Some (outcome_of ch t)) /\
  (exists c', handle (stream_command settings q) c (stream_script ch) = (c', [], Some tt) /\
     poisoned c' = false /\ state c' = Idle /\ inbox c' = []).
Proof.
  intros Hp Hst Hch Ht Hb Hs. split.
  - intros s c' s' Hstay Hr Hp'.
    destruct (handle_step stays NoInsert Idle _ _ NoInsert _ (replies c)
      (ans_stream stays NoInsert (q_query_id q) (q_sql q) settings (q_params q) ch t Hch Ht) c s c' s' tt Hstay) as [Ha _];
      [|exact Hr|].
    { intros _. split_and!; [done|done|]. by exists []. }
    destruct (Ha Hp') as (_ & new & [->|[Hgone _]] & Hrep); [|by destruct Hgone].
    eexists. split; [exact Hrep|]. unfold from_receiver. by rewrite fetch_blocks_eq, answered_result.
  - destruct (stream_completes c (q_query_id q) (q_sql q) settings (q_params q) ch t []) as (c' & ? & ? & ? & ? & _);
      [done..|by rewrite app_nil_r|done|]. by exists c'.
Qed.

Lemma select_returns_the_answer_witness :
  exists c', handle (stream_command [] (TcpQuery_new (str "SELECT 1"))) (fresh (packets [progress_example; Sp.EndOfStream]))
      (stream_script [progress_example]) = (c', [], Some tt) /\
    poisoned c' = false /\ state c' = Idle /\ inbox c' = [].
Proof.
  refine (proj2 (@select_returns_the_answer (fresh (packets [progress_example; Sp.EndOfStream])) []
    (TcpQuery_new (str "SELECT 1")) [progress_example] Sp.EndOfStream _ _ _ _ _ _));
    [done|done|by repeat constructor|done|done|vm_compute; reflexivity].
Defined.

(** C25: a result set is never cut short silently. Whatever the server sends and
    whatever fails, what a stream's caller is sent is items and one end: an end of stream gives exactly the
    blocks that were forwarded, anything else its error; and were the actor to go away
    after any number of the items, the caller would get an error, not fewer rows. *)
Theorem select_is_never_truncated settings q c s c' s' :
  Forall stays s -> handle (stream_command settings q) c s = (c', s', Some tt) ->
  exists pkts last, let items : list (Result ServerPacket) := map Ok pkts ++ [last] in
    replies c' = replies c ++ map ToStream items /\
    fetch_blocks (from_receiver items) =
      Some (match last with Ok _ => Ok (omap block_of pkts) | Err e => Err e end) /\
    (last = Ok Sp.EndOfStream \/ exists e, last = Err e) /\
    (forall k, (k < length items)%nat -> fetch_blocks (from_receiver (take k items)) = Some (Err exited_early)).
Proof.
  intros Hs Hh.
  destruct (handle_told (stream_command settings q) (replies c) c s c' s' tt Hs eq_refl Hh) as [(new & Ht & Hr) _].
  destruct Ht as (pkts & last & -> & Hch & Hlast). exists pkts, last. cbv zeta. split_and!.
  - by rewrite Hr, map_app, map_map.
  - unfold from_receiver. rewrite fetch_blocks_eq, result_set_items by done.
    destruct Hlast as [->|(e & ->)]; cbn; by rewrite ?app_nil_r.
  - exact Hlast.
  - intros k Hk. rewrite length_app, length_map in Hk. cbn [length] in Hk.
    rewrite take_app_le by (rewrite length_map; lia). rewrite firstn_map.
    unfold from_receiver. rewrite fetch_blocks_eq. rewrite <- (app_nil_r (map Ok _)), result_set_items; [done|].
    by apply Forall_take.
Qed.

Definition header_example : ServerPacket := Sp.Data (Some []) 1 0 [(str "n", str "UInt64")].
Definition select_example : TcpQuery := with_query_id (str "q1") (TcpQuery_new (str "SELECT n FROM t")).

Lemma select_is_never_truncated_witness :
  let c := fresh (packets [header_example; progress_example; Sp.EndOfStream]) in
  let run := handle (stream_command [] select_example) c (stream_script [header_example; progress_example]) in
  exists pkts last, let items : list (Result ServerPacket) := map Ok pkts ++ [last] in
    replies (fst (fst run)) = [] ++ map ToStream items /\
    fetch_blocks (from_receiver items) =
      Some (match last with Ok _ => Ok (omap block_of pkts) | Err e => Err e end) /\
    (last = Ok Sp.EndOfStream \/ exists e, last = Err e) /\
    (forall k, (k < length items)%nat -> fetch_blocks (from_receiver (take k items)) = Some (Err exited_early)).
Proof.
  intros c run.
  refine (@select_is_never_truncated [] select_example c (stream_script [header_example; progress_example])
    (fst (fst run)) [] _ _).
  - apply stream_script_stays.
  - vm_compute. reflexivity.
Defined.

(** C6: rows reach the caller. A server that answers a SELECT with the rows of each
    batch as one block, every batch encoded as the client's encoder encodes them, and then the
    end of the stream: the reader task splits its bytes, the actor forwards them, and
    the caller's fetch_blocks returns one block per batch, in order, with
    exactly its rows' cells; the connection is left clean. *)
Theorem rows_reach_the_caller `{Platform} `{FloatText} server_hello timeout key cols batches settings q :
  let rev := revision server_hello in
  alloc_total -> Forall sendable cols -> cols <> [] -> Z.of_nat (length cols) <= READER_MAX_BLOCK_COLUMNS ->
  Forall (batch_fits cols) batches ->
  snd (send_query rev (q_query_id q) (q_sql q) settings (q_params q)
    (client_info_for (spawn server_hello timeout key []) (q_query_id q))) = Ok tt ->
  exists outs, Forall2 (fun rows out => encode_columns (map (@concat byte) rows) cols rev = Ok out) batches outs /\
    (Forall (fun out => Z.of_nat (length out) < 2 ^ 64) outs ->
     let start := spawn server_hello timeout key (reader_loop rev (answer_bytes rev cols batches outs)) in
     exists s c' blocks, Forall stays s /\ handle (stream_command settings q) start s = (c', [], Some tt) /\
       poisoned c' = false /\ state c' = Idle /\
       fetch_blocks (from_receiver (stream_items (replies c'))) = Some (Ok blocks) /\
       Forall2 (fun rows b => num_rows b = Z.of_nat (length rows) /\
         carries rows 0 cols (zip (schema b) (columns b))) batches blocks).
Proof.
  intros rev Ha Hs Hc Hnc Hall Hsend.
  destruct (batches_read_back Ha rev cols batches) as (outs & Houts & Hread); [done..|].
  exists outs. split; [exact Houts|]. intros Hlen start. destruct (Hread Hlen) as (blocks & Hsplit & Hcar).
  assert (Hch : chatter query_ends (map Sp.DataBlock blocks)) by (by apply Forall_map, Forall_true).
  destruct (stream_completes start (q_query_id q) (q_sql q) settings (q_params q) (map Sp.DataBlock blocks)
    Sp.EndOfStream (reader_loop rev [])) as (c' & Hrun & Hp & Hst & _ & Hrep); [done..|exact Hsplit|exact Hsend|].
  exists (stream_script (map Sp.DataBlock blocks)), c', blocks. split_and!; [apply stream_script_stays|done..| |done].
  rewrite Hrep. cbn [replies spawn app start]. unfold from_receiver.
  rewrite fetch_blocks_eq, (answered_result _ Sp.EndOfStream) by done. cbn [outcome_of]. do 2 f_equal.
  clear. induction blocks as [|b blocks IH]; [done|]. cbn. by f_equal.
Qed.

Lemma rows_reach_the_caller_witness :
  let batches := [example_rows; example_rows] in
  exists outs, Forall2 (fun rows out => encode_columns (map (@concat byte) rows) example_cols 54484 = Ok out) batches outs /\
    (Forall (fun out => Z.of_nat (length out) < 2 ^ 64) outs ->
     let start := spawn hello_example (Some 30) []
       (@reader_loop roomy no_floats 54484 (answer_bytes 54484 example_cols batches outs)) in
     exists s c' blocks, Forall stays s /\ handle (stream_command [] select_example) start s = (c', [], Some tt) /\
       poisoned c' = false /\ state c' = Idle /\
       fetch_blocks (from_receiver (stream_items (replies c'))) = Some (Ok blocks) /\
       Forall2 (fun rows b => num_rows b = Z.of_nat (length rows) /\
         carries rows 0 example_cols (zip (schema b) (columns b))) batches blocks).
Proof.
  refine (@rows_reach_the_caller roomy no_floats hello_example (Some 30) [] example_cols [example_rows; example_rows] []
    select_example _ _ _ _ _ _).
  - done.
  - exact example_sendable.
  - done.
  - vm_compute. discriminate.
  - assert (batch_fits example_cols example_rows) as Hb.
    { split_and!; [done|exact example_cells|vm_compute; discriminate..]. }
    constructor; [exact Hb|constructor; [exact Hb|constructor]].
  - vm_compute. reflexivity.
Defined.
