(* ===== verification/Worker.v ===== *)
(** * The command worker

    Models [src/worker.rs]: the task that runs a worker's commands one after the
    other until it is told to shut down or every sender is gone. What happens to the
    task is a sequence of events; [Poll] is the runner coming to its select.
    Properties: commands run in the order they were sent, none twice and none invented, and the
    shutdown hook runs once, last. [ConnectionHandle::close] of [src/tcp/connection_actor.rs] is here as the user of the control. *)

From S2P Require Import Prelude Errors.

(** [CommandWorker]: the hooks of an implementor. *)
Class CommandWorker (W C : Type) := {
  handle_command : C -> W -> W;
  on_idle_tick : W -> W;
  on_shutdown : W -> W;
  idle_interval : option Z
}.

Module Wk.
Inductive WorkerEvent (C : Type) := Send (cmd : C) | Shutdown | SendersGone | Tick | Poll.
Arguments Send {_} _. Arguments Shutdown {_}. Arguments SendersGone {_}. Arguments Tick {_}. Arguments Poll {_}.
End Wk.
Abbreviation WorkerEvent := Wk.WorkerEvent.

(** What the task did, in order. *)
Inductive Ran (C : Type) := Handled (cmd : C) | Idled | Stopped.
Arguments Handled {_} _. Arguments Idled {_}. Arguments Stopped {_}.

Section worker.
Context {W C : Type} `{CommandWorker W C}.

(** The channel, the shutdown signal, whether a tick is due, and the worker. *)
Record Task := {
  queue : list C;
  signalled : bool;
  senders_gone : bool;
  tick_due : bool;
  exited : bool;
  implementor : W;
  ran : list (Ran C)
}.

Definition spawn_task (w : W) : Task :=
  {| queue := []; signalled := false; senders_gone := false; tick_due := false; exited := false;
     implementor := w; ran := [] |}.

Inductive NextEvent := Command (cmd : C) | Idle_.

(** The biased select of [run]: the signal, then the channel, then the tick where
    there is one. [Some None] ends the loop; [None] is nothing ready yet. *)
Definition select (t : Task) : option (option NextEvent) :=
  if signalled t then Some None
  else match queue t with
       | cmd :: _ => Some (Some (Command cmd))
       | [] =>
           if senders_gone t then Some None
           else match idle_interval with
                | Some _ => if tick_due t then Some (Some Idle_) else None
                | None => None
                end
       end.

(** One turn of the loop of [run]. *)
Definition turn (t : Task) : Task :=
  match select t with
  | None => t
  | Some (Some (Command cmd)) =>
      {| queue := tail (queue t); signalled := signalled t; senders_gone := senders_gone t; tick_due := tick_due t;
         exited := false; implementor := handle_command cmd (implementor t); ran := ran t ++ [Handled cmd] |}
  | Some (Some Idle_) =>
      {| queue := queue t; signalled := signalled t; senders_gone := senders_gone t; tick_due := false;
         exited := false; implementor := on_idle_tick (implementor t); ran := ran t ++ [Idled] |}
  | Some None =>
      {| queue := queue t; signalled := signalled t; senders_gone := senders_gone t; tick_due := tick_due t;
         exited := true; implementor := on_shutdown (implementor t); ran := ran t ++ [Stopped] |}
  end.

(** An event. [WorkerHandle::send] fails once the task is gone, and no sender sends
    after the last is dropped. *)
Definition happens (ev : WorkerEvent C) (t : Task) : Task :=
  if exited t then t
  else match ev with
       | Wk.Send cmd =>
           if senders_gone t then t else
           {| queue := queue t ++ [cmd]; signalled := signalled t; senders_gone := senders_gone t; tick_due := tick_due t;
              exited := false; implementor := implementor t; ran := ran t |}
       | Wk.Shutdown =>
           {| queue := queue t; signalled := true; senders_gone := senders_gone t; tick_due := tick_due t;
              exited := false; implementor := implementor t; ran := ran t |}
       | Wk.SendersGone =>
           {| queue := queue t; signalled := signalled t; senders_gone := true; tick_due := tick_due t;
              exited := false; implementor := implementor t; ran := ran t |}
       | Wk.Tick =>
           {| queue := queue t; signalled := signalled t; senders_gone := senders_gone t; tick_due := true;
              exited := false; implementor := implementor t; ran := ran t |}
       | Wk.Poll => turn t
       end.
Definition happen (evs : list (WorkerEvent C)) (t : Task) : Task := foldl (fun t ev => happens ev t) t evs.

(** [WorkerHandle::send]'s outcome at the moment of an event. *)
Definition accepted (t : Task) : bool := negb (exited t) && negb (senders_gone t).

(** [WorkerHandle::send]: the command is queued, or comes back because the worker has exited. *)
Definition send (cmd : C) (t : Task) : Task * result C unit :=
  if accepted t then (happens (Wk.Send cmd) t, Ok tt) else (t, Err cmd).

(** [Display] for [SendError]. *)
Definition send_error_text : text := str "worker has exited; cannot send command".

(** [WorkerControl]: its shutdown sender and its join handle, while it still has them. [shutdown]
    signals and awaits the task, whose own outcome is [joined]; [Drop] signals if nobody has. *)
Record WorkerControl := {
  shutdown_tx : bool;
  join : bool
}.
Definition new_control : WorkerControl := {| shutdown_tx := true; join := true |}.
Definition signal (ctl : WorkerControl) (t : Task) : Task :=
  if shutdown_tx ctl then happens Wk.Shutdown t else t.
Definition drop_control (ctl : WorkerControl) (t : Task) : WorkerControl * Task :=
  ({| shutdown_tx := false; join := join ctl |}, signal ctl t).
Definition shutdown {E} (joined : result E unit) (ctl : WorkerControl) (t : Task) : WorkerControl * Task * result E unit :=
  let t := signal ctl t in
  let ctl' := {| shutdown_tx := false; join := false |} in
  (ctl', snd (drop_control ctl' t), if join ctl then joined else Ok tt).

(** [ConnectionHandle::close], the control shared by every clone of the handle: the first to close takes it. *)
Definition close (control : option WorkerControl) (joined : result text unit) (t : Task)
    : option WorkerControl * Task * Result unit :=
  match control with
  | Some control =>
      let '(_, t, r) := shutdown joined control t in
      (None, t, map_err (fun e => Custom (str "tcp: connection actor task did not exit cleanly: " ++ e)) r)
  | None => (None, t, Ok tt)
  end.

(** The commands a run of events was given and took. *)
Fixpoint sent (evs : list (WorkerEvent C)) (t : Task) : list C :=
  match evs with
  | [] => []
  | ev :: evs' =>
      match ev with
      | Wk.Send cmd => if accepted t then [cmd] else []
      | _ => []
      end ++ sent evs' (happens ev t)
  end.
Definition handled_of (r : Ran C) : option C := match r with Handled cmd => Some cmd | _ => None end.
Definition handled (t : Task) : list C := omap handled_of (ran t).

(** What the log and the flags say of a task that was given [cmds] so far. *)
Definition orderly (w0 : W) (t : Task) (cmds : list C) : Prop :=
  cmds = handled t ++ queue t /\
  implementor t = foldl (fun w r => match r with
    | Handled cmd => handle_command cmd w | Idled => on_idle_tick w | Stopped => on_shutdown w end) w0 (ran t) /\
  (if exited t then
     (exists before, ran t = before ++ [Stopped] /\ Stopped ∉ before) /\ (signalled t = false -> queue t = [])
   else Stopped ∉ ran t).

Lemma handled_snoc l r : omap handled_of (l ++ [r]) = omap handled_of l ++ option_list (handled_of r).
Proof. rewrite omap_app. by destruct r. Qed.

Lemma orderly_turn w0 t cmds : exited t = false -> orderly w0 t cmds -> orderly w0 (turn t) cmds.
Proof.
  intros He (Hc & Hw & Hs). rewrite He in Hs. unfold turn, select, orderly, handled in *.
  destruct (signalled t) eqn:Esig.
  { cbn. rewrite Hw, foldl_app, handled_snoc. cbn. rewrite app_nil_r. split_and!; [done..|by eexists|congruence]. }
  destruct (queue t) as [|cmd q] eqn:Eq.
  - destruct (senders_gone t).
    { cbn. rewrite Hw, foldl_app, handled_snoc. cbn. rewrite app_nil_r. split_and!; [done..|by eexists|done]. }
    destruct idle_interval; [destruct (tick_due t)|]; cbn; rewrite ?Eq, ?He; [|by split_and!..].
    rewrite Hw, foldl_app, handled_snoc. cbn. rewrite !app_nil_r in *. split_and!; [done..|].
    intros [Hin|Hin%list_elem_of_singleton]%elem_of_app; done.
  - cbn. rewrite Hw, foldl_app, handled_snoc. cbn. rewrite <- app_assoc. split_and!; [done..|].
    intros [Hin|Hin%list_elem_of_singleton]%elem_of_app; done.
Qed.

Lemma orderly_event w0 ev t cmds :
  orderly w0 t cmds ->
  orderly w0 (happens ev t) (cmds ++ match ev with Wk.Send cmd => if accepted t then [cmd] else [] | _ => [] end).
Proof.
  intros Ho. unfold happens, accepted. destruct (exited t) eqn:He.
  { cbn. destruct ev; by rewrite app_nil_r. }
  destruct ev as [cmd| | | |]; cbn [negb andb]; rewrite ?app_nil_r.
  - destruct (senders_gone t); cbn; [by rewrite app_nil_r|]. destruct Ho as (-> & Hw & Hs). rewrite He in Hs.
    unfold orderly, handled. cbn. by rewrite <- app_assoc.
  - destruct Ho as (-> & Hw & Hs). rewrite He in Hs. by split_and!.
  - destruct Ho as (-> & Hw & Hs). rewrite He in Hs. by split_and!.
  - destruct Ho as (-> & Hw & Hs). rewrite He in Hs. by split_and!.
  - by apply orderly_turn.
Qed.

Lemma orderly_run w0 evs t cmds : orderly w0 t cmds -> orderly w0 (happen evs t) (cmds ++ sent evs t).
Proof.
  revert t cmds; induction evs as [|ev evs IH]; intros t cmds Ho; cbn [happen foldl sent].
  - by rewrite app_nil_r.
  - rewrite app_assoc. apply IH. by apply orderly_event.
Qed.

(** Closing is idempotent: the first close signals, whatever is closed or dropped after it does nothing. *)
Lemma close_once joined joined' t :
  let '(control, t1, _) := close (Some new_control) joined t in
  control = None /\ t1 = happens Wk.Shutdown t /\ close control joined' t1 = (None, t1, Ok tt).
Proof. done. Qed.

(** A command refused is handed back and changes nothing; one taken is queued last. *)
Lemma send_or_back cmd t :
  match send cmd t with
  | (t', Ok _) => queue t' = queue t ++ [cmd]
  | (t', Err cmd') => cmd' = cmd /\ t' = t
  end.
Proof.
  unfold send, accepted. destruct (exited t) eqn:He; [done|]. destruct (senders_gone t) eqn:Hs; [done|]. cbn.
  unfold happens. by rewrite He, Hs.
Qed.

(** ** Properties *)

(** whatever is sent, signalled, ticked or dropped, and whenever: the commands that
    were run are a prefix of the commands taken, in the order they were sent, and what has not been run
    is still queued; the worker's state is that of running its log; and once the
    task has exited its shutdown hook has run exactly once, after everything else, the whole
    queue having been served unless it was told to shut down. *)
Theorem worker_runs_in_order w evs :
  let t := happen evs (spawn_task w) in
  sent evs (spawn_task w) = handled t ++ queue t /\
  implementor t = foldl (fun w r => match r with
    | Handled cmd => handle_command cmd w | Idled => on_idle_tick w | Stopped => on_shutdown w end) w (ran t) /\
  (if exited t then
     (exists before, ran t = before ++ [Stopped] /\ Stopped ∉ before) /\ (signalled t = false -> queue t = [])
   else Stopped ∉ ran t).
Proof.
  apply (orderly_run w evs (spawn_task w) []). split_and!; [done|done|]. apply not_elem_of_nil.
Qed.

(** a shutdown does not serve the queue: what was sent before the signal and not yet
    run never is. *)
Lemma shutdown_leaves_the_queue w cmds :
  let t := happen (map Wk.Send cmds ++ [Wk.Shutdown; Wk.Poll]) (spawn_task w) in
  exited t = true /\ handled t = [] /\ queue t = cmds.
Proof.
  unfold happen. rewrite foldl_app.
  assert (Hq : forall cmds q, foldl (fun t ev => happens ev t)
      {| queue := q; signalled := false; senders_gone := false; tick_due := false; exited := false;
         implementor := w; ran := [] |} (map Wk.Send cmds) =
      {| queue := q ++ cmds; signalled := false; senders_gone := false; tick_due := false; exited := false;
         implementor := w; ran := [] |}).
  { clear cmds. induction cmds as [|cmd cmds IH]; intros q; cbn; [by rewrite app_nil_r|]. rewrite IH. by rewrite <- app_assoc. }
  unfold spawn_task. rewrite Hq. done.
Qed.

End worker.
