(* ===== verification/Pool.v ===== *)
(** * Opening pooled connections

    Models [src/tcp/pool.rs] and [src/tcp/connect.rs], but for its buffering: how a
    connection is opened (resolution, socket options, transport, handshake), the round-robin failover of
    [Manager::create] under its time budget, and the rule that refuses a returned connection.
    The network is an interface. Properties: failover finds a
    live endpoint, within the budget. *)

From S2P Require Import Prelude Text Errors WireIo ColTypes Json Columns Decode Encode Protocol Packets Requests Actor.

(** ** The network

    Resolution, the socket and its options, and the TLS handshake, each with the time it takes ([None] never
    answers); [peer_bytes] is what the peer of an open transport will send. [debug_text] is
    the standard library's quoting of a string in [{:?}]. *)

(** [TcpKeepalive]: durations in nanoseconds. *)
Record TcpKeepalive := {
  keepalive_time : Z;
  keepalive_interval : Z;
  keepalive_retries : Z
}.

Class Net := {
  Addr : Type;
  TcpStream : Type;
  TlsStream : Type;
  TlsConfig : Type;
  ServerName : Type;
  lookup_host : text -> Z -> option (Z * result text (list Addr));
  tcp_connect : Addr -> option (Z * result IoError TcpStream);
  set_nodelay : bool -> TcpStream -> result IoError TcpStream;
  set_tcp_keepalive : TcpKeepalive -> TcpStream -> result IoError TcpStream;
  server_name_from : text -> result text ServerName;
  tls_connect : TlsConfig -> ServerName -> TcpStream -> option (Z * result IoError TlsStream);
  tcp_peer_bytes : TcpStream -> list byte;
  tls_peer_bytes : TlsStream -> list byte;
  handshake_time : list byte -> option Z;
  debug_text : text -> text
}.

Section pool.
Context `{Platform} `{FloatText} `{Net}.

(** ** Connecting

    [connect.rs]. An operation takes time before its outcome; what follows starts when it is over. *)

Definition TCP_KEEPALIVE_IDLE : Z := 60_000_000_000.
Definition TCP_KEEPALIVE_INTERVAL : Z := 20_000_000_000.
Definition TCP_KEEPALIVE_RETRIES : Z := 3.
Definition keepalive : TcpKeepalive :=
  {| keepalive_time := TCP_KEEPALIVE_IDLE; keepalive_interval := TCP_KEEPALIVE_INTERVAL;
     keepalive_retries := TCP_KEEPALIVE_RETRIES |}.

(** [MaybeTlsStream], and what is read from it. *)
Inductive MaybeTlsStream :=
| PlainStream (s : TcpStream)
| TlsUpgraded (s : TlsStream).
Definition peer_bytes (s : MaybeTlsStream) : list byte :=
  match s with
  | PlainStream s => tcp_peer_bytes s
  | TlsUpgraded s => tls_peer_bytes s
  end.

(** [.await?]: the outcome of [m], then [f] on its value. *)
Definition timed_bind {A B} (m : option (Z * Result A)) (f : A -> option (Z * Result B)) : option (Z * Result B) :=
  '(d, r) ← m;
  match r with
  | Ok a => '(d', r') ← f a; Some (d + d', r')
  | Err e => Some (d, Err e)
  end.
Definition at_once {A} (r : Result A) : option (Z * Result A) := Some (0, r).
Definition io_timed {A} (m : option (Z * result IoError A)) : option (Z * Result A) :=
  '(d, r) ← m; Some (d, map_err from_io r).

(** [connect_socket]. *)
Definition connect_socket (addr : Addr) : option (Z * Result TcpStream) :=
  timed_bind (io_timed (tcp_connect addr)) (fun socket =>
  timed_bind (at_once (map_err from_io (set_nodelay true socket))) (fun socket =>
  at_once (map_err from_io (set_tcp_keepalive keepalive socket)))).

(** [connect_plain]. *)
Definition connect_plain (addr : Addr) : option (Z * Result MaybeTlsStream) :=
  timed_bind (connect_socket addr) (fun socket => at_once (Ok (PlainStream socket))).

Definition invalid_sni (server_name reason : text) : Error :=
  Custom (str "tcp: invalid SNI " ++ debug_text server_name ++ str ": " ++ reason).

(** [connect_tls]: the socket first, then the name. *)
Definition connect_tls (addr : Addr) (server_name : text) (config : TlsConfig) : option (Z * Result MaybeTlsStream) :=
  timed_bind (connect_socket addr) (fun socket =>
  timed_bind (at_once (map_err (invalid_sni server_name) (server_name_from server_name))) (fun sni =>
  timed_bind (io_timed (tls_connect config sni socket)) (fun tls => at_once (Ok (TlsUpgraded tls))))).

(** [ConnectKind]. *)
Inductive ConnectKind :=
| Plain
| Tls (server_name : text) (config : TlsConfig)
| TlsFailClosed.

(** [TcpConnectionManager]; durations in nanoseconds. *)
Record TcpConnectionManager := {
  endpoints : list text;
  next : Z;
  kind : ConnectKind;
  mgr_config : HandshakeConfig;
  max_lifetime : option Z;
  mgr_read_timeout : option Z;
  create_timeout : option Z
}.

Definition tls_refusal : Error :=
  custom "tcp: TLS trust was configured but could not be resolved; refusing to connect with default trust".

(** [open_handshaken]: the hello, and the bytes left for the actor's reader. *)
Definition open_handshaken (addr : Addr) (kind : ConnectKind) (cfg : HandshakeConfig)
    : option (Z * Result (ServerHello * list byte)) :=
  let opened :=
    match kind with
    | Plain => connect_plain addr
    | Tls server_name config => connect_tls addr server_name config
    | TlsFailClosed => Some (0, Err tls_refusal)
    end in
  '(d, stream) ← opened;
  match stream with
  | Err e => Some (d, Err e)
  | Ok stream =>
      let incoming := peer_bytes stream in
      d' ← handshake_time incoming; Some (d + d', snd (handshake cfg incoming))
  end.

Definition unresolved (endpoint reason : text) : Error :=
  Connect (str "tcp: cannot resolve " ++ debug_text endpoint ++ str ": " ++ reason).
Definition no_addresses (endpoint : text) : Error :=
  Connect (str "tcp: " ++ debug_text endpoint ++ str " resolved to no addresses").

(** [connect_endpoint], at a time: the actor it spawns. *)
Definition connect_endpoint (mgr : TcpConnectionManager) (endpoint : text) (now : Z) : option (Z * Result Actor) :=
  '(d, addrs) ← lookup_host endpoint now;
  match addrs with
  | Err e => Some (d, Err (unresolved endpoint e))
  | Ok [] => Some (d, Err (no_addresses endpoint))
  | Ok (addr :: _) =>
      '(d', opened) ← open_handshaken addr (kind mgr) (mgr_config mgr);
      Some (d + d', '(hello, incoming) ← opened;
        Ok (spawn hello (mgr_read_timeout mgr) (quota_key (mgr_config mgr))
          (reader_loop (revision hello) incoming)))
  end.

(** ** Failover *)

Definition MIN_ENDPOINT_SLICE : Z := 1_000_000_000.

(** [u32::try_from(n).unwrap_or(u32::MAX)]. *)
Definition clamp_u32 (n : Z) : Z := if n <? 2 ^ 32 then n else 2 ^ 32 - 1.

(** [endpoint_slice]. *)
Definition endpoint_slice (remaining : Z) (endpoints_left : nat) : Z :=
  let share := remaining / clamp_u32 (Z.max (Z.of_nat endpoints_left) 1) in
  Z.min (Z.max share MIN_ENDPOINT_SLICE) remaining.

(** [{:?}] of a [Duration]. *)
Fixpoint fraction_digits (width : nat) (frac : Z) : text :=
  match width with
  | O => []
  | S w => if frac =? 0 then [] else
      let scale := 10 ^ Z.of_nat w in byte.of_Z (48 + frac / scale) :: fraction_digits w (frac mod scale)
  end.
Definition decimal (whole frac : Z) (width : nat) (unit_ : text) : text :=
  show whole ++ match fraction_digits width frac with [] => [] | ds => str "." ++ ds end ++ unit_.
Definition show_duration (d : Z) : text :=
  if 1_000_000_000 <=? d then decimal (d / 1_000_000_000) (d mod 1_000_000_000) 9 (str "s")
  else if 1_000_000 <=? d then decimal (d / 1_000_000) (d mod 1_000_000) 6 (str "ms")
  else if 1_000 <=? d then decimal (d / 1_000) (d mod 1_000) 3 ([xc2; xb5] ++ str "s")
  else decimal d 0 0 (str "ns").

Definition did_not_answer (endpoint : text) (slice : Z) : Error :=
  Connect (str "tcp: " ++ debug_text endpoint ++ str " did not answer within " ++ show_duration slice).
Definition no_endpoints : Error := Connect (str "tcp: no endpoints configured for this pool").
Definition budget_spent : Error := Connect (str "tcp: create timeout spent before any endpoint was tried").

(** One attempt under [tokio::time::timeout]: when it is over, and its outcome. *)
Definition timed (slice : Z) (late : Error) (now : Z) (attempt : option (Z * Result Actor)) : Z * Result Actor :=
  match attempt with
  | Some (d, r) => if d <=? slice then (now + d, r) else (now + slice, Err late)
  | None => (now + slice, Err late)
  end.

(** The loop of [create]: the time it ends at and its result, [None] when an unbounded
    attempt never answers. [i] is the index of the attempt, [left] how many are to be made. *)
Fixpoint create_loop (mgr : TcpConnectionManager) (start i left : nat) (now : Z) (last_err : option Error)
    : option (Z * Result Actor) :=
  let n := length (endpoints mgr) in
  match left with
  | O => Some (now, Err (default budget_spent last_err))
  | S left' =>
      let endpoint := nth ((start + i) mod n) (endpoints mgr) [] in
      let settle '(now, outcome) :=
        match outcome with
        | Ok handle => Some (now, Ok handle)
        | Err e => create_loop mgr start (S i) left' now (Some e)
        end in
      match create_timeout mgr with
      | Some total =>
          let remaining := Z.max 0 (total - now) in
          if remaining =? 0 then Some (now, Err (default budget_spent last_err))
          else
            let slice := endpoint_slice remaining (n - i) in
            settle (timed slice (did_not_answer endpoint slice) now (connect_endpoint mgr endpoint now))
      | None =>
          '(d, outcome) ← connect_endpoint mgr endpoint now;
          settle (now + d, outcome)
      end
  end.

(** [fetch_add] on the shared cursor. *)
Definition advance (mgr : TcpConnectionManager) : TcpConnectionManager :=
  {| endpoints := endpoints mgr; next := (next mgr + 1) mod 2 ^ 64; kind := kind mgr; mgr_config := mgr_config mgr;
     max_lifetime := max_lifetime mgr; mgr_read_timeout := mgr_read_timeout mgr; create_timeout := create_timeout mgr |}.

(** [Manager::create]. *)
Definition create (mgr : TcpConnectionManager) : TcpConnectionManager * option (Z * Result Actor) :=
  let n := length (endpoints mgr) in
  match n with
  | O => (mgr, Some (0, Err no_endpoints))
  | _ =>
      let start := Z.to_nat (next mgr mod Z.of_nat n) in
      (advance mgr, create_loop mgr start 0 n 0 None)
  end.

(** ** Recycling *)

(** [recycle_refusal]. *)
Definition recycle_refusal (max_lifetime : option Z) (created_elapsed : Z) (is_alive : bool) : option text :=
  if match max_lifetime with Some max => max <=? created_elapsed | None => false end
  then Some (str "connection exceeded max_lifetime")
  else if is_alive then None else Some (str "connection poisoned").

(** [ConnectionHandle::is_alive]. *)
Definition is_alive (c : Actor) : bool := negb (poisoned c).

(** [Manager::recycle]: the reason of a refusal; closing the refused connection is
    the worker's. *)
Definition recycle (mgr : TcpConnectionManager) (obj : Actor) (created_elapsed : Z) : result text unit :=
  match recycle_refusal (max_lifetime mgr) created_elapsed (is_alive obj) with
  | Some reason => Err reason
  | None => Ok tt
  end.

(** ** Failover under a budget *)

Lemma slice_bounds remaining k : 0 <= remaining -> endpoint_slice remaining k <= remaining.
Proof. unfold endpoint_slice. lia. Qed.

Lemma slice_share remaining k :
  0 < Z.of_nat k < 2 ^ 32 -> MIN_ENDPOINT_SLICE <= remaining / Z.of_nat k ->
  endpoint_slice remaining k = remaining / Z.of_nat k.
Proof.
  intros Hk Hmin. unfold endpoint_slice, clamp_u32. rewrite (Z.max_l (Z.of_nat k) 1) by lia.
  rewrite (proj2 (Z.ltb_lt (Z.of_nat k) (2 ^ 32))) by apply Hk. clear - Hk Hmin. destruct Hk as [Hk _].
  assert (remaining / Z.of_nat k <= remaining).
  { unfold MIN_ENDPOINT_SLICE in Hmin. pose proof (Z.mul_div_le remaining (Z.of_nat k) ltac:(lia)).
    assert (0 <= remaining) by nia. apply Z.div_le_upper_bound; nia. }
  lia.
Qed.

(** What is left after a share is spent still holds a share for everyone else. *)
Lemma share_left r k s : 0 < k -> k * s <= r -> s <= r / k /\ (k - 1) * s <= r - r / k.
Proof.
  intros Hk Hr. assert (s <= r / k) by (apply Z.div_le_lower_bound; lia). split; [done|].
  pose proof (Z.mod_pos_bound r k Hk). pose proof (Z.div_mod r k ltac:(lia)). nia.
Qed.

Lemma timed_by slice late now attempt : 0 <= slice -> fst (timed slice late now attempt) <= now + slice.
Proof. intros Hs. unfold timed. destruct attempt as [[d r]|]; [|simpl; lia]. destruct (Z.leb_spec d slice); simpl; lia. Qed.

Lemma slice_nonneg remaining k : 0 <= remaining -> 0 <= endpoint_slice remaining k.
Proof. intros Hr. unfold endpoint_slice, MIN_ENDPOINT_SLICE. lia. Qed.

(** With a budget the pass ends, in time. *)
Lemma create_loop_ends mgr total start i left now last_err :
  create_timeout mgr = Some total -> now <= total ->
  exists t r, create_loop mgr start i left now last_err = Some (t, r) /\ t <= total.
Proof.
  intros Ht. revert i now last_err; induction left as [|left IH]; intros i now last_err Hnow; cbn [create_loop].
  { by eexists _, _. }
  rewrite Ht. destruct (Z.eqb_spec (Z.max 0 (total - now)) 0) as [_|Hr]; [by eexists _, _|].
  set (slice := endpoint_slice _ _).
  assert (Hs : 0 <= slice <= total - now).
  { subst slice. split; [apply slice_nonneg; lia|]. etransitivity; [apply slice_bounds|]; lia. }
  pose proof (timed_by slice (did_not_answer (nth ((start + i) mod length (endpoints mgr)) (endpoints mgr) []) slice) now
    (connect_endpoint mgr (nth ((start + i) mod length (endpoints mgr)) (endpoints mgr) []) now) ltac:(lia)) as Hend.
  destruct (timed _ _ _ _) as [now' [h|e]]; cbn [fst] in Hend; [eexists _, _; split; [done|lia]|]. apply IH. lia.
Qed.

(** The endpoint tried [k] turns later answers within a fair share. *)
Definition answers_within (mgr : TcpConnectionManager) (share : Z) (endpoint : text) : Prop :=
  forall now, exists d h, connect_endpoint mgr endpoint now = Some (d, Ok h) /\ d <= share.

Lemma create_loop_finds mgr total start share k i left now last_err :
  create_timeout mgr = Some total -> MIN_ENDPOINT_SLICE <= share ->
  Z.of_nat (length (endpoints mgr)) < 2 ^ 32 -> (i + left = length (endpoints mgr))%nat ->
  (i <= k < i + left)%nat -> Z.of_nat left * share <= total - now ->
  answers_within mgr share (nth ((start + k) mod length (endpoints mgr)) (endpoints mgr) []) ->
  exists t h, create_loop mgr start i left now last_err = Some (t, Ok h).
Proof.
  intros Ht Hshare Hn. revert i now last_err; induction left as [|left IH]; intros i now last_err Hi Hk Hrem Hans; [lia|].
  cbn [create_loop]. rewrite Ht. unfold MIN_ENDPOINT_SLICE in Hshare.
  assert (Hpos : 0 < total - now) by nia. rewrite Z.max_r by lia. rewrite (proj2 (Z.eqb_neq _ _)) by lia.
  replace (length (endpoints mgr) - i)%nat with (S left) by lia.
  destruct (share_left (total - now) (Z.of_nat (S left)) share ltac:(lia) Hrem) as [Hfair Hrest].
  rewrite slice_share by (unfold MIN_ENDPOINT_SLICE; lia). set (slice := _ / _) in *.
  destruct (Nat.eq_dec i k) as [->|Hne].
  - destruct (Hans now) as (d & h & -> & Hd). unfold timed. rewrite (proj2 (Z.leb_le _ _)) by lia. by eexists _, _.
  - assert (Hs : 0 <= slice) by lia.
    pose proof (timed_by slice (did_not_answer (nth ((start + i) mod length (endpoints mgr)) (endpoints mgr) []) slice) now
      (connect_endpoint mgr (nth ((start + i) mod length (endpoints mgr)) (endpoints mgr) []) now) Hs) as Hend.
    destruct (timed _ _ _ _) as [now' [h|e]]; cbn [fst] in Hend; [by eexists _, _|]. apply IH; [lia..| |done].
    replace (Z.of_nat (S left) - 1) with (Z.of_nat left) in Hrest by lia. lia.
Qed.

(** Every endpoint has its turn in a pass, wherever it starts. *)
Lemma turn_of (n start j : nat) : (j < n)%nat -> exists k, (k < n)%nat /\ ((start + k) mod n)%nat = j.
Proof.
  intros Hj. exists ((j + (n - start mod n)) mod n)%nat.
  assert (Hn : n <> 0%nat) by lia. split; [by apply Nat.mod_upper_bound|].
  rewrite Nat.Div0.add_mod_idemp_r. pose proof (Nat.mod_upper_bound start n Hn) as Hs.
  rewrite (Nat.Div0.div_mod start n) at 1.
  replace (n * (start / n) + start mod n + (j + (n - start mod n)))%nat with (j + (start / n + 1) * n)%nat by nia.
  rewrite Nat.Div0.mod_add. by apply Nat.mod_small.
Qed.

(** ** Properties *)

(** C26: opening a connection fails over in time. With a budget, [create] always ends,
    within it, whatever the network does; and when the budget allows a second per endpoint,
    one endpoint that connects and shakes hands within its fair share (the budget
    divided by the number of endpoints) is enough: the endpoints before it in the
    round-robin, refusing, failing or silent, cannot starve it. *)
Theorem create_fails_over mgr total :
  create_timeout mgr = Some total -> 0 <= total ->
  (exists t r, snd (create mgr) = Some (t, r) /\ t <= total) /\
  (forall endpoint, endpoint ∈ endpoints mgr ->
     Z.of_nat (length (endpoints mgr)) < 2 ^ 32 ->
     MIN_ENDPOINT_SLICE <= total / Z.of_nat (length (endpoints mgr)) ->
     answers_within mgr (total / Z.of_nat (length (endpoints mgr))) endpoint ->
     exists t h, snd (create mgr) = Some (t, Ok h)).
Proof.
  intros Ht Hpos. split.
  - unfold create. destruct (length (endpoints mgr)) as [|n]; [by eexists _, _|]. by apply create_loop_ends.
  - intros endpoint [j Hj]%list_elem_of_lookup Hn Hmin Hans. pose proof (lookup_lt_Some _ _ _ Hj) as Hlt.
    unfold create. destruct (length (endpoints mgr)) as [|n] eqn:El; [lia|]. rewrite <- El in *. cbn [snd].
    destruct (turn_of (length (endpoints mgr)) (Z.to_nat (next mgr mod Z.of_nat (length (endpoints mgr)))) j Hlt)
      as (k & Hk & Heq).
    eapply (create_loop_finds mgr total _ _ k 0); [done|exact Hmin|lia|lia|lia| |].
    + rewrite Z.sub_0_r. apply Z.mul_div_le. lia.
    + rewrite Heq, (nth_lookup_Some _ _ _ _ Hj). exact Hans.
Qed.

End pool.

(** ** A network of two hosts *)

(** A network where one host is up: it answers with the bytes given, and knows no TLS. *)
Definition net_sending (bytes : list byte) : Net := {|
  Addr := bool;
  TcpStream := list byte;
  TlsStream := Empty_set;
  TlsConfig := unit;
  ServerName := text;
  lookup_host := fun endpoint _ => Some (1_000_000, Ok [bool_decide (endpoint = str "live:9000")]);
  tcp_connect := fun up => if up : bool then Some (2_000_000, Ok bytes) else None;
  set_nodelay := fun _ s => Ok s;
  set_tcp_keepalive := fun _ s => Ok s;
  server_name_from := fun s => Ok s;
  tls_connect := fun _ _ _ => Some (0, Err (IoKind InvalidData));
  tcp_peer_bytes := fun s => s;
  tls_peer_bytes := fun s => match s with end;
  handshake_time := fun _ => Some 3_000_000;
  debug_text := fun s => [x22] ++ s ++ [x22]
|}.
Definition net_example : Net := net_sending (hello_layout wire_hello_example ++ [x04]).

Definition manager_example : @TcpConnectionManager net_example :=
  {| endpoints := [str "silent:9000"; str "live:9000"]; next := 0; kind := Plain; mgr_config := HandshakeConfig_default;
     max_lifetime := None; mgr_read_timeout := None; create_timeout := Some 10_000_000_000 |}.

Lemma create_fails_over_witness :
  exists t h, snd (@create roomy no_floats net_example manager_example) = Some (t, Ok h).
Proof.
  refine (proj2 (@create_fails_over roomy no_floats net_example manager_example 10_000_000_000 _ _) (str "live:9000")
    _ _ _ _); [done|lia|by right; left|vm_compute; congruence|vm_compute; discriminate|].
  intros now. eexists _, _. split; [vm_compute; reflexivity|vm_compute; discriminate].
Defined.
