(* ===== verification/Streams.v ===== *)
(** * The stream under a connection

    [MaybeTlsStream] of [tcp/transport.rs] as a stream: its polls go to the socket or to the TLS session over it, and whoever
    drives it sees what the stream inside would have answered. [split_buffered] of [tcp/connect.rs] cuts it into
    the halves the actor and the reader task own. The polls of the socket and of the TLS session, and the halves
    and buffers of tokio, are classes. *)

From S2P Require Import Prelude Errors WireIo Pool.

(** ** The traits

    [std::task::Poll] and tokio's [AsyncRead] and [AsyncWrite]: a poll changes the stream and, for a read, the buffer. *)

Module Pl.
Inductive Poll (A : Type) :=
| Ready (a : A)
| Pending.
End Pl.
Arguments Pl.Ready {A} a.
Arguments Pl.Pending {A}.
Abbreviation Poll := Pl.Poll.

Record ReadBuf := { filled : list byte; capacity : Z }.

Class AsyncRead (Cx S : Type) :=
  poll_read : S -> Cx -> ReadBuf -> S * ReadBuf * Poll (result IoError unit).
Class AsyncWrite (Cx S : Type) := {
  poll_write : S -> Cx -> list byte -> S * Poll (result IoError Z);
  poll_flush : S -> Cx -> S * Poll (result IoError unit);
  poll_shutdown : S -> Cx -> S * Poll (result IoError unit)
}.

(** The stream that was polled, put back where it was taken from. *)
Definition over {S T A} (put_back : S -> T) (x : S * A) : T * A := (put_back (fst x), snd x).

(** ** The adapter *)

Section adapter.
Context `{Net} {Cx : Type} `{!AsyncRead Cx TcpStream} `{!AsyncRead Cx TlsStream} `{!AsyncWrite Cx TcpStream}
  `{!AsyncWrite Cx TlsStream}.

#[export] Instance maybe_tls_read : AsyncRead Cx MaybeTlsStream := fun self cx buf =>
  match self with
  | PlainStream s => let '(s, buf, r) := poll_read s cx buf in (PlainStream s, buf, r)
  | TlsUpgraded s => let '(s, buf, r) := poll_read s cx buf in (TlsUpgraded s, buf, r)
  end.

#[export] Instance maybe_tls_write : AsyncWrite Cx MaybeTlsStream := {
  poll_write self cx buf :=
    match self with
    | PlainStream s => over PlainStream (poll_write s cx buf)
    | TlsUpgraded s => over TlsUpgraded (poll_write s cx buf)
    end;
  poll_flush self cx :=
    match self with
    | PlainStream s => over PlainStream (poll_flush s cx)
    | TlsUpgraded s => over TlsUpgraded (poll_flush s cx)
    end;
  poll_shutdown self cx :=
    match self with
    | PlainStream s => over PlainStream (poll_shutdown s cx)
    | TlsUpgraded s => over TlsUpgraded (poll_shutdown s cx)
    end
}.

End adapter.

(** ** The halves *)

Definition CONN_READ_BUFFER : Z := 64 * 1024.
Definition CONN_WRITE_BUFFER : Z := 64 * 1024.

(** tokio's halves and buffers. *)
Class TokioIo := {
  ReadHalf : Type -> Type;
  WriteHalf : Type -> Type;
  BufReader : Type -> Type;
  BufWriter : Type -> Type;
  split {S} : S -> ReadHalf S * WriteHalf S;
  reader_with_capacity {R} : Z -> R -> BufReader R;
  writer_with_capacity {W} : Z -> W -> BufWriter W
}.

Definition split_buffered `{Net} `{TokioIo} (stream : MaybeTlsStream)
    : BufReader (ReadHalf MaybeTlsStream) * BufWriter (WriteHalf MaybeTlsStream) :=
  let '(r, w) := split stream in
  (reader_with_capacity CONN_READ_BUFFER r, writer_with_capacity CONN_WRITE_BUFFER w).

(** ** Driving a stream *)

Module Drive.
Inductive Request :=
| Read (buf : ReadBuf)
| Write (bs : list byte)
| Flush
| Shutdown.
Inductive Answer :=
| DidRead (buf : ReadBuf) (r : Poll (result IoError unit))
| DidWrite (r : Poll (result IoError Z))
| Did (r : Poll (result IoError unit)).
End Drive.

(** One poll of any stream, and a sequence of them. *)
Definition drive_one {Cx S} `{AsyncRead Cx S} `{AsyncWrite Cx S} (s : S) (cx : Cx) (q : Drive.Request) : S * Drive.Answer :=
  match q with
  | Drive.Read buf => let '(s, buf, r) := poll_read s cx buf in (s, Drive.DidRead buf r)
  | Drive.Write bs => let '(s, r) := poll_write s cx bs in (s, Drive.DidWrite r)
  | Drive.Flush => let '(s, r) := poll_flush s cx in (s, Drive.Did r)
  | Drive.Shutdown => let '(s, r) := poll_shutdown s cx in (s, Drive.Did r)
  end.
Fixpoint drive {Cx S} `{AsyncRead Cx S} `{AsyncWrite Cx S} (s : S) (qs : list (Cx * Drive.Request)) : S * list Drive.Answer :=
  match qs with
  | [] => (s, [])
  | (cx, q) :: qs =>
      let '(s, a) := drive_one s cx q in
      let '(s, answers) := drive s qs in (s, a :: answers)
  end.

(** ** Properties *)

(** Streams that answer alike, poll by poll, answer a sequence of polls alike. *)
Lemma drive_through {Cx S T} `{AsyncRead Cx S} `{AsyncWrite Cx S} `{AsyncRead Cx T} `{AsyncWrite Cx T} (wrap : S -> T) :
  (forall s cx q, drive_one (wrap s) cx q = over wrap (drive_one s cx q)) ->
  forall qs s, drive (wrap s) qs = over wrap (drive s qs).
Proof.
  intros Hone qs; induction qs as [|[cx q] qs IH]; intros s; [done|]. cbn [drive]. rewrite Hone.
  destruct (drive_one s cx q) as [s' a]. cbn [over fst snd]. rewrite IH. by destruct (drive s' qs).
Qed.

(** Whatever is asked of the adapter, in whatever order, it answers what the stream inside answers, and the stream
    inside is left as if it had been asked itself: a plain socket stays plain and a TLS session stays one. *)
Theorem adapter_is_transparent `{Net} {Cx : Type} `{!AsyncRead Cx TcpStream} `{!AsyncRead Cx TlsStream}
    `{!AsyncWrite Cx TcpStream} `{!AsyncWrite Cx TlsStream} (qs : list (Cx * Drive.Request)) :
  (forall s, drive (PlainStream s) qs = over PlainStream (drive s qs)) /\
  (forall s, drive (TlsUpgraded s) qs = over TlsUpgraded (drive s qs)).
Proof.
  split; apply drive_through; intros s cx q; destruct q; cbn;
    unfold poll_read, maybe_tls_read, poll_read; repeat case_match; simplify_eq; done.
Qed.
