(* ===== verification/Client.v ===== *)
(** * The TCP client

    Models [src/tcp/client.rs], the pool building of [src/tcp/pool.rs] and the trust
    resolution of [src/tls.rs]: the builders, the settings sent with every query, when a built
    pool is still good, and which anchors a TLS connection trusts. Certificates, PEM files and the
    TLS library are an interface. Properties: a client's settings and pool always
    fit its configuration, and trust fails closed. *)

From S2P Require Import Prelude Text Errors WireIo ColTypes Json Columns Decode Encode Protocol Packets Requests Actor Pool.

(** ** Trust *)

(** Certificates and the TLS library's configuration over a set of anchors. A PEM file
    is unreadable or a list of blocks, some of which are certificates. *)
Class Certificates `{Net} := {
  Cert : Type;
  native_certs : list Cert;
  webpki_certs : list Cert;
  parsable : Cert -> bool;
  pem_file : text -> result text (list (option Cert));
  client_config : list Cert -> result text TlsConfig
}.

Section trust.
Context `{Certificates}.

Record TlsTrust := {
  native_roots : bool;
  webpki_roots : bool;
  extra_roots : list text;
  extra_intermediates : list text;
  exclusive : bool
}.

Definition TlsTrust_default : TlsTrust :=
  {| native_roots := true; webpki_roots := true; extra_roots := []; extra_intermediates := []; exclusive := false |}.

Inductive TlsConfigSource :=
| Explicit (cfg : TlsConfig)
| Trust (trust : TlsTrust).

(** [add_parsable_certificates]. *)
Definition parsed (certs : list Cert) : list Cert := filter (fun c => parsable c = true) certs.

(** [add_pem_file_certs]: the store with the file's certificates. *)
Definition add_pem_file_certs (store : list Cert) (path : text) : Result (list Cert) :=
  match pem_file path with
  | Err e => Err (Custom (str "tls: cannot read CA file " ++ path ++ str ": " ++ e))
  | Ok blocks =>
      match parsed (omap id blocks) with
      | [] => Err (Custom (str "tls: no usable certificates in CA file " ++ path))
      | added => Ok (store ++ added)
      end
  end.

Fixpoint add_pem_files (store : list Cert) (paths : list text) : Result (list Cert) :=
  match paths with
  | [] => Ok store
  | path :: paths' => store ← add_pem_file_certs store path; add_pem_files store paths'
  end.

Definition no_explicit_files : Error :=
  custom "tls: exclusive trust requested but no explicit CA files were supplied".
Definition empty_store : Error := custom "tls: resulting trust store is empty (no roots loaded)".

(** [build_root_store]. *)
Definition build_root_store (trust : TlsTrust) : Result (list Cert) :=
  store ← (if negb (exclusive trust) then
             Ok ((if native_roots trust then parsed native_certs else []) ++
                 (if webpki_roots trust then webpki_certs else []))
           else match extra_roots trust, extra_intermediates trust with
                | [], [] => Err no_explicit_files
                | _, _ => Ok []
                end);
  store ← add_pem_files store (extra_roots trust);
  store ← add_pem_files store (extra_intermediates trust);
  match store with
  | [] => Err empty_store
  | _ => Ok store
  end.

(** [build_config_with_roots]. *)
Definition build_config_with_roots (roots : list Cert) : Result TlsConfig :=
  map_err (fun e => Custom (str "tls: rustls config: " ++ e)) (client_config roots).

(** [build_client_config]. *)
Definition build_client_config (src : TlsConfigSource) : Result TlsConfig :=
  match src with
  | Explicit cfg => Ok cfg
  | Trust trust => roots ← build_root_store trust; build_config_with_roots roots
  end.

End trust.

(** ** Configuration *)

Section client.
Context `{Certificates}.

(** Durations in nanoseconds. *)
Record PoolConfig := {
  max_size : Z;
  acquire_timeout : option Z;
  cfg_create_timeout : option Z;
  recycle_timeout : option Z;
  cfg_max_lifetime : option Z;
  cfg_read_timeout : option Z
}.

Definition PoolConfig_default : PoolConfig :=
  {| max_size := 8; acquire_timeout := Some 30_000_000_000; cfg_create_timeout := Some 10_000_000_000;
     recycle_timeout := Some 5_000_000_000; cfg_max_lifetime := None; cfg_read_timeout := None |}.

Inductive ConnectKindConfig :=
| PlainConfig
| TlsKind (server_name : text).

Record TcpClientConfig := {
  cfg_endpoints : list text;
  cfg_kind : ConnectKindConfig;
  cfg_handshake : HandshakeConfig;
  cfg_pool : PoolConfig;
  cfg_retry : option RetryPolicy
}.

Definition TcpClientConfig_default : TcpClientConfig :=
  {| cfg_endpoints := []; cfg_kind := PlainConfig; cfg_handshake := HandshakeConfig_default;
     cfg_pool := PoolConfig_default; cfg_retry := None |}.

(** [TcpTls]. *)
Inductive TcpTls :=
| NotConfigured
| Resolved (config : TlsConfig)
| ConfiguredButFailed.

(** What the pool library is given: the manager and its dials. *)
Record NativePool := {
  manager : TcpConnectionManager;
  pool_max_size : Z;
  pool_wait_timeout : option Z;
  pool_recycle_timeout : option Z
}.

(** [build_pool]; [None] is the panic on an empty endpoint list. *)
Definition build_pool (eps : list text) (knd : ConnectKindConfig) (config : HandshakeConfig) (pool_cfg : PoolConfig)
    (tls : TcpTls) : option (Result NativePool) :=
  match eps with
  | [] => None
  | _ => Some (
      knd ← match knd with
            | PlainConfig => Ok Plain
            | TlsKind server_name =>
                match tls with
                | Resolved config => Ok (Tls server_name config)
                | NotConfigured => config ← build_client_config (Trust TlsTrust_default); Ok (Tls server_name config)
                | ConfiguredButFailed => Ok TlsFailClosed
                end
            end;
      Ok {| manager :=
              {| endpoints := eps; next := 0; kind := knd; mgr_config := config;
                 max_lifetime := cfg_max_lifetime pool_cfg; mgr_read_timeout := cfg_read_timeout pool_cfg;
                 create_timeout := cfg_create_timeout pool_cfg |};
            pool_max_size := max_size pool_cfg;
            pool_wait_timeout := acquire_timeout pool_cfg;
            pool_recycle_timeout := recycle_timeout pool_cfg |})
  end.

(** ** The client *)

Record TcpClient := {
  config : TcpClientConfig;
  settings : list (text * text);
  roles : list text;
  json_as_string : bool;
  tls : option TlsConfigSource;
  query_settings : list (text * text);
  pool : option (Result NativePool)
}.

(** [refresh_query_settings]: what it computes, and the call. *)
Definition current_settings (c : TcpClient) : list (text * text) :=
  [(str "database", database (cfg_handshake (config c)))] ++
  (if json_as_string c then [(str "output_format_native_write_json_as_string", str "1")] else []) ++
  settings c ++ map (fun role => (str "role", role)) (roles c).
Definition refresh_query_settings (c : TcpClient) : TcpClient :=
  {| config := config c; settings := settings c; roles := roles c; json_as_string := json_as_string c; tls := tls c;
     query_settings := current_settings c; pool := pool c |}.

(** [discard_pool]. *)
Definition discard_pool (c : TcpClient) : TcpClient :=
  {| config := config c; settings := settings c; roles := roles c; json_as_string := json_as_string c; tls := tls c;
     query_settings := query_settings c; pool := None |}.

Definition set_config (f : TcpClientConfig -> TcpClientConfig) (c : TcpClient) : TcpClient :=
  {| config := f (config c); settings := settings c; roles := roles c; json_as_string := json_as_string c; tls := tls c;
     query_settings := query_settings c; pool := pool c |}.
Definition set_handshake (f : HandshakeConfig -> HandshakeConfig) (k : TcpClientConfig) : TcpClientConfig :=
  {| cfg_endpoints := cfg_endpoints k; cfg_kind := cfg_kind k; cfg_handshake := f (cfg_handshake k);
     cfg_pool := cfg_pool k; cfg_retry := cfg_retry k |}.
Definition set_pool (f : PoolConfig -> PoolConfig) (k : TcpClientConfig) : TcpClientConfig :=
  {| cfg_endpoints := cfg_endpoints k; cfg_kind := cfg_kind k; cfg_handshake := cfg_handshake k;
     cfg_pool := f (cfg_pool k); cfg_retry := cfg_retry k |}.
Definition set_tls (src : TlsConfigSource) (c : TcpClient) : TcpClient :=
  {| config := config c; settings := settings c; roles := roles c; json_as_string := json_as_string c; tls := Some src;
     query_settings := query_settings c; pool := pool c |}.

(** [TcpClient::new], [new_tls]. *)
Definition new_client (addr : text) : TcpClient :=
  refresh_query_settings
    {| config := {| cfg_endpoints := [addr]; cfg_kind := cfg_kind TcpClientConfig_default;
                    cfg_handshake := cfg_handshake TcpClientConfig_default; cfg_pool := cfg_pool TcpClientConfig_default;
                    cfg_retry := cfg_retry TcpClientConfig_default |};
       settings := []; roles := []; json_as_string := true; tls := None; query_settings := []; pool := None |}.
Definition new_tls (addr server_name : text) : TcpClient :=
  discard_pool (set_config (fun k =>
    {| cfg_endpoints := cfg_endpoints k; cfg_kind := TlsKind server_name; cfg_handshake := cfg_handshake k;
       cfg_pool := cfg_pool k; cfg_retry := cfg_retry k |}) (new_client addr)).

(** ** Builders

    [with_addrs] panics on an empty list. *)
Definition with_addrs (addrs : list text) (c : TcpClient) : option TcpClient :=
  match addrs with
  | [] => None
  | _ => Some (discard_pool (set_config (fun k =>
      {| cfg_endpoints := addrs; cfg_kind := cfg_kind k; cfg_handshake := cfg_handshake k;
         cfg_pool := cfg_pool k; cfg_retry := cfg_retry k |}) c))
  end.
Definition with_database (db : text) (c : TcpClient) : TcpClient :=
  discard_pool (refresh_query_settings (set_config (set_handshake (fun h =>
    {| database := db; user := user h; password := password h; quota_key := quota_key h |})) c)).
Definition with_user (u : text) (c : TcpClient) : TcpClient :=
  discard_pool (set_config (set_handshake (fun h =>
    {| database := database h; user := u; password := password h; quota_key := quota_key h |})) c).
Definition with_password (p : text) (c : TcpClient) : TcpClient :=
  discard_pool (set_config (set_handshake (fun h =>
    {| database := database h; user := user h; password := p; quota_key := quota_key h |})) c).
Definition with_quota_key (key : text) (c : TcpClient) : TcpClient :=
  discard_pool (set_config (set_handshake (fun h =>
    {| database := database h; user := user h; password := password h; quota_key := key |})) c).
Definition with_setting (name value : text) (c : TcpClient) : TcpClient :=
  refresh_query_settings
    {| config := config c; settings := settings c ++ [(name, value)]; roles := roles c; json_as_string := json_as_string c;
       tls := tls c; query_settings := query_settings c; pool := pool c |}.
Definition with_json_as_string (on : bool) (c : TcpClient) : TcpClient :=
  refresh_query_settings
    {| config := config c; settings := settings c; roles := roles c; json_as_string := on; tls := tls c;
       query_settings := query_settings c; pool := pool c |}.
Definition with_roles (rs : list text) (c : TcpClient) : TcpClient :=
  refresh_query_settings
    {| config := config c; settings := settings c; roles := rs; json_as_string := json_as_string c; tls := tls c;
       query_settings := query_settings c; pool := pool c |}.
Definition with_retry (retry : option RetryPolicy) (c : TcpClient) : TcpClient :=
  set_config (fun k =>
    {| cfg_endpoints := cfg_endpoints k; cfg_kind := cfg_kind k; cfg_handshake := cfg_handshake k;
       cfg_pool := cfg_pool k; cfg_retry := retry |}) c.
Definition with_pool_size (n : Z) (c : TcpClient) : TcpClient :=
  discard_pool (set_config (set_pool (fun p =>
    {| max_size := n; acquire_timeout := acquire_timeout p; cfg_create_timeout := cfg_create_timeout p;
       recycle_timeout := recycle_timeout p; cfg_max_lifetime := cfg_max_lifetime p;
       cfg_read_timeout := cfg_read_timeout p |})) c).
Definition with_pool_acquire_timeout (d : option Z) (c : TcpClient) : TcpClient :=
  discard_pool (set_config (set_pool (fun p =>
    {| max_size := max_size p; acquire_timeout := d; cfg_create_timeout := cfg_create_timeout p;
       recycle_timeout := recycle_timeout p; cfg_max_lifetime := cfg_max_lifetime p;
       cfg_read_timeout := cfg_read_timeout p |})) c).
Definition with_pool_create_timeout (d : option Z) (c : TcpClient) : TcpClient :=
  discard_pool (set_config (set_pool (fun p =>
    {| max_size := max_size p; acquire_timeout := acquire_timeout p; cfg_create_timeout := d;
       recycle_timeout := recycle_timeout p; cfg_max_lifetime := cfg_max_lifetime p;
       cfg_read_timeout := cfg_read_timeout p |})) c).
Definition with_pool_max_lifetime (d : option Z) (c : TcpClient) : TcpClient :=
  discard_pool (set_config (set_pool (fun p =>
    {| max_size := max_size p; acquire_timeout := acquire_timeout p; cfg_create_timeout := cfg_create_timeout p;
       recycle_timeout := recycle_timeout p; cfg_max_lifetime := d; cfg_read_timeout := cfg_read_timeout p |})) c).
Definition with_read_timeout (d : option Z) (c : TcpClient) : TcpClient :=
  discard_pool (set_config (set_pool (fun p =>
    {| max_size := max_size p; acquire_timeout := acquire_timeout p; cfg_create_timeout := cfg_create_timeout p;
       recycle_timeout := recycle_timeout p; cfg_max_lifetime := cfg_max_lifetime p; cfg_read_timeout := d |})) c).
Definition with_tls_config (cfg : TlsConfig) (c : TcpClient) : TcpClient := discard_pool (set_tls (Explicit cfg) c).
Definition with_tls_trust (trust : TlsTrust) (c : TcpClient) : TcpClient := discard_pool (set_tls (Trust trust) c).

(** [TcpClient::pool]: the TLS intent, the pool built from the configuration, and the
    first use that keeps it. [None] is a panic: an empty endpoint list, or a pool
    that cannot be built. *)
Definition tls_intent (c : TcpClient) : TcpTls :=
  match tls c with
  | None => NotConfigured
  | Some src =>
      match build_client_config src with
      | Ok cfg => Resolved cfg
      | Err _ => ConfiguredButFailed
      end
  end.
Definition built_pool (c : TcpClient) : option (Result NativePool) :=
  let k := config c in build_pool (cfg_endpoints k) (cfg_kind k) (cfg_handshake k) (cfg_pool k) (tls_intent c).
Definition use_pool (c : TcpClient) : option (TcpClient * NativePool) :=
  match pool c with
  | Some (Ok p) => Some (c, p)
  | Some (Err _) => None
  | None =>
      match built_pool c with
      | Some (Ok p) =>
          Some ({| config := config c; settings := settings c; roles := roles c; json_as_string := json_as_string c;
                   tls := tls c; query_settings := query_settings c; pool := Some (Ok p) |}, p)
      | _ => None
      end
  end.

(** [insert_settings]. *)
Definition insert_settings (c : TcpClient) : list (text * text) := query_settings c.

(** ** Clients of the builders *)

Inductive client : TcpClient -> Prop :=
| client_new addr : client (new_client addr)
| client_new_tls addr name : client (new_tls addr name)
| client_addrs addrs c c' : client c -> with_addrs addrs c = Some c' -> client c'
| client_database x c : client c -> client (with_database x c)
| client_user x c : client c -> client (with_user x c)
| client_password x c : client c -> client (with_password x c)
| client_quota_key x c : client c -> client (with_quota_key x c)
| client_setting x y c : client c -> client (with_setting x y c)
| client_json x c : client c -> client (with_json_as_string x c)
| client_roles x c : client c -> client (with_roles x c)
| client_retry x c : client c -> client (with_retry x c)
| client_size x c : client c -> client (with_pool_size x c)
| client_acquire x c : client c -> client (with_pool_acquire_timeout x c)
| client_create x c : client c -> client (with_pool_create_timeout x c)
| client_lifetime x c : client c -> client (with_pool_max_lifetime x c)
| client_read x c : client c -> client (with_read_timeout x c)
| client_tls_config x c : client c -> client (with_tls_config x c)
| client_tls_trust x c : client c -> client (with_tls_trust x c)
| client_used c c' p : client c -> use_pool c = Some (c', p) -> client c'.

(** What a client holds fits its configuration. *)
Definition current (c : TcpClient) : Prop :=
  query_settings c = current_settings c /\ cfg_endpoints (config c) <> [] /\
  (forall p, pool c = Some p -> built_pool c = Some p).

Lemma client_current c : client c -> current c.
Proof.
  induction 1 as [| |addrs c c' _ (Hs & He & Hp) Ha| | | | | | | | | | | | | | | |c c' p _ (Hs & He & Hp) Hu];
    try (by split_and!);
    try (match goal with IH : current _ |- _ => destruct IH as (Hs & He & Hp) end; by split_and!).
  - destruct addrs as [|a addrs]; [done|]. injection Ha as <-. by split_and!.
  - unfold use_pool in Hu. destruct (pool c) as [[p'|e]|] eqn:Ep; [simplify_eq; split_and!; [exact Hs|exact He|by rewrite Ep]|done|].
    destruct (built_pool c) as [[p'|e]|] eqn:Eb; [|done..]. injection Hu as <- _. split_and!; [exact Hs|exact He|].
    intros p'' [= <-]. exact Eb.
Qed.

Lemma used_pool c c' p :
  (forall p, pool c = Some p -> built_pool c = Some p) -> use_pool c = Some (c', p) -> built_pool c = Some (Ok p).
Proof.
  intros Hp Hu. unfold use_pool in Hu. destruct (pool c) as [[p'|e]|] eqn:Ep; [|done|].
  - injection Hu as <- <-. by apply Hp.
  - by destruct (built_pool c) as [[p'|e]|]; simplify_eq.
Qed.

(** ** Anchors *)

(** The certificates of explicit files. *)
Definition explicit (trust : TlsTrust) (c : Cert) : Prop :=
  exists path blocks, path ∈ extra_roots trust ++ extra_intermediates trust /\ pem_file path = Ok blocks /\ Some c ∈ blocks.

Lemma add_pem_files_from (store : list Cert) paths store' :
  add_pem_files store paths = Ok store' ->
  (forall c, c ∈ store' -> c ∈ store \/ exists path blocks, path ∈ paths /\ pem_file path = Ok blocks /\ Some c ∈ blocks) /\
  (forall path, path ∈ paths -> exists blocks c, pem_file path = Ok blocks /\ Some c ∈ blocks /\ c ∈ store').
Proof.
  revert store; induction paths as [|path paths IH]; intros store Hr; cbn [add_pem_files] in Hr.
  { injection Hr as <-. split; [by left|]. by intros path ?%not_elem_of_nil. }
  destruct (add_pem_file_certs store path) as [store1|e] eqn:Ef; [|done]. cbn in Hr.
  assert (Hkeep : forall st ps st', add_pem_files st ps = Ok st' -> forall c, c ∈ st -> c ∈ st').
  { clear. intros st ps; revert st; induction ps as [|p ps IH]; intros st st' Hr c Hc; cbn in Hr; [by injection Hr as <-|].
    destruct (add_pem_file_certs st p) as [st1|e] eqn:Ef; [|done]. cbn in Hr. apply (IH _ _ Hr).
    unfold add_pem_file_certs in Ef. destruct (pem_file p) as [blocks|]; [|done].
    destruct (parsed _) as [|x added]; [done|]. injection Ef as <-. apply elem_of_app. by left. }
  destruct (IH _ Hr) as [H1 H2]. unfold add_pem_file_certs in Ef.
  destruct (pem_file path) as [blocks|] eqn:Eb; [|done].
  assert (Hin : forall c, c ∈ parsed (omap id blocks) -> Some c ∈ blocks).
  { intros c [_ Hc]%list_elem_of_filter. apply list_elem_of_omap in Hc as (o & Ho & Heq). simpl in Heq. by subst. }
  destruct (parsed (omap id blocks)) as [|x added] eqn:Ea; [done|]. injection Ef as <-. split.
  - intros c Hc. destruct (H1 c Hc) as [[Hs|Ha]%elem_of_app|(p & bs & ? & ? & ?)]; [by left| |].
    + right. exists path, blocks. split_and!; [by left|done|by apply Hin].
    + right. exists p, bs. split_and!; [by right|done..].
  - intros p [->|Hp]%elem_of_cons.
    + exists blocks, x. split_and!; [done|apply Hin; by left|]. apply (Hkeep _ _ _ Hr). apply elem_of_app. right. by left.
    + by apply H2.
Qed.

Lemma root_store_from trust store :
  build_root_store trust = Ok store ->
  store <> [] /\ (exclusive trust = true -> forall c, c ∈ store -> explicit trust c) /\
  (forall path, path ∈ extra_roots trust ++ extra_intermediates trust -> exists blocks c, pem_file path = Ok blocks /\ Some c ∈ blocks).
Proof.
  unfold build_root_store. intros Hr.
  destruct (if negb (exclusive trust) then _ else _) as [base|e] eqn:Eb; [|done]. cbn in Hr.
  destruct (add_pem_files base (extra_roots trust)) as [s1|e] eqn:E1; [|done]. cbn in Hr.
  destruct (add_pem_files s1 (extra_intermediates trust)) as [s2|e] eqn:E2; [|done]. cbn in Hr.
  assert (s2 = store /\ store <> []) as [-> Hne] by (destruct s2; by simplify_eq).
  destruct (add_pem_files_from _ _ _ E1) as [H1 F1]. destruct (add_pem_files_from _ _ _ E2) as [H2 F2].
  split_and!; [done| |].
  - intros Hx c Hc. rewrite Hx in Eb. cbn in Eb.
    assert (base = []) as -> by (destruct (extra_roots trust), (extra_intermediates trust); by simplify_eq).
    destruct (H2 c Hc) as [Hc1|(p & bs & ? & ? & ?)].
    + destruct (H1 c Hc1) as [?%not_elem_of_nil|(p & bs & ? & ? & ?)]; [done|].
      exists p, bs. split_and!; [|done..]. apply elem_of_app. by left.
    + exists p, bs. split_and!; [|done..]. apply elem_of_app. by right.
  - intros path [Hp|Hp]%elem_of_app; [destruct (F1 _ Hp) as (bs & c & ? & ? & _)|destruct (F2 _ Hp) as (bs & c & ? & ? & _)];
      by exists bs, c.
Qed.

(** ** Properties *)

(** C38: a client is never stale. After any sequence of builders and uses, the settings
    sent with every query are exactly the configured database, the JSON flag, the plain
    settings and the roles, in that order; a pool that was built is the pool its present
    configuration builds (endpoints, credentials, timeouts and trust), so no connection is opened with
    what a later builder replaced; and there is an endpoint. *)
Theorem client_is_never_stale c :
  client c ->
  insert_settings c =
    [(str "database", database (cfg_handshake (config c)))] ++
    (if json_as_string c then [(str "output_format_native_write_json_as_string", str "1")] else []) ++
    settings c ++ map (fun role => (str "role", role)) (roles c) /\
  (forall c' p, use_pool c = Some (c', p) ->
     built_pool c = Some (Ok p) /\ endpoints (manager p) = cfg_endpoints (config c) /\
     mgr_config (manager p) = cfg_handshake (config c) /\
     create_timeout (manager p) = cfg_create_timeout (cfg_pool (config c)) /\
     mgr_read_timeout (manager p) = cfg_read_timeout (cfg_pool (config c))) /\
  cfg_endpoints (config c) <> [].
Proof.
  intros (Hs & He & Hp)%client_current. split_and!; [exact Hs| |exact He]. intros c' p Hu.
  pose proof (used_pool _ _ _ Hp Hu) as Hb. split; [exact Hb|].
  unfold built_pool, build_pool in Hb. destruct (cfg_endpoints (config c)) as [|e l]; [done|].
  injection Hb as Hb. match type of Hb with ?k ≫= _ = _ => destruct k as [knd|e']; [|done] end.
  cbn in Hb. by injection Hb as <-.
Qed.

(** C39: trust fails closed. The anchors of a resolved trust are never none; with exclusive trust
    every one of them is a certificate of an explicit file, none the system's or the
    bundle's, and every file contributes; and a client whose configured trust cannot be resolved refuses
    every connection, instead of trusting the default anchors or falling back to plain TCP. *)
Theorem trust_fails_closed `{Platform} `{FloatText} trust c addr name e :
  (forall store, build_root_store trust = Ok store ->
     store <> [] /\ (exclusive trust = true -> forall x, x ∈ store -> explicit trust x) /\
     (forall path, path ∈ extra_roots trust ++ extra_intermediates trust ->
        exists blocks x, pem_file path = Ok blocks /\ Some x ∈ blocks)) /\
  (tls c = Some (Trust trust) -> build_client_config (Trust trust) = Err e -> cfg_kind (config c) = TlsKind name ->
   client c -> forall c' p, use_pool c = Some (c', p) ->
     open_handshaken addr (kind (manager p)) (mgr_config (manager p)) = Some (0, Err tls_refusal)).
Proof.
  split; [intros store; apply root_store_from|]. intros Ht Hb Hk (_ & _ & Hp)%client_current c' p Hu.
  pose proof (used_pool _ _ _ Hp Hu) as Hbuilt.
  unfold built_pool, build_pool, tls_intent in Hbuilt. rewrite Ht, Hb, Hk in Hbuilt.
  destruct (cfg_endpoints (config c)); [done|]. injection Hbuilt as <-. reflexivity.
Qed.

End client.

(** ** Trust in two files *)

Definition certificates_example : @Certificates net_example :=
  @Build_Certificates net_example nat [1%nat] [2%nat] (fun c => (c <? 100)%nat)
    (fun path => if bool_decide (path = str "ca.pem") then Ok [None; Some 7%nat; Some 200%nat] else Err (str "not found"))
    (fun _ => Ok tt).

Definition missing_ca : TlsTrust :=
  {| native_roots := true; webpki_roots := true; extra_roots := [str "gone.pem"]; extra_intermediates := []; exclusive := true |}.

Lemma client_is_never_stale_witness :
  cfg_endpoints (@config net_example (with_user (str "u") (new_client (str "h:9000")))) <> [].
Proof.
  refine (proj2 (proj2 (@client_is_never_stale net_example certificates_example
    (with_user (str "u") (new_client (str "h:9000"))) _))).
  apply client_user, client_new.
Defined.

Definition closed_pool : @NativePool net_example :=
  {| manager :=
       {| endpoints := [str "h:9440"]; next := 0; kind := TlsFailClosed; mgr_config := HandshakeConfig_default;
          max_lifetime := None; mgr_read_timeout := None; create_timeout := Some 10_000_000_000 |};
     pool_max_size := 8; pool_wait_timeout := Some 30_000_000_000; pool_recycle_timeout := Some 5_000_000_000 |}.

Lemma trust_fails_closed_witness :
  @open_handshaken roomy net_example true (kind (manager closed_pool)) (mgr_config (manager closed_pool)) =
    Some (0, Err tls_refusal).
Proof.
  refine (proj2 (@trust_fails_closed net_example certificates_example roomy no_floats missing_ca
    (with_tls_trust missing_ca (new_tls (str "h:9440") (str "h"))) true (str "h")
    (Custom (str "tls: cannot read CA file gone.pem: not found"))) _ _ _ _ _ closed_pool _).
  - reflexivity.
  - vm_compute. reflexivity.
  - reflexivity.
  - apply client_tls_trust, client_new_tls.
  - vm_compute. reflexivity.
Defined.
