(* ===== verification/Borrowers.v ===== *)
(** * Borrowing pooled connections

    Models [src/tcp/client_ext.rs] and the calls of [ConnectionHandle] in
    [src/tcp/connection_actor.rs]: a statement, a stream, a ping or an INSERT session on a
    connection taken from the pool, and what each leaves of it. Properties: the pool never
    hands out a connection with an INSERT open on it, and a statement that is
    not idempotent is never sent twice. *)

From S2P Require Import Prelude Text Errors WireIo ColTypes Json Columns Decode Encode Protocol Packets Requests Actor ActorRules Sessions Connection Cursor Pool Client.

(** ** The handle

    [ConnectionHandle]: a command is queued and its reply awaited; a reply channel
    dropped without a reply is an error. *)

Definition call (cmd : ConnectionCmd) : Act (option Reply) :=
  n ← gets (fun c => length (replies c));
  _ ← handle cmd;
  gets (fun c => replies c !! n).

Definition to_caller (dropped : Error) (r : option Reply) : Result unit :=
  match r with
  | Some (ToCaller r) => r
  | _ => Err dropped
  end.

(** [PoisonOnDrop]: a guard over the poison flag, [arm]ed around a call and disarmed once its reply is in hand. *)
Inductive PoisonOnDrop := Armed | Disarmed.
Definition arm : PoisonOnDrop := Armed.
Definition disarm (guard : PoisonOnDrop) : PoisonOnDrop := Disarmed.
Definition drop_guard (guard : PoisonOnDrop) : Act unit :=
  match guard with
  | Armed => poison
  | Disarmed => mret tt
  end.

(** [ConnectionHandle::ping], [execute_query], [begin_insert], [send_insert_block], [finish_insert]. A caller that
    leaves before its reply came is the business of [Lending]. *)
Definition ping : Act (Result unit) :=
  r ← call Cmd.Ping; mret (to_caller (custom "tcp: connection actor dropped ping reply") r).
Definition execute_query (query_id query : text) (extra_settings params : list (text * text)) : Act (Result unit) :=
  r ← call (Cmd.ExecuteQuery query_id query extra_settings params);
  mret (to_caller (custom "tcp: connection actor dropped execute_query reply") r).
Definition begin_insert (query_id query : text) (extra_settings params : list (text * text))
    : Act (Result (list (text * text))) :=
  let abandoned := arm in
  r ← call (Cmd.BeginInsert query_id query extra_settings params);
  match r with
  | Some (ToInsert outcome) => _ ← drop_guard (disarm abandoned); mret outcome
  | _ => _ ← drop_guard abandoned; mret (Err (custom "tcp: connection actor dropped begin_insert reply"))
  end.
Definition send_insert_block (column_bytes : list byte) (num_columns num_rows : Z) : Act (Result unit) :=
  r ← call (Cmd.SendInsertBlock column_bytes num_columns num_rows);
  mret (to_caller (custom "tcp: connection actor dropped send_insert_block reply") r).
Definition finish_insert : Act (Result unit) :=
  r ← call Cmd.FinishInsert; mret (to_caller (custom "tcp: connection actor dropped finish_insert reply") r).

(** ** Dispatch *)

(** [poison_unless_server_rejected]. *)
Definition poison_unless_server_rejected (e : Error) : Act unit :=
  match e with
  | ServerException _ _ _ _ => mret tt
  | _ => poison
  end.

(** [if let Err(ref e) = result { poison_unless_server_rejected(...) }]. *)
Definition checked {A} (result : Result A) : Act (Result A) :=
  match result with
  | Ok a => mret (Ok a)
  | Err e => _ ← poison_unless_server_rejected e; mret (Err e)
  end.

(** The operation [execute_query_via_pool] runs on a connection. *)
Definition query_on_conn (query_id query : text) (settings params : list (text * text)) : Act (Result unit) :=
  result ← execute_query query_id query settings params; checked result.

(** [execute_query_via_pool], over the pool and what the operation comes to on each
    connection it gives. *)
Definition execute_query_via_pool `{Backon} {C} (get : nat -> result PoolError C) (on_conn : nat -> C -> Result unit)
    (retry : option RetryPolicy) (idempotent : bool) : Result unit * nat :=
  let effective := if idempotent then retry else None in
  run_with_retry get effective on_conn.

(** [TcpQuery::execute], over [TcpClient::execute_query]: never declared idempotent. *)
Definition execute_statement (execute_query : text -> text -> list (text * text) -> bool -> Result unit) (q : TcpQuery) : Result unit :=
  execute_query (q_query_id q) (q_sql q) (q_params q) false.

(** [ConnectionHandle::execute_stream] and [execute_stream_cursor]: the command is queued if the worker still
    [accepts]; [items] is what will come out of the channel. *)
Definition execute_stream (accepts : bool) : Result unit :=
  if accepts then Ok tt else Err (custom "tcp: connection actor closed").
Definition execute_stream_cursor (accepts : bool) (items : list (Result ServerPacket)) : Result TcpRawCursor :=
  _ ← execute_stream accepts; Ok (from_receiver items).

(** The operation [execute_stream_via_pool] runs on a connection, [slot] the pooled object the cursor keeps. *)
Definition stream_on_conn (accepts : bool) (items : list (Result ServerPacket)) (slot : nat) : Act (Result TcpRawCursor) :=
  match execute_stream_cursor accepts items with
  | Ok cursor => mret (Ok (hold_pool_slot slot cursor))
  | Err e => _ ← poison_unless_server_rejected e; mret (Err e)
  end.

(** [execute_stream_via_pool]: the issue of a SELECT is retried under the policy, always. *)
Definition execute_stream_via_pool `{Backon} {C} (get : nat -> result PoolError C)
    (on_conn : nat -> C -> Result TcpRawCursor) (retry : option RetryPolicy) : Result TcpRawCursor * nat :=
  run_with_retry get retry on_conn.

(** [TcpClient::ping], over what the ping comes to on the connection the pool gives. *)
Definition client_ping {C} (get : result PoolError C) (on_conn : C -> Result unit) : Result unit :=
  match get with
  | Ok conn => on_conn conn
  | Err e => Err (map_pool_error e)
  end.

(** ** INSERT sessions *)

(** [TcpInsertSession]. *)
Record TcpInsertSession := {
  settled : bool;
  server_columns : list (text * text);
  server_revision : Z
}.

(** [insert_native_via_pool], on the connection the pool gave. *)
Definition insert_native (query_id sql : text) (settings : list (text * text)) : Act (Result TcpInsertSession) :=
  r ← begin_insert query_id sql settings [];
  match r with
  | Ok cols =>
      rev ← gets (fun c => revision (hello c));
      mret (Ok {| settled := false; server_columns := cols; server_revision := rev |})
  | Err e => _ ← poison_unless_server_rejected e; mret (Err e)
  end.

(** [TcpInsertSession::send_block], [finish], [abort] and its [Drop]. *)
Definition send_block (column_bytes : list byte) (num_columns num_rows : Z) : Act (Result unit) :=
  result ← send_insert_block column_bytes num_columns num_rows; checked result.
Definition settle (s : TcpInsertSession) : TcpInsertSession :=
  {| settled := true; server_columns := server_columns s; server_revision := server_revision s |}.
Definition finish (s : TcpInsertSession) : Act (TcpInsertSession * Result unit) :=
  result ← finish_insert; result ← checked result; mret (settle s, result).
Definition abort (s : TcpInsertSession) : Act TcpInsertSession := _ ← poison; mret (settle s).
Definition drop_session (s : TcpInsertSession) : Act unit := if settled s then mret tt else poison.

(** How a caller lets go of a session. *)
Inductive ending := Finished | Aborted | Dropped.

Definition end_session (how : ending) (s : TcpInsertSession) : Act (option (Result unit)) :=
  match how with
  | Finished => '(s, r) ← finish s; _ ← drop_session s; mret (Some r)
  | Aborted => s ← abort s; _ ← drop_session s; mret None
  | Dropped => _ ← drop_session s; mret None
  end.

Fixpoint send_blocks (blocks : list (list byte * Z * Z)) : Act (list (Result unit)) :=
  match blocks with
  | [] => mret []
  | (bytes, nc, n) :: blocks' => r ← send_block bytes nc n; rs ← send_blocks blocks'; mret (r :: rs)
  end.

(** ** Borrowers *)

(** What a borrower does with the connection before it goes back. *)
Inductive borrower :=
| Statement (query_id query : text) (settings params : list (text * text))
| Select (query_id query : text) (settings params : list (text * text))
| PingIt
| Insert (query_id sql : text) (settings : list (text * text)) (blocks : list (list byte * Z * Z)) (how : ending).

Definition serve (b : borrower) : Act unit :=
  match b with
  | Statement query_id query settings params => _ ← query_on_conn query_id query settings params; mret tt
  | Select query_id query settings params => handle (Cmd.ExecuteStream query_id query settings params)
  | PingIt => _ ← ping; mret tt
  | Insert query_id sql settings blocks how =>
      r ← insert_native query_id sql settings;
      match r with
      | Ok s => _ ← send_blocks blocks; _ ← end_session how s; mret tt
      | Err _ => mret tt
      end
  end.

(** What a client's calls borrow for: [TcpClient::execute_query] (and [TcpQuery::execute]),
    [execute_stream] and [insert_native], with the client's settings. *)
Definition client_statement `{Net} (c : TcpClient) (q : TcpQuery) : borrower :=
  Statement (q_query_id q) (q_sql q) (query_settings c) (q_params q).
Definition client_select `{Net} (c : TcpClient) (q : TcpQuery) : borrower :=
  Select (q_query_id q) (q_sql q) (query_settings c) (q_params q).
Definition client_insert `{Net} (c : TcpClient) (query_id sql : text) (blocks : list (list byte * Z * Z)) (how : ending)
    : borrower :=
  Insert query_id sql (query_settings c) blocks how.

(** ** What a borrower leaves *)

#[local] Abbreviation rests c := (poisoned c = true \/ state c = Idle).

Section rests.

(** Commands that do not concern an INSERT leave the state alone. *)
Definition idle (c : Actor) : Prop := state c = Idle.
#[local] Abbreviation idles m := (silent any idle m).

Lemma idle_poison c : idle c -> idle (set_poisoned c).
Proof. done. Qed.
Lemma idle_inbox ms c : idle c -> idle (set_inbox ms c).
Proof. done. Qed.
Lemma idle_wire bs c : idle c -> idle (put_wire bs c).
Proof. done. Qed.
Lemma idle_reply r c : idle c -> idle (put_reply r c).
Proof. done. Qed.
#[local] Hint Resolve idle_poison idle_inbox idle_wire idle_reply : core.

Lemma idles_reply r : idles (reply r).
Proof. apply holds_modify. auto. Qed.
Lemma idles_stream_send item : idles (stream_send item).
Proof. by apply holds_stream_send. Qed.

Create HintDb idles.
#[local] Hint Resolve idles_reply idles_stream_send : idles.
#[local] Hint Extern 1 (silent any idle (mret _)) => (by apply silent_ret) : idles.
#[local] Hint Extern 1 (silent any idle (gets _)) => (by apply silent_gets) : idles.
#[local] Hint Extern 1 (silent any idle poison) => (apply silent_poison; auto) : idles.
#[local] Hint Extern 1 (silent any idle query_event) => (apply silent_query_event; auto) : idles.
#[local] Hint Extern 1 (silent any idle idle_timed_out) => (apply silent_idle; auto) : idles.
#[local] Hint Extern 1 (silent any idle cancel_and_drain) => (apply silent_cancel; auto) : idles.
#[local] Hint Extern 1 (silent any idle (issue_query _ _ _ _)) => (apply silent_issue; auto) : idles.
#[local] Hint Extern 1 (silent any idle do_ping) => (apply silent_ping; auto) : idles.
#[local] Hint Extern 1 (silent any idle (do_begin_insert _ _ _ _)) => (apply silent_begin; auto) : idles.

Ltac idles_auto :=
  repeat first
    [ solve [auto 1 with idles] | apply silent_bind; [|intros ?] | apply silent_loop
    | match goal with |- silent _ _ (match ?x with _ => _ end) => destruct x end ].

Lemma idles_execute qid q sts prs : idles (do_execute_query qid q sts prs).
Proof. unfold do_execute_query, execute_turn. cbv zeta. idles_auto. Qed.
Lemma idles_stream qid q sts prs : idles (do_execute_stream qid q sts prs).
Proof. unfold do_execute_stream, stream_turn. cbv zeta. idles_auto. Qed.
#[local] Hint Resolve idles_execute idles_stream : idles.

Lemma idles_refusal cmd : idles (reject_poisoned cmd).
Proof. unfold reject_poisoned. idles_auto. Qed.
#[local] Hint Resolve idles_refusal : idles.

Lemma idles_handle cmd :
  (match cmd with Cmd.BeginInsert _ _ _ _ => False | _ => True end) -> idles (handle cmd).
Proof.
  intros Hc. unfold handle. apply silent_bind; [idles_auto|]. intros b. destruct (b && _); [idles_auto|].
  apply (holds_bind any _ (fun st c => st = Idle /\ idle c)); [apply holds_gets; intros c Hi; by split|].
  intros st. apply holds_pure. intros ->. change (silent any idle (dispatch Idle cmd)).
  destruct cmd; try done; cbn [dispatch]; idles_auto.
Qed.

Lemma idles_call cmd : (match cmd with Cmd.BeginInsert _ _ _ _ => False | _ => True end) -> idles (call cmd).
Proof. intros Hc. unfold call. apply silent_bind; [idles_auto|]. intros n. apply silent_bind; [by apply idles_handle|]. idles_auto. Qed.

(** Opening an INSERT: active only when it is reported open. *)
Lemma begin_call_rests qid q sts prs :
  holds any idle (call (Cmd.BeginInsert qid q sts prs))
    (fun r c => match r with Some (ToInsert (Ok _)) => True | _ => rests c end).
Proof.
  intros c s c' s' r _ Hc Hr. split; [|apply any_script]. unfold call in Hr. cbv [mbind act_bind gets] in Hr.
  destruct (handle (Cmd.BeginInsert qid q sts prs) c s) as [[c1 s1] [[]|]] eqn:Eh; [|done]. injection Hr as <- <- <-.
  unfold handle in Eh. cbv [mbind act_bind gets] in Eh. destruct (poisoned c && _) eqn:Ep.
  - cbn [reject_poisoned] in Eh. cbv [reply modify] in Eh. injection Eh as <- <-. cbn [replies put_reply].
    rewrite list_lookup_middle by done. right. exact Hc.
  - rewrite Hc in Eh. cbn [dispatch] in Eh. cbv [mbind act_bind] in Eh.
    destruct (do_begin_insert qid q sts prs c s) as [[c2 s2] [r|]] eqn:Eb; [|done].
    assert (Hrep : replies c2 = replies c).
    { by apply (silent_begin any (fun d => replies d = replies c) ltac:(done) ltac:(done) ltac:(done) qid q sts prs
        c s c2 s2 r (any_script s) eq_refl) in Eb as [? _]. }
    assert (Hst : state c2 = Idle).
    { by apply (silent_begin any idle ltac:(done) ltac:(done) ltac:(done) qid q sts prs
        c s c2 s2 r (any_script s) Hc) in Eb as [? _]. }
    destruct r as [cols|e]; cbv [is_ok modify mret act_ret reply] in Eh; injection Eh as <- <-; cbn [replies put_reply set_state].
    + by rewrite Hrep, list_lookup_middle.
    + rewrite Hrep, list_lookup_middle by done. by right.
Qed.

Lemma anything {A} (m : Act A) P : holds any P m (fun _ _ => True).
Proof. intros c s c' s' a _ _ _. split; [done|apply any_script]. Qed.

Lemma refused_rests (e : Error) : holds any (fun c => rests c) (poison_unless_server_rejected e) (fun _ c => rests c).
Proof. destruct e; first [by apply holds_ret | apply holds_modify; intros c _; by left]. Qed.

Lemma checked_rests {A} (r : Result A) : holds any (fun c => rests c) (checked r) (fun _ c => rests c).
Proof.
  destruct r as [a|e]; [by apply holds_ret|]. eapply holds_bind; [apply refused_rests|]. intros []. by apply holds_ret.
Qed.

Lemma finish_rests : holds any (fun _ => True) finish_insert (fun _ => idle).
Proof.
  unfold finish_insert, call. apply (holds_bind any _ (fun _ => idle)); [|intros r; by apply holds_ret].
  apply (holds_bind any _ (fun _ _ => True)); [apply anything|]. intros n.
  apply (holds_bind any _ (fun _ => idle)); [|intros []; by apply holds_gets]. unfold handle.
  apply (holds_bind any _ (fun _ _ => True)); [apply anything|]. intros b. cbn [continues_insert negb]. rewrite andb_false_r.
  apply (holds_bind any _ (fun st c => state c = st)); [by apply holds_gets|]. intros [|]; cbn [dispatch].
  - by apply holds_modify.
  - apply (holds_bind any _ (fun _ _ => True)); [apply anything|]. intros r.
    apply (holds_bind any _ (fun _ => idle)); [by apply holds_modify|]. intros []. by apply holds_modify.
Qed.

Lemma open_rests qid sql sts :
  holds any idle (insert_native qid sql sts) (fun r c => match r with Ok s => settled s = false | Err _ => rests c end).
Proof.
  unfold insert_native, begin_insert.
  apply (holds_bind any _ (fun r c => match r with Ok _ => True | Err _ => rests c end)).
  - eapply holds_bind; [apply begin_call_rests|].
    assert (Hlost : forall P, holds any P (_ ← poison; mret (Err (custom "tcp: connection actor dropped begin_insert reply")))
      (fun (r : Result (list (text * text))) c => match r with Ok _ => True | Err _ => rests c end)).
    { intros P. apply (holds_bind any _ (fun _ c => poisoned c = true)); [by apply holds_modify|]. intros [].
      apply holds_ret. intros c Hc. by left. }
    intros [[|[cols|e]|]|]; first [apply Hlost | apply holds_ret; by intros].
  - intros [cols|e].
    + apply (holds_bind any _ (fun _ _ => True)); [apply anything|]. intros rev. by apply holds_ret.
    + eapply holds_bind; [apply refused_rests|]. intros []. by apply holds_ret.
Qed.

Lemma end_rests how s : settled s = false -> holds any (fun _ => True) (end_session how s) (fun _ c => rests c).
Proof.
  intros Hs. destruct how; cbn [end_session]; unfold finish, abort, drop_session.
  - apply (holds_bind any _ (fun x c => settled (fst x) = true /\ rests c)).
    + apply (holds_bind any _ (fun _ c => rests c)).
      { eapply holds_impl; [apply finish_rests|done|]. intros r c Hc. by right. }
      intros r. eapply holds_bind; [apply checked_rests|]. intros r'. apply holds_ret. by split.
    + intros [s' r]. apply holds_pure. cbn [fst]. intros ->. apply (holds_bind any _ (fun _ c => rests c)); [by apply holds_ret|].
      intros []. by apply holds_ret.
  - apply (holds_bind any _ (fun s' c => settled s' = true /\ rests c)).
    + apply (holds_bind any _ (fun _ c => rests c)); [apply holds_modify; by left|]. intros []. apply holds_ret. by split.
    + intros s'. apply holds_pure. intros ->. apply (holds_bind any _ (fun _ c => rests c)); [by apply holds_ret|].
      intros []. by apply holds_ret.
  - rewrite Hs. apply (holds_bind any _ (fun _ c => rests c)); [apply holds_modify; by left|]. intros []. by apply holds_ret.
Qed.

Lemma serve_rests b : holds any idle (serve b) (fun _ c => rests c).
Proof.
  assert (Hcall : forall cmd (k : option Reply -> Result unit), (match cmd with Cmd.BeginInsert _ _ _ _ => False | _ => True end) ->
    holds any idle (r ← call cmd; mret (k r)) (fun _ c => rests c)).
  { intros cmd k Hc. eapply holds_bind; [by apply idles_call|]. intros r. apply holds_ret. intros c Hi. by right. }
  destruct b as [qid q sts prs|qid q sts prs| |qid sql sts blocks how]; cbn [serve].
  - apply (holds_bind any _ (fun _ c => rests c)); [|intros r; by apply holds_ret]. unfold query_on_conn.
    apply (holds_bind any _ (fun _ c => rests c)); [by apply Hcall|]. intros r. apply checked_rests.
  - eapply holds_impl; [by apply idles_handle|done|]. intros [] c Hc. by right.
  - apply (holds_bind any _ (fun _ c => rests c)); [by apply Hcall|]. intros r. by apply holds_ret.
  - eapply holds_bind; [apply open_rests|]. intros [s|e]; [|by apply holds_ret].
    apply (holds_pre any _ (fun c => settled s = false /\ True)); [|done]. apply holds_pure. intros Hs.
    apply (holds_bind any _ (fun _ _ => True)); [apply anything|]. intros rs.
    apply (holds_bind any _ (fun _ c => rests c)); [by apply end_rests|]. intros x. by apply holds_ret.
Qed.

End rests.

(** ** The life of a pooled connection *)

Section pooled.
Context `{Platform} `{FloatText} `{Net}.

Lemma connect_endpoint_spawns mgr endpoint now d c :
  connect_endpoint mgr endpoint now = Some (d, Ok c) -> poisoned c = false /\ state c = Idle.
Proof.
  unfold connect_endpoint. intros Hr. apply bind_Some in Hr as ([d0 addrs] & _ & Hr).
  destruct addrs as [[|addr l]|e]; [done| |done]. apply bind_Some in Hr as ([d1 opened] & _ & Hr).
  injection Hr as _ Hr. destruct opened as [[hello incoming]|e]; [|done]. cbn in Hr. by injection Hr as <-.
Qed.

Lemma create_loop_spawns mgr start i left now last_err t c :
  create_loop mgr start i left now last_err = Some (t, Ok c) -> poisoned c = false /\ state c = Idle.
Proof.
  revert i now last_err; induction left as [|left IH]; intros i now last_err; cbn [create_loop]; [done|].
  destruct (create_timeout mgr) as [total|].
  - destruct (_ =? 0); [done|]. unfold timed.
    destruct (connect_endpoint _ _ _) as [[d [c'|e]]|] eqn:Ec; [destruct (d <=? _)..|]; try apply IH.
    intros Hr. injection Hr as _ ->. by eapply connect_endpoint_spawns.
  - intros Hr. apply bind_Some in Hr as ([d [c'|e]] & Ec & Hr); [|by apply IH in Hr].
    injection Hr as _ ->. by eapply connect_endpoint_spawns.
Qed.

(** A connection of the pool: freshly created, or given back by a borrower it was
    recycled for. In between anything may arrive on it, and anyone may poison it. *)
Inductive pooled : Actor -> Prop :=
| pooled_created mgr t c : snd (create mgr) = Some (t, Ok c) -> pooled c
| pooled_back mgr c age b msgs s c' s' :
    pooled c -> recycle mgr c age = Ok tt -> serve b (deliver msgs c) s = (c', s', Some tt) -> pooled c'
| pooled_poisoned c : pooled c -> pooled (set_poisoned c).

Lemma recycled_alive mgr c age : recycle mgr c age = Ok tt -> poisoned c = false.
Proof.
  unfold recycle, recycle_refusal, is_alive. destruct (match max_lifetime mgr with Some _ => _ | None => _ end); [done|].
  by destruct (poisoned c).
Qed.

Lemma pooled_rests c : pooled c -> rests c.
Proof.
  induction 1 as [mgr t c Hc|mgr c age b msgs s c' s' Hp IH Hr Hs|c Hp IH].
  - unfold create in Hc. destruct (length (endpoints mgr)); [done|]. right. by apply create_loop_spawns in Hc as [_ ?].
  - apply recycled_alive in Hr. assert (Hi : idle (deliver msgs c)) by (destruct IH; [congruence|done]).
    by destruct (serve_rests b _ _ _ _ _ (any_script s) Hi Hs).
  - by left.
Qed.

(** ** Properties *)

(** the pool never hands out a connection with an INSERT open on it. Whatever
    borrowers did with a connection before, statements, streams, pings and INSERT sessions
    finished, aborted or dropped half-way, failing anywhere, with any answers of the server
    and any timing: the connection that [recycle] lets through is idle and unpoisoned, so the next
    borrower's first command is never refused for another's session. *)
Theorem pool_hands_out_idle_connections mgr c age :
  pooled c -> recycle mgr c age = Ok tt -> state c = Idle /\ poisoned c = false.
Proof.
  intros Hp Hr. apply recycled_alive in Hr. destruct (pooled_rests c Hp); [congruence|done].
Qed.

End pooled.

(** a statement that was not declared idempotent reaches at most one connection, once, whatever the
    policy and the errors; and one attempt's failure leaves its connection poisoned unless the
    server itself rejected the statement, so no later attempt reuses a broken connection. *)
Theorem statements_are_not_replayed `{Backon} {C} (get : nat -> result PoolError C) on_conn policy qid q sts prs :
  snd (execute_query_via_pool get on_conn policy false) = 1%nat /\
  (forall c s c' s' e, query_on_conn qid q sts prs c s = (c', s', Some (Err e)) ->
     poisoned c' = true \/ exists code name message trace, e = ServerException code name message trace).
Proof.
  split.
  - unfold execute_query_via_pool, run_with_retry, retry_with. done.
  - intros c s c' s' e Hr. unfold query_on_conn in Hr. cbv [mbind act_bind] in Hr.
    destruct (execute_query _ _ _ _ c s) as [[c1 s1] [r|]]; [|done]. unfold checked in Hr.
    destruct r as [[]|e']; [done|]. cbv [mbind act_bind] in Hr.
    destruct e'; cbn in Hr; injection Hr as <- <- <-; first [by left | right; by eexists _, _, _, _].
Qed.

Definition exception_example : Exception :=
  {| Exc.code := 159; Exc.name := str "TIMEOUT_EXCEEDED"; Exc.message := str "slow"; Exc.stack_trace := [] |}.

Lemma statements_are_not_replayed_witness :
  let run := query_on_conn (str "q1") (str "DROP TABLE t") [] [] (fresh []) [Ev.WriteErr 3 eof] in
  poisoned (fst (fst run)) = true \/ exists code name message trace, eof = ServerException code name message trace.
Proof.
  intros run.
  refine (proj2 (@statements_are_not_replayed reference_backon nat (fun _ => Ok 0%nat) (fun _ _ => Ok tt)
    (Some default_policy) (str "q1") (str "DROP TABLE t") [] []) (fresh []) [Ev.WriteErr 3 eof] (fst (fst run)) [] eof _).
  vm_compute. reflexivity.
Defined.

Lemma finish_when_idle c s :
  state c = Idle ->
  let refused : Result unit := Err (custom "tcp: no INSERT session active") in
  finish_insert c s = (put_reply (ToCaller refused) c, s, Some refused).
Proof.
  intros Hst. unfold finish_insert, call, handle. cbv [mbind act_bind gets]. cbn [continues_insert negb].
  rewrite andb_false_r, Hst. cbn [dispatch]. cbv [reply modify mret act_ret]. cbn [replies put_reply].
  by rewrite list_lookup_middle.
Qed.

(** a rejected INSERT always costs its connection: once the server's exception has come back
    from a block and the actor is idle again, finishing, aborting and dropping the
    session all poison the connection. *)
Theorem rejected_insert_costs_its_connection how session c s c' s' r :
  settled session = false -> state c = Idle -> end_session how session c s = (c', s', Some r) ->
  poisoned c' = true.
Proof.
  intros Hs Hst Hr. destruct how; cbn [end_session] in Hr; unfold finish, abort, drop_session in Hr.
  - cbv [mbind act_bind] in Hr. rewrite (finish_when_idle c s Hst) in Hr.
    cbv [checked poison_unless_server_rejected custom mbind act_bind poison modify mret act_ret] in Hr.
    cbn [settled settle] in Hr. by simplify_eq.
  - cbv [mbind act_bind poison modify mret act_ret] in Hr. cbn [settled settle] in Hr. by simplify_eq.
  - rewrite Hs in Hr. cbv [mbind act_bind poison modify mret act_ret] in Hr. by simplify_eq.
Qed.

Lemma rejected_insert_costs_its_connection_witness :
  let session := {| settled := false; server_columns := []; server_revision := 54484 |} in
  poisoned (fst (fst (end_session Finished session (fresh []) []))) = true.
Proof.
  intros session.
  refine (@rejected_insert_costs_its_connection Finished session (fresh []) [] _ [] _ _ _ _);
    [done|done|vm_compute; reflexivity].
Defined.

Definition opened_example : Actor :=
  match snd (@create roomy no_floats net_example manager_example) with
  | Some (_, Ok c) => c
  | _ => fresh []
  end.
Definition pinged_example : Actor := fst (fst (serve PingIt (deliver [] opened_example) [Ev.WriteOk; Ev.Arrives])).

Lemma pool_hands_out_idle_connections_witness : state pinged_example = Idle /\ poisoned pinged_example = false.
Proof.
  refine (@pool_hands_out_idle_connections roomy no_floats net_example manager_example pinged_example 5 _ _).
  - refine (@pooled_back roomy no_floats net_example manager_example opened_example 5 PingIt [] [Ev.WriteOk; Ev.Arrives]
      pinged_example [] _ _ _); [|vm_compute; reflexivity..].
    refine (@pooled_created roomy no_floats net_example manager_example 5_006_000_000 opened_example _).
    vm_compute. reflexivity.
  - vm_compute. reflexivity.
Defined.
