(* ===== verification/Lending.v ===== *)
(** * Lending a connection to callers that may leave

    The futures of [src/tcp/client_ext.rs] and [src/tcp/connection_actor.rs] can be dropped at any await, while the
    command they queued is still waiting for the actor or in its hands. Models one pooled connection, the commands
    queued on it and the caller that holds it as a step relation: [PoisonOnDrop], [TcpInsertSession]'s [Drop], the
    pool's recycling and the closing of a refused connection, interleaved with the actor's run loop. Property: an open INSERT has
    one owner, whoever leaves when. *)

From S2P Require Import Prelude Text Errors WireIo ColTypes Json Columns Decode Encode Protocol Packets Requests Actor ActorRules Sessions Connection Cursor Worker Pool Client Borrowers.

(** ** State *)

(** A command in the worker's channel: the loan it was issued under and whether a caller still waits for
    its reply. *)
Record Entry := {
  tag : nat;
  entry_cmd : ConnectionCmd;
  wanted : bool
}.

(** Where the caller that holds the connection is: the await it stands at, or what it keeps. *)
Module Hd.
Inductive Holder :=
| InPool
| Refused
| Borrowed
| Asking (statement : bool)
| Streaming
| Opening
| InSession (s : TcpInsertSession)
| Sending (s : TcpInsertSession)
| Finishing (s : TcpInsertSession).
End Hd.
Abbreviation Holder := Hd.Holder.

(** The connection; the worker's channel; the command the actor is handling, with the connection as it was when the
    command was taken; the number of the loan; its holder; the reply that came and was not looked at yet,
    [Some None] a reply channel dropped; the shutdown signal. [opener] is the loan whose command
    opened the INSERT, a ghost. *)
Record Lent := {
  conn : Actor;
  lent_queue : list Entry;
  busy : option (Entry * Actor);
  loan : nat;
  holder : Holder;
  mailbox : option (option Reply);
  closing : bool;
  opener : option nat
}.

(** Commands that belong to an INSERT. *)
Definition insert_cmd (cmd : ConnectionCmd) : bool :=
  match cmd with
  | Cmd.BeginInsert _ _ _ _ | Cmd.SendInsertBlock _ _ _ | Cmd.FinishInsert => true
  | _ => false
  end.
Definition begin_cmd (cmd : ConnectionCmd) : bool :=
  match cmd with
  | Cmd.BeginInsert _ _ _ _ => true
  | _ => false
  end.

(** What the actor has yet to finish. *)
Definition pending (t : Lent) : list Entry := option_list (fst <$> busy t) ++ lent_queue t.

(** ** Callers *)

(** An action that only sets flags, run on the connection. *)
Definition leaves {A} (m : Act A) (c : Actor) : Actor := fst (fst (m c [])).

Definition abandon (e : Entry) : Entry := {| tag := tag e; entry_cmd := entry_cmd e; wanted := false |}.

(** The caller's future is over: what it had queued has nobody waiting any more. *)
Definition moved (t : Lent) (now : Actor * Holder) : Lent :=
  {| conn := fst now; lent_queue := map abandon (lent_queue t);
     busy := (fun b => (abandon (fst b), snd b)) <$> busy t; loan := loan t; holder := snd now; mailbox := None;
     closing := closing t; opener := opener t |}.

(** A call queues its command and stands at the reply. *)
Definition post (t : Lent) (cmd : ConnectionCmd) (h : Holder) : Lent :=
  {| conn := conn t; lent_queue := lent_queue t ++ [{| tag := loan t; entry_cmd := cmd; wanted := true |}];
     busy := busy t; loan := loan t; holder := h; mailbox := None; closing := closing t; opener := opener t |}.

(** The reply is looked at: the end of [ping], [query_on_conn], [insert_native], [send_block] and [finish]. *)
Definition receive (h : Holder) (r : option Reply) (c : Actor) : Actor * Holder :=
  match h with
  | Hd.Asking statement =>
      let result := to_caller (custom "tcp: connection actor dropped execute_query reply") r in
      (if statement then leaves (checked result) c else c, Hd.InPool)
  | Hd.Opening =>
      match r with
      | Some (ToInsert (Ok cols)) =>
          (leaves (drop_guard (disarm arm)) c,
           Hd.InSession {| settled := false; server_columns := cols; server_revision := revision (hello c) |})
      | Some (ToInsert (Err e)) =>
          (leaves (_ ← drop_guard (disarm arm); poison_unless_server_rejected e) c, Hd.InPool)
      | _ =>
          (leaves (_ ← drop_guard arm;
             poison_unless_server_rejected (custom "tcp: connection actor dropped begin_insert reply")) c, Hd.InPool)
      end
  | Hd.Sending s =>
      let result := to_caller (custom "tcp: connection actor dropped send_insert_block reply") r in
      (leaves (checked result) c, Hd.InSession s)
  | Hd.Finishing s =>
      let result := to_caller (custom "tcp: connection actor dropped finish_insert reply") r in
      (leaves (_ ← checked result; drop_session (settle s)) c, Hd.InPool)
  | h => (c, h)
  end.

(** The caller drops what it stands at: the future of a call, the cursor, the session, the pooled object. A
    block's future borrows the session, which stays. *)
Definition drop_it (h : Holder) (c : Actor) : Actor * Holder :=
  match h with
  | Hd.Borrowed | Hd.Asking _ | Hd.Streaming => (c, Hd.InPool)
  | Hd.Opening => (leaves (drop_guard arm) c, Hd.InPool)
  | Hd.Sending s => (c, Hd.InSession s)
  | Hd.InSession s | Hd.Finishing s => (leaves (drop_session s) c, Hd.InPool)
  | h => (c, h)
  end.

(** [TcpInsertSession::abort]. *)
Definition abort_it (s : TcpInsertSession) (c : Actor) : Actor * Holder :=
  (leaves (s ← abort s; drop_session s) c, Hd.InPool).

(** ** The actor *)

(** The run loop takes the next command. *)
Definition taken (t : Lent) (e : Entry) (q : list Entry) : Lent :=
  {| conn := conn t; lent_queue := q; busy := Some (e, conn t); loan := loan t; holder := holder t;
     mailbox := mailbox t; closing := closing t; opener := opener t |}.

(** It has handled it: the connection it leaves, poisoned if anyone poisoned it meanwhile, and the reply for a
    caller that still waits. *)
Definition handled_it (t : Lent) (e : Entry) (c0 c' : Actor) : Lent :=
  {| conn := if poisoned (conn t) then set_poisoned c' else c'; lent_queue := lent_queue t; busy := None;
     loan := loan t; holder := holder t;
     mailbox := if wanted e then Some (replies c' !! length (replies c0)) else mailbox t;
     closing := closing t;
     opener := match state c0, state c' with Idle, InsertActive => Some (tag e) | _, _ => opener t end |}.

Section lending.
Context `{Net}.

(** [Manager::recycle] on a connection that is asked for; a refused one is told to close ([close_refused]). *)
Definition lend (t : Lent) : Lent :=
  {| conn := conn t; lent_queue := lent_queue t; busy := busy t; loan := S (loan t); holder := Hd.Borrowed;
     mailbox := None; closing := closing t; opener := opener t |}.
Definition refuse (t : Lent) : Lent :=
  {| conn := conn t; lent_queue := lent_queue t; busy := busy t; loan := loan t; holder := Hd.Refused;
     mailbox := None; closing := true; opener := opener t |}.
Definition poisoned_by (t : Lent) : Lent :=
  {| conn := set_poisoned (conn t); lent_queue := lent_queue t; busy := busy t; loan := loan t; holder := holder t;
     mailbox := mailbox t; closing := closing t; opener := opener t |}.

(** The task has taken the shutdown signal: what is queued is dropped. *)
Definition exit_task (t : Lent) : Lent :=
  {| conn := conn t; lent_queue := []; busy := busy t; loan := loan t; holder := holder t; mailbox := mailbox t;
     closing := closing t; opener := opener t |}.

Inductive step (mgr : TcpConnectionManager) : Lent -> Lent -> Prop :=
| recycled t age : holder t = Hd.InPool -> recycle mgr (conn t) age = Ok tt -> step mgr t (lend t)
| refused_one t age reason : holder t = Hd.InPool -> recycle mgr (conn t) age = Err reason -> step mgr t (refuse t)
| asks t qid q sts prs : holder t = Hd.Borrowed ->
    step mgr t (post t (Cmd.ExecuteQuery qid q sts prs) (Hd.Asking true))
| pings t : holder t = Hd.Borrowed -> step mgr t (post t Cmd.Ping (Hd.Asking false))
| selects t qid q sts prs : holder t = Hd.Borrowed ->
    step mgr t (post t (Cmd.ExecuteStream qid q sts prs) Hd.Streaming)
| opens t qid sql sts : holder t = Hd.Borrowed -> step mgr t (post t (Cmd.BeginInsert qid sql sts []) Hd.Opening)
| sends t s bytes nc n : holder t = Hd.InSession s ->
    step mgr t (post t (Cmd.SendInsertBlock bytes nc n) (Hd.Sending s))
| finishes t s : holder t = Hd.InSession s -> step mgr t (post t Cmd.FinishInsert (Hd.Finishing s))
| receives t r : mailbox t = Some r -> step mgr t (moved t (receive (holder t) r (conn t)))
| drops t : step mgr t (moved t (drop_it (holder t) (conn t)))
| aborts t s : holder t = Hd.InSession s -> step mgr t (moved t (abort_it s (conn t)))
| takes_next t e q : busy t = None -> closing t = false -> lent_queue t = e :: q -> step mgr t (taken t e q)
| finishes_with t e c0 msgs s c' s' : busy t = Some (e, c0) ->
    handle (entry_cmd e) (deliver msgs c0) s = (c', s', Some tt) -> step mgr t (handled_it t e c0 c')
| anyone_poisons t : step mgr t (poisoned_by t)
| exits t : busy t = None -> closing t = true -> step mgr t (exit_task t).

(** A connection the pool creates goes to the caller that asked for it. *)
Definition first_loan (c : Actor) : Lent :=
  {| conn := c; lent_queue := []; busy := None; loan := 1; holder := Hd.Borrowed; mailbox := None; closing := false;
     opener := None |}.
End lending.

(** ** The invariant *)

Definition quiet (e : Entry) : Prop := insert_cmd (entry_cmd e) = false /\ wanted e = false.
Definition other (e : Entry) : Prop := insert_cmd (entry_cmd e) = false.
Definition block (e : Entry) : Prop := begin_cmd (entry_cmd e) = false /\ entry_cmd e <> Cmd.FinishInsert /\ wanted e = false.

(** What an unpoisoned connection has pending while its holder is where it is. *)
Definition in_hand (t : Lent) : Prop :=
  match holder t with
  | Hd.InPool | Hd.Refused | Hd.Borrowed => state (conn t) = Idle /\ Forall quiet (pending t)
  | Hd.Asking _ | Hd.Streaming => state (conn t) = Idle /\ Forall other (pending t)
  | Hd.Opening =>
      match mailbox t with
      | None => state (conn t) = Idle /\
          exists before e, pending t = before ++ [e] /\ Forall quiet before /\ begin_cmd (entry_cmd e) = true /\ wanted e = true
      | Some r => pending t = [] /\ match r with Some (ToInsert (Ok _)) => True | _ => state (conn t) = Idle end
      end
  | Hd.InSession s => settled s = false /\ Forall block (pending t)
  | Hd.Sending s => settled s = false /\ Forall (fun e => begin_cmd (entry_cmd e) = false /\ entry_cmd e <> Cmd.FinishInsert) (pending t)
  | Hd.Finishing s => settled s = false /\
      match mailbox t with
      | None => exists before e, pending t = before ++ [e] /\ Forall block before /\ entry_cmd e = Cmd.FinishInsert /\ wanted e = true
      | Some _ => pending t = [] /\ state (conn t) = Idle
      end
  end.

Record inv (t : Lent) : Prop := {
  inv_busy : match busy t with Some (_, c0) => conn t = c0 \/ conn t = set_poisoned c0 | None => True end;
  inv_tags : Forall (fun e => insert_cmd (entry_cmd e) = true -> tag e = loan t) (pending t);
  inv_owner : state (conn t) = InsertActive -> opener t = Some (loan t);
  inv_close : closing t = true -> holder t = Hd.Refused;
  inv_hand : poisoned (conn t) = false -> in_hand t
}.

(** *** What handling a command does to the state *)

Lemma handle_keeps_idle cmd c s c' s' :
  begin_cmd cmd = false -> state c = Idle -> handle cmd c s = (c', s', Some tt) -> state c' = Idle.
Proof.
  intros Hb Hc Hh.
  assert (Hk : silent any idle (handle cmd)) by (apply idles_handle; by destruct cmd).
  by destruct (Hk c s c' s' tt (any_script s) Hc Hh).
Qed.

Lemma handle_finish_idle c s c' s' : handle Cmd.FinishInsert c s = (c', s', Some tt) -> state c' = Idle.
Proof.
  intros Hh. pose proof finish_rests as Hf.
  destruct (Hf c s c' s' (to_caller (custom "tcp: connection actor dropped finish_insert reply") (replies c' !! length (replies c)))
    (any_script s) I) as [Hi _]; [|exact Hi].
  unfold finish_insert, call. cbv [mbind act_bind gets mret act_ret]. by rewrite Hh.
Qed.

Lemma handle_begin_rests cmd c s c' s' :
  begin_cmd cmd = true -> state c = Idle -> handle cmd c s = (c', s', Some tt) ->
  match replies c' !! length (replies c) with Some (ToInsert (Ok _)) => True | _ => poisoned c' = true \/ state c' = Idle end.
Proof.
  intros Hb Hc Hh. destruct cmd as [|qid q sts prs|qid q sts prs| | |]; try done.
  destruct (begin_call_rests qid q sts prs c s c' s' (replies c' !! length (replies c)) (any_script s) Hc) as [Hr _]; [|exact Hr].
  unfold call. cbv [mbind act_bind gets]. by rewrite Hh.
Qed.

(** *** Steps of the caller *)

Definition flags (c c' : Actor) : Prop := c' = c \/ c' = set_poisoned c.

Lemma flags_rejected e c : flags c (leaves (poison_unless_server_rejected e) c).
Proof. destruct e; first [by left | by right]. Qed.

Lemma flags_checked {A} (r : Result A) c : flags c (leaves (checked r) c).
Proof. destruct r as [a|e]; [by left|]. destruct e; first [by left | by right]. Qed.

Lemma flags_receive h r c : flags c (fst (receive h r c)).
Proof.
  destruct h as [| | |[|]| | |s|s|s]; cbn [receive fst]; try (by left); try apply flags_checked.
  - destruct r as [[?|[cols|e]|?]|]; cbn [fst]; first [by left | by right | destruct e; first [by left | by right]].
  - destruct (to_caller _ _) as [a|e]; [by left|]. destruct e; first [by left | by right].
Qed.

Lemma flags_drop h c : flags c (fst (drop_it h c)).
Proof.
  destruct h as [| | |[|]| | |s|s|s]; cbn [drop_it fst]; try (by left); try (by right);
    unfold drop_session; destruct (settled s); first [by left | by right].
Qed.

Lemma pending_moved t now : pending (moved t now) = map abandon (pending t).
Proof. unfold pending, moved. cbn. rewrite map_app. f_equal. by destruct (busy t) as [[e c]|]. Qed.

Lemma pending_post t cmd h : pending (post t cmd h) = pending t ++ [{| tag := loan t; entry_cmd := cmd; wanted := true |}].
Proof. unfold pending, post. cbn. by rewrite app_assoc. Qed.

Lemma inv_moved t c' h :
  inv t -> flags (conn t) c' -> (holder t = Hd.Refused -> h = Hd.Refused) ->
  (poisoned c' = false -> c' = conn t -> in_hand (moved t (c', h))) -> inv (moved t (c', h)).
Proof.
  intros [Hb Ht Ho Hcl Hh] Hf Hr Hi. split.
  - cbn. destruct (busy t) as [[e c0]|]; [|done]. cbn.
    destruct Hf as [-> | ->]; [done|]. destruct Hb as [-> | ->]; by right.
  - rewrite pending_moved. apply Forall_map. eapply Forall_impl; [exact Ht|]. intros e He. exact He.
  - cbn. intros Hs. apply Ho. destruct Hf as [-> | ->]; exact Hs.
  - cbn. auto.
  - cbn. intros Hp. apply Hi; [done|]. destruct Hf as [-> | ->]; done.
Qed.

Lemma inv_post t cmd h :
  inv t -> holder t <> Hd.Refused -> (poisoned (conn t) = false -> in_hand t -> in_hand (post t cmd h)) -> inv (post t cmd h).
Proof.
  intros [Hb Ht Ho Hcl Hh] Hn Hi. split; [exact Hb| |exact Ho| |].
  - rewrite pending_post. apply Forall_app. split; [exact Ht|]. by apply Forall_singleton.
  - cbn. intros Hc. by apply Hcl in Hc.
  - intros Hp. apply Hi; [exact Hp|]. by apply Hh.
Qed.

Lemma quiet_abandon l : Forall other l -> Forall quiet (map abandon l).
Proof. intros Hl. apply Forall_map. eapply Forall_impl; [exact Hl|]. by intros e He. Qed.
Lemma quiet_other l : Forall quiet l -> Forall other l.
Proof. intros Hl. eapply Forall_impl; [exact Hl|]. by intros e [He _]. Qed.
Lemma block_abandon l : Forall (fun e => begin_cmd (entry_cmd e) = false /\ entry_cmd e <> Cmd.FinishInsert) l -> Forall block (map abandon l).
Proof. intros Hl. apply Forall_map. eapply Forall_impl; [exact Hl|]. by intros e []. Qed.

Lemma receive_hand t r :
  mailbox t = Some r -> in_hand t -> fst (receive (holder t) r (conn t)) = conn t ->
  poisoned (conn t) = false -> in_hand (moved t (receive (holder t) r (conn t))).
Proof.
  intros Hm Hh Hc Hp. unfold in_hand. rewrite pending_moved. unfold in_hand in Hh. rewrite Hm in Hh.
  cbn [moved conn mailbox holder]. rewrite Hc.
  destruct (holder t) as [| | |b| | |s|s|s] eqn:Eh; cbn [receive snd]; cbn [receive fst] in Hc.
  1-3: destruct Hh as [Hi Hq]; split; [exact Hi|]; by apply quiet_abandon, quiet_other.
  - destruct Hh as [Hi Hq]. split; [exact Hi|]. by apply quiet_abandon.
  - destruct Hh as [Hi Hq]. split; [exact Hi|]. by apply quiet_other, quiet_abandon.
  - destruct Hh as [-> Hr]. destruct r as [[?|[cols|e]|?]|]; cbn [snd]; done.
  - destruct Hh as [Hs Hq]. split; [exact Hs|]. apply block_abandon. eapply Forall_impl; [exact Hq|]. by intros e (? & ? & ?).
  - destruct Hh as [Hs Hq]. split; [exact Hs|]. by apply block_abandon.
  - destruct Hh as (Hs & -> & Hi). done.
Qed.

Lemma drop_hand t :
  in_hand t -> poisoned (fst (drop_it (holder t) (conn t))) = false -> fst (drop_it (holder t) (conn t)) = conn t ->
  in_hand (moved t (drop_it (holder t) (conn t))).
Proof.
  intros Hh Hp Hc. unfold in_hand. rewrite pending_moved. unfold in_hand in Hh. cbn [moved conn mailbox holder]. rewrite Hc.
  destruct (holder t) as [| | |b| | |s|s|s] eqn:Eh; cbn [drop_it snd]; cbn [drop_it fst] in Hp.
  1-3: destruct Hh as [Hi Hq]; split; [exact Hi|]; by apply quiet_abandon, quiet_other.
  1-2: destruct Hh as [Hi Hq]; split; [exact Hi|]; by apply quiet_abandon.
  - done.
  - destruct Hh as [Hs _]. unfold drop_session in Hp. by rewrite Hs in Hp.
  - destruct Hh as [Hs Hq]. split; [exact Hs|]. by apply block_abandon.
  - destruct Hh as [Hs _]. unfold drop_session in Hp. by rewrite Hs in Hp.
Qed.

(** *** Steps of the actor *)

Lemma pending_busy t e c0 : busy t = Some (e, c0) -> pending t = e :: lent_queue t.
Proof. intros Hb. unfold pending. by rewrite Hb. Qed.
Lemma pending_idle t : busy t = None -> pending t = lent_queue t.
Proof. intros Hb. unfold pending. by rewrite Hb. Qed.

Lemma handled_state c0 msgs cmd s c' s' :
  handle cmd (deliver msgs c0) s = (c', s', Some tt) -> begin_cmd cmd = false -> state c' = InsertActive -> state c0 = InsertActive.
Proof.
  intros Hh Hb Hs. destruct (state c0) eqn:E; [|done].
  assert (Hi : state c' = Idle) by (eapply handle_keeps_idle; [exact Hb| |exact Hh]; done). congruence.
Qed.

Lemma handled_hand t e c0 msgs s c' s' :
  busy t = Some (e, c0) -> handle (entry_cmd e) (deliver msgs c0) s = (c', s', Some tt) ->
  poisoned (conn t) = false -> poisoned c' = false -> state c0 = state (conn t) ->
  in_hand t -> in_hand (handled_it t e c0 c').
Proof.
  intros Hb Hh Hp Hp' Hst Hi.
  assert (Hidle : begin_cmd (entry_cmd e) = false -> state c0 = Idle -> state c' = Idle).
  { intros He Hc. eapply handle_keeps_idle; [exact He| |exact Hh]. exact Hc. }
  assert (Hnext : pending (handled_it t e c0 c') = lent_queue t) by done.
  unfold in_hand in *. rewrite Hnext. rewrite (pending_busy t e c0 Hb) in Hi. cbn [handled_it conn mailbox holder]. rewrite Hp.
  assert (Hno : forall e, insert_cmd (entry_cmd e) = false -> begin_cmd (entry_cmd e) = false) by (by intros [? [] ?]).
  destruct (holder t) as [| | |b| | |sn|sn|sn].
  1-3: destruct Hi as [Hc Hq]; apply Forall_cons in Hq as [[He _] Hq]; rewrite Hst in Hidle; auto.
  1-2: destruct Hi as [Hc Hq]; apply Forall_cons in Hq as [He Hq]; rewrite Hst in Hidle; auto.
  - destruct (mailbox t); [by destruct Hi|]. destruct Hi as (Hc & [|e1 before] & e2 & Heq & Hq & Hb2 & Hw2); cbn [app] in Heq; injection Heq as -> Heq.
    + rewrite Heq, Hw2. split; [done|]. rewrite Hc in Hst.
      pose proof (handle_begin_rests _ (deliver msgs c0) s c' s' Hb2 Hst Hh) as Hr. cbn [deliver replies set_inbox] in Hr.
      destruct (replies c' !! length (replies c0)) as [[?|[?|?]|?]|]; try done; by destruct Hr; [congruence|].
    + apply Forall_cons in Hq as [[He Hw] Hq]. rewrite Hw. rewrite Hst in Hidle. split; [auto|].
      rewrite Heq. eexists before, e2. done.
  - destruct Hi as [Hs Hq]. apply Forall_cons in Hq as [_ Hq]. done.
  - destruct Hi as [Hs Hq]. apply Forall_cons in Hq as [_ Hq]. done.
  - destruct Hi as [Hs Hi]. split; [exact Hs|]. destruct (mailbox t); [by destruct Hi|].
    destruct Hi as ([|e1 before] & e2 & Heq & Hq & Hb2 & Hw2); cbn [app] in Heq; injection Heq as -> Heq.
    + rewrite Heq, Hw2. split; [done|]. rewrite Hb2 in Hh. by eapply handle_finish_idle.
    + apply Forall_cons in Hq as [(He & _ & Hw) Hq]. rewrite Hw. rewrite Heq. eexists before, e2. done.
Qed.

Lemma handled_inv t e c0 msgs s c' s' :
  busy t = Some (e, c0) -> handle (entry_cmd e) (deliver msgs c0) s = (c', s', Some tt) -> inv t -> inv (handled_it t e c0 c').
Proof.
  intros Hb Hh [Hbusy Ht Ho Hcl Hi]. rewrite Hb in Hbusy. rewrite (pending_busy t e c0 Hb) in Ht.
  apply Forall_cons in Ht as [Hte Ht].
  assert (Hst : state c0 = state (conn t)) by (by destruct Hbusy as [-> | ->]).
  split; [done|exact Ht| |exact Hcl|].
  - cbn. intros Hs. assert (Hs' : state c' = InsertActive) by (by destruct (poisoned (conn t))). rewrite Hs'.
    destruct (state c0) eqn:E0; [|apply Ho; congruence].
    destruct (begin_cmd (entry_cmd e)) eqn:Eb; [|by rewrite (handled_state _ _ _ _ _ _ Hh Eb Hs') in E0].
    f_equal. apply Hte. by destruct (entry_cmd e).
  - cbn. intros Hp. assert (Hp' : poisoned (conn t) = false /\ poisoned c' = false).
    { destruct (poisoned (conn t)); [done|]. done. }
    destruct Hp' as [Hp1 Hp2]. eapply handled_hand; eauto.
Qed.

Lemma post_asking t cmd h : holder t = Hd.Borrowed -> insert_cmd cmd = false ->
  h = Hd.Streaming \/ (exists b, h = Hd.Asking b) -> in_hand t -> in_hand (post t cmd h).
Proof.
  intros Hb Hc Hh Hi. unfold in_hand in *. rewrite pending_post. rewrite Hb in Hi. destruct Hi as [Hs Hq].
  assert (Hall : Forall other (pending t ++ [{| tag := loan t; entry_cmd := cmd; wanted := true |}])).
  { apply Forall_app. split; [by apply quiet_other|by apply Forall_singleton]. }
  cbn [holder post]. destruct Hh as [-> |[b ->]]; done.
Qed.

Section lives.
Context `{Net}.

Lemma step_inv mgr t t' : step mgr t t' -> inv t -> inv t'.
Proof.
  intros Hstep Hi. destruct Hstep as [t age Hh Hr|t age reason Hh Hr|t qid q sts prs Hh|t Hh|t qid q sts prs Hh|t qid sql sts Hh
    |t s bytes nc n Hh|t s Hh|t r Hm|t|t s Hh|t e q Hb Hc Hq|t e c0 msgs s c' s' Hb Hr|t|t Hb Hc].
  - apply recycled_alive in Hr. destruct Hi as [Hb Ht Ho Hcl Hi]. specialize (Hi Hr). unfold in_hand in Hi. rewrite Hh in Hi.
    destruct Hi as [Hs Hq]. split; [exact Hb| |cbn; congruence|cbn; intros Hc; apply Hcl in Hc; congruence|done].
    change (Forall (fun e => insert_cmd (entry_cmd e) = true -> tag e = S (loan t)) (pending t)).
    eapply Forall_impl; [exact Hq|]. intros e [He _] He'. congruence.
  - destruct Hi as [Hb Ht Ho Hcl Hi]. split; [exact Hb|exact Ht|exact Ho|done|]. intros Hp. specialize (Hi Hp). unfold in_hand in Hi.
    by rewrite Hh in Hi.
  - apply inv_post; [done|by rewrite Hh|]. intros _. apply post_asking; [done..|right; by eexists].
  - apply inv_post; [done|by rewrite Hh|]. intros _. apply post_asking; [done..|right; by eexists].
  - apply inv_post; [done|by rewrite Hh|]. intros _. apply post_asking; [done..|by left].
  - apply inv_post; [done|by rewrite Hh|]. intros _ Hin. unfold in_hand in *. rewrite pending_post. rewrite Hh in Hin.
    destruct Hin as [Hs Hq]. split; [exact Hs|]. by eexists _, _.
  - apply inv_post; [done|by rewrite Hh|]. intros _ Hin. unfold in_hand in *. rewrite pending_post. rewrite Hh in Hin.
    destruct Hin as [Hs Hq]. split; [exact Hs|]. apply Forall_app. split; [|by apply Forall_singleton].
    eapply Forall_impl; [exact Hq|]. by intros e (? & ? & _).
  - apply inv_post; [done|by rewrite Hh|]. intros _ Hin. unfold in_hand in *. rewrite pending_post. rewrite Hh in Hin.
    destruct Hin as [Hs Hq]. split; [exact Hs|]. by eexists _, _.
  - destruct (receive (holder t) r (conn t)) as [c' h] eqn:E. apply inv_moved; [done| | |].
    + pose proof (flags_receive (holder t) r (conn t)) as Hf. by rewrite E in Hf.
    + intros Hh. rewrite Hh in E. by injection E as _ <-.
    + intros Hp ->. rewrite <- E. apply receive_hand; [done|by apply Hi|by rewrite E|done].
  - destruct (drop_it (holder t) (conn t)) as [c' h] eqn:E. apply inv_moved; [done| | |].
    + pose proof (flags_drop (holder t) (conn t)) as Hf. by rewrite E in Hf.
    + intros Hh. rewrite Hh in E. by injection E as _ <-.
    + intros Hp ->. rewrite <- E. apply drop_hand; [by apply Hi|by rewrite E|by rewrite E].
  - apply inv_moved; [done|by right|by rewrite Hh|done].
  - destruct Hi as [Hbusy Ht Ho Hcl Hi].
    assert (Hpe : pending (taken t e q) = pending t) by (rewrite (pending_idle t Hb), Hq; done).
    split; [by left|by rewrite Hpe|exact Ho|exact Hcl|]. intros Hp. specialize (Hi Hp). unfold in_hand in *. by rewrite Hpe.
  - by eapply handled_inv.
  - destruct Hi as [Hbusy Ht Ho Hcl Hi]. split; [|exact Ht|exact Ho|exact Hcl|done].
    cbn. destruct (busy t) as [[e c0]|]; [|done]. destruct Hbusy as [-> | ->]; by right.
  - destruct Hi as [Hbusy Ht Ho Hcl Hi].
    assert (Hpe : pending (exit_task t) = []) by (unfold pending; cbn; by rewrite Hb).
    split; [exact Hbusy|by rewrite Hpe|exact Ho|exact Hcl|]. intros Hp. specialize (Hi Hp). unfold in_hand in *. rewrite Hpe.
    cbn [holder exit_task conn]. rewrite (Hcl Hc) in *. by destruct Hi.
Qed.

(** The life of one pooled connection. *)
Inductive life (mgr : TcpConnectionManager) : Lent -> Prop :=
| life_created `{Platform} `{FloatText} at_ c : snd (create mgr) = Some (at_, Ok c) -> life mgr (first_loan c)
| life_step t t' : life mgr t -> step mgr t t' -> life mgr t'.

Lemma life_inv mgr t : life mgr t -> inv t.
Proof.
  induction 1 as [P F at_ c Hc|t t' Hl IH Hs]; [|by eapply step_inv].
  assert (Hidle : poisoned c = false /\ state c = Idle).
  { unfold create in Hc. destruct (length (endpoints mgr)); [done|]. by apply create_loop_spawns in Hc. }
  destruct Hidle as [Hp Hi]. split; [done|by constructor|cbn; congruence|done|]. intros _. by split; [|constructor].
Qed.

(** ** Properties *)

(** A caller that has asked for something new. *)
Definition asked (h : Holder) : bool :=
  match h with
  | Hd.Asking _ | Hd.Streaming | Hd.Opening => true
  | _ => false
  end.

(** C13: an open INSERT has one owner, whoever leaves when. Callers may drop their futures at every await, with their
    command queued, in the actor's hands or answered but not looked at, drop cursors and sessions, abort or finish; the
    reader may poison the connection at any time and any answers may come. Then a block or an end that waits
    for the actor was issued by the caller that holds the connection now, or held it last, and an INSERT that is open was opened
    by the same caller, so no rows land in another's table; a connection
    that is not poisoned and is back in the pool has no INSERT open and no command of one left behind; and the
    command of a caller that has just asked never meets another's INSERT. *)
Theorem insert_has_one_owner mgr t :
  life mgr t ->
  (forall e, e ∈ pending t -> insert_cmd (entry_cmd e) = true -> tag e = loan t) /\
  (state (conn t) = InsertActive -> opener t = Some (loan t)) /\
  (poisoned (conn t) = false ->
     (holder t = Hd.InPool -> state (conn t) = Idle /\ forall e, e ∈ pending t -> insert_cmd (entry_cmd e) = false) /\
     (asked (holder t) = true -> mailbox t = None -> state (conn t) = Idle)).
Proof.
  intros Hl. apply life_inv in Hl as [_ Ht Ho _ Hi]. rewrite Forall_forall in Ht. split_and!; [exact Ht|exact Ho|].
  intros Hp. specialize (Hi Hp). unfold in_hand in Hi. split.
  - intros Hh. rewrite Hh in Hi. destruct Hi as [Hs Hq]. split; [exact Hs|].
    rewrite Forall_forall in Hq. intros e He. by destruct (Hq e He).
  - intros Ha Hm. rewrite Hm in Hi. destruct (holder t); try done; by destruct Hi.
Qed.

End lives.

(** A caller asks for a statement and leaves at once; the next one opens an INSERT behind it. *)
Definition run_next (msgs : list ReaderMessage) (s : list Event) (t : Lent) : Lent :=
  match lent_queue t with
  | e :: q => handled_it (taken t e q) e (conn t) (fst (fst (handle (entry_cmd e) (deliver msgs (conn t)) s)))
  | [] => t
  end.

Lemma run_next_life `{Net} mgr t msgs s e q :
  life mgr t -> busy t = None -> closing t = false -> lent_queue t = e :: q ->
  snd (handle (entry_cmd e) (deliver msgs (conn t)) s) = Some tt -> life mgr (run_next msgs s t).
Proof.
  intros Hl Hb Hc Hq Hh. unfold run_next. rewrite Hq.
  apply (life_step mgr (taken t e q)); [by apply (life_step mgr t); [|apply takes_next]|].
  destruct (handle _ _ s) as [[c' s'] r] eqn:E. cbn [snd fst] in *. subst r. by eapply finishes_with.
Qed.

(** A server that answers both: the end of the statement, then the INSERT's schema block. *)
Definition lending_net : Net := net_sending (hello_layout wire_hello_example ++
  write_var_uint (server_id Sid.EndOfStream) ++
  write_var_uint (server_id Sid.Data) ++
  tail (send_data_block (wh_revision wire_hello_example) [] (put_string (str "n") ++ put_string (str "UInt64") ++ [x00]) 1 0)).
Definition lending_manager : @TcpConnectionManager lending_net :=
  {| endpoints := [str "live:9000"]; next := 0; kind := Plain; mgr_config := HandshakeConfig_default;
     max_lifetime := None; mgr_read_timeout := None; create_timeout := Some 10_000_000_000 |}.
Definition lending_actor : Actor :=
  match snd (@create roomy no_floats lending_net lending_manager) with
  | Some (_, Ok c) => c
  | _ => fresh []
  end.

Definition lent_stage (n : nat) : Lent := foldl (fun t f => f t) (first_loan lending_actor) (take n
  [fun t => post t one_query (Hd.Asking true);
   fun t => moved t (drop_it (holder t) (conn t));
   lend;
   fun t => post t (Cmd.BeginInsert [] (str "INSERT INTO t FORMAT Native") [] []) Hd.Opening;
   run_next [] [Ev.WriteOk; Ev.WriteOk; Ev.CallerGone; Ev.WriteOk; Ev.Arrives];
   run_next [] [Ev.WriteOk; Ev.WriteOk; Ev.Arrives]]).

Lemma insert_has_one_owner_witness :
  state (conn (lent_stage 6)) = InsertActive /\ opener (lent_stage 6) = Some 2%nat.
Proof.
  assert (H0 : @life lending_net lending_manager (lent_stage 0)).
  { refine (@life_created lending_net lending_manager roomy no_floats 6_000_000 lending_actor _). vm_compute. reflexivity. }
  assert (H1 : @life lending_net lending_manager (lent_stage 1)) by exact (life_step _ _ _ H0 (asks _ (lent_stage 0) _ _ _ _ eq_refl)).
  assert (H2 : @life lending_net lending_manager (lent_stage 2)) by exact (life_step _ _ _ H1 (drops _ (lent_stage 1))).
  assert (H3 : @life lending_net lending_manager (lent_stage 3)).
  { refine (life_step _ _ _ H2 (recycled _ (lent_stage 2) 5 eq_refl _)). vm_compute. reflexivity. }
  assert (H4 : @life lending_net lending_manager (lent_stage 4)) by exact (life_step _ _ _ H3 (opens _ (lent_stage 3) _ _ _ eq_refl)).
  assert (H5 : @life lending_net lending_manager (lent_stage 5)).
  { refine (@run_next_life lending_net _ (lent_stage 4) [] [Ev.WriteOk; Ev.WriteOk; Ev.CallerGone; Ev.WriteOk; Ev.Arrives]
      _ _ H4 eq_refl eq_refl eq_refl _). vm_compute. reflexivity. }
  assert (H6 : @life lending_net lending_manager (lent_stage 6)).
  { refine (@run_next_life lending_net _ (lent_stage 5) [] [Ev.WriteOk; Ev.WriteOk; Ev.Arrives]
      _ _ H5 eq_refl eq_refl eq_refl _). vm_compute. reflexivity. }
  assert (Ha : state (conn (lent_stage 6)) = InsertActive) by (vm_compute; reflexivity).
  split; [exact Ha|].
  refine (eq_trans (proj1 (proj2 (@insert_has_one_owner lending_net lending_manager (lent_stage 6) H6)) Ha) _).
  vm_compute. reflexivity.
Defined.
