(* ===== verification/Handle.v ===== *)
(** * The connection's task and its end

    [ConnectionActor] of [src/tcp/connection_actor.rs] as the implementor [src/worker.rs] runs, and the handle that sends it
    commands: composes [Actor] with [Worker], with the shutdown hook, the actor's [Drop] and the errors of a handle whose task
    is gone. Property: closing ends the connection, with an outcome for every caller. *)

From S2P Require Import Prelude Text Errors WireIo ColTypes Json Columns Decode Encode Protocol Packets Requests Actor ActorRules Sessions Connection Cursor Worker Pool Client Borrowers.

(** ** The implementor *)

(** The actor with the events its awaits will meet; whether a handler waits for ever; whether the write half was
    closed and the reader sub-task aborted. *)
Record Conn := {
  actor : Actor;
  script : list Event;
  parked : bool;
  write_closed : bool;
  reader_aborted : bool
}.

(** The write half's [shutdown] under [SHUTDOWN_TIMEOUT]: closed, failed, or [None] when the time is up. The bytes it flushes
    are those the writes of the model have put on the wire. *)
Definition close_writer : Act (option (Result unit)) := await (fun ev c =>
  match ev with
  | Ev.WriteOk => Some (c, Some (Ok tt))
  | Ev.WriteErr _ e => Some (c, Some (Err e))
  | Ev.WriteStall _ | Ev.Elapses => Some (c, None)
  | _ => None
  end).

(** [handle]. *)
Definition handle_on (cmd : ConnectionCmd) (w : Conn) : Conn :=
  if parked w then w
  else
    let '(c, s, r) := handle cmd (actor w) (script w) in
    {| actor := c; script := s; parked := match r with Some _ => false | None => true end;
       write_closed := write_closed w; reader_aborted := reader_aborted w |}.

(** [on_shutdown], whose outcome is only logged, and [Drop for ConnectionActor] as the task ends: the reader is aborted
    either way. A script that is over lets the time run out. *)
Definition shut_down (w : Conn) : Conn :=
  if parked w then w
  else
    let '(c, s, r) := close_writer (actor w) (script w) in
    {| actor := c; script := s; parked := false;
       write_closed := match r with Some (Some (Ok _)) => true | _ => write_closed w end; reader_aborted := true |}.

#[global] Instance connection_worker : CommandWorker Conn ConnectionCmd := {
  handle_command := handle_on;
  on_idle_tick := fun w => w;
  on_shutdown := shut_down;
  idle_interval := None
}.

(** [spawn_with_config]: the task over a fresh actor. *)
Definition conn_of (c : Actor) (s : list Event) : Conn :=
  {| actor := c; script := s; parked := false; write_closed := false; reader_aborted := false |}.
Definition spawn_connection (c : Actor) (s : list Event) : Task (W := Conn) (C := ConnectionCmd) := spawn_task (conn_of c s).

(** ** The handle *)

Definition closed_error : Error := custom "tcp: connection actor closed".

(** The poison flag is shared with the handle. *)
Definition poison_conn (t : Task (W := Conn) (C := ConnectionCmd)) : Task :=
  let w := implementor t in
  {| queue := queue t; signalled := signalled t; senders_gone := senders_gone t; tick_due := tick_due t; exited := exited t;
     implementor := {| actor := fst (fst (drop_guard arm (actor w) [])); script := script w; parked := parked w;
                       write_closed := write_closed w; reader_aborted := reader_aborted w |};
     ran := ran t |}.

(** The sending half of every call: a command the task does not take is an error, and [begin_insert]'s guard is armed by
    then. *)
Definition ask (cmd : ConnectionCmd) (t : Task) : Task * option Error :=
  match send cmd t with
  | (t', Ok _) => (t', None)
  | (t', Err _) => (match cmd with Cmd.BeginInsert _ _ _ _ => poison_conn t' | _ => t' end, Some closed_error)
  end.

(** ** Lemmas *)

(** What a task that is not stuck has handled was answered, command by command. *)
Definition answered (w : Conn) (cmds : list ConnectionCmd) : Prop :=
  parked w = false ->
  Forall stays (script w) /\ exists per, Forall2 told cmds per /\ replies (actor w) = concat per.

Lemma handle_answered w cmds cmd : answered w cmds -> answered (handle_on cmd w) (cmds ++ [cmd]).
Proof.
  unfold answered, handle_on. intros Hw. destruct (parked w) eqn:Ep; [congruence|].
  destruct (handle cmd (actor w) (script w)) as [[c s] [[]|]] eqn:Eh; [|done]. intros _.
  destruct (Hw eq_refl) as (Hs & per & Hper & Hr). cbn.
  destruct (handle_told cmd (replies (actor w)) _ _ _ _ _ Hs eq_refl Eh) as [(new & Hnew & Hrep) Hs'].
  split; [exact Hs'|]. exists (per ++ [new]). split; [apply Forall2_app; [exact Hper|by constructor]|].
  rewrite Hrep, Hr, List.concat_app. cbn [concat]. by rewrite app_nil_r.
Qed.

Lemma close_writer_keeps c s : let '(c', s', _) := close_writer c s in
  wire c' = wire c /\ replies c' = replies c /\ state c' = state c /\ (Forall stays s -> Forall stays s').
Proof.
  unfold close_writer, await. revert c; induction s as [|ev s IH]; intros c; cbn [await_loop]; [done|].
  assert (Hnext : forall c', wire c' = wire c -> replies c' = replies c -> state c' = state c ->
    let '(c'', s', _) := await_loop (fun ev c => match ev with Ev.WriteOk => Some (c, Some (Ok tt)) | Ev.WriteErr _ e => Some (c, Some (Err e))
      | Ev.WriteStall _ | Ev.Elapses => Some (c, None) | _ => None end) c' s in
    wire c'' = wire c /\ replies c'' = replies c /\ state c'' = state c /\ (Forall stays (ev :: s) -> Forall stays s')).
  { intros c' Hw Hr Hs. specialize (IH c'). destruct (await_loop _ c' s) as [[c'' s'] r]. destruct IH as (-> & -> & -> & Hall).
    split_and!; [done..|]. intros Hc. apply Hall. by apply Forall_cons in Hc as [_ Hc]. }
  destruct ev; try (by apply Hnext); split_and!; try done; intros Hc; by apply Forall_cons in Hc as [_ Hc].
Qed.

Lemma shut_down_keeps w : parked w = false ->
  let w' := shut_down w in
  wire (actor w') = wire (actor w) /\ replies (actor w') = replies (actor w) /\ state (actor w') = state (actor w) /\
  reader_aborted w' = true /\ parked w' = false /\ (Forall stays (script w) -> Forall stays (script w')).
Proof.
  intros Hp. unfold shut_down. rewrite Hp. pose proof (close_writer_keeps (actor w) (script w)) as Hk.
  destruct (close_writer (actor w) (script w)) as [[c s] r]. cbn. by destruct Hk as (-> & -> & -> & Hs).
Qed.

Lemma shut_down_answered w cmds : answered w cmds -> answered (shut_down w) cmds.
Proof.
  unfold answered. intros Hw. destruct (parked w) eqn:Ep; [unfold shut_down; rewrite Ep; intros Hp; congruence|].
  destruct (shut_down_keeps w Ep) as (_ & -> & _ & _ & -> & Hs). intros _. destruct (Hw eq_refl) as [Hst Hper]. auto.
Qed.

(** The log of a task, replayed. *)
Lemma log_answered (w : Conn) (log : list (Ran ConnectionCmd)) cmds :
  answered w cmds ->
  answered (foldl (fun w r => match r with
    | Handled cmd => handle_command cmd w | Idled => on_idle_tick w | Stopped => on_shutdown w end) w log)
    (cmds ++ omap handled_of log).
Proof.
  revert w cmds; induction log as [|r log IH]; intros w cmds Hw; cbn [foldl omap list_omap]; [by rewrite app_nil_r|].
  destruct r as [cmd| |]; cbn [handled_of]; [|by apply IH|by apply IH, shut_down_answered].
  change (cmd :: omap handled_of log) with ([cmd] ++ omap handled_of log). rewrite app_assoc. apply IH. by apply handle_answered.
Qed.

Lemma gone_for_good (more : list (WorkerEvent ConnectionCmd)) (t : Task (W := Conn)) : exited t = true -> happen more t = t.
Proof.
  intros He. induction more as [|ev more IH]; [done|]. cbn [happen foldl]. unfold happens at 2. rewrite He. exact IH.
Qed.

(** The select after a signal ends the loop. *)
Lemma signalled_ends (t : Task (W := Conn) (C := ConnectionCmd)) :
  exited t = false ->
  let t' := happens Wk.Poll (happens Wk.Shutdown t) in
  exited t' = true /\ queue t' = queue t /\ implementor t' = shut_down (implementor t) /\ handled t' = handled t.
Proof.
  intros He. unfold happens at 2. rewrite He. unfold happens. cbn [exited]. unfold turn, select. cbn. split_and!; [done..|].
  unfold handled. cbn. by rewrite handled_snoc, app_nil_r.
Qed.

(** ** Properties *)

(** C40: closing ends the connection, and nobody is left waiting. Whatever was sent to it, run, signalled or dropped before: once
    [close] has signalled, the select after it ends the task without running another command; the write half is shut, or
    its time is up, without another byte of a command, the reader is aborted, and nothing happens to it any more;
    every command it was given was run and answered in its kind, in order, or is still queued and its
    reply channel is dropped; and every later call is refused at once. *)
Theorem close_ends_the_connection c s evs joined :
  replies c = [] -> Forall stays s ->
  let t := happen evs (spawn_connection c s) in
  exited t = false -> parked (implementor t) = false ->
  let '(control, t1, outcome) := close (Some new_control) joined t in
  let t' := happens Wk.Poll t1 in
  exited t' = true /\ reader_aborted (implementor t') = true /\
  wire (actor (implementor t')) = wire (actor (implementor t)) /\
  (forall more, happen more t' = t') /\ (forall cmd, snd (ask cmd t') = Some closed_error) /\
  sent evs (spawn_connection c s) = handled t' ++ queue t' /\
  (exists per, Forall2 told (handled t') per /\ replies (actor (implementor t')) = concat per) /\
  (control = None /\ is_ok outcome = is_ok joined).
Proof.
  intros Hr Hs t He Hp. assert (Ec : close (Some new_control) joined t = (None, happens Wk.Shutdown t,
    map_err (fun e => Custom (str "tcp: connection actor task did not exit cleanly: " ++ e)) joined)) by reflexivity.
  rewrite Ec. cbv zeta. clear Ec. destruct (signalled_ends t He) as (Hex & Hq & Hi & Hh).
  destruct (shut_down_keeps (implementor t) Hp) as (Hw & Hrep & _ & Hab & _).
  assert (Ho : orderly (conn_of c s) t (sent evs (spawn_connection c s))).
  { apply (orderly_run (conn_of c s) evs (spawn_task (conn_of c s)) []). split_and!; [done|done|]. apply not_elem_of_nil. }
  destruct Ho as (Hsent & Himp & _).
  assert (Hans : answered (implementor t) (handled t)).
  { rewrite Himp. apply (log_answered (conn_of c s) (ran t) []). intros _. split; [exact Hs|]. by exists []. }
  destruct (Hans Hp) as (_ & per & Hper & Hcat).
  split_and!; [exact Hex|by rewrite Hi|by rewrite Hi| | |by rewrite Hh, Hq| |done|by destruct joined].
  - intros more. by apply gone_for_good.
  - intros cmd. unfold ask, send, accepted. by rewrite Hex.
  - exists per. rewrite Hh, Hi. split; [exact Hper|]. by rewrite Hrep.
Qed.

(** A ping was answered, a query waits, the connection is closed. *)
Definition ping_then_query : list (WorkerEvent ConnectionCmd) := [Wk.Send Cmd.Ping; Wk.Poll; Wk.Send one_query].
Definition before_close : Task := happen ping_then_query (spawn_connection (fresh (packets [Sp.Pong])) [Ev.WriteOk; Ev.Arrives; Ev.WriteOk]).

Lemma close_ends_the_connection_witness :
  queue before_close = [one_query] /\ handled before_close = [Cmd.Ping] /\
  let '(control, t1, outcome) := close (Some new_control) (Ok tt) before_close in
  let t' := happens Wk.Poll t1 in
  exited t' = true /\ reader_aborted (implementor t') = true /\
  wire (actor (implementor t')) = wire (actor (implementor before_close)) /\
  (forall more, happen more t' = t') /\ (forall cmd, snd (ask cmd t') = Some closed_error) /\
  sent ping_then_query (spawn_connection (fresh (packets [Sp.Pong])) [Ev.WriteOk; Ev.Arrives; Ev.WriteOk]) = handled t' ++ queue t' /\
  (exists per, Forall2 told (handled t') per /\ replies (actor (implementor t')) = concat per) /\
  (control = None /\ is_ok outcome = is_ok (Ok tt : result text unit)).
Proof.
  split; [vm_compute; reflexivity|]. split; [vm_compute; reflexivity|].
  refine (@close_ends_the_connection (fresh (packets [Sp.Pong])) [Ev.WriteOk; Ev.Arrives; Ev.WriteOk] ping_then_query (Ok tt) _ _ _ _).
  - reflexivity.
  - by repeat constructor.
  - vm_compute. reflexivity.
  - vm_compute. reflexivity.
Defined.
