(* ===== verification/ParsedTypes.v ===== *)
(** * Parsed column types

    Models [src/dynamic/parsed_type.rs]: the parser of type names the dynamic
    inserts run on, which is not the parser of [ColTypes]. Properties: it terminates, and on
    the names a server prints the two parsers describe the same type. *)

From S2P Require Import Prelude Text ColTypes.

(** ** Data *)

Module Tt.
Inductive TypeTag :=
| String | FixedString
| UInt8 | UInt16 | UInt32 | UInt64 | UInt128 | UInt256
| Int8 | Int16 | Int32 | Int64 | Int128 | Int256
| Float32 | Float64 | Bool
| Date | Date32 | DateTime | DateTime64
| Decimal32 | Decimal64 | Decimal128 | Decimal256
| UUID | IPv4 | IPv6 | Enum8 | Enum16
| Array | Map | Point | JSON | Variant | Dynamic | Unknown.
End Tt.
Abbreviation TypeTag := Tt.TypeTag.

#[global] Instance TypeTag_eq_dec : EqDecision TypeTag.
Proof. solve_decision. Defined.

(** [TypeTag::from_base]. *)
Definition tag_names : list (text * TypeTag) :=
  [(str "String", Tt.String); (str "FixedString", Tt.FixedString);
   (str "UInt8", Tt.UInt8); (str "UInt16", Tt.UInt16); (str "UInt32", Tt.UInt32); (str "UInt64", Tt.UInt64);
   (str "UInt128", Tt.UInt128); (str "UInt256", Tt.UInt256);
   (str "Int8", Tt.Int8); (str "Int16", Tt.Int16); (str "Int32", Tt.Int32); (str "Int64", Tt.Int64);
   (str "Int128", Tt.Int128); (str "Int256", Tt.Int256);
   (str "Float32", Tt.Float32); (str "Float64", Tt.Float64); (str "Bool", Tt.Bool);
   (str "Date", Tt.Date); (str "Date32", Tt.Date32); (str "DateTime", Tt.DateTime); (str "DateTime64", Tt.DateTime64);
   (str "Decimal32", Tt.Decimal32); (str "Decimal64", Tt.Decimal64); (str "Decimal128", Tt.Decimal128);
   (str "Decimal256", Tt.Decimal256);
   (str "UUID", Tt.UUID); (str "IPv4", Tt.IPv4); (str "IPv6", Tt.IPv6); (str "Enum8", Tt.Enum8); (str "Enum16", Tt.Enum16);
   (str "Array", Tt.Array); (str "Map", Tt.Map); (str "Point", Tt.Point);
   (str "JSON", Tt.JSON); (str "Object", Tt.JSON); (str "Variant", Tt.Variant); (str "Dynamic", Tt.Dynamic)].

Fixpoint lookup_name {A} (s : text) (l : list (text * A)) : option A :=
  match l with
  | [] => None
  | (name, a) :: l' => if bool_decide (s = name) then Some a else lookup_name s l'
  end.
Definition from_base (base : text) : TypeTag := default Tt.Unknown (lookup_name base tag_names).

Inductive ParsedType := mk_parsed {
  raw : text;
  base : text;
  tag : TypeTag;
  nullable : bool;
  low_cardinality : bool;
  array_element : option ParsedType;
  map_types : option (ParsedType * ParsedType);
  precision : option Z;
  scale : option Z;
  timezone : option text;
  pt_fixed_size : option Z
}.

(** ** Cutting names *)

(** [extract_wrapper]. *)
Definition extract_wrapper (s wrapper : text) : option text :=
  s ← strip_prefix s wrapper; s ← strip_prefix s (str "("); strip_suffix s (str ")").

Fixpoint find_byte (c : byte) (s : text) : option nat :=
  match s with
  | [] => None
  | b :: s' => if beq c b then Some 0%nat else S <$> find_byte c s'
  end.
(** [s.rfind(c)]. *)
Definition rfind_byte (c : byte) (s : text) : option nat :=
  i ← find_byte c (rev s); Some (length s - 1 - i)%nat.

(** [extract_parens]. *)
Definition extract_parens (s : text) : option text :=
  start ← find_byte "("%byte s;
  fin ← rfind_byte ")"%byte s;
  if (start <? fin)%nat then Some (slice (S start) (fin - S start) s) else None.

(** [parse_decimal_base]. *)
Definition parse_decimal_base (s : text) : text :=
  if starts_with s (str "Decimal256") then str "Decimal256"
  else if starts_with s (str "Decimal128") then str "Decimal128"
  else if starts_with s (str "Decimal64") then str "Decimal64"
  else if starts_with s (str "Decimal32") then str "Decimal32"
  else str "Decimal".

(** The two-argument [split_type_args]: the depth may go negative. *)
Fixpoint pt_split_loop (depth : Z) (before s : text) : option (text * text) :=
  match s with
  | [] => None
  | c :: s' =>
      if beq c "("%byte then pt_split_loop (depth + 1) (before ++ [c]) s'
      else if beq c ")"%byte then pt_split_loop (depth - 1) (before ++ [c]) s'
      else if beq c ","%byte && (depth =? 0) then Some (trim before, trim s')
      else pt_split_loop depth (before ++ [c]) s'
  end.
Definition pt_split_type_args (s : text) : option (text * text) := pt_split_loop 0 [] s.

(** A trimmed zone without its single, then its double quotes. *)
Definition unquote (s : text) : text := trim_matches x22 (trim_matches "'"%byte (trim s)).

(** [s.trim().parse::<u8>().ok()]. *)
Definition parse_u8 (s : text) : option Z := parse_unsigned 8 (trim s).

(** ** The parser *)

(** The loop over [Nullable] and [LowCardinality]: what is left, and which were met.
    Every turn shortens the name. *)
Fixpoint unwrap_loop (fuel : nat) (s : text) (nul lc : bool) : text * bool * bool :=
  match fuel with
  | O => (s, nul, lc)
  | S fuel' =>
      if extract_wrapper s (str "Nullable") is Some inner then unwrap_loop fuel' inner true lc
      else if extract_wrapper s (str "LowCardinality") is Some inner then unwrap_loop fuel' inner nul true
      else (s, nul, lc)
  end.

(** [parse_inner] after the wrappers are off, over the parser of nested names. *)
Definition pt_arms (parse : text -> ParsedType) (rw : text) (nul lc : bool) (s : text) : ParsedType :=
  let simple b t := mk_parsed rw b t nul lc None None None None None None in
  let map_args := inner ← extract_wrapper s (str "Map"); pt_split_type_args inner in
  if extract_wrapper s (str "Array") is Some inner then
    mk_parsed rw (str "Array") Tt.Array nul lc (Some (parse inner)) None None None None None
  else if map_args is Some (key, value) then
    mk_parsed rw (str "Map") Tt.Map nul lc None (Some (parse key, parse value)) None None None None
  else if starts_with s (str "DateTime64") then
    if extract_wrapper s (str "DateTime64") is Some inner then
      let '(p, tz) := match split_once ","%byte inner with
                      | Some (p, tz) => (p, Some (unquote tz))
                      | None => (inner, None)
                      end in
      mk_parsed rw (str "DateTime64") Tt.DateTime64 nul lc None None (parse_u8 p) None tz None
    else simple (str "DateTime64") Tt.DateTime64
  else if extract_wrapper s (str "DateTime") is Some inner then
    mk_parsed rw (str "DateTime") Tt.DateTime nul lc None None None None (Some (unquote inner)) None
  else if extract_wrapper s (str "FixedString") is Some inner then
    mk_parsed rw (str "FixedString") Tt.FixedString nul lc None None None None None (parse_unsigned 64 (trim inner))
  else if starts_with s (str "Decimal") then
    let b := parse_decimal_base s in
    let '(p, sc) := match extract_parens s with
                    | None => (None, None)
                    | Some inner =>
                        match split_char ","%byte inner with
                        | [p; sc] => (parse_u8 p, parse_u8 sc)
                        | [sc] => (None, parse_u8 sc)
                        | _ => (None, None)
                        end
                    end in
    mk_parsed rw b (from_base b) nul lc None None p sc None None
  else if starts_with s (str "Enum8") then simple (str "Enum8") Tt.Enum8
  else if starts_with s (str "Enum16") then simple (str "Enum16") Tt.Enum16
  else if starts_with s (str "Variant(") then simple (str "Variant") Tt.Variant
  else if bool_decide (s = str "Dynamic") || starts_with s (str "Dynamic(") then simple (str "Dynamic") Tt.Dynamic
  else simple s (from_base s).

(** [parse] and [parse_inner]. A nested name is shorter than the name it is cut from, so the
    length and one is fuel enough ([pt_parse_eq]). *)
Fixpoint pt_parse_fuel (fuel : nat) (type_str : text) : ParsedType :=
  match fuel with
  | O => mk_parsed type_str [] Tt.Unknown false false None None None None None None
  | S fuel' =>
      let rw := trim type_str in
      let s := trim rw in
      let '(s, nul, lc) := unwrap_loop (S (length s)) s false false in
      pt_arms (pt_parse_fuel fuel') rw nul lc s
  end.
Definition pt_parse (type_str : text) : ParsedType := pt_parse_fuel (S (length type_str)) type_str.

(** ** Classification *)

(** [category]. *)
Definition categories : list (text * text) :=
  let cat c := map (fun n => (str n, str c)) in
  cat "String" ["String"; "FixedString"]%string ++
  cat "Int" ["Int8"; "Int16"; "Int32"; "Int64"; "Int128"; "Int256"]%string ++
  cat "UInt" ["UInt8"; "UInt16"; "UInt32"; "UInt64"; "UInt128"; "UInt256"]%string ++
  cat "Float" ["Float32"; "Float64"]%string ++
  cat "Decimal" ["Decimal"; "Decimal32"; "Decimal64"; "Decimal128"; "Decimal256"]%string ++
  cat "Bool" ["Bool"]%string ++ cat "Date" ["Date"; "Date32"]%string ++ cat "DateTime" ["DateTime"]%string ++
  cat "DateTime64" ["DateTime64"]%string ++ cat "UUID" ["UUID"]%string ++ cat "IPv4" ["IPv4"]%string ++
  cat "IPv6" ["IPv6"]%string ++ cat "Array" ["Array"]%string ++ cat "Map" ["Map"]%string ++
  cat "JSON" ["JSON"; "Object"]%string ++ cat "Variant" ["Variant"]%string ++ cat "Dynamic" ["Dynamic"]%string ++
  cat "Enum" ["Enum8"; "Enum16"]%string ++
  cat "Geo" ["Point"; "Ring"; "Polygon"; "MultiPolygon"; "LineString"; "MultiLineString"]%string.
Definition category (pt : ParsedType) : text := default (str "Unknown") (lookup_name (base pt) categories).

(** [is_numeric], [is_string], [is_datetime], [is_ip]. *)
Definition is_numeric (pt : ParsedType) : bool :=
  bool_decide (category pt ∈ [str "Int"; str "UInt"; str "Float"; str "Decimal"]).
Definition is_string (pt : ParsedType) : bool := bool_decide (category pt = str "String").
Definition is_datetime (pt : ParsedType) : bool :=
  bool_decide (category pt ∈ [str "Date"; str "DateTime"; str "DateTime64"]).
Definition is_ip (pt : ParsedType) : bool := bool_decide (category pt ∈ [str "IPv4"; str "IPv6"]).

(** [fixed_byte_size]. *)
Definition byte_sizes : list (text * Z) :=
  let size n := map (fun name => (str name, n)) in
  size 1 ["UInt8"; "Int8"; "Bool"; "Enum8"]%string ++
  size 2 ["UInt16"; "Int16"; "Enum16"; "Date"]%string ++
  size 4 ["UInt32"; "Int32"; "Date32"; "DateTime"; "Float32"; "Decimal32"; "IPv4"]%string ++
  size 8 ["UInt64"; "Int64"; "Float64"; "Decimal64"; "DateTime64"]%string ++
  size 16 ["Int128"; "UInt128"; "Decimal128"; "UUID"; "IPv6"]%string ++
  size 32 ["Int256"; "UInt256"; "Decimal256"]%string.
Definition fixed_byte_size (pt : ParsedType) : option Z :=
  if bool_decide (base pt = str "FixedString") then pt_fixed_size pt else lookup_name (base pt) byte_sizes.

(** ** Termination *)

Lemma unwrap_shorter fuel s nul lc s' nul' lc' :
  unwrap_loop fuel s nul lc = (s', nul', lc') -> (length s' <= length s)%nat.
Proof.
  revert s nul lc; induction fuel as [|fuel IH]; intros s nul lc Hr; cbn [unwrap_loop] in Hr; [by simplify_eq|].
  change extract_wrapper with strip_outer in Hr.
  destruct (strip_outer s (str "Nullable")) as [inner|] eqn:E1.
  { apply IH in Hr. apply strip_outer_shorter in E1. lia. }
  destruct (strip_outer s (str "LowCardinality")) as [inner|] eqn:E2; [|by simplify_eq].
  apply IH in Hr. apply strip_outer_shorter in E2. lia.
Qed.

(** The loop ends by itself. *)
Lemma unwrap_enough f1 f2 s nul lc :
  (length s < f1)%nat -> (length s < f2)%nat -> unwrap_loop f1 s nul lc = unwrap_loop f2 s nul lc.
Proof.
  revert f2 s nul lc; induction f1 as [|f1 IH]; intros [|f2] s nul lc H1 H2; try lia. cbn [unwrap_loop].
  change extract_wrapper with strip_outer.
  destruct (strip_outer s (str "Nullable")) as [inner|] eqn:E1; [apply strip_outer_shorter in E1; apply IH; lia|].
  destruct (strip_outer s (str "LowCardinality")) as [inner|] eqn:E2; [apply strip_outer_shorter in E2; apply IH; lia|done].
Qed.

Lemma pt_split_shorter depth before s a b :
  pt_split_loop depth before s = Some (a, b) -> (length a < length before + length s)%nat /\ (length b < length s)%nat.
Proof.
  revert depth before; induction s as [|c s IH]; intros depth before Hr; cbn [pt_split_loop] in Hr; [done|].
  assert (Hgo : forall d, pt_split_loop d (before ++ [c]) s = Some (a, b) ->
    (length a < length before + length (c :: s))%nat /\ (length b < length (c :: s))%nat).
  { intros d Hd. apply IH in Hd. rewrite length_app in Hd. simpl in *. lia. }
  destruct (beq c "("); [by eapply Hgo|]. destruct (beq c ")"); [by eapply Hgo|].
  destruct (beq c "," && (depth =? 0)); [|by eapply Hgo]. injection Hr as <- <-.
  pose proof (trim_length before). pose proof (trim_length s). simpl. lia.
Qed.

Lemma pt_arms_ext p q rw nul lc s :
  (forall a, (length a < length s)%nat -> p a = q a) -> pt_arms p rw nul lc s = pt_arms q rw nul lc s.
Proof.
  intros Hpq. unfold pt_arms. change extract_wrapper with strip_outer.
  destruct (strip_outer s (str "Array")) as [inner|] eqn:E1.
  { apply strip_outer_shorter in E1. by rewrite Hpq. }
  destruct (strip_outer s (str "Map")) as [inner|] eqn:E2; [|done]. apply strip_outer_shorter in E2.
  cbn [mbind option_bind]. destruct (pt_split_type_args inner) as [[k v]|] eqn:E3; [|done].
  apply pt_split_shorter in E3. simpl in E3. by rewrite !Hpq by lia.
Qed.

Lemma pt_parse_enough n m s :
  (length s < n)%nat -> (length s < m)%nat -> pt_parse_fuel n s = pt_parse_fuel m s.
Proof.
  revert m s; induction n as [|n IH]; intros [|m] s Hn Hm; try lia. cbn [pt_parse_fuel].
  destruct (unwrap_loop _ _ _ _) as [[s' nul] lc] eqn:Eu. apply unwrap_shorter in Eu.
  apply pt_arms_ext. intros a Ha. pose proof (trim_length s). pose proof (trim_length (trim s)). apply IH; lia.
Qed.

Lemma pt_parse_eq s :
  pt_parse s =
    (let rw := trim s in
     let '(s', nul, lc) := unwrap_loop (S (length (trim rw))) (trim rw) false false in
     pt_arms pt_parse rw nul lc s').
Proof.
  unfold pt_parse at 1. cbn [pt_parse_fuel]. cbv zeta.
  destruct (unwrap_loop _ _ _ _) as [[s' nul] lc] eqn:Eu. apply unwrap_shorter in Eu.
  apply pt_arms_ext. intros a Ha. pose proof (trim_length s). pose proof (trim_length (trim s)).
  apply pt_parse_enough; lia.
Qed.

(** ** The types of dynamic inserts *)

Definition dyn_scalar (t : ColumnType) : bool :=
  match t with
  | Ct.UInt8 | Ct.UInt16 | Ct.UInt32 | Ct.UInt64 | Ct.UInt128 | Ct.UInt256
  | Ct.Int8 | Ct.Int16 | Ct.Int32 | Ct.Int64 | Ct.Int128 | Ct.Int256 | Ct.Float32 | Ct.Float64
  | Ct.Decimal32 _ _ | Ct.Decimal64 _ _ | Ct.Decimal128 _ _ | Ct.Decimal256 _ _
  | Ct.String | Ct.FixedString _ | Ct.Uuid | Ct.IPv4 | Ct.IPv6
  | Ct.Date | Ct.Date32 | Ct.DateTime | Ct.DateTime64 _ _ | Ct.Enum8 | Ct.Enum16 => true
  | _ => false
  end.
Definition dyn_leaf (t : ColumnType) : bool := match t with Ct.NewJson => true | _ => dyn_scalar t end.
Definition dyn_key (t : ColumnType) : bool :=
  match t with
  | Ct.String | Ct.LowCardinality Ct.String => true
  | _ => false
  end.
Fixpoint dyn_type (t : ColumnType) : bool :=
  match t with
  | Ct.Nullable t => dyn_scalar t
  | Ct.LowCardinality (Ct.Nullable t) => dyn_scalar t
  | Ct.LowCardinality t => dyn_scalar t
  | Ct.Array t => dyn_type t
  | Ct.Map k v => dyn_key k && dyn_type v
  | Ct.NewJson => true
  | t => dyn_scalar t
  end.

(** What the name of a type is parsed to. *)
Definition leaf_of (t : ColumnType) : ParsedType :=
  let leaf b tg := mk_parsed (type_name t) (str b) tg false false None None None None None None in
  let decimal p s :=
    mk_parsed (type_name t) (str "Decimal") Tt.Unknown false false None None (Some p) (Some s) None None in
  match t with
  | Ct.UInt8 => leaf "UInt8" Tt.UInt8 | Ct.UInt16 => leaf "UInt16" Tt.UInt16 | Ct.UInt32 => leaf "UInt32" Tt.UInt32
  | Ct.UInt64 => leaf "UInt64" Tt.UInt64 | Ct.UInt128 => leaf "UInt128" Tt.UInt128
  | Ct.UInt256 => leaf "UInt256" Tt.UInt256
  | Ct.Int8 => leaf "Int8" Tt.Int8 | Ct.Int16 => leaf "Int16" Tt.Int16 | Ct.Int32 => leaf "Int32" Tt.Int32
  | Ct.Int64 => leaf "Int64" Tt.Int64 | Ct.Int128 => leaf "Int128" Tt.Int128 | Ct.Int256 => leaf "Int256" Tt.Int256
  | Ct.Float32 => leaf "Float32" Tt.Float32 | Ct.Float64 => leaf "Float64" Tt.Float64
  | Ct.Decimal32 p s | Ct.Decimal64 p s | Ct.Decimal128 p s | Ct.Decimal256 p s => decimal p s
  | Ct.String => leaf "String" Tt.String
  | Ct.FixedString n => mk_parsed (type_name t) (str "FixedString") Tt.FixedString false false None None None None None (Some n)
  | Ct.Uuid => leaf "UUID" Tt.UUID | Ct.IPv4 => leaf "IPv4" Tt.IPv4 | Ct.IPv6 => leaf "IPv6" Tt.IPv6
  | Ct.Date => leaf "Date" Tt.Date | Ct.Date32 => leaf "Date32" Tt.Date32 | Ct.DateTime => leaf "DateTime" Tt.DateTime
  | Ct.DateTime64 p tz =>
      mk_parsed (type_name t) (str "DateTime64") Tt.DateTime64 false false None None (Some p) None tz None
  | Ct.Enum8 => leaf "Enum8" Tt.Enum8 | Ct.Enum16 => leaf "Enum16" Tt.Enum16
  | Ct.NewJson => leaf "JSON" Tt.JSON
  | _ => leaf "" Tt.Unknown
  end%string.
Definition flagged (rw : text) (nul lc : bool) (p : ParsedType) : ParsedType :=
  mk_parsed rw (base p) (tag p) nul lc (array_element p) (map_types p) (precision p) (scale p) (timezone p)
    (pt_fixed_size p).
Fixpoint parsed_of (t : ColumnType) : ParsedType :=
  match t with
  | Ct.Nullable inner => flagged (type_name t) true false (leaf_of inner)
  | Ct.LowCardinality (Ct.Nullable inner) => flagged (type_name t) true true (leaf_of inner)
  | Ct.LowCardinality inner => flagged (type_name t) false true (leaf_of inner)
  | Ct.Array inner =>
      mk_parsed (type_name t) (str "Array") Tt.Array false false (Some (parsed_of inner)) None None None None None
  | Ct.Map k v =>
      mk_parsed (type_name t) (str "Map") Tt.Map false false None (Some (parsed_of k, parsed_of v)) None None None None
  | _ => leaf_of t
  end.

(** ** Parsing printed names *)

Lemma find_byte_app c s r : c ∉ s -> find_byte c (s ++ r) = (fun i => length s + i)%nat <$> find_byte c r.
Proof.
  induction s as [|b s IH]; intros Hc; cbn [app find_byte length]; [by destruct (find_byte c r)|].
  apply not_elem_of_cons in Hc as [Hb Hc]. destruct (beq c b) eqn:E; [by apply beq_eq in E|].
  rewrite IH by done. by destruct (find_byte c r).
Qed.

Lemma rfind_byte_last c s : rfind_byte c (s ++ [c]) = Some (length s).
Proof.
  unfold rfind_byte. rewrite rev_app_distr. cbn [rev app find_byte]. rewrite beq_refl. cbn [mbind option_bind].
  f_equal. rewrite length_app. simpl. lia.
Qed.

Lemma extract_parens_call w s : "("%byte ∉ w -> extract_parens ((w ++ str "(") ++ s ++ str ")") = Some s.
Proof.
  intros Hw. unfold extract_parens.
  assert (Hf : find_byte "("%byte ((w ++ str "(") ++ s ++ str ")") = Some (length w)).
  { rewrite <- app_assoc, find_byte_app by done. change (str "(" ++ ?r) with ("("%byte :: r). cbn [find_byte].
    rewrite beq_refl. cbn [fmap option_fmap option_map]. by rewrite Nat.add_0_r. }
  rewrite Hf, (app_assoc (w ++ str "(")), (rfind_byte_last ")"%byte). cbn [mbind option_bind].
  assert (Hl : length ((w ++ str "(") ++ s) = (S (length w) + length s)%nat) by (rewrite !length_app; simpl; lia).
  rewrite Hl, (proj2 (Nat.ltb_lt _ _)) by lia. f_equal. unfold slice.
  replace (S (length w)) with (length (w ++ str "(")) by (rewrite length_app; simpl; lia).
  rewrite <- app_assoc, drop_app_length, length_app. simpl.
  replace (length w + 1 + length s - (length w + 1))%nat with (length s) by lia. apply take_app_length.
Qed.

Lemma split_char_plain c s : c ∉ s -> split_char c s = [s].
Proof.
  induction s as [|b s IH]; intros Hc; [done|]. apply not_elem_of_cons in Hc as [Hb Hc].
  cbn [split_char]. destruct (beq c b) eqn:E; [by apply beq_eq in E|]. by rewrite IH.
Qed.

Lemma split_char_two c s r : c ∉ s -> c ∉ r -> split_char c (s ++ [c] ++ r) = [s; r].
Proof.
  intros Hs Hr. induction s as [|b s IH]; cbn [app split_char].
  - rewrite beq_refl. by rewrite split_char_plain.
  - apply not_elem_of_cons in Hs as [Hb Hs]. destruct (beq c b) eqn:E; [by apply beq_eq in E|].
    cbn [app] in IH. by rewrite IH.
Qed.

Lemma split_once_none c s : c ∉ s -> split_once c s = None.
Proof.
  induction s as [|b s IH]; intros Hc; [done|]. apply not_elem_of_cons in Hc as [Hb Hc].
  cbn [split_once]. destruct (beq c b) eqn:E; [by apply beq_eq in E|]. by rewrite IH.
Qed.

Lemma split_once_two c s r : c ∉ s -> split_once c (s ++ [c] ++ r) = Some (s, r).
Proof.
  intros Hs. induction s as [|b s IH]; cbn [app split_once]; [by rewrite beq_refl|].
  apply not_elem_of_cons in Hs as [Hb Hs]. destruct (beq c b) eqn:E; [by apply beq_eq in E|].
  cbn [app] in IH. by rewrite IH.
Qed.

Lemma parse_u8_show z : 0 <= z < 256 -> parse_u8 (show z) = Some z /\ parse_u8 (x20 :: show z) = Some z.
Proof.
  intros Hz. unfold parse_u8. rewrite trim_space, trim_tight by (apply show_tight; lia).
  by rewrite parse_unsigned_show.
Qed.

Lemma not_in_show c z : is_digit c = false -> 0 <= z -> c ∉ show z.
Proof. intros. by apply show_not_in. Qed.

Lemma decimal_arm parse rw nul lc p s :
  0 <= p < 256 -> 0 <= s < 256 ->
  pt_arms parse rw nul lc (str "Decimal(" ++ (show p ++ str ", " ++ show s) ++ str ")") =
    mk_parsed rw (str "Decimal") Tt.Unknown nul lc None None (Some p) (Some s) None None.
Proof.
  intros Hp Hs. unfold pt_arms. change extract_wrapper with strip_outer.
  set (nm := str "Decimal(" ++ _).
  assert (Hp' : extract_parens nm = Some (show p ++ str ", " ++ show s)).
  { apply (extract_parens_call (str "Decimal")). by apply (bool_decide_eq_true_1 _). }
  assert (Hsp : split_char ","%byte (show p ++ str ", " ++ show s) = [show p; x20 :: show s]).
  { apply (split_char_two ","%byte (show p) (x20 :: show s)); [by apply not_in_show; [|lia]|].
    apply not_elem_of_cons. split; [done|]. by apply not_in_show; [|lia]. }
  rewrite Hp', Hsp, (proj1 (parse_u8_show p Hp)), (proj2 (parse_u8_show s Hs)). subst nm.
  rewrite !strip_outer_none by reflexivity. reflexivity.
Qed.

Lemma fixed_arm parse rw nul lc n :
  0 <= n < 2 ^ 64 ->
  pt_arms parse rw nul lc (str "FixedString(" ++ show n ++ str ")") =
    mk_parsed rw (str "FixedString") Tt.FixedString nul lc None None None None None (Some n).
Proof.
  intros Hn. unfold pt_arms. change extract_wrapper with strip_outer.
  change (str "FixedString(") with (str "FixedString" ++ str "("). rewrite (strip_outer_call (str "FixedString") (show n)).
  rewrite trim_tight, parse_unsigned_show by (done || apply show_tight; lia).
  rewrite !strip_outer_none by reflexivity. reflexivity.
Qed.

Lemma unquote_zone z :
  z <> [] -> Forall (fun b => zone_byte b = true) z -> unquote (x20 :: str "'" ++ z ++ str "'") = trim_matches x22 z.
Proof.
  intros Hne Hz. unfold unquote. rewrite trim_space, trim_tight by (apply tight_wrap; apply tightb_tight; reflexivity).
  change (str "'" ++ z ++ str "'") with (["'"%byte] ++ z ++ ["'"%byte]). rewrite trim_matches_quoted; [done|].
  eapply Forall_impl; [exact Hz|]. intros b. unfold zone_byte. rewrite !andb_true_iff, negb_true_iff.
  intros [_ Hb]. destruct (beq "'" b) eqn:E; [|done]. apply beq_eq in E; subst. discriminate.
Qed.

(** A zone name without double quotes either. *)
Definition zone_plain (z : text) : Prop := Forall (fun b => beq x22 b = false) z.

Lemma trim_matches_none c z : Forall (fun b => beq c b = false) z -> trim_matches c z = z.
Proof.
  intros Hz. unfold trim_matches. rewrite (drop_while_none _ z Hz).
  rewrite (drop_while_none _ (rev z)) by (by apply List.Forall_rev). apply rev_involutive.
Qed.

Lemma datetime64_arm parse rw nul lc p tz :
  wf_type (Ct.DateTime64 p tz) -> match tz with Some z => zone_plain z | None => True end ->
  pt_arms parse rw nul lc (type_name (Ct.DateTime64 p tz)) =
    mk_parsed rw (str "DateTime64") Tt.DateTime64 nul lc None None (Some p) None tz None.
Proof.
  intros [Hp Hz] Hq. unfold pt_arms. change extract_wrapper with strip_outer.
  destruct tz as [z|]; cbn [type_name]; change (str "DateTime64(") with (str "DateTime64" ++ str "(").
  - destruct Hz as [Hne Hz]. rewrite (strip_outer_call (str "DateTime64") (show p ++ str ", " ++ _)).
    assert (Hsp : split_once ","%byte (show p ++ str ", " ++ (str "'" ++ z ++ str "'")) =
      Some (show p, x20 :: str "'" ++ z ++ str "'")).
    { apply (split_once_two ","%byte (show p) (x20 :: _)). by apply not_in_show; [|lia]. }
    rewrite Hsp, (proj1 (parse_u8_show p Hp)), unquote_zone, trim_matches_none by done.
    rewrite !strip_outer_none by reflexivity. reflexivity.
  - rewrite (strip_outer_call (str "DateTime64") (show p)).
    rewrite (split_once_none ","%byte (show p)) by (by apply not_in_show; [|lia]).
    rewrite (proj1 (parse_u8_show p Hp)). rewrite !strip_outer_none by reflexivity. reflexivity.
Qed.

(** A type whose zone, where it has one, survives both quote marks. *)
Fixpoint plain_zones (t : ColumnType) : Prop :=
  match t with
  | Ct.DateTime64 _ (Some z) => zone_plain z
  | Ct.Nullable t | Ct.LowCardinality t | Ct.Array t => plain_zones t
  | Ct.Map k v => plain_zones k /\ plain_zones v
  | _ => True
  end.

Lemma leaf_arms parse rw nul lc t :
  dyn_leaf t = true -> wf_type t -> plain_zones t ->
  pt_arms parse rw nul lc (type_name t) = flagged rw nul lc (leaf_of t).
Proof.
  intros Ht Hwf Hz; destruct t; try discriminate Ht; try reflexivity.
  1-4: cbn [type_name]; rewrite decimal_arm by (simpl in Hwf; lia); reflexivity.
  - cbn [type_name]. by rewrite fixed_arm.
  - rewrite datetime64_arm by done. reflexivity.
Qed.

Lemma unwrap_bare fuel s nul lc :
  strip_outer s (str "Nullable") = None -> strip_outer s (str "LowCardinality") = None ->
  unwrap_loop (S fuel) s nul lc = (s, nul, lc).
Proof. intros H1 H2. cbn [unwrap_loop]. change extract_wrapper with strip_outer. by rewrite H1, H2. Qed.

Lemma unwrap_nullable fuel s nul lc :
  unwrap_loop (S fuel) ((str "Nullable" ++ str "(") ++ s ++ str ")") nul lc = unwrap_loop fuel s true lc.
Proof. cbn [unwrap_loop]. change extract_wrapper with strip_outer. by rewrite (strip_outer_call (str "Nullable") s). Qed.

Lemma unwrap_low_cardinality fuel s nul lc :
  unwrap_loop (S fuel) ((str "LowCardinality" ++ str "(") ++ s ++ str ")") nul lc = unwrap_loop fuel s nul true.
Proof.
  cbn [unwrap_loop]. change extract_wrapper with strip_outer.
  rewrite strip_outer_none by reflexivity. by rewrite (strip_outer_call (str "LowCardinality") s).
Qed.

(** The name of a scalar carries no wrapper. *)
Lemma scalar_bare fuel t nul lc :
  dyn_leaf t = true ->
  unwrap_loop (S fuel) (type_name t) nul lc = (type_name t, nul, lc).
Proof.
  intros Ht. assert (Hn : forall w, w = str "Nullable" \/ w = str "LowCardinality" -> strip_outer (type_name t) w = None).
  { intros w [-> | ->]; apply strip_outer_none; destruct t as [];
      try discriminate Ht; repeat match goal with o : option _ |- _ => destruct o end; reflexivity. }
  apply unwrap_bare; apply Hn; auto.
Qed.

Definition wrapped (t : ColumnType) : bool :=
  match t with Ct.Array _ | Ct.Map _ _ | Ct.Nullable _ | Ct.LowCardinality _ => true | _ => false end.

(** What the loop leaves of a printed name, and the marks it keeps. *)
Definition unwrapped (t : ColumnType) : ColumnType * bool * bool :=
  match t with
  | Ct.Nullable t => (t, true, false)
  | Ct.LowCardinality (Ct.Nullable t) => (t, true, true)
  | Ct.LowCardinality t => (t, false, true)
  | t => (t, false, false)
  end.

Lemma wrapper_name t :
  type_name (Ct.Nullable t) = (str "Nullable" ++ str "(") ++ type_name t ++ str ")" /\
  type_name (Ct.LowCardinality t) = (str "LowCardinality" ++ str "(") ++ type_name t ++ str ")".
Proof. done. Qed.

Lemma unwrap_printed fuel t :
  dyn_type t = true ->
  unwrap_loop (3 + fuel) (type_name t) false false =
    (let '(u, nul, lc) := unwrapped t in (type_name u, nul, lc)) /\
  (let '(u, _, _) := unwrapped t in
   dyn_leaf u = true \/ (exists e, u = t /\ t = Ct.Array e) \/ exists k v, u = t /\ t = Ct.Map k v).
Proof.
  intros Ht. destruct t as [| | | | | | | | | | | | | | | | | | | | | | | | | | | | | |t|t| | | |t| |k v| | | | | ];
    try discriminate Ht; cbn [unwrapped]; try (split; [by apply scalar_bare | by left]).
  - split; [|left; by destruct t]. rewrite (proj1 (wrapper_name t)).
    change (3 + fuel)%nat with (S (S (S fuel))). rewrite unwrap_nullable. apply scalar_bare. by destruct t.
  - assert (Hs : dyn_scalar t = true -> unwrap_loop (3 + fuel) (type_name (Ct.LowCardinality t)) false false =
      (type_name t, false, true)).
    { intros H. rewrite (proj2 (wrapper_name t)). change (3 + fuel)%nat with (S (S (S fuel))).
      rewrite unwrap_low_cardinality. apply scalar_bare. by destruct t. }
    destruct t as [| | | | | | | | | | | | | | | | | | | | | | | | | | | | | |t|t| | | |t| |k v| | | | | ];
      try discriminate Ht; try (split; [by apply Hs | by left]).
    split; [|left; by destruct t]. rewrite (proj2 (wrapper_name _)), (proj1 (wrapper_name t)).
    change (3 + fuel)%nat with (S (S (S fuel))). rewrite unwrap_low_cardinality, unwrap_nullable. apply scalar_bare.
    by destruct t.
  - split; [|right; left; by eexists]. change (3 + fuel)%nat with (S (2 + fuel)). by apply unwrap_bare.
  - split; [|right; right; by do 2 eexists]. change (3 + fuel)%nat with (S (2 + fuel)). by apply unwrap_bare.
Qed.

Lemma array_arm parse rw nul lc t :
  pt_arms parse rw nul lc (type_name (Ct.Array t)) =
    mk_parsed rw (str "Array") Tt.Array nul lc (Some (parse (type_name t))) None None None None None.
Proof.
  unfold pt_arms. change extract_wrapper with strip_outer.
  change (type_name (Ct.Array t)) with ((str "Array" ++ str "(") ++ type_name t ++ str ")").
  by rewrite (strip_outer_call (str "Array") (type_name t)).
Qed.

Lemma map_arm parse rw nul lc k v :
  dyn_key k = true -> wf_type v ->
  pt_arms parse rw nul lc (type_name (Ct.Map k v)) =
    mk_parsed rw (str "Map") Tt.Map nul lc None (Some (parse (type_name k), parse (type_name v))) None None None None.
Proof.
  intros Hk Hv. unfold pt_arms. change extract_wrapper with strip_outer.
  change (type_name (Ct.Map k v)) with ((str "Map" ++ str "(") ++ (type_name k ++ str ", " ++ type_name v) ++ str ")").
  rewrite strip_outer_none by reflexivity. rewrite (strip_outer_call (str "Map") (type_name k ++ _)).
  assert (Hs : pt_split_type_args (type_name k ++ str ", " ++ type_name v) = Some (type_name k, type_name v)).
  { assert (Htv : trim (x20 :: type_name v) = type_name v) by (rewrite trim_space; by apply trim_tight, type_name_tight).
    rewrite <- Htv at 2. destruct k as []; try discriminate Hk; [done|]. destruct k as []; by try discriminate Hk. }
  cbn [mbind option_bind]. by rewrite Hs.
Qed.

Lemma trimmed_parse t :
  wf_type t ->
  pt_parse (type_name t) =
    (let '(s, nul, lc) := unwrap_loop (S (length (type_name t))) (type_name t) false false in
     pt_arms pt_parse (type_name t) nul lc s).
Proof. intros Hwf. rewrite pt_parse_eq. cbv zeta. by rewrite !(trim_tight (type_name t)) by by apply type_name_tight. Qed.

Lemma name_length t : dyn_type t = true -> wf_type t -> (2 <= length (type_name t))%nat.
Proof.
  intros Ht Hwf. destruct t as []; try discriminate Ht; repeat match goal with o : option _ |- _ => destruct o end;
    cbn [type_name]; rewrite ?length_app; simpl; lia.
Qed.

Lemma leaf_unwrapped t :
  dyn_type t = true -> wrapped t = false ->
  unwrapped t = (t, false, false) /\ dyn_leaf t = true /\ parsed_of t = leaf_of t /\ raw (leaf_of t) = type_name t.
Proof. intros Ht Hw. by destruct t as []. Qed.

Lemma flagged_leaf t : flagged (type_name t) false false (leaf_of t) = leaf_of t.
Proof. by destruct t as []. Qed.

Lemma printed_parse t :
  wf_type t -> dyn_type t = true ->
  pt_parse (type_name t) =
    (let '(u, nul, lc) := unwrapped t in pt_arms pt_parse (type_name t) nul lc (type_name u)).
Proof.
  intros Hwf Ht. rewrite trimmed_parse by done. pose proof (name_length t Ht Hwf) as Hlen.
  replace (S (length (type_name t))) with (3 + (length (type_name t) - 2))%nat by lia.
  rewrite (proj1 (unwrap_printed _ t Ht)). by destruct (unwrapped t) as [[u nul] lc].
Qed.

Lemma pt_parse_printed t :
  wf_type t -> plain_zones t -> dyn_type t = true -> pt_parse (type_name t) = parsed_of t.
Proof.
  induction t as [t Hl|t IH|t IH|t IH|t IH|ts IH|k v IHk IHv|ts IH] using Ct.column_ind; intros Hwf Hz Ht;
    rewrite printed_parse by done; try discriminate Ht.
  - assert (Hw : wrapped t = false) by (destruct t as []; first [reflexivity | exfalso; exact Hl]).
    destruct (leaf_unwrapped t Ht Hw) as (-> & Hd & -> & _). rewrite leaf_arms by done. apply flagged_leaf.
  - apply leaf_arms; [|done..]. by destruct t as [].
  - destruct t as []; try discriminate Ht; (apply leaf_arms; [first [done | by destruct t as []] | done..]).
  - cbn [unwrapped]. rewrite array_arm. by rewrite IH.
  - cbn [unwrapped]. simpl in Ht. apply andb_true_iff in Ht as [Hk Hv]. destruct Hwf as [Hwk Hwv], Hz as [Hzk Hzv].
    rewrite map_arm by done. rewrite IHv by done. rewrite IHk; [done..|]. destruct k as []; try discriminate Hk; [done|].
    by destruct k as [].
Qed.

(** ** Properties *)

(** C29: the dynamic parser agrees with the block decoder's: the name of every type dynamic rows
    can carry is parsed into the same base type, nesting, precisions, sizes and zone. *)
Theorem parsed_types_agree t :
  wf_type t -> plain_zones t -> dyn_type t = true -> pt_parse (type_name t) = parsed_of t.
Proof. apply pt_parse_printed. Qed.

Lemma parsed_types_agree_witness :
  let t := Ct.Map (Ct.LowCardinality Ct.String) (Ct.Array (Ct.LowCardinality (Ct.Nullable (Ct.DateTime64 3 (Some (str "UTC")))))) in
  wf_type t /\ plain_zones t /\ dyn_type t = true /\ pt_parse (type_name t) = parsed_of t.
Proof.
  intros t. assert (Hwf : wf_type t) by (repeat split; try done; repeat (apply List.Forall_cons; [done|]); done).
  assert (Hz : plain_zones t) by (split; [done|]; repeat (apply List.Forall_cons; [done|]); done).
  split_and!; [exact Hwf | exact Hz | reflexivity | exact (@parsed_types_agree t Hwf Hz eq_refl)].
Defined.

(** the parser of the dynamic inserts ends on every name: its result satisfies the source's
    recursion, where every nested call is on a shorter name. *)
Theorem pt_parse_terminates s :
  pt_parse s =
    (let rw := trim s in
     let '(s', nul, lc) := unwrap_loop (S (length (trim rw))) (trim rw) false false in
     pt_arms pt_parse rw nul lc s') /\
  forall fuel, (length s < fuel)%nat -> pt_parse_fuel fuel s = pt_parse s.
Proof. split; [apply pt_parse_eq|]. intros fuel Hf. apply pt_parse_enough; lia. Qed.
