(* ===== verification/Ext.v ===== *)
(** * Server exceptions in HTTP bodies

    Models [src/ext.rs]: upstream flattens a rejection into text, and [ServerException::parse]
    reads its code, name, message and stack trace back out; [ClientExt] puts statement-level controls on upstream's
    client, which is a class. Property: the body a server prints is read back. *)

From S2P Require Import Prelude Text Errors ColTypes ParsedTypes.

(** ** Definitions *)

Record Exc := mk_exc {
  exc_code : Z;
  exc_name : option text;
  exc_message : text;
  exc_stack_trace : option text
}.

(** [s.rfind(p)], [s.split_once(p)], [s.trim_end_matches(cs)]. *)
Fixpoint rfind_sub (p s : text) : option nat :=
  match s with
  | [] => if starts_with [] p then Some 0%nat else None
  | _ :: r =>
      match rfind_sub p r with
      | Some i => Some (S i)
      | None => if starts_with s p then Some 0%nat else None
      end
  end.
Definition split_once_at (p s : text) : option (text * text) :=
  (fun i => (take i s, drop (i + length p) s)) <$> find_sub p s.
Definition one_of (cs : list byte) (b : byte) : bool := existsb (beq b) cs.
Definition trim_end_of (cs : list byte) (s : text) : text := rev (drop_while (one_of cs) (rev s)).

(** The body past the marker, without the version. *)
Definition after_marker (body : text) : text :=
  match split_once_at (str "Exception: ") body with
  | Some (_, rest) => trim rest
  | None => trim body
  end.
Definition without_version (s : text) : text :=
  match rfind_sub (str "(version ") s with
  | Some i => trim_end_of [" "%byte; "."%byte; ","%byte] (take i s)
  | None => s
  end.

(** The name tag: capitals, digits and underscores in a last pair of parentheses. *)
Definition shouty (b : byte) : bool := ((65 <=? u8 b) && (u8 b <=? 90)) || is_digit b || beq b "_"%byte.
Definition split_name (s : text) : text * option text :=
  match (inner ← strip_suffix s (str ")"); rfind_byte "("%byte inner) with
  | Some open =>
      let candidate := slice (S open) (length s - 1 - S open) s in
      if negb (bool_decide (candidate = [])) && forallb shouty candidate
      then (trim_end_of [":"%byte; " "%byte; "."%byte; ","%byte] (take open s), Some candidate)
      else (s, None)
  | None => (s, None)
  end.
Definition split_trace (s : text) : text * option text :=
  match find_sub (str "Stack trace:") s with
  | Some i => (trim_end (take i s), Some (trim (drop (i + length (str "Stack trace:")) s)))
  | None => (trim s, None)
  end.

(** The code after [Code: ], up to the first dot. *)
Definition leading_code (body : text) : option Z :=
  rest ← strip_prefix body (str "Code: ");
  '(code, _) ← split_once "."%byte rest;
  parse_signed 32 (trim code).

(** [ServerException::parse] of the body of a [BadResponse], and of an error. *)
Definition parse_body (body : text) : option Exc :=
  match parse_signed 32 (trim body) with
  | Some code => Some (mk_exc code None [] None)
  | None =>
      code ← leading_code body;
      let '(rest, name) := split_name (without_version (after_marker body)) in
      let '(message, stack_trace) := split_trace rest in
      if bool_decide (message = []) then None else Some (mk_exc code name message stack_trace)
  end.
Definition parse_exception (error : UpstreamError) : option Exc :=
  match error with
  | UpBadResponse body => parse_body body
  | _ => None
  end.

(** [is_retriable]. *)
Definition exc_is_retriable (e : Exc) : bool := is_retriable_code (exc_code e).

(** The body of a server: the shapes of old and new versions. *)
Definition exception_body (code : Z) (kind message : text) (trace name : option text) (version : text) : text :=
  str "Code: " ++ show code ++ str ". " ++ kind ++ str "Exception: " ++ message ++
  match trace with Some t => str " Stack trace:" ++ t | None => [] end ++
  match name with Some n => str " (" ++ n ++ str ")" | None => [] end ++
  str " (version " ++ version ++ str ")".

Example modern :
  parse_body (exception_body 469 (str "DB::") (str "Constraint `x_lt_10` for table t is violated at row 5000.") None
    (Some (str "VIOLATED_CONSTRAINT")) (str "26.2.4.23 (official build)")) =
  Some (mk_exc 469 (Some (str "VIOLATED_CONSTRAINT")) (str "Constraint `x_lt_10` for table t is violated at row 5000") None).
Proof. reflexivity. Qed.
Example socket_pair :
  parse_body (str "Code: 210. DB::NetException: Broken pipe (127.0.0.1:9000 -> 127.0.0.1:54646). (NETWORK_ERROR) (version 23.8.8.20)") =
  Some (mk_exc 210 (Some (str "NETWORK_ERROR")) (str "Broken pipe (127.0.0.1:9000 -> 127.0.0.1:54646)") None).
Proof. reflexivity. Qed.
Example bare : parse_body (str " 202 ") = Some (mk_exc 202 None [] None).
Proof. reflexivity. Qed.
Example declined : map parse_body [str "404 Not Found"; []; str "DB::Exception: oops"; str "Code: 60. DB::Exception: (UNKNOWN_TABLE)"] =
  [None; None; None; None].
Proof. reflexivity. Qed.

(** ** Statement-level controls *)

(** Upstream's client and query: their builders, and what executing a statement comes to. *)
Class Upstream := {
  UpClient : Type;
  UpQuery : Type;
  up_query : text -> UpClient -> UpQuery;
  up_bind : text -> UpQuery -> UpQuery;
  up_execute : UpQuery -> result UpstreamError unit;
  up_with_setting : text -> text -> UpClient -> UpClient;
  up_setting : UpClient -> text -> option text
}.

(** Documented: a setting is a key of a map, the last value given is the one sent. *)
Definition settings_are_a_map `{Upstream} : Prop :=
  forall c key value key', up_setting (up_with_setting key value c) key' =
    if bool_decide (key = key') then Some value else up_setting c key'.

Section client_ext.
Context `{Upstream}.

(** [ClientExt for Client]. *)
Definition up_ping (c : UpClient) : result UpstreamError unit := up_execute (up_query (str "SELECT 1") c).
Definition kill_query (query_id : text) (c : UpClient) : result UpstreamError unit :=
  up_execute (up_bind query_id (up_query (str "KILL QUERY WHERE query_id = ? SYNC") c)).
Definition ext_with_query_id (query_id : text) (c : UpClient) : UpClient := up_with_setting (str "query_id") query_id c.
Definition with_session_id (session_id : text) (c : UpClient) : UpClient :=
  up_with_setting (str "session_id") session_id c.
Definition with_role (role : text) (c : UpClient) : UpClient := up_with_setting (str "role") role c.

(** The three controls do not disturb one another, and each can be set again. *)
Lemma controls_are_independent query_id session_id role c :
  settings_are_a_map ->
  let c := ext_with_query_id query_id (with_session_id session_id (with_role role c)) in
  up_setting c (str "query_id") = Some query_id /\ up_setting c (str "session_id") = Some session_id /\
  up_setting c (str "role") = Some role.
Proof.
  intros Hmap. unfold ext_with_query_id, with_session_id, with_role. cbv zeta. rewrite !Hmap. split_and!; reflexivity.
Qed.

End client_ext.

(** ** Lemmas *)

(** A text without the first byte of a pattern does not hide it. *)
Lemma find_sub_first c p s r : c ∉ s -> find_sub (c :: p) (s ++ (c :: p) ++ r) = Some (length s).
Proof.
  intros Hc. induction s as [|b s IH].
  - cbn [app find_sub length]. unfold starts_with. change (c :: p ++ r) with ((c :: p) ++ r). by rewrite strip_prefix_app.
  - apply not_elem_of_cons in Hc as [Hb Hc]. cbn [app find_sub length]. unfold starts_with at 1. cbn [strip_prefix].
    assert (E : beq c b = false) by (destruct (beq c b) eqn:E; [by apply beq_eq in E|done]).
    rewrite E. cbn [app] in IH. by rewrite IH.
Qed.

Lemma rfind_sub_skip c p s r : c ∉ s -> rfind_sub (c :: p) r = None -> rfind_sub (c :: p) (s ++ r) = None.
Proof.
  intros Hc Hr. induction s as [|b s IH]; [done|]. apply not_elem_of_cons in Hc as [Hb Hc].
  cbn [app rfind_sub]. rewrite IH by done. unfold starts_with. cbn [strip_prefix].
  assert (E : beq c b = false) by (destruct (beq c b) eqn:E; [by apply beq_eq in E|done]). by rewrite E.
Qed.

(** The last occurrence. *)
Lemma rfind_sub_last c p s r :
  c ∉ p -> rfind_sub (c :: p) r = None -> rfind_sub (c :: p) (s ++ (c :: p) ++ r) = Some (length s).
Proof.
  intros Hp Hr. induction s as [|b s IH].
  - cbn [app rfind_sub length]. rewrite (rfind_sub_skip c p p r) by done. unfold starts_with.
    change (c :: p ++ r) with ((c :: p) ++ r). by rewrite strip_prefix_app.
  - cbn [app rfind_sub length] in *. by rewrite IH.
Qed.

Lemma trim_end_of_keeps cs s b : one_of cs b = false -> trim_end_of cs (s ++ [b]) = s ++ [b].
Proof.
  intros Hb. unfold trim_end_of. rewrite rev_app_distr. cbn [rev app drop_while]. rewrite Hb.
  cbn [rev]. by rewrite rev_involutive.
Qed.

Lemma trim_end_of_drops cs s b : one_of cs b = true -> trim_end_of cs (s ++ [b]) = trim_end_of cs s.
Proof. intros Hb. unfold trim_end_of. rewrite rev_app_distr. cbn [rev app drop_while]. by rewrite Hb. Qed.

Lemma split_name_tag s n :
  n <> [] -> forallb shouty n = true ->
  split_name (s ++ str "(" ++ n ++ str ")") = (trim_end_of [":"%byte; " "%byte; "."%byte; ","%byte] s, Some n).
Proof.
  intros Hn Hs. unfold split_name. rewrite !app_assoc, strip_suffix_app. cbn [mbind option_bind].
  assert (Hp : "("%byte ∉ n).
  { intros Hin. rewrite List.forallb_forall in Hs. by apply list_elem_of_In, Hs in Hin. }
  assert (Hr : rfind_byte "("%byte ((s ++ str "(") ++ n) = Some (length s)).
  { unfold rfind_byte. rewrite !rev_app_distr. change (rev (str "(")) with ["("%byte].
    rewrite find_byte_app by (rewrite list_elem_of_In, <- List.in_rev, <- list_elem_of_In; done).
    cbn [app find_byte]. rewrite beq_refl. cbn [fmap option_fmap option_map mbind option_bind]. f_equal.
    rewrite !length_app, length_rev. simpl. lia. }
  rewrite Hr.
  assert (Hc : slice (S (length s)) (length (((s ++ str "(") ++ n) ++ str ")") - 1 - S (length s)) (((s ++ str "(") ++ n) ++ str ")") = n).
  { unfold slice. replace (length (((s ++ str "(") ++ n) ++ str ")") - 1 - S (length s))%nat with (length n)
      by (rewrite !length_app; simpl; lia).
    replace (S (length s)) with (length (s ++ str "(")) by (rewrite length_app; simpl; lia).
    by rewrite <- (app_assoc (s ++ str "(")), drop_app_length, take_app_length. }
  rewrite Hc, Hs, bool_decide_eq_false_2 by done. cbn [negb andb].
  by rewrite <- !app_assoc, take_app_length.
Qed.

(** The kinds of exception a server prints. *)
Definition kinds : list text := [str "DB::"; str "DB::Net"].
Definition closing : list byte := [":"%byte; " "%byte; "."%byte; ","%byte].

Lemma parse_signed_show bits z : 0 <= z < 2 ^ (bits - 1) -> parse_signed bits (show z) = Some z.
Proof.
  intros Hz. destruct (show_digits z (proj1 Hz)) as (Hne & Hall & _). pose proof (parse_nat_digits_show z (proj1 Hz)) as Hp.
  unfold parse_signed. destruct (show z) as [|b s]; [done|]. apply List.Forall_cons_iff in Hall as [Hb _].
  assert (Hnot : forall c, is_digit c = false -> beq b c = false).
  { intros c Hc. destruct (beq b c) eqn:E; [|done]. apply beq_eq in E; subst. congruence. }
  rewrite !Hnot, Hp by done. cbn [mbind option_bind]. by rewrite (proj2 (Z.ltb_lt _ _)) by lia.
Qed.

(** The code, and the text past the marker. *)
Lemma body_code code kind rest :
  0 <= code < 2 ^ 31 ->
  leading_code (str "Code: " ++ show code ++ str ". " ++ kind ++ str "Exception: " ++ rest) = Some code.
Proof.
  intros Hc. unfold leading_code. rewrite strip_prefix_app. cbn [mbind option_bind].
  assert (Hdot : "."%byte ∉ show code) by (apply show_not_in; [lia|done]).
  change (str ". ") with (["."%byte] ++ str " "). rewrite <- (app_assoc ["."%byte]).
  rewrite (split_once_two "."%byte (show code)) by done. cbn [mbind option_bind].
  rewrite trim_tight by (apply show_tight; lia). by apply parse_signed_show.
Qed.

Lemma body_marker code kind rest :
  0 <= code -> kind ∈ kinds -> tight rest ->
  after_marker (str "Code: " ++ show code ++ str ". " ++ kind ++ str "Exception: " ++ rest) = rest.
Proof.
  intros Hc Hk Hr. unfold after_marker, split_once_at.
  set (front := str "Code: " ++ show code ++ str ". " ++ kind).
  assert (Hf : "E"%byte ∉ front).
  { subst front. rewrite !not_elem_of_app. split_and!; try (by apply (bool_decide_eq_true_1 _)).
    - apply show_not_in; [lia|done].
    - unfold kinds in Hk. repeat (apply elem_of_cons in Hk as [-> | Hk]); [..|by apply not_elem_of_nil in Hk];
        by apply (bool_decide_eq_true_1 _). }
  change (str "Exception: ") with ("E"%byte :: str "xception: ").
  replace (str "Code: " ++ show code ++ str ". " ++ kind ++ ("E"%byte :: str "xception: ") ++ rest)
    with (front ++ ("E"%byte :: str "xception: ") ++ rest) by (subst front; by rewrite <- !app_assoc).
  rewrite find_sub_first by done. cbn [fmap option_fmap option_map].
  rewrite app_assoc, <- length_app, drop_app_length. by apply trim_tight.
Qed.

Lemma body_version s version :
  rfind_sub (str "(version ") (version ++ str ")") = None ->
  without_version ((s ++ str " ") ++ str "(version " ++ version ++ str ")") = trim_end_of [" "%byte; "."%byte; ","%byte] s.
Proof.
  intros Hv. unfold without_version. change (str "(version ") with ("("%byte :: str "version ").
  rewrite rfind_sub_last; [|by apply (bool_decide_eq_true_1 _)|done].
  rewrite take_app_length. by rewrite (trim_end_of_drops _ s " "%byte).
Qed.

(** What a server prints: a code of an [i32], a class, a message without a stack trace, the name tag
    and the version. *)
Record printed (code : Z) (kind message name version : text) : Prop := {
  printed_code : 0 <= code < 2 ^ 31;
  printed_kind : kind ∈ kinds;
  printed_message : tight message;
  printed_version : tight version;
  printed_once : rfind_sub (str "(version ") (version ++ str ")") = None;
  printed_name : name <> [];
  printed_shouty : forallb shouty name = true;
  printed_no_trace : find_sub (str "Stack trace:") (trim_end_of closing message) = None;
  printed_says : tight (trim_end_of closing message)
}.

Lemma parse_printed code kind message name version : printed code kind message name version ->
  parse_body (exception_body code kind message None (Some name) version) =
    Some (mk_exc code (Some name) (trim_end_of closing message) None).
Proof.
  intros [Hc Hk Hm Hv Hvf Hn Hs Ht Htight]. unfold exception_body. cbn [app].
  set (rest := message ++ (str " (" ++ name ++ str ")") ++ str " (version " ++ version ++ str ")").
  assert (Hrest : tight rest).
  { subst rest. rewrite (app_assoc (str " (version ")), (app_assoc (str " (" ++ _)).
    apply tight_wrap; [done|]. by apply tightb_tight. }
  assert (Hbody : parse_signed 32 (trim (str "Code: " ++ show code ++ str ". " ++ kind ++ str "Exception: " ++ rest)) = None).
  { rewrite trim_tight; [done|]. rewrite (app_assoc (show code)), (app_assoc _ kind), (app_assoc _ (str "Exception: ")).
    change (str "Code: ") with (str "Code:" ++ str " "). rewrite <- (app_assoc (str "Code:")), (app_assoc (str " ")).
    apply tight_wrap; [by apply tightb_tight|done]. }
  unfold parse_body. rewrite Hbody, body_code, body_marker by (done || lia). cbn [mbind option_bind].
  assert (Hsplit : rest = ((message ++ str " " ++ str "(" ++ name ++ str ")") ++ str " ") ++ str "(version " ++ version ++ str ")").
  { subst rest. change (str " (") with (str " " ++ str "("). change (str " (version ") with (str " " ++ str "(version ").
    by rewrite <- !app_assoc. }
  rewrite Hsplit, body_version by done.
  assert (Hkeep : trim_end_of [" "%byte; "."%byte; ","%byte] (message ++ str " " ++ str "(" ++ name ++ str ")") =
    (message ++ str " ") ++ str "(" ++ name ++ str ")").
  { rewrite !app_assoc. exact (trim_end_of_keeps [" "%byte; "."%byte; ","%byte] (((message ++ str " ") ++ str "(") ++ name) ")"%byte eq_refl). }
  rewrite Hkeep, split_name_tag by done.
  assert (Hdrop : trim_end_of closing (message ++ str " ") = trim_end_of closing message)
    by exact (trim_end_of_drops closing message " "%byte eq_refl).
  fold closing. rewrite Hdrop.
  unfold split_trace. rewrite Ht, trim_tight by done. by rewrite bool_decide_eq_false_2 by by apply tight_nonempty.
Qed.

(** ** Properties *)

(** the exception a server prints is read back: its code, its name tag and its message, without
    the closing punctuation, whatever the message says and whichever exception class and version
    the server names. *)
Theorem exception_read_back code kind message name version : printed code kind message name version ->
  parse_body (exception_body code kind message None (Some name) version) =
    Some (mk_exc code (Some name) (trim_end_of closing message) None).
Proof. apply parse_printed. Qed.

Lemma missing_columns_printed :
  printed 47 (str "DB::") (str "Missing columns: 'nope' (maybe you meant: 'note').") (str "UNKNOWN_IDENTIFIER")
    (str "26.2.4.23 (official build)").
Proof.
  split; [lia | by left | by apply tightb_tight | by apply tightb_tight | reflexivity | done | reflexivity | reflexivity
    | by apply tightb_tight].
Qed.

Lemma exception_read_back_witness :
  parse_body (exception_body 47 (str "DB::") (str "Missing columns: 'nope' (maybe you meant: 'note').") None
    (Some (str "UNKNOWN_IDENTIFIER")) (str "26.2.4.23 (official build)")) =
    Some (mk_exc 47 (Some (str "UNKNOWN_IDENTIFIER")) (str "Missing columns: 'nope' (maybe you meant: 'note')") None).
Proof.
  refine (@exception_read_back 47 (str "DB::") (str "Missing columns: 'nope' (maybe you meant: 'note').")
    (str "UNKNOWN_IDENTIFIER") (str "26.2.4.23 (official build)") missing_columns_printed).
Defined.
