(* ===== verification/Calendar.v ===== *)
(** * Dates and times

    Models the calendar half of [src/dynamic/encode.rs]: epochs scaled by magnitude, days of
    the civil calendar, and the reader of [YYYY-MM-DD HH:MM:SS] texts. Properties: the day
    count is the calendar's, a printed instant is read back, and every accepted text names a
    day that exists. *)

From S2P Require Import Prelude Text.

(** ** Epochs *)

(** [epoch_to_seconds]: [/] of Rust truncates. *)
Definition epoch_to_seconds (ts : Z) : Z :=
  let m := Z.abs ts in
  if 1000000000000000000 <? m then Z.quot ts 1000000000
  else if 1000000000000000 <? m then Z.quot ts 1000000
  else if 1000000000000 <? m then Z.quot ts 1000
  else ts.

(** ** Days *)

Definition leap (year : Z) : bool :=
  (Z.rem year 4 =? 0) && (negb (Z.rem year 100 =? 0) || (Z.rem year 400 =? 0)).

(** [days_in_month]. *)
Definition days_in_month (year month : Z) : Z :=
  if existsb (Z.eqb month) [1; 3; 5; 7; 8; 10; 12] then 31
  else if existsb (Z.eqb month) [4; 6; 9; 11] then 30
  else if month =? 2 then if leap year then 29 else 28
  else 0.

(** [check_calendar_day]. *)
Definition check_calendar_day (year month day : Z) : bool :=
  (1 <=? month) && (month <=? 12) && (1 <=? day) && (day <=? days_in_month year month).

(** [civil_days_from_epoch]: [div_euclid] and [rem_euclid] by 400 are [/] and [mod]. *)
Definition civil_days_from_epoch (year month day : Z) : Z :=
  let y := if month <=? 2 then year - 1 else year in
  let m := if month <=? 2 then month + 9 else month - 3 in
  let era := y / 400 in
  let yoe := y mod 400 in
  let day_of_year := Z.quot (153 * m + 2) 5 + day - 1 in
  let doe := yoe * 365 + Z.quot yoe 4 - Z.quot yoe 100 + day_of_year in
  era * 146097 + doe - 719468.

(** ** Texts *)

(** [s[a..b].parse()] of a field. *)
Definition field (parse : text -> option Z) (msg : string) (a b : nat) (s : text) : result text Z :=
  ok_or (parse (slice a (b - a) s)) (str msg).

Definition invalid_datetime : text := str "invalid DateTime string".

(** The fraction after the seconds: its nanoseconds and the position past it. *)
Fixpoint digits_len (s : text) : nat :=
  match s with
  | b :: s' => if is_digit b then S (digits_len s') else 0%nat
  | [] => 0%nat
  end.
Definition read_fraction (s : text) : result text (Z * nat) :=
  if bool_decide (s !! 19%nat = Some "."%byte) then
    let frac_digits := digits_len (drop 20 s) in
    if (frac_digits =? 0)%nat then Err invalid_datetime
    else
      let clamped := min frac_digits 9 in
      frac ← ok_or (parse_unsigned 32 (slice 20 clamped s)) (str "invalid fractional seconds");
      Ok (if (clamped <? 9)%nat then frac * 10 ^ (9 - Z.of_nat clamped) else frac, (20 + frac_digits)%nat)
  else Ok (0, 19%nat).

(** The zone at [pos]: the position past it. *)
Definition offset_shaped (tz : text) : bool :=
  (length tz =? 5)%nat && bool_decide (tz !! 2%nat = Some ":"%byte) &&
  forallb is_digit (take 2 tz) && forallb is_digit (drop 3 tz).
Definition read_zone (s : text) (pos : nat) : result text nat :=
  match s !! pos with
  | None => Ok pos
  | Some b =>
      if beq b "Z"%byte then Ok (S pos)
      else if (beq b "+"%byte || beq b "-"%byte) && (pos + 6 <=? length s)%nat then
        let tz := slice (S pos) 5 s in
        if offset_shaped tz then
          if beq b "-"%byte || negb (bool_decide (take 2 tz = str "00")) || negb (bool_decide (drop 3 tz = str "00"))
          then Err (str "non-UTC timezone offset '" ++ [b] ++ tz ++ str "' not supported; convert to UTC first")
          else Ok (pos + 6)%nat
        else Ok pos
      else Ok pos
  end.

(** [parse_datetime_str]: seconds since the epoch and nanoseconds. *)
Definition parse_datetime_str (s : text) : result text (Z * Z) :=
  if (length s <? 19)%nat then Err invalid_datetime
  else if negb (forallb (fun b => u8 b <? 128) s) then Err invalid_datetime
  else if negb (bool_decide (s !! 10%nat = Some " "%byte \/ s !! 10%nat = Some "T"%byte)) then Err invalid_datetime
  else
    '(frac_nanos, pos) ← read_fraction s;
    pos ← read_zone s pos;
    if negb (pos =? length s)%nat then Err invalid_datetime
    else
      year ← field (parse_signed 32) "invalid year" 0 4 s;
      month ← field (parse_unsigned 32) "invalid month" 5 7 s;
      day ← field (parse_unsigned 32) "invalid day" 8 10 s;
      hour ← field (parse_unsigned 32) "invalid hour" 11 13 s;
      mins ← field (parse_unsigned 32) "invalid minute" 14 16 s;
      second ← field (parse_unsigned 32) "invalid second" 17 19 s;
      if negb (check_calendar_day year month day) || (23 <? hour) || (59 <? mins) || (59 <? second)
      then Err invalid_datetime
      else
        let days := civil_days_from_epoch year month day in
        Ok (days * 86400 + hour * 3600 + mins * 60 + second, frac_nanos).

(** ** The calendar *)

(** The day after a day. *)
Definition next_day (year month day : Z) : Z * Z * Z :=
  if day <? days_in_month year month then (year, month, day + 1)
  else if month <? 12 then (year, month + 1, 1)
  else (year + 1, 1, 1).

(** What a printer of instants writes: fields padded with zeros. *)
Fixpoint pad (width : nat) (z : Z) : text :=
  match width with
  | O => []
  | S w => pad w (z / 10) ++ [byte.of_Z (48 + z mod 10)]
  end.
Definition date_text (year month day : Z) : text := pad 4 year ++ str "-" ++ pad 2 month ++ str "-" ++ pad 2 day.
Definition clock_text (hour mins second : Z) : text := pad 2 hour ++ str ":" ++ pad 2 mins ++ str ":" ++ pad 2 second.
(** The first [n] digits of the nanoseconds, none for [n = 0]. *)
Definition fraction_text (n : nat) (nanos : Z) : text :=
  match n with
  | O => []
  | _ => str "." ++ take n (pad 9 nanos)
  end.

(** The ways to say UTC. *)
Definition utc_marks : list text := [[]; str "Z"; str "+00:00"].
Definition instant_text (year month day : Z) (sep : byte) (hour mins second : Z) (n : nat) (nanos : Z) (zone : text) : text :=
  date_text year month day ++ [sep] ++ clock_text hour mins second ++ fraction_text n nanos ++ zone.

Example parse_zulu : parse_datetime_str (str "2026-02-28T23:59:59.5Z") = Ok (1772323199, 500000000).
Proof. reflexivity. Qed.
Example parse_offset : is_ok (parse_datetime_str (str "2026-02-28 23:59:59+01:00")) = false.
Proof. reflexivity. Qed.
Example parse_no_such_day : is_ok (parse_datetime_str (str "2026-02-29 00:00:00")) = false.
Proof. reflexivity. Qed.
(** Neither the separators inside the date and the clock nor the digits of a field are checked. *)
Example parse_separators : parse_datetime_str (str "2026x+2x28 23x59x59") = parse_datetime_str (str "2026-02-28 23:59:59").
Proof. reflexivity. Qed.
Example epoch_before_1970 : epoch_to_seconds (-1000000000001) = -1000000000.
Proof. reflexivity. Qed.

(** ** Lemmas: the year *)

Lemma rem_mod_zero a b : b <> 0 -> (Z.rem a b =? 0) = (a mod b =? 0).
Proof.
  intros Hb. destruct (Z.eqb_spec (a mod b) 0) as [E|E].
  - apply Z.eqb_eq, Z.rem_divide; [done|]. by apply Z.mod_divide.
  - apply Z.eqb_neq. intros H. apply E, Z.mod_divide; [done|]. by apply Z.rem_divide.
Qed.

(** The days before the March-based year [y]. *)
Definition year_days (y : Z) : Z :=
  y / 400 * 146097 + (y mod 400 * 365 + y mod 400 / 4 - y mod 400 / 100).

Lemma civil_days_eq year month day :
  civil_days_from_epoch year month day =
    year_days (if month <=? 2 then year - 1 else year) +
    (Z.quot (153 * (if month <=? 2 then month + 9 else month - 3) + 2) 5 + day - 1) - 719468.
Proof.
  unfold civil_days_from_epoch, year_days.
  pose proof (Z.mod_pos_bound (if month <=? 2 then year - 1 else year) 400 ltac:(lia)).
  rewrite (Z.quot_div_nonneg _ 4), (Z.quot_div_nonneg _ 100) by lia. lia.
Qed.

Lemma year_days_step y : year_days (y + 1) = year_days y + 365 + (if leap (y + 1) then 1 else 0).
Proof.
  unfold year_days, leap. rewrite !rem_mod_zero by done.
  assert (H4 : (y + 1) mod 4 = (y mod 400 + 1) mod 4).
  { rewrite (Z.div_mod y 400) at 1 by done. replace (400 * (y / 400) + y mod 400 + 1) with (y mod 400 + 1 + (100 * (y / 400)) * 4) by lia.
    by rewrite Z.mod_add. }
  assert (H100 : (y + 1) mod 100 = (y mod 400 + 1) mod 100).
  { rewrite (Z.div_mod y 400) at 1 by done. replace (400 * (y / 400) + y mod 400 + 1) with (y mod 400 + 1 + (4 * (y / 400)) * 100) by lia.
    by rewrite Z.mod_add. }
  rewrite H4, H100. pose proof (Z.mod_pos_bound y 400 ltac:(lia)) as Hr.
  destruct (Z.eq_dec (y mod 400) 399) as [E|E].
  - assert (Hq : (y + 1) / 400 = y / 400 + 1 /\ (y + 1) mod 400 = 0) by (Z.div_mod_to_equations; lia).
    destruct Hq as [-> ->]. rewrite E.
    match goal with |- context [if ?b then 1 else 0] => change b with true end. Z.div_mod_to_equations; lia.
  - assert (Hq : (y + 1) / 400 = y / 400 /\ (y + 1) mod 400 = y mod 400 + 1) by (Z.div_mod_to_equations; lia).
    destruct Hq as [-> ->]. generalize dependent (y mod 400). intros r _ _ Hr E.
    rewrite (proj2 (Z.eqb_neq (r + 1) 0)), orb_false_r by lia.
    destruct (Z.eqb_spec ((r + 1) mod 4) 0), (Z.eqb_spec ((r + 1) mod 100) 0); cbn [andb negb];
      Z.div_mod_to_equations; lia.
Qed.

Lemma month_cases (P : Z -> Prop) :
  P 1 -> P 2 -> P 3 -> P 4 -> P 5 -> P 6 -> P 7 -> P 8 -> P 9 -> P 10 -> P 11 -> P 12 ->
  forall m, 1 <= m <= 12 -> P m.
Proof.
  intros. assert (Hm : m = 1 \/ m = 2 \/ m = 3 \/ m = 4 \/ m = 5 \/ m = 6 \/ m = 7 \/ m = 8 \/ m = 9 \/ m = 10 \/ m = 11 \/ m = 12) by lia.
  by repeat destruct Hm as [-> | Hm]; subst.
Qed.

Lemma check_day_range year month day :
  check_calendar_day year month day = true -> 1 <= month <= 12 /\ 1 <= day <= days_in_month year month.
Proof. unfold check_calendar_day. rewrite !andb_true_iff, !Z.leb_le. lia. Qed.

(** Evaluate the closed parts of a day count. *)
Ltac month_arith :=
  repeat match goal with
  | |- context [?a <=? 2] => let v := eval vm_compute in (a <=? 2) in change (a <=? 2) with v; cbv beta iota
  end;
  repeat match goal with
  | |- context [Z.quot ?a 5] => let v := eval vm_compute in (Z.quot a 5) in change (Z.quot a 5) with v
  end;
  try match goal with
  | |- context [days_in_month ?y ?m] =>
      let v := eval vm_compute in (days_in_month 0 m) in change (days_in_month y m) with v
  end.

Lemma next_month year month :
  1 <= month <= 11 ->
  check_calendar_day year (month + 1) 1 = true /\
  civil_days_from_epoch year (month + 1) 1 = civil_days_from_epoch year month (days_in_month year month) + 1.
Proof.
  intros Hm. assert (H12 : 1 <= month <= 12) by lia. revert Hm. rewrite !civil_days_eq.
  assert (Hfeb : days_in_month year 2 = if leap year then 29 else 28) by done.
  revert month H12. refine (month_cases _ _ _ _ _ _ _ _ _ _ _ _ _); intros Hm; try lia;
    (split; [try reflexivity | month_arith; try lia]).
  - unfold check_calendar_day. change (1 + 1) with 2. rewrite Hfeb. by destruct (leap year).
  - rewrite Hfeb. pose proof (year_days_step (year - 1)) as Hs.
    replace (year - 1 + 1) with year in Hs by lia. destruct (leap year); lia.
Qed.

Lemma civil_days_next year month day year' month' day' :
  check_calendar_day year month day = true -> next_day year month day = (year', month', day') ->
  check_calendar_day year' month' day' = true /\
  civil_days_from_epoch year' month' day' = civil_days_from_epoch year month day + 1.
Proof.
  intros (Hm & Hd1 & Hd2)%check_day_range Hn. unfold next_day in Hn.
  destruct (Z.ltb_spec day (days_in_month year month)) as [Hlt|Hge].
  { injection Hn as <- <- <-. split; [|rewrite !civil_days_eq; lia].
    unfold check_calendar_day. rewrite !andb_true_iff, !Z.leb_le. lia. }
  assert (Hday : day = days_in_month year month) by lia. subst day. clear Hd2 Hge Hd1.
  destruct (Z.ltb_spec month 12) as [Hlt|Hge]; injection Hn as <- <- <-.
  - apply next_month. lia.
  - assert (month = 12) by lia. subst month. split; [reflexivity|]. rewrite !civil_days_eq.
    replace (year + 1 - 1) with year by lia. month_arith. lia.
Qed.

(** ** Lemmas: printed instants *)

Lemma pad_length w z : length (pad w z) = w.
Proof. revert z; induction w; intros z; cbn [pad]; [done|]. rewrite length_app, IHw. simpl. lia. Qed.

Lemma digit_byte z : 0 <= z -> is_digit (byte.of_Z (48 + z mod 10)) = true /\ digit (byte.of_Z (48 + z mod 10)) = z mod 10.
Proof.
  intros Hz. pose proof (Z.mod_pos_bound z 10 ltac:(lia)). unfold is_digit, digit. rewrite u8_of_Z.
  rewrite (Z.mod_small (48 + _)) by lia. rewrite andb_true_iff, !Z.leb_le. lia.
Qed.

Lemma parse_digits_pad w z acc :
  0 <= z < 10 ^ Z.of_nat w -> parse_digits acc (pad w z) = Some (acc * 10 ^ Z.of_nat w + z).
Proof.
  revert z acc; induction w as [|w IH]; intros z acc Hz.
  - cbn [pad parse_digits]. f_equal. cbn in *. lia.
  - rewrite Nat2Z.inj_succ, Z.pow_succ_r in * by lia. cbn [pad]. rewrite parse_digits_app, IH by (split; [apply Z.div_pos; lia|apply Z.div_lt_upper_bound; lia]).
    cbn [mbind option_bind parse_digits]. destruct (digit_byte z ltac:(lia)) as [-> ->]. f_equal.
    rewrite (Z.div_mod z 10) at 3 by lia. lia.
Qed.

Lemma pad_digits w z : 0 <= z -> Forall (fun b => is_digit b = true) (pad w z).
Proof.
  revert z; induction w as [|w IH]; intros z Hz; cbn [pad]; [constructor|].
  apply Forall_app. split; [apply IH, Z.div_pos; lia|]. constructor; [apply (digit_byte z Hz)|constructor].
Qed.

Lemma digit_not b c : is_digit b = true -> is_digit c = false -> beq b c = false.
Proof. intros Hb Hc. destruct (beq b c) eqn:E; [|done]. apply beq_eq in E; subst. congruence. Qed.

Lemma parse_pad w z bits :
  (0 < w)%nat -> 0 <= z < 10 ^ Z.of_nat w -> z < 2 ^ (bits - 1) -> z < 2 ^ bits ->
  parse_unsigned bits (pad w z) = Some z /\ parse_signed bits (pad w z) = Some z.
Proof.
  intros Hw Hz Hb Hb'. pose proof (parse_digits_pad w z 0 Hz) as Hp. pose proof (pad_digits w z (proj1 Hz)) as Hd.
  pose proof (pad_length w z) as Hl. unfold parse_unsigned, parse_signed.
  destruct (pad w z) as [|b r]; [simpl in Hl; lia|]. apply List.Forall_cons_iff in Hd as [Hd _].
  rewrite !(digit_not b) by done. unfold parse_nat_digits. rewrite Hp. cbn [mbind option_bind].
  rewrite (proj2 (Z.ltb_lt (0 * 10 ^ Z.of_nat w + z) _)), (proj2 (Z.ltb_lt (0 * 10 ^ Z.of_nat w + z) _)) by lia.
  split; f_equal; lia.
Qed.

Lemma take_pad n k z : take n (pad (n + k) z) = pad n (z / 10 ^ Z.of_nat k).
Proof.
  revert z; induction k as [|k IH]; intros z.
  - rewrite Nat.add_0_r, Z.div_1_r. apply take_ge. rewrite pad_length. lia.
  - replace (n + S k)%nat with (S (n + k)) by lia. cbn [pad]. rewrite take_app_le by (rewrite pad_length; lia).
    rewrite IH. rewrite Nat2Z.inj_succ, Z.pow_succ_r by lia. f_equal. rewrite Z.div_div by (try lia; apply Z.pow_pos_nonneg; lia). done.
Qed.

Lemma digits_len_app s t :
  Forall (fun b => is_digit b = true) s -> (forall b, t !! 0%nat = Some b -> is_digit b = false) ->
  digits_len (s ++ t) = length s.
Proof.
  intros Hs Ht. induction Hs as [|b s Hb Hs IH]; cbn [app digits_len length].
  - destruct t as [|b t]; [done|]. cbn [digits_len]. by rewrite (Ht b eq_refl).
  - by rewrite Hb, IH.
Qed.

(** The end of a text, after the seconds. *)
Lemma read_fraction_text d n nanos zone :
  length d = 19%nat -> zone ∈ utc_marks -> (n <= 9)%nat -> 0 <= nanos < 10 ^ 9 -> nanos mod 10 ^ (9 - Z.of_nat n) = 0 ->
  read_fraction (d ++ fraction_text n nanos ++ zone) =
    Ok (if (n =? 0)%nat then 0 else nanos, (19 + length (fraction_text n nanos))%nat).
Proof.
  intros Hd Hz Hn Hr Hm. unfold read_fraction.
  assert (Hzone : forall b, zone !! 0%nat = Some b -> is_digit b = false /\ b <> "."%byte).
  { intros b Hb. unfold utc_marks in Hz. repeat (apply elem_of_cons in Hz as [-> | Hz]); [..|by apply not_elem_of_nil in Hz];
      vm_compute in Hb; by simplify_eq. }
  rewrite lookup_app_r, Hd by lia. change (19 - 19)%nat with 0%nat.
  destruct n as [|n]; cbn [fraction_text app length].
  - rewrite bool_decide_eq_false_2; [done|]. intros H. by destruct (Hzone _ H).
  - rewrite bool_decide_eq_true_2 by done. set (k := S n) in *.
    assert (Htp : take k (pad 9 nanos) = pad k (nanos / 10 ^ (9 - Z.of_nat k))).
    { replace 9%nat with (k + (9 - k))%nat by lia. rewrite take_pad. do 3 f_equal. lia. }
    change (str ".") with ["."%byte]. rewrite Htp. cbn [app length]. rewrite pad_length.
    assert (Hdrop : drop 20 (d ++ "."%byte :: pad k (nanos / 10 ^ (9 - Z.of_nat k)) ++ zone) = pad k (nanos / 10 ^ (9 - Z.of_nat k)) ++ zone).
    { rewrite drop_app_ge by lia. by rewrite Hd. }
    assert (H10 : 0 < 10 ^ (9 - Z.of_nat k)) by (apply Z.pow_pos_nonneg; lia).
    assert (Hq : 0 <= nanos / 10 ^ (9 - Z.of_nat k) < 10 ^ Z.of_nat k).
    { split; [apply Z.div_pos; lia|]. apply Z.div_lt_upper_bound; [done|]. rewrite <- Z.pow_add_r by lia.
      replace (9 - Z.of_nat k + Z.of_nat k) with 9 by lia. lia. }
    unfold slice. rewrite Hdrop, digits_len_app; [|apply pad_digits, Hq|intros b Hb; by destruct (Hzone b Hb)].
    rewrite pad_length, (Nat.min_l k 9) by lia. change (k =? 0)%nat with false. cbn match.
    rewrite take_app_le, take_ge by (rewrite pad_length; lia).
    assert (Hpow : 10 ^ Z.of_nat k <= 10 ^ 9) by (apply Z.pow_le_mono_r; lia).
    assert (H32 : 10 ^ 9 < 2 ^ 31) by done.
    destruct (parse_pad k (nanos / 10 ^ (9 - Z.of_nat k)) 32) as [-> _]; [lia|done|simpl in *; lia..|].
    cbn [ok_or mbind result_bind]. f_equal. f_equal.
    destruct (Nat.ltb_spec k 9).
    + rewrite (Z.div_mod nanos (10 ^ (9 - Z.of_nat k))) at 2 by lia. lia.
    + replace (9 - Z.of_nat k) with 0 in * by lia. by rewrite Z.div_1_r.
Qed.

Lemma read_zone_text d zone :
  zone ∈ utc_marks -> read_zone (d ++ zone) (length d) = Ok (length (d ++ zone)).
Proof.
  intros Hz. unfold read_zone. rewrite lookup_app_r, Nat.sub_diag by lia. rewrite length_app.
  unfold utc_marks in Hz. repeat (apply elem_of_cons in Hz as [-> | Hz]); [..|by apply not_elem_of_nil in Hz].
  - simpl. do 2 f_equal. lia.
  - cbn. f_equal. lia.
  - change (str "+00:00" !! 0%nat) with (Some "+"%byte). cbn match.
    change (beq "+" "Z") with false. change (beq "+" "+") with true. cbn [orb andb].
    change (length (str "+00:00")) with 6%nat. rewrite (proj2 (Nat.leb_le _ _)) by lia.
    unfold slice. rewrite drop_app_ge by lia. replace (S (length d) - length d)%nat with 1%nat by lia. reflexivity.
Qed.

Lemma length4 (l : text) : length l = 4%nat -> exists a b c d, l = [a; b; c; d].
Proof. destruct l as [|a [|b [|c [|d []]]]]; simpl; intros H; try lia. eauto. Qed.
Lemma length2 (l : text) : length l = 2%nat -> exists a b, l = [a; b].
Proof. destruct l as [|a [|b []]]; simpl; intros H; try lia. eauto. Qed.

(** The nineteen bytes before the fraction, read back. *)
Lemma read_fields year month day sep hour mins second rest :
  0 <= year < 10000 -> 0 <= month < 100 -> 0 <= day < 100 -> 0 <= hour < 100 -> 0 <= mins < 100 -> 0 <= second < 100 ->
  let s := (date_text year month day ++ [sep] ++ clock_text hour mins second) ++ rest in
  s !! 10%nat = Some sep /\
  field (parse_signed 32) "invalid year" 0 4 s = Ok year /\
  field (parse_unsigned 32) "invalid month" 5 7 s = Ok month /\
  field (parse_unsigned 32) "invalid day" 8 10 s = Ok day /\
  field (parse_unsigned 32) "invalid hour" 11 13 s = Ok hour /\
  field (parse_unsigned 32) "invalid minute" 14 16 s = Ok mins /\
  field (parse_unsigned 32) "invalid second" 17 19 s = Ok second.
Proof.
  intros Hy Hmo Hd Hh Hmi Hs s. subst s. unfold date_text, clock_text.
  assert (H2 : forall z, 0 <= z < 100 -> parse_unsigned 32 (pad 2 z) = Some z).
  { intros z Hz. apply parse_pad; [lia|exact Hz|simpl; lia..]. }
  pose proof (proj2 (parse_pad 4 year 32 ltac:(lia) Hy ltac:(simpl; lia) ltac:(simpl; lia))) as Py.
  pose proof (H2 month Hmo) as Pmo. pose proof (H2 day Hd) as Pd. pose proof (H2 hour Hh) as Ph.
  pose proof (H2 mins Hmi) as Pmi. pose proof (H2 second Hs) as Ps.
  destruct (length4 _ (pad_length 4 year)) as (y0 & y1 & y2 & y3 & Ey); rewrite Ey in *.
  destruct (length2 _ (pad_length 2 month)) as (mo0 & mo1 & Emo); rewrite Emo in *.
  destruct (length2 _ (pad_length 2 day)) as (d0 & d1 & Ed); rewrite Ed in *.
  destruct (length2 _ (pad_length 2 hour)) as (h0 & h1 & Eh); rewrite Eh in *.
  destruct (length2 _ (pad_length 2 mins)) as (mi0 & mi1 & Emi); rewrite Emi in *.
  destruct (length2 _ (pad_length 2 second)) as (s0 & s1 & Es); rewrite Es in *.
  unfold field, slice. cbn [app drop take Nat.sub].
  change (str "-") with ["-"%byte]. change (str ":") with [":"%byte]. cbn [app drop take].
  rewrite take_0, Py, Pmo, Pd, Ph, Pmi, Ps. done.
Qed.

Lemma ascii_digits l : Forall (fun b => is_digit b = true) l -> forallb (fun b => u8 b <? 128) l = true.
Proof.
  induction 1 as [|b l Hb Hl IH]; cbn [forallb]; [done|]. rewrite IH, andb_true_r. apply Z.ltb_lt.
  unfold is_digit in Hb. apply andb_true_iff in Hb as [_ Hb%Z.leb_le]. lia.
Qed.

Lemma ascii_pad w z : 0 <= z -> forallb (fun b => u8 b <? 128) (pad w z) = true.
Proof. intros Hz. by apply ascii_digits, pad_digits. Qed.

Lemma ascii_fraction n nanos : 0 <= nanos -> forallb (fun b => u8 b <? 128) (fraction_text n nanos) = true.
Proof.
  intros Hn. unfold fraction_text. destruct n as [|n]; [done|]. rewrite forallb_app. apply andb_true_iff. split; [done|].
  apply ascii_digits, Forall_take. by apply pad_digits.
Qed.

(** What is left of the text a reader accepts. *)
Definition instant (year month day hour mins second : Z) : Z :=
  civil_days_from_epoch year month day * 86400 + hour * 3600 + mins * 60 + second.
Definition real_instant (year month day hour mins second : Z) : Prop :=
  check_calendar_day year month day = true /\ 0 <= hour < 24 /\ 0 <= mins < 60 /\ 0 <= second < 60.

Lemma in_clock hour mins second :
  0 <= hour < 24 -> 0 <= mins < 60 -> 0 <= second < 60 -> (23 <? hour) || (59 <? mins) || (59 <? second) = false.
Proof. intros. rewrite !orb_false_iff, !Z.ltb_ge. lia. Qed.

Lemma parse_unsigned_range bits s z : parse_unsigned bits s = Some z -> 0 <= z < 2 ^ bits.
Proof.
  assert (Hd : forall t acc v, 0 <= acc -> parse_digits acc t = Some v -> 0 <= v).
  { induction t as [|b t IH]; intros acc v Ha Hv; cbn [parse_digits] in Hv; [by simplify_eq|].
    destruct (is_digit b) eqn:E; [|done]. eapply IH; [|exact Hv]. unfold is_digit, digit in *.
    apply andb_true_iff in E as [E1%Z.leb_le E2%Z.leb_le]. lia. }
  unfold parse_unsigned. intros H. apply bind_Some in H as (v & Hv & H).
  destruct (v <? 2 ^ bits) eqn:E; [|done]. injection H as <-. apply Z.ltb_lt in E. split; [|done].
  set (body := match s with [] => _ | _ => _ end) in Hv. unfold parse_nat_digits in Hv.
  destruct body as [|b t]; [done|]. eapply (Hd _ 0); [lia|exact Hv].
Qed.

Lemma field_range msg a b s z : field (parse_unsigned 32) msg a b s = Ok z -> 0 <= z.
Proof.
  unfold field. destruct (parse_unsigned 32 _) as [v|] eqn:E; cbn; intros H; [|done]. apply Ok_inj in H as <-.
  apply parse_unsigned_range in E. lia.
Qed.

(** ** Properties *)

(** C31: the day count is the proleptic Gregorian calendar's: the first of January 1970 is day 0,
    and the day after any day of the calendar is a day of it, counted one higher. *)
Theorem civil_days_are_the_calendar :
  civil_days_from_epoch 1970 1 1 = 0 /\
  forall year month day, check_calendar_day year month day = true ->
    let '(year', month', day') := next_day year month day in
    check_calendar_day year' month' day' = true /\
    civil_days_from_epoch year' month' day' = civil_days_from_epoch year month day + 1.
Proof.
  split; [reflexivity|]. intros year month day Hd. destruct (next_day year month day) as [[y m] d] eqn:E.
  by apply (civil_days_next year month day).
Qed.

(** C32: an instant printed with either separator, up to nine digits of a fraction and any mark of
    UTC is read back as its seconds and nanoseconds. *)
Theorem instants_are_read_back year month day sep hour mins second n nanos zone :
  0 <= year < 10000 -> real_instant year month day hour mins second ->
  sep = " "%byte \/ sep = "T"%byte -> zone ∈ utc_marks ->
  (n <= 9)%nat -> 0 <= nanos < 10 ^ 9 -> nanos mod 10 ^ (9 - Z.of_nat n) = 0 ->
  parse_datetime_str (instant_text year month day sep hour mins second n nanos zone) =
    Ok (instant year month day hour mins second, if (n =? 0)%nat then 0 else nanos).
Proof.
  intros Hy (Hd & Hh & Hmi & Hs) Hsep Hz Hn Hr Hm.
  assert (Hday : 0 <= month < 100 /\ 0 <= day < 100).
  { apply check_day_range in Hd as [? Hd]. split; [lia|]. unfold days_in_month in Hd.
    repeat case_match; lia. }
  set (d := date_text year month day ++ [sep] ++ clock_text hour mins second).
  assert (Hs' : instant_text year month day sep hour mins second n nanos zone = d ++ fraction_text n nanos ++ zone).
  { subst d. unfold instant_text. by rewrite <- !app_assoc. }
  assert (Hlen : length d = 19%nat).
  { subst d. unfold date_text, clock_text. by rewrite !length_app, !pad_length. }
  rewrite Hs'. unfold parse_datetime_str.
  rewrite (proj2 (Nat.ltb_ge _ _)) by (rewrite length_app; lia).
  destruct (read_fields year month day sep hour mins second (fraction_text n nanos ++ zone))
    as (Fsep & Fy & Fmo & Fd & Fh & Fmi & Fs); try lia. fold d in Fsep, Fy, Fmo, Fd, Fh, Fmi, Fs.
  assert (Hascii : forallb (fun b => u8 b <? 128) (d ++ fraction_text n nanos ++ zone) = true).
  { rewrite !forallb_app, ascii_fraction by lia. subst d. unfold date_text, clock_text. rewrite !forallb_app, !ascii_pad by lia.
    destruct Hsep as [-> | ->]; unfold utc_marks in Hz;
      repeat (apply elem_of_cons in Hz as [-> | Hz]); (reflexivity || by apply not_elem_of_nil in Hz). }
  rewrite Hascii, Fsep, bool_decide_eq_true_2 by (destruct Hsep as [-> | ->]; auto). cbn [negb].
  rewrite read_fraction_text by done. cbn [mbind result_bind].
  replace (19 + length (fraction_text n nanos))%nat with (length (d ++ fraction_text n nanos)) by (rewrite length_app; lia).
  rewrite (app_assoc d) at 1. rewrite read_zone_text by done. cbn [mbind result_bind].
  rewrite <- app_assoc, Nat.eqb_refl. cbn [negb].
  rewrite Fy, Fmo, Fd, Fh, Fmi, Fs. cbn [mbind result_bind]. rewrite Hd. cbn [negb orb]. by rewrite in_clock.
Qed.

Lemma instants_are_read_back_witness :
  parse_datetime_str (instant_text 2024 2 29 "T" 12 30 45 3 250000000 (str "+00:00")) =
    Ok (instant 2024 2 29 12 30 45, 250000000).
Proof.
  refine (@instants_are_read_back 2024 2 29 "T"%byte 12 30 45 3 250000000 (str "+00:00") _ _ _ _ _ _ _);
    [lia | split_and!; [reflexivity | lia..] | by right | by vm_compute; right; right; left | lia | lia | reflexivity].
Defined.

(** every text the reader accepts names a real instant: a day of the calendar, a time of that
    day and less than a second of nanoseconds. *)
Theorem accepted_instants_are_real s secs nanos :
  parse_datetime_str s = Ok (secs, nanos) ->
  exists year month day hour mins second,
    real_instant year month day hour mins second /\ secs = instant year month day hour mins second /\ 0 <= nanos.
Proof.
  unfold parse_datetime_str. intros H. do 3 (case_match; [done|]).
  apply bind_Ok_inv in H as ([frac pos] & Hfrac & H). apply bind_Ok_inv in H as (pos' & _ & H). case_match; [done|].
  apply bind_Ok_inv in H as (year & Hy & H). apply bind_Ok_inv in H as (month & Hmo & H).
  apply bind_Ok_inv in H as (day & Hd & H). apply bind_Ok_inv in H as (hour & Hh & H).
  apply bind_Ok_inv in H as (mins & Hmi & H). apply bind_Ok_inv in H as (second & Hs & H).
  destruct (negb (check_calendar_day year month day) || (23 <? hour) || (59 <? mins) || (59 <? second)) eqn:E; [done|].
  rewrite !orb_false_iff, negb_false_iff, !Z.ltb_ge in E. destruct E as [[[Eday Eh] Em] Es].
  apply field_range in Hh, Hmi, Hs. injection H as <- <-.
  exists year, month, day, hour, mins, second. split; [split_and!; [done|lia..]|]. split; [done|].
  unfold read_fraction in Hfrac. case_bool_decide; [|by simplify_eq]. case_match; [done|].
  apply bind_Ok_inv in Hfrac as (v & Hv & Hfrac). injection Hfrac as <- _.
  destruct (parse_unsigned 32 _) as [w|] eqn:Ew; [|done]. apply Ok_inj in Hv as <-. apply parse_unsigned_range in Ew.
  case_match; [|lia]. apply Z.mul_nonneg_nonneg; [lia|]. apply Z.pow_nonneg. lia.
Qed.

Lemma accepted_instants_are_real_witness :
  exists year month day hour mins second,
    real_instant year month day hour mins second /\ 951782400 = instant year month day hour mins second /\ 0 <= 0.
Proof. refine (@accepted_instants_are_real (str "2000-02-29 00:00:00Z") 951782400 0 eq_refl). Defined.
