(* ===== verification/Floats.v ===== *)
(** * Floating point

    The operations of Rust's [f64] the crate uses on JSON values, on bit patterns: the fields
    of a pattern, the conversions to integers and to [f32], the product, and [str::parse].
    They are the language's and the standard library's, so nothing here stands for a line of
    the crate. Rounding is the Standard Library's model of IEEE 754 ([SpecFloat]); of a NaN only
    the sign is told apart, by the pattern. *)

From Stdlib Require Import SpecFloat.
From S2P Require Import Prelude Text.

(** ** Bit patterns *)

(** The fields of a pattern of [mw] mantissa bits and [ew] exponent bits, least exponent [emin]. *)
Definition of_bits (mw ew emin : Z) (bits : Z) : spec_float :=
  let sign := Z.testbit bits (mw + ew) in
  let e := Z.land (Z.shiftr bits mw) (2 ^ ew - 1) in
  let m := Z.land bits (2 ^ mw - 1) in
  if e =? 2 ^ ew - 1 then if m =? 0 then S754_infinity sign else S754_nan
  else match (if e =? 0 then m else m + 2 ^ mw) with
       | Z.pos p => S754_finite sign p (if e =? 0 then emin else e + emin - 1)
       | _ => S754_zero sign
       end.
Definition to_bits (mw ew emin : Z) (f : spec_float) : Z :=
  let top (s : bool) := if s then 2 ^ (mw + ew) else 0 in
  match f with
  | S754_zero s => top s
  | S754_infinity s => top s + Z.shiftl (2 ^ ew - 1) mw
  | S754_nan => Z.shiftl (2 ^ ew - 1) mw + 2 ^ (mw - 1)
  | S754_finite s m e =>
      if Z.pos m <? 2 ^ mw then top s + Z.pos m
      else top s + Z.shiftl (e - emin + 1) mw + (Z.pos m - 2 ^ mw)
  end.
Definition f64_of_bits : Z -> spec_float := of_bits 52 11 (-1074).
Definition f64_to_bits : spec_float -> Z := to_bits 52 11 (-1074).
Definition f32_to_bits : spec_float -> Z := to_bits 23 8 (-149).

(** [x.is_finite()], [x.is_infinite()]. *)
Definition is_finite (f : spec_float) : bool :=
  match f with S754_zero _ | S754_finite _ _ _ => true | _ => false end.
Definition is_infinite (f : spec_float) : bool :=
  match f with S754_infinity _ => true | _ => false end.

(** ** Arithmetic *)

(** [x as f32]. *)
Definition f64_as_f32 (f : spec_float) : spec_float :=
  match f with
  | S754_finite s m e => binary_round 24 128 s m e
  | f => f
  end.

(** [x * y]. *)
Definition f64_mul : spec_float -> spec_float -> spec_float := SFmul 53 1024.

Definition with_sign (negative : bool) (z : Z) : Z := if negative then - z else z.

(** [x as i128] of a value with [x.fract() == 0.0]. *)
Definition f64_whole (f : spec_float) : option Z :=
  match f with
  | S754_zero _ => Some 0
  | S754_finite s m e =>
      if 0 <=? e then Some (with_sign s (Z.pos m * 2 ^ e))
      else if Z.pos m mod 2 ^ (- e) =? 0 then Some (with_sign s (Z.pos m / 2 ^ (- e)))
      else None
  | _ => None
  end.

(** [x.round() as i128] of a finite value: halves go away from zero. *)
Definition f64_round (f : spec_float) : Z :=
  match f with
  | S754_finite s m e =>
      if 0 <=? e then with_sign s (Z.pos m * 2 ^ e)
      else with_sign s ((2 * Z.pos m + 2 ^ (- e)) / 2 ^ (1 - e))
  | _ => 0
  end.

(** ** Parsing *)

(** The decimal [m * 10^e], correctly rounded. *)
Definition f64_of_decimal (negative : bool) (m e : Z) : spec_float :=
  match m with
  | Z.pos p =>
      if 0 <=? e then
        match Z.pos p * 10 ^ e with
        | Z.pos q => binary_round 53 1024 negative q 0
        | _ => S754_zero negative
        end
      else
        let '(q, e', loc) := SFdiv_core_binary 53 1024 m 0 (10 ^ (- e)) 0 in
        binary_round_aux 53 1024 negative q e' loc
  | _ => S754_zero negative
  end.

(** A run of digits: its value over [acc], its length, what follows. *)
Fixpoint take_digits (acc : Z) (n : nat) (s : text) : Z * nat * text :=
  match s with
  | b :: s' => if is_digit b then take_digits (acc * 10 + digit b) (S n) s' else (acc, n, s)
  | [] => (acc, n, [])
  end.
(** The exponent, which stops growing past its sixteenth bit. *)
Fixpoint exponent_digits (acc : Z) (s : text) : option Z :=
  match s with
  | b :: s' => if is_digit b then exponent_digits (if acc <? 0x10000 then 10 * acc + digit b else acc) s' else None
  | [] => Some acc
  end.
Definition sign_of (s : text) : bool * text :=
  match s with
  | b :: s' => if beq b "-"%byte then (true, s') else if beq b "+"%byte then (false, s') else (false, s)
  | [] => (false, [])
  end.
Definition parse_exponent (s : text) : option Z :=
  match s with
  | [] => Some 0
  | b :: s' =>
      if beq b "e"%byte || beq b "E"%byte then
        let '(negative, ds) := sign_of s' in
        match ds with
        | [] => None
        | _ => with_sign negative <$> exponent_digits 0 ds
        end
      else None
  end.

(** [s.parse::<f64>()]. *)
Definition parse_f64 (s : text) : option spec_float :=
  let '(negative, s) := sign_of s in
  let '(int, n, r) := take_digits 0 0 s in
  let '(m, k, r) := match r with
                    | b :: r' => if beq b "."%byte then take_digits int 0 r' else (int, 0%nat, r)
                    | [] => (int, 0%nat, [])
                    end in
  let number := if (n + k =? 0)%nat then None
                else e ← parse_exponent r; Some (f64_of_decimal negative m (e - Z.of_nat k)) in
  match number with
  | Some f => Some f
  | None =>
      let s := to_ascii_lowercase s in
      if bool_decide (s = str "nan") then Some S754_nan
      else if bool_decide (s = str "inf") || bool_decide (s = str "infinity") then Some (S754_infinity negative)
      else None
  end.

(** Its pattern: a NaN has the sign in front of it. *)
Definition parse_f64_bits (s : text) : option Z :=
  f ← parse_f64 s;
  Some (f64_to_bits f + match f with S754_nan => if fst (sign_of s) then 2 ^ 63 else 0 | _ => 0 end).
(** [x as f32] on patterns; a NaN keeps its sign, which the language leaves open. *)
Definition f32_bits_of_f64 (bits : Z) : Z :=
  let narrow := f64_as_f32 (f64_of_bits bits) in
  f32_to_bits narrow + match narrow with S754_nan => if Z.testbit bits 63 then 2 ^ 31 else 0 | _ => 0 end.

Example parse_negative_nan : parse_f64_bits (str "-NaN") = Some 0xFFF8000000000000.
Proof. reflexivity. Qed.
Example narrow_negative_nan : f32_bits_of_f64 0xFFF8000000000000 = 0xFFC00000.
Proof. reflexivity. Qed.
Example parse_tenth : f64_to_bits <$> parse_f64 (str "0.1") = Some 0x3FB999999999999A.
Proof. reflexivity. Qed.
Example parse_exact : f64_to_bits <$> parse_f64 (str "-1.5e3") = Some 0xC097700000000000.
Proof. reflexivity. Qed.
Example parse_huge : f64_to_bits <$> parse_f64 (str "1e400") = Some 0x7FF0000000000000.
Proof. vm_compute. reflexivity. Qed.
Example parse_least : f64_to_bits <$> parse_f64 (str "4.9e-324") = Some 1.
Proof. vm_compute. reflexivity. Qed.
Example parse_dot : parse_f64 (str ".") = None.
Proof. reflexivity. Qed.
Example tenth_as_f32 : f32_to_bits (f64_as_f32 (f64_of_bits 0x3FB999999999999A)) = 0x3DCCCCCD.
Proof. reflexivity. Qed.
Example bits_there_and_back : f64_to_bits (f64_of_bits 0x8000000000000001) = 0x8000000000000001.
Proof. reflexivity. Qed.
