(* ===== verification/Rounding.v ===== *)
(** * Decimals are rounded correctly

    [f64_of_decimal] ([Floats]) as a function of the rational it is given: it rounds to the nearest float, of two as near
    the even one, so it is monotone, and a decimal between two that read as the same float reads as that float too.
    [FloatDisplay] builds the text of a float on it. *)

From Stdlib Require Import SpecFloat.
From S2P Require Import Prelude Text Floats.

(** ** Rounding a quotient *)

(** Where [a / b] stands above its floor, and the integer nearest to it. *)
Definition loc_of (a b : Z) : location := if a mod b =? 0 then loc_Exact else loc_Inexact (2 * (a mod b) ?= b).
Definition rne (a b : Z) : Z := round_nearest_even (a / b) (loc_of a b).

Lemma rne_spec a b : 0 < b ->
  2 * a - b <= 2 * b * rne a b <= 2 * a + b /\
  (2 * b * rne a b = 2 * a + b -> Z.even (rne a b) = true) /\ (2 * b * rne a b = 2 * a - b -> Z.even (rne a b) = true).
Proof.
  intros Hb. pose proof (Z.div_mod a b ltac:(lia)) as Hd. pose proof (Z.mod_pos_bound a b Hb) as Hm.
  unfold rne, loc_of. set (q := a / b) in *. set (r := a mod b) in *. destruct (Z.eqb_spec r 0) as [Hr|Hr]; cbn [round_nearest_even].
  - split_and!; nia.
  - destruct (Z.compare_spec (2 * r) b); cbn [round_nearest_even].
    + destruct (Z.even q) eqn:Eq; [split_and!; intros; (done || nia)|].
      assert (Ho : Z.even (q + 1) = true) by (by rewrite Z.even_add, Eq). split_and!; intros; (done || nia).
    + split_and!; intros; nia.
    + split_and!; intros; nia.
Qed.

Lemma rne_mono a b a' b' : 0 < b -> 0 < b' -> a * b' <= a' * b -> rne a b <= rne a' b'.
Proof.
  intros Hb Hb' Hle. destruct (rne_spec a b Hb) as (Hs & He & _). destruct (rne_spec a' b' Hb') as (Hs' & _ & He').
  destruct (Z_le_gt_dec (rne a b) (rne a' b')) as [|Hgt]; [done|]. exfalso.
  set (m := rne a b) in *. set (m' := rne a' b') in *.
  assert (H1 : (2 * m - 1) * b * b' <= 2 * a * b') by nia. assert (H2 : 2 * a' * b <= (2 * m' + 1) * b' * b) by nia.
  assert (Hm : m = m' + 1) by nia.
  assert (Hlo : 2 * b * m = 2 * a + b) by (apply (Z.mul_cancel_r _ _ b'); nia).
  assert (Hhi : 2 * b' * m' = 2 * a' - b') by (apply (Z.mul_cancel_r _ _ b); nia).
  specialize (He Hlo). specialize (He' Hhi). rewrite Hm, Z.even_add, He' in He. done.
Qed.

Lemma rne_scale a b c : 0 < b -> 0 < c -> rne (a * c) (b * c) = rne a b.
Proof. intros Hb Hc. apply Z.le_antisymm; apply rne_mono; nia. Qed.

(** The rounding record of [a / b], and a shift of it. *)
Definition record_of (a b : Z) : shr_record := shr_record_of_loc (a / b) (loc_of a b).

Lemma record_parts a b : shr_m (record_of a b) = a / b /\ loc_of_shr_record (record_of a b) = loc_of a b.
Proof. unfold record_of. by destruct (loc_of a b) as [|[]]. Qed.

Lemma shr_1_step z r s : 0 <= z ->
  shr_1 {| shr_m := z; shr_r := r; shr_s := s |} = {| shr_m := z / 2; shr_r := z mod 2 =? 1; shr_s := r || s |}.
Proof.
  intros Hz. destruct z as [|[p|p|]|p]; [done| | |done|lia]; cbn [shr_1].
  - rewrite <- (Z.div_unique_pos (Z.pos p~1) 2 (Z.pos p) 1), <- (Z.mod_unique_pos (Z.pos p~1) 2 (Z.pos p) 1) by lia. done.
  - rewrite <- (Z.div_unique_pos (Z.pos p~0) 2 (Z.pos p) 0), <- (Z.mod_unique_pos (Z.pos p~0) 2 (Z.pos p) 0) by lia. done.
Qed.

Lemma shr_1_halves a b : 0 <= a -> 0 < b -> shr_1 (record_of a b) = record_of a (2 * b).
Proof.
  intros Ha Hb. pose proof (Z.div_mod a b ltac:(lia)) as Hd. pose proof (Z.mod_pos_bound a b Hb) as Hm.
  assert (Hq : 0 <= a / b) by (by apply Z.div_pos). pose proof (Z.div_mod (a / b) 2 ltac:(lia)) as Hd2.
  pose proof (Z.mod_pos_bound (a / b) 2 ltac:(lia)) as Hm2. set (c := (a / b) mod 2) in *.
  assert (Hdiv : a / (2 * b) = a / b / 2) by (by rewrite Z.mul_comm, Z.div_div by lia).
  assert (Hmod : a mod (2 * b) = c * b + a mod b).
  { symmetry. apply (Z.mod_unique_pos _ _ (a / b / 2)); nia. }
  assert (Hrec : shr_1 (record_of a b) = {| shr_m := a / b / 2; shr_r := c =? 1; shr_s := negb (a mod b =? 0) |}).
  { unfold record_of, loc_of. destruct (a mod b =? 0); [|destruct (2 * (a mod b) ?= b)];
      cbn [shr_record_of_loc]; by rewrite shr_1_step. }
  rewrite Hrec. unfold record_of, loc_of. rewrite Hdiv, Hmod.
  destruct (Z.eqb_spec c 1) as [->|Hc]; [|replace c with 0 by lia].
  - rewrite (proj2 (Z.eqb_neq (1 * b + a mod b) 0)) by lia. destruct (Z.eqb_spec (a mod b) 0) as [->|Hz].
    + replace (2 * (1 * b + 0) ?= 2 * b) with Eq by (symmetry; apply Z.compare_eq_iff; lia). done.
    + replace (2 * (1 * b + a mod b) ?= 2 * b) with Gt by (symmetry; apply Z.compare_gt_iff; lia). done.
  - rewrite Z.mul_0_l, Z.add_0_l. destruct (Z.eqb_spec (a mod b) 0) as [_|Hz]; [done|].
    replace (2 * (a mod b) ?= 2 * b) with Lt by (symmetry; apply Z.compare_lt_iff; lia). done.
Qed.

Lemma shr_halves p a b : 0 <= a -> 0 < b -> SpecFloat.iter_pos shr_1 p (record_of a b) = record_of a (b * 2 ^ Z.pos p).
Proof.
  intros Ha. revert b; induction p as [p IH|p IH|]; intros b Hb; cbn [SpecFloat.iter_pos];
    pose proof (Z.pow_pos_nonneg 2 (Z.pos p)) as Hp || idtac.
  - rewrite shr_1_halves, !IH by lia. f_equal. change (Z.pos p~1) with (2 * Z.pos p + 1).
    rewrite Z.pow_add_r, Z.pow_twice_r by lia. lia.
  - rewrite !IH by lia. f_equal. change (Z.pos p~0) with (2 * Z.pos p). rewrite Z.pow_twice_r by lia. lia.
  - rewrite shr_1_halves by lia. f_equal. change (2 ^ 1) with 2. lia.
Qed.

Lemma shr_record a b e n : 0 <= a -> 0 < b -> 0 <= n -> shr (record_of a b) e n = (record_of a (b * 2 ^ n), e + n).
Proof.
  intros Ha Hb Hn. destruct n as [|n|n]; [|by cbn [shr]; rewrite shr_halves|lia]. cbn [shr].
  by rewrite Z.pow_0_r, Z.mul_1_r, Z.add_0_r.
Qed.

(** ** Finishing: an integer at an exponent becomes a float *)

(** The exponent of a float below [2^k], and the last step of [binary_round_aux]. *)
Definition fx (k : Z) : Z := fexp 53 1024 k.
Lemma fx_max k : fx k = Z.max (k - 53) (-1074).
Proof. reflexivity. Qed.

Definition make_float (s : bool) (m e : Z) : spec_float :=
  let '(r, e) := shr_fexp 53 1024 m e loc_Exact in
  match shr_m r with
  | Z0 => S754_zero s
  | Z.pos m => if e <=? 1024 - 53 then S754_finite s m e else S754_infinity s
  | Z.neg _ => S754_nan
  end.

(** A mantissa at its own exponent, as the format keeps it. *)
Definition canonical (prec emax : Z) (m : positive) (e : Z) : Prop := fexp prec emax (Z.log2 (Z.pos m) + 1 + e) = e /\ e <= emax - prec.

Lemma digits2_log2 p : Z.pos (digits2_pos p) = Z.log2 (Z.pos p) + 1.
Proof.
  induction p as [p IH|p IH|]; [..|done]; cbn [digits2_pos]; rewrite Pos2Z.inj_succ, IH.
  - change (Z.pos p~1) with (2 * Z.pos p + 1). rewrite Z.log2_succ_double by lia. lia.
  - change (Z.pos p~0) with (2 * Z.pos p). rewrite Z.log2_double by lia. lia.
Qed.

Lemma Zdigits2_log2 z : 0 < z -> Zdigits2 z = Z.log2 z + 1.
Proof. destruct z as [|p|p]; intros Hz; [lia|apply digits2_log2|lia]. Qed.

(** The value of a float in units of [2^-1074] is [m * 2^k]. *)
Lemma make_float_cases s m k : 0 <= k -> 0 <= m <= 2 ^ 53 -> (k = 0 \/ 2 ^ 52 <= m) ->
  (m = 0 /\ make_float s m (k - 1074) = S754_zero s) \/
  (exists v e, make_float s m (k - 1074) = S754_finite s v e /\ canonical 53 1024 v e /\ -1074 <= e /\ m * 2 ^ k = Z.pos v * 2 ^ (e + 1074)) \/
  (make_float s m (k - 1074) = S754_infinity s /\ 2 ^ 2098 <= m * 2 ^ k).
Proof.
  intros Hk Hm Hn. destruct m as [|m|m]; [|right|lia].
  { left. split; [done|]. unfold make_float, shr_fexp. change (Zdigits2 0) with 0. rewrite Z.add_0_l.
    fold (fx (k - 1074)). assert (Hk0 : k = 0) by lia. subst k. done. }
  assert (Hl : 0 <= Z.log2 (Z.pos m)) by apply Z.log2_nonneg.
  destruct (Z.eq_dec (Z.pos m) (2 ^ 53)) as [Hc|Hc].
  - assert (Hf : make_float s (Z.pos m) (k - 1074) = if k - 1073 <=? 971 then S754_finite s (2 ^ 52) (k - 1073) else S754_infinity s).
    { unfold make_float, shr_fexp. rewrite Zdigits2_log2, Hc by lia. change (Z.log2 (2 ^ 53)) with 53. fold (fx (53 + 1 + (k - 1074))).
      replace (fx (53 + 1 + (k - 1074)) - (k - 1074)) with 1 by (rewrite fx_max; lia). cbn [shr SpecFloat.iter_pos shr_record_of_loc].
      change (shr_m (shr_1 _)) with (2 ^ 52). cbn [Z.pow Z.pow_pos Pos.iter Z.mul Pos.mul].
      replace (k - 1074 + 1) with (k - 1073) by lia. done. }
    rewrite Hf. destruct (Z.leb_spec (k - 1073) 971); [left|right]; [|split; [done|]].
    + exists (2 ^ 52)%positive, (k - 1073). split_and!; [done| |lia|].
      * split; [|lia]. change (Z.log2 (Z.pos (2 ^ 52))) with 52. fold (fx (52 + 1 + (k - 1073))). rewrite fx_max. lia.
      * rewrite Hc. replace (k - 1073 + 1074) with (k + 1) by lia. rewrite Z.pow_add_r by lia. lia.
    + rewrite Hc, <- Z.pow_add_r by lia. apply Z.pow_le_mono_r; lia.
  - assert (Hlt : Z.log2 (Z.pos m) < 53) by (apply Z.log2_lt_pow2; lia).
    assert (Hfx : fx (Z.log2 (Z.pos m) + 1 + (k - 1074)) = k - 1074).
    { rewrite fx_max. destruct Hn as [->|Hn]; [lia|]. assert (52 <= Z.log2 (Z.pos m)) by (by apply Z.log2_le_pow2). lia. }
    assert (Hf : make_float s (Z.pos m) (k - 1074) = if k - 1074 <=? 971 then S754_finite s m (k - 1074) else S754_infinity s).
    { unfold make_float, shr_fexp. rewrite Zdigits2_log2 by lia. fold (fx (Z.log2 (Z.pos m) + 1 + (k - 1074))). by rewrite Hfx, Z.sub_diag. }
    rewrite Hf. destruct (Z.leb_spec (k - 1074) 971); [left|right].
    + exists m, (k - 1074). split_and!; [done|by split|lia|]. do 2 f_equal. lia.
    + split; [done|]. assert (Hm52 : 2 ^ 52 <= Z.pos m) by lia.
      assert (2 ^ 2046 <= 2 ^ k) by (apply Z.pow_le_mono_r; lia). replace 2098 with (52 + 2046) by lia. rewrite Z.pow_add_r by lia. nia.
Qed.

Lemma canonical_unique v e v' e' : canonical 53 1024 v e -> canonical 53 1024 v' e' -> -1074 <= e -> -1074 <= e' ->
  Z.pos v * 2 ^ (e + 1074) = Z.pos v' * 2 ^ (e' + 1074) -> v = v' /\ e = e'.
Proof.
  intros [Hc _] [Hc' _] He He' Heq. pose proof (f_equal Z.log2 Heq) as Hl. rewrite !Z.log2_mul_pow2 in Hl by lia.
  assert (e = e') as <-; [|split; [|done]].
  - rewrite <- Hc, <- Hc'. f_equal. lia.
  - assert (0 < 2 ^ (e + 1074)) by (apply Z.pow_pos_nonneg; lia). assert (Z.pos v = Z.pos v') by nia. congruence.
Qed.

(** ** Rounding is the nearest integer at the right exponent *)

Lemma round_quotient s a b e : 0 <= a -> 0 < b ->
  let E := Z.max e (fx (Zdigits2 (a / b) + e)) in
  binary_round_aux 53 1024 s (a / b) e (loc_of a b) = make_float s (rne a (b * 2 ^ (E - e))) E.
Proof.
  intros Ha Hb E. unfold binary_round_aux, shr_fexp at 1. fold (fx (Zdigits2 (a / b) + e)). fold (record_of a b).
  assert (Hs : shr (record_of a b) e (fx (Zdigits2 (a / b) + e) - e) = (record_of a (b * 2 ^ (E - e)), E)).
  { unfold E. destruct (Z.max_spec e (fx (Zdigits2 (a / b) + e))) as [[Hl ->]|[Hl ->]].
    - rewrite shr_record by lia. f_equal. lia.
    - rewrite Z.sub_diag, Z.pow_0_r, Z.mul_1_r. destruct (fx _ - e) as [|p|p] eqn:Ep; [done|lia|done]. }
  rewrite Hs. destruct (record_parts a (b * 2 ^ (E - e))) as [-> ->]. reflexivity.
Qed.

(** [n / d] is rounded at the unit [2^(k - 1074)]: that is its [k]. *)
Definition unit_of (n d k : Z) : Prop :=
  0 <= k /\ n * 2 ^ 1074 < d * 2 ^ (k + 53) /\ (k = 0 \/ d * 2 ^ (k + 52) <= n * 2 ^ 1074).

Lemma round_rational s n d e : 0 < n -> 0 < d -> -1074 <= e <= 0 ->
  (forall k, -1074 <= k -> n * 2 ^ 1074 < d * 2 ^ (k + 1074) -> e <= fx k) ->
  exists k, unit_of n d k /\
    binary_round_aux 53 1024 s (n * 2 ^ (- e) / d) e (loc_of (n * 2 ^ (- e)) d) = make_float s (rne (n * 2 ^ 1074) (d * 2 ^ k)) (k - 1074).
Proof.
  intros Hn Hd He Hfit. set (a := n * 2 ^ (- e)). assert (Ha : 0 < a) by (unfold a; pose proof (Z.pow_pos_nonneg 2 (- e)); nia).
  set (u := 2 ^ (e + 1074)). assert (Hu : 0 < u) by (apply Z.pow_pos_nonneg; lia).
  assert (Hx : n * 2 ^ 1074 = a * u).
  { unfold a, u. rewrite <- Z.mul_assoc, <- Z.pow_add_r by lia. do 2 f_equal. lia. }
  assert (Hscale : forall w, 0 <= w -> d * 2 ^ (e + w + 1074) = d * 2 ^ w * u).
  { intros w Hw. unfold u. rewrite <- Z.mul_assoc, <- Z.pow_add_r by lia. do 2 f_equal. lia. }
  assert (Hk : exists k, unit_of n d k /\ Z.max e (fx (Zdigits2 (a / d) + e)) = k - 1074 /\ e <= k - 1074).
  { pose proof (Z.div_mod a d ltac:(lia)) as Hdm. pose proof (Z.mod_pos_bound a d Hd) as Hm.
    destruct (Z.eq_dec (a / d) 0) as [Hq|Hq].
    - exists 0. rewrite Hq in *. change (Zdigits2 0) with 0. rewrite Z.add_0_l. assert (Hlt : n * 2 ^ 1074 < d * 2 ^ (e + 1074)).
      { specialize (Hscale 0 ltac:(lia)). rewrite Z.add_0_r, Z.pow_0_r, Z.mul_1_r in Hscale. rewrite Hscale, Hx. nia. }
      pose proof (Hfit e ltac:(lia) Hlt) as Hf. rewrite fx_max in *. assert (e = -1074) as -> by lia.
      split; [|split; lia]. split_and!; [lia| |by left]. change (-1074 + 1074) with 0 in Hlt. rewrite Z.pow_0_r in Hlt.
      assert (1 < 2 ^ (0 + 53)) by lia. nia.
    - assert (Hpos : 0 < a / d) by (assert (0 <= a / d) by (apply Z.div_pos; lia); lia).
      set (D := Z.log2 (a / d)). assert (HD : 0 <= D) by apply Z.log2_nonneg. pose proof (Z.log2_spec _ Hpos) as [Hlo Hhi]. fold D in Hlo, Hhi.
      rewrite Z.pow_succ_r in Hhi by lia. rewrite Zdigits2_log2 by done. fold D. set (k := D + 1 + e).
      assert (H2 : 0 < 2 ^ D) by (by apply Z.pow_pos_nonneg).
      assert (Ha1 : a < d * (2 * 2 ^ D)) by nia. assert (Ha2 : d * 2 ^ D <= a) by nia.
      assert (Habove : n * 2 ^ 1074 < d * 2 ^ (k + 1074)).
      { unfold k. replace (D + 1 + e + 1074) with (e + (D + 1) + 1074) by lia. rewrite Hscale, Hx, Z.pow_add_r by lia.
        change (2 ^ 1) with 2. nia. }
      assert (Hbelow : d * 2 ^ (k - 1 + 1074) <= n * 2 ^ 1074).
      { unfold k. replace (D + 1 + e - 1 + 1074) with (e + D + 1074) by lia. rewrite Hscale, Hx by lia. nia. }
      pose proof (Hfit k ltac:(lia) Habove) as Hf. exists (fx k + 1074). rewrite fx_max in *. split; [|split; lia].
      split_and!; [lia| |].
      + eapply Z.lt_le_trans; [exact Habove|]. apply Z.mul_le_mono_nonneg_l; [lia|]. apply Z.pow_le_mono_r; lia.
      + destruct (Z_le_gt_dec (k - 53) (-1074)); [left; lia|right]. eapply Z.le_trans; [|exact Hbelow].
        apply Z.mul_le_mono_nonneg_l; [lia|]. apply Z.pow_le_mono_r; lia. }
  destruct Hk as (k & Hunit & HE & Hle). exists k. split; [exact Hunit|]. rewrite round_quotient by lia. cbv zeta. rewrite HE. f_equal.
  rewrite Hx. replace (d * 2 ^ k) with (d * 2 ^ (k - 1074 - e) * u); [symmetry; apply rne_scale; [|done]|].
  - pose proof (Z.pow_pos_nonneg 2 (k - 1074 - e)). nia.
  - rewrite <- Hscale by lia. do 2 f_equal. lia.
Qed.

(** ** Decimals *)

(** [n * 10^j] as a fraction. *)
Definition above (n j : Z) : Z := n * 10 ^ Z.max 0 j.
Definition below (j : Z) : Z := 10 ^ Z.max 0 (- j).

Lemma below_pos j : 0 < below j.
Proof. apply Z.pow_pos_nonneg; lia. Qed.
Lemma above_pos n j : 0 < n -> 0 < above n j.
Proof. intros Hn. unfold above. pose proof (Z.pow_pos_nonneg 10 (Z.max 0 j)). nia. Qed.

Lemma new_location_is a d : 0 < d -> new_location d (a mod d) = loc_of a d.
Proof.
  intros Hd. pose proof (Z.mod_pos_bound a d Hd) as Hm. unfold new_location, new_location_even, new_location_odd, loc_of.
  destruct (Z.even d) eqn:Ed; (destruct (Z.eqb_spec (a mod d) 0); [done|]); [done|]. f_equal.
  assert (Hodd : exists h, d = 2 * h + 1) by (apply Z.odd_spec; by rewrite <- Z.negb_even, Ed). destruct Hodd as [h Hh].
  destruct (Z.compare_spec (2 * (a mod d) + 1) d), (Z.compare_spec (2 * (a mod d)) d); done || lia.
Qed.

Lemma shifted_pos m p : Z.pos (Pos.iter xO m p) = Z.pos m * 2 ^ Z.pos p.
Proof.
  induction p as [|p IH] using Pos.peano_ind; [change (2 ^ 1) with 2; simpl; lia|].
  rewrite Pos.iter_succ, Pos2Z.inj_succ, Z.pow_succ_r by lia. change (Z.pos (Pos.iter xO m p)~0) with (2 * Z.pos (Pos.iter xO m p)). lia.
Qed.

Lemma fraction_rounds s n d : 0 < n -> 0 < d ->
  exists k, unit_of n d k /\
    (let '(q, e, loc) := SFdiv_core_binary 53 1024 n 0 d 0 in binary_round_aux 53 1024 s q e loc) =
      make_float s (rne (n * 2 ^ 1074) (d * 2 ^ k)) (k - 1074).
Proof.
  intros Hn Hd. unfold SFdiv_core_binary. rewrite !Zdigits2_log2, !Z.add_0_r by done.
  fold (fx (Z.log2 n + 1 - (Z.log2 d + 1))). set (e := Z.min _ (0 - 0)). assert (He : -1074 <= e <= 0) by (unfold e; rewrite fx_max; lia).
  destruct (round_rational s n d e Hn Hd He) as (k & Hk & Hr).
  { intros k Hk Hlt. assert (Hl : Z.log2 (n * 2 ^ 1074) <= Z.log2 (d * 2 ^ (k + 1074))) by (apply Z.log2_le_mono; lia).
    rewrite !Z.log2_mul_pow2 in Hl by lia. unfold e. rewrite !fx_max. lia. }
  exists k. split; [exact Hk|]. rewrite <- Hr. replace (0 - 0 - e) with (- e) by lia.
  assert (Hm : match - e with Z.pos _ => Z.shiftl n (- e) | Z0 => n | Z.neg _ => 0 end = n * 2 ^ (- e)).
  { destruct (- e) as [|p|p] eqn:Ep; [lia|by rewrite Z.shiftl_mul_pow2|lia]. }
  rewrite Hm. rewrite (surjective_pairing (Z.div_eucl _ _)). change (fst (Z.div_eucl ?x ?y)) with (x / y).
  change (snd (Z.div_eucl ?x ?y)) with (x mod y). by rewrite new_location_is.
Qed.

Lemma integer_rounds s q :
  exists k, unit_of (Z.pos q) 1 k /\ binary_round 53 1024 s q 0 = make_float s (rne (Z.pos q * 2 ^ 1074) (1 * 2 ^ k)) (k - 1074).
Proof.
  unfold binary_round. rewrite digits2_log2, Z.add_0_r. fold (fx (Z.log2 (Z.pos q) + 1)). set (e := Z.min 0 (fx (Z.log2 (Z.pos q) + 1))).
  assert (Hl : 0 <= Z.log2 (Z.pos q)) by apply Z.log2_nonneg. assert (He : -1074 <= e <= 0) by (unfold e; rewrite fx_max; lia).
  destruct (round_rational s (Z.pos q) 1 e ltac:(lia) ltac:(lia) He) as (k & Hk & Hr).
  { intros k Hk Hlt. rewrite Z.mul_1_l in Hlt. apply Z.log2_lt_pow2 in Hlt; [|lia]. rewrite Z.log2_mul_pow2 in Hlt by lia.
    unfold e. rewrite !fx_max. lia. }
  exists k. split; [exact Hk|]. rewrite <- Hr, Z.div_1_r. unfold loc_of. rewrite Z.mod_1_r. cbn [Z.eqb].
  unfold shl_align. rewrite Z.sub_0_r. unfold e. destruct (fx (Z.log2 (Z.pos q) + 1)) as [|f|f] eqn:Ef.
  - by rewrite Z.mul_1_r.
  - by rewrite Z.mul_1_r.
  - change (Z.min 0 (Z.neg f)) with (Z.neg f). by rewrite shifted_pos.
Qed.

Lemma decimal_rounds s n j : 0 < n ->
  exists k, unit_of (above n j) (below j) k /\
    f64_of_decimal s n j = make_float s (rne (above n j * 2 ^ 1074) (below j * 2 ^ k)) (k - 1074).
Proof.
  intros Hn. pose proof (above_pos n j Hn) as Ha. unfold f64_of_decimal, above, below in *. destruct n as [|n|n]; [lia| |lia].
  destruct (Z.leb_spec 0 j) as [Hj|Hj].
  - rewrite (Z.max_r 0 j), (Z.max_l 0 (- j)) in * by lia. rewrite Z.pow_0_r. destruct (Z.pos n * 10 ^ j) as [|q|q] eqn:Eq; [lia| |lia].
    apply integer_rounds.
  - rewrite (Z.max_l 0 j), (Z.max_r 0 (- j)) in * by lia. rewrite Z.pow_0_r, Z.mul_1_r.
    apply fraction_rounds; [lia|]. apply Z.pow_pos_nonneg; lia.
Qed.

(** ** Rounding is monotone *)

Definition rounded (n d k : Z) : Z := rne (n * 2 ^ 1074) (d * 2 ^ k).

Lemma rounded_range n d k : 0 < n -> 0 < d -> unit_of n d k -> 0 <= rounded n d k <= 2 ^ 53 /\ (k = 0 \/ 2 ^ 52 <= rounded n d k).
Proof.
  intros Hn Hd (Hk & Hhi & Hlo). unfold rounded. assert (Hp : 0 < 2 ^ k) by (by apply Z.pow_pos_nonneg).
  set (b := d * 2 ^ k) in *. assert (Hb : 0 < b) by (unfold b; nia). rewrite Z.pow_add_r in Hhi by lia.
  assert (Hhi' : n * 2 ^ 1074 < b * 2 ^ 53) by (unfold b; lia). assert (Hn' : 0 < n * 2 ^ 1074) by lia.
  destruct (rne_spec (n * 2 ^ 1074) b Hb) as (Hs & _). set (a := n * 2 ^ 1074) in *. split; [split; nia|].
  destruct Hlo as [|Hlo]; [by left|right]. rewrite Z.pow_add_r in Hlo by lia. assert (b * 2 ^ 52 <= a) by (unfold b; lia). nia.
Qed.

Lemma rounded_mono n d k n' d' k' : 0 < n -> 0 < d -> 0 < n' -> 0 < d' -> unit_of n d k -> unit_of n' d' k' ->
  n * d' <= n' * d -> rounded n d k * 2 ^ k <= rounded n' d' k' * 2 ^ k'.
Proof.
  intros Hn Hd Hn' Hd' Hu Hu' Hle. destruct (rounded_range n d k Hn Hd Hu) as [Hr _].
  destruct (rounded_range n' d' k' Hn' Hd' Hu') as [_ Hr']. destruct Hu as (Hk & Hhi & Hlo), Hu' as (Hk' & Hhi' & Hlo').
  assert (Hp : 0 < 2 ^ k) by (by apply Z.pow_pos_nonneg). assert (Hp' : 0 < 2 ^ k') by (by apply Z.pow_pos_nonneg).
  destruct (Z.lt_trichotomy k k') as [Hlt|[<-|Hgt]].
  - assert (H1 : rounded n d k * 2 ^ k <= 2 ^ (53 + k)) by (rewrite Z.pow_add_r by lia; nia).
    assert (H2 : 2 ^ (52 + k') <= rounded n' d' k' * 2 ^ k') by (rewrite Z.pow_add_r by lia; destruct Hr' as [|Hr']; [lia|nia]).
    assert (2 ^ (53 + k) <= 2 ^ (52 + k')) by (apply Z.pow_le_mono_r; lia). lia.
  - apply Z.mul_le_mono_nonneg_r; [lia|]. apply rne_mono; [nia|nia|]. set (w := 2 ^ 1074 * 2 ^ k).
    assert (0 < w) by (unfold w; lia). replace (n * 2 ^ 1074 * (d' * 2 ^ k)) with (n * d' * w) by (unfold w; lia).
    replace (n' * 2 ^ 1074 * (d * 2 ^ k)) with (n' * d * w) by (unfold w; lia). nia.
  - exfalso. destruct Hlo as [|Hlo]; [lia|]. assert (Hpow : 2 ^ (k' + 53) <= 2 ^ (k + 52)) by (apply Z.pow_le_mono_r; lia).
    assert (Hx : n' * 2 ^ 1074 < d' * 2 ^ (k + 52)) by nia. assert (Hw : 0 < 2 ^ 1074) by (apply Z.pow_pos_nonneg; lia). clear -Hlo Hx Hle Hd Hd' Hw.
    revert Hlo Hx Hw. generalize (2 ^ 1074), (2 ^ (k + 52)). intros w z Hlo Hx Hw.
    assert (n * d' * w <= n' * d * w) by nia. nia.
Qed.

(** A decimal between two that read as a float reads as it. *)
Lemma decimal_between s m e n1 j1 n j n2 j2 :
  0 < n1 -> 0 < n -> 0 < n2 -> above n1 j1 * below j <= above n j * below j1 -> above n j * below j2 <= above n2 j2 * below j ->
  f64_of_decimal s n1 j1 = S754_finite s m e -> f64_of_decimal s n2 j2 = S754_finite s m e ->
  f64_of_decimal s n j = S754_finite s m e.
Proof.
  intros Hn1 Hn Hn2 Hle1 Hle2 Hr1 Hr2.
  destruct (decimal_rounds s n1 j1 Hn1) as (k1 & Hu1 & E1), (decimal_rounds s n j Hn) as (k & Hu & ->), (decimal_rounds s n2 j2 Hn2) as (k2 & Hu2 & E2).
  rewrite E1 in Hr1. rewrite E2 in Hr2. clear E1 E2. fold (rounded (above n1 j1) (below j1) k1) in Hr1.
  fold (rounded (above n2 j2) (below j2) k2) in Hr2. fold (rounded (above n j) (below j) k).
  pose proof (rounded_mono _ _ _ _ _ _ (above_pos _ j1 Hn1) (below_pos j1) (above_pos _ j Hn) (below_pos j) Hu1 Hu Hle1) as H1.
  pose proof (rounded_mono _ _ _ _ _ _ (above_pos _ j Hn) (below_pos j) (above_pos _ j2 Hn2) (below_pos j2) Hu Hu2 Hle2) as H2.
  destruct (rounded_range _ _ _ (above_pos _ j1 Hn1) (below_pos j1) Hu1) as [Hg1 Hz1], (rounded_range _ _ _ (above_pos _ j Hn) (below_pos j) Hu) as [Hg Hz],
    (rounded_range _ _ _ (above_pos _ j2 Hn2) (below_pos j2) Hu2) as [Hg2 Hz2].
  destruct (make_float_cases s _ k1 (proj1 Hu1) Hg1 Hz1) as [[_ Hf]|[(v1 & e1 & Hf & Hc1 & He1 & Hv1)|[Hf _]]]; rewrite Hr1 in Hf; try discriminate Hf.
  injection Hf as <- <-.
  destruct (make_float_cases s _ k2 (proj1 Hu2) Hg2 Hz2) as [[_ Hf]|[(v2 & e2 & Hf & Hc2 & He2 & Hv2)|[Hf _]]]; rewrite Hr2 in Hf; try discriminate Hf.
  injection Hf as <- <-. assert (Hv : rounded (above n j) (below j) k * 2 ^ k = Z.pos m * 2 ^ (e + 1074)) by lia.
  assert (Hpe : 0 < 2 ^ (e + 1074)) by (apply Z.pow_pos_nonneg; lia).
  destruct (make_float_cases s _ k (proj1 Hu) Hg Hz) as [[Hzero _]|[(v & e' & -> & Hc & He & Hv')|[_ Hinf]]].
  - rewrite Hzero in Hv. lia.
  - rewrite Hv in Hv'. by destruct (canonical_unique m e v e' Hc1 Hc He1 He Hv') as [<- <-].
  - exfalso. rewrite Hv in Hinf. destruct Hc1 as [Hc1 Hcap]. fold (fx (Z.log2 (Z.pos m) + 1 + e)) in Hc1. rewrite fx_max in Hc1.
    assert (Hm : Z.pos m < 2 ^ 53) by (apply Z.log2_lt_pow2; lia).
    assert (2 ^ (e + 1074) <= 2 ^ 2045) by (apply Z.pow_le_mono_r; lia). replace 2098 with (53 + 2045) in Hinf by lia.
    rewrite (Z.pow_add_r 2 53 2045) in Hinf by lia. nia.
Qed.

(** ** What is rounded fits the format *)

Lemma shr_fexp_exact prec emax m e : 0 <= m -> 0 < prec ->
  let '(r, e') := shr_fexp prec emax m e loc_Exact in
  exists k, 0 <= k /\ r = record_of m (2 ^ k) /\ e' = e + k /\ 3 - emax - prec <= e' /\ shr_m r < 2 ^ prec.
Proof.
  intros Hm Hp. unfold shr_fexp. change (shr_record_of_loc m loc_Exact) with {| shr_m := m; shr_r := false; shr_s := false |}.
  assert (Hr1 : {| shr_m := m; shr_r := false; shr_s := false |} = record_of m 1) by (unfold record_of, loc_of; by rewrite Z.mod_1_r, Z.div_1_r).
  assert (Hshr : shr {| shr_m := m; shr_r := false; shr_s := false |} e (fexp prec emax (Zdigits2 m + e) - e) =
    (record_of m (2 ^ Z.max 0 (fexp prec emax (Zdigits2 m + e) - e)), e + Z.max 0 (fexp prec emax (Zdigits2 m + e) - e))).
  { destruct (fexp prec emax (Zdigits2 m + e) - e) as [|n|n] eqn:En; [|rewrite Hr1|].
    - cbn [shr Z.max Z.compare]. by rewrite Z.add_0_r, Z.pow_0_r, Hr1.
    - rewrite shr_record by lia. rewrite Z.max_r by lia. by rewrite Z.mul_1_l.
    - cbn [shr Z.max Z.compare]. by rewrite Z.add_0_r, Z.pow_0_r, Hr1. }
  rewrite Hshr. set (k := Z.max 0 _). exists k. split_and!; [lia|done|done|unfold k, fexp, emin in *; lia|].
  destruct (record_parts m (2 ^ k)) as [-> _]. assert (Hk : 0 < 2 ^ k) by (apply Z.pow_pos_nonneg; lia).
  apply Z.div_lt_upper_bound; [done|]. rewrite <- Z.pow_add_r by lia. destruct (Z.eq_dec m 0) as [->|Hz]; [apply Z.pow_pos_nonneg; lia|].
  apply Z.log2_lt_pow2; [lia|]. pose proof (Zdigits2_log2 m ltac:(lia)) as Hd. unfold k, fexp. lia.
Qed.

Lemma round_fits prec emax s m e s' v e' : 0 < prec ->
  binary_round_aux prec emax s (Z.pos m) e loc_Exact = S754_finite s' v e' ->
  Z.pos v < 2 ^ prec /\ 3 - emax - prec <= e' <= emax - prec.
Proof.
  intros Hp. unfold binary_round_aux. pose proof (shr_fexp_exact prec emax (Z.pos m) e ltac:(lia) Hp) as H1.
  destruct (shr_fexp prec emax (Z.pos m) e loc_Exact) as [r1 e1]. destruct H1 as (k & Hk & -> & _).
  destruct (record_parts (Z.pos m) (2 ^ k)) as [-> ->]. fold (rne (Z.pos m) (2 ^ k)).
  assert (Hk2 : 0 < 2 ^ k) by (apply Z.pow_pos_nonneg; lia). destruct (rne_spec (Z.pos m) (2 ^ k) Hk2) as ([Hlo _] & _).
  assert (Hm : 0 <= rne (Z.pos m) (2 ^ k)) by nia.
  pose proof (shr_fexp_exact prec emax _ e1 Hm Hp) as H2. destruct (shr_fexp prec emax _ e1 loc_Exact) as [r2 e2].
  destruct H2 as (_ & _ & _ & _ & He2 & Hv). destruct (shr_m r2) as [|w|w]; [done| |done].
  destruct (Z.leb_spec e2 (emax - prec)); [|done]. by intros [= _ <- <-].
Qed.

(** A double narrowed to single precision is a pattern of 32 bits. *)
Lemma single_range bits : 0 <= f32_bits_of_f64 bits < 2 ^ 32.
Proof.
  assert (H : forall f, (forall s m e, f = S754_finite s m e -> Z.pos m < 2 ^ 24 /\ -149 <= e <= 104) ->
    0 <= f32_to_bits f < 2 ^ 32 /\ (f = S754_nan -> f32_to_bits f < 2 ^ 31)).
  { intros [s|s| |s m e] Hf; [by destruct s|by destruct s|done|]. unfold f32_to_bits, to_bits.
    destruct (Hf s m e eq_refl) as [Hm He]. split; [|done]. destruct (Z.ltb_spec (Z.pos m) (2 ^ 23)); [destruct s; lia|].
    rewrite Z.shiftl_mul_pow2 by lia. destruct s; lia. }
  destruct (H (f64_as_f32 (f64_of_bits bits))) as [Hr Hn].
  { intros s m e. destruct (f64_of_bits bits) as [| | |s' m' e']; try discriminate. cbn [f64_as_f32]. unfold binary_round.
    destruct (shl_align _ _ _) as [m1 e1]. intros Hr. by apply round_fits in Hr. }
  unfold f32_bits_of_f64. cbv zeta. destruct (f64_as_f32 (f64_of_bits bits)) eqn:E; try (rewrite Z.add_0_r; exact Hr).
  specialize (Hn eq_refl). destruct (Z.testbit bits 63); lia.
Qed.
