(* ===== verification/DynScalars.v ===== *)
(** * Scalars of dynamic rows

    Models the coercions of [src/dynamic/encode.rs]: JSON values to integers, floats, decimals,
    days, seconds, ticks, enum members, UUIDs and addresses. The JSON value is serde_json's, by
    what the crate sees of it: its constructors, and of a number the answers to [as_u64],
    [as_i64], [as_f64] and its text. *)

From Stdlib Require Import SpecFloat.
From S2P Require Import Prelude Text Errors Json ColTypes ParsedTypes Floats Calendar.

(** ** JSON values *)

Record Number := mk_number {
  num_u64 : option Z;
  num_i64 : option Z;
  num_f64 : option Z;
  num_text : text
}.

Module Jv.
Inductive Value :=
| Null
| Bool (b : bool)
| Number (n : Number)
| String (s : text)
| Array (l : list Value)
| Object (l : list (text * Value)).
End Jv.
Abbreviation Value := Jv.Value.

(** A JSON object: its entries in the order serde_json iterates them, keys distinct. *)
Abbreviation Object := (list (text * Value)).
Definition get (row : Object) (name : text) : option Value := lookup_name name row.

(** serde_json's [Display for Value] and [to_writer] into a vector, and the power of ten of
    [10f64.powi(n)], whose last bit the standard library leaves open. *)
Class JsonText := {
  value_text : Value -> text;
  json_bytes : Value -> result text text;
  powi10 : Z -> SpecFloat.spec_float
}.

Abbreviation DR := (result DynamicError).

Definition enc_err (col : text) (msg : text) : DynamicError := EncodingError col msg.
Definition err {A} (col : text) (msg : string) : DR A := Err (enc_err col (str msg)).

(** ** Integers *)

(** [narrow]: [try_into] to the range of the column. *)
Definition narrow (lo hi value : Z) (col : text) (type_name : string) : DR Z :=
  if (lo <=? value) && (value <? hi) then Ok value
  else Err (enc_err col (str type_name ++ str " value out of range")).
Definition narrow_unsigned (bits value : Z) : text -> string -> DR Z := narrow 0 (2 ^ bits) value.
Definition narrow_signed (bits value : Z) : text -> string -> DR Z := narrow (- 2 ^ (bits - 1)) (2 ^ (bits - 1)) value.

(** [o.or_else(f)]. *)
Definition or_else {A} (o p : option A) : option A := match o with Some a => Some a | None => p end.
(** [T::try_from(v).ok()]. *)
Definition fits (lo hi v : Z) : option Z := if (lo <=? v) && (v <? hi) then Some v else None.

Definition whole_f64_as_u64 (bits : Z) : option Z := v ← f64_whole (f64_of_bits bits); fits 0 (2 ^ 64) v.
Definition whole_f64_as_i64 (bits : Z) : option Z := v ← f64_whole (f64_of_bits bits); fits (- 2 ^ 63) (2 ^ 63) v.

Definition b2z (b : bool) : Z := if b then 1 else 0.

Definition as_u64 (value : Value) (col : text) : DR Z :=
  match value with
  | Jv.Number n =>
      ok_or (or_else (num_u64 n)
        (or_else (v ← num_i64 n; fits 0 (2 ^ 64) v) (v ← num_f64 n; whole_f64_as_u64 v)))
        (enc_err col (str "not a valid unsigned integer"))
  | Jv.Bool b => Ok (b2z b)
  | Jv.String s => ok_or (parse_unsigned 64 (trim s)) (enc_err col (str "string not parseable as u64"))
  | _ => err col "expected number"
  end.

(** The three readings of a number [as_i64] and [as_bool] share. *)
Definition number_i64 (n : Number) : option Z :=
  or_else (num_i64 n) (or_else (v ← num_u64 n; fits (- 2 ^ 63) (2 ^ 63) v) (v ← num_f64 n; whole_f64_as_i64 v)).

Definition as_i64 (value : Value) (col : text) : DR Z :=
  match value with
  | Jv.Number n => ok_or (number_i64 n) (enc_err col (str "not a valid integer"))
  | Jv.Bool b => Ok (b2z b)
  | Jv.String s => ok_or (parse_signed 64 (trim s)) (enc_err col (str "string not parseable as i64"))
  | _ => err col "expected number"
  end.

Definition as_u128 (value : Value) (col : text) : DR Z :=
  match value with
  | Jv.Number n =>
      ok_or (or_else (num_u64 n) (v ← num_i64 n; fits 0 (2 ^ 128) v)) (enc_err col (str "not a valid u128"))
  | Jv.Bool b => Ok (b2z b)
  | Jv.String s => ok_or (parse_unsigned 128 (trim s)) (enc_err col (str "string not parseable as u128"))
  | _ => err col "expected number"
  end.

Definition as_i128 (value : Value) (col : text) : DR Z :=
  match value with
  | Jv.Number n => ok_or (or_else (num_i64 n) (num_u64 n)) (enc_err col (str "not a valid i128"))
  | Jv.Bool b => Ok (b2z b)
  | Jv.String s => ok_or (parse_signed 128 (trim s)) (enc_err col (str "string not parseable as i128"))
  | _ => err col "expected number"
  end.

(** [as_f64], the pattern of the value. *)
Definition as_f64 (value : Value) (col : text) : DR Z :=
  match value with
  | Jv.Number n => ok_or (num_f64 n) (enc_err col (str "not a valid float"))
  | Jv.String s => ok_or (parse_f64_bits (trim s)) (enc_err col (str "string not parseable as f64"))
  | _ => err col "expected number"
  end.

Definition as_bool (value : Value) (col : text) : DR bool :=
  match value with
  | Jv.Bool b => Ok b
  | Jv.Number n =>
      ok_or ((fun v => negb (v =? 0)) <$> number_i64 n) (enc_err col (str "number not parseable as bool"))
  | Jv.String s =>
      let s := to_ascii_lowercase (trim s) in
      if bool_decide (s ∈ [str "true"; str "yes"; str "1"]) then Ok true
      else if bool_decide (s ∈ [str "false"; str "no"; str "0"; []]) then Ok false
      else err col "string not parseable as bool"
  | Jv.Null => Ok false
  | _ => err col "expected bool"
  end.

(** [i128_to_i256_le], [u128_to_u256_le], [as_i256_le], [as_u256_le]: sixteen bytes and the
    extension. *)
Definition i128_to_i256_le (v : Z) : list byte :=
  le_split 16 v ++ replicate 16 (if v <? 0 then xff else x00).
Definition u128_to_u256_le (v : Z) : list byte := le_split 16 v ++ replicate 16 x00.
Definition as_i256_le (value : Value) (col : text) : DR (list byte) := i128_to_i256_le <$> as_i128 value col.
Definition as_u256_le (value : Value) (col : text) : DR (list byte) := u128_to_u256_le <$> as_u128 value col.

(** ** Decimals *)

Definition decimal_tag_for_precision (precision : Z) : TypeTag :=
  if precision <=? 9 then Tt.Decimal32
  else if precision <=? 18 then Tt.Decimal64
  else if precision <=? 38 then Tt.Decimal128
  else Tt.Decimal256.

(** [checked_mul], [checked_add], [checked_neg] on [i128]. *)
Definition checked_i128 (z : Z) : option Z := fits (- 2 ^ 127) (2 ^ 127) z.

(** The digit at [i] of the fraction, 0 past its end. *)
Definition frac_digit (frac : text) (i : nat) : Z := match frac !! i with Some b => digit b | None => 0 end.

Fixpoint scale_loop (frac : text) (acc : Z) (i n : nat) : option Z :=
  match n with
  | O => Some acc
  | S n' => acc ← checked_i128 (acc * 10); acc ← checked_i128 (acc + frac_digit frac i); scale_loop frac acc (S i) n'
  end.

(** [decimal_from_text]. *)
Definition decimal_from_text (s : text) (scale : Z) : option Z :=
  match s with
  | [] => None
  | _ =>
      let '(negative, digits) := sign_of s in
      let '(int_part, frac_part) := default (digits, []) (split_once "."%byte digits) in
      if bool_decide (int_part = []) && bool_decide (frac_part = []) then None
      else if negb (forallb is_digit int_part) || negb (forallb is_digit frac_part) then None
      else
        acc ← match int_part with [] => Some 0 | _ => parse_signed 128 int_part end;
        acc ← scale_loop frac_part acc 0 (Z.to_nat scale);
        acc ← (if 5 <=? frac_digit frac_part (Z.to_nat scale) then checked_i128 (acc + 1) else Some acc);
        if (negative : bool) then checked_i128 (- acc) else Some acc
  end.

(** [2^127] as a float. *)
Definition I128_BOUND : SpecFloat.spec_float := S754_finite false (2 ^ 52) 75.

(** [text.trim_start_matches(['+', '-'])]. *)
Definition unsigned_part (s : text) : text := drop_while (fun b => beq b "+"%byte || beq b "-"%byte) s.

(** [decimal_backing_i128]. *)
Definition decimal_text `{JsonText} (value : Value) (col : text) : DR text :=
  match value with
  | Jv.Number n => Ok (num_text n)
  | Jv.String s => Ok (trim s)
  | Jv.Bool b => Ok (str (if b then "1" else "0"))
  | _ => err col "expected decimal number"
  end.
Definition decimal_backing_i128 `{JsonText} (value : Value) (scale : Z) (col : text) : DR Z :=
  s ← decimal_text value col;
  match decimal_from_text s scale with
  | Some backing => Ok backing
  | None =>
      let digits := unsigned_part s in
      if existsb is_digit digits && forallb (fun b => is_digit b || beq b "."%byte) digits
      then err col "decimal out of range"
      else
        f ← ok_or (parse_f64 s) (enc_err col (str "not parseable as a decimal"));
        let scaled := f64_mul f (powi10 scale) in
        if negb (is_finite scaled) || SFleb I128_BOUND scaled || SFltb scaled (SFopp I128_BOUND)
        then err col "decimal out of range after scaling"
        else Ok (f64_round scaled)
  end.

(** ** Days, seconds and ticks *)

Definition epoch_number (n : Number) : option Z := or_else (num_i64 n) (v ← num_f64 n; whole_f64_as_i64 v).

Definition to_epoch_seconds (value : Value) (col : text) : DR Z :=
  match value with
  | Jv.Number n => epoch_to_seconds <$> ok_or (epoch_number n) (enc_err col (str "invalid epoch number"))
  | Jv.String s =>
      let s := trim s in
      match parse_signed 64 s with
      | Some z => Ok (epoch_to_seconds z)
      | None => fst <$> map_err (enc_err col) (parse_datetime_str s)
      end
  | _ => err col "expected datetime string or epoch number"
  end.

Definition to_i32 (col : text) (z : Z) : DR Z := ok_or (fits (- 2 ^ 31) (2 ^ 31) z) (enc_err col (str "Date out of range")).

(** A bare [YYYY-MM-DD]: ten ASCII bytes with a hyphen after the year. *)
Definition bare_date (value : Value) : option text :=
  match value with
  | Jv.String s =>
      let s := trim s in
      if (length s =? 10)%nat && forallb (fun b => u8 b <? 128) s && bool_decide (s !! 4%nat = Some "-"%byte)
      then Some s else None
  | _ => None
  end.
Definition to_epoch_days (value : Value) (col : text) : DR Z :=
  match bare_date value with
  | Some s =>
      year ← map_err (enc_err col) (field (parse_signed 32) "invalid Date year" 0 4 s);
      month ← map_err (enc_err col) (field (parse_unsigned 32) "invalid Date month" 5 7 s);
      day ← map_err (enc_err col) (field (parse_unsigned 32) "invalid Date day" 8 10 s);
      if negb (check_calendar_day year month day) then err col "invalid Date components"
      else to_i32 col (civil_days_from_epoch year month day)
  | None =>
      secs ← to_epoch_seconds value col;
      to_i32 col (secs / 86400)
  end.

(** [datetime64_to_ticks]: [10i64.pow(precision)] wraps past 18 digits. *)
Definition checked_i64 (col : text) (z : Z) : DR Z :=
  ok_or (fits (- 2 ^ 63) (2 ^ 63) z) (enc_err col (str "DateTime64 epoch overflow")).
Definition datetime64_to_ticks (value : Value) (precision : Z) (col : text) : DR Z :=
  match value with
  | Jv.Number n => ok_or (epoch_number n) (enc_err col (str "invalid DateTime64 number"))
  | Jv.String s =>
      let s := trim s in
      match parse_signed 64 s with
      | Some n => Ok n
      | None =>
          '(secs, frac_nanos) ← map_err (enc_err col) (parse_datetime_str s);
          let multiplier := wrap_signed 64 (10 ^ precision) in
          base ← checked_i64 col (secs * multiplier);
          let frac_scaled := frac_nanos / 10 ^ (Z.max 0 (9 - precision)) in
          checked_i64 col (base + frac_scaled)
      end
  | _ => err col "expected number or datetime string"
  end.

(** ** Enums *)

(** [split_enum_members]: the commas outside quotes. [q] is the open quote. *)
Fixpoint split_enum_loop (q : option byte) (escaped : bool) (cur s : text) : list text :=
  match s with
  | [] => [cur]
  | c :: s' =>
      let go q escaped := split_enum_loop q escaped (cur ++ [c]) s' in
      if escaped then go q false
      else match q with
           | Some quote => if beq c x5c then go q true else if beq c quote then go None false else go q false
           | None =>
               if beq c "'"%byte || beq c x22 then go (Some c) false
               else if beq c ","%byte then cur :: split_enum_loop None false [] s'
               else go None false
           end
  end.
Definition split_enum_members (inner : text) : list text := split_enum_loop None false [] inner.

(** [enum_member_value]: the search stops at a member without [=]. *)
Fixpoint find_member (name : text) (members : list text) : option Z :=
  match members with
  | [] => None
  | member :: rest =>
      '(label, num) ← split_once "="%byte member;
      if bool_decide (unquote label = name) then parse_signed 64 (trim num) else find_member name rest
  end.
Definition enum_member_value (type_str name : text) : option Z :=
  inner ← extract_parens type_str; find_member name (split_enum_members inner).

Definition enum_discriminant (value : Value) (type_str col : text) : DR Z :=
  match value with
  | Jv.Number _ | Jv.Bool _ => as_i64 value col
  | Jv.String s =>
      match parse_signed 64 (trim s) with
      | Some n => Ok n
      | None => ok_or (enum_member_value type_str s) (enc_err col (str "enum string not found in type definition"))
      end
  | _ => err col "expected enum value"
  end.

(** ** UUIDs and addresses *)

(** [value_to_str]. *)
Definition value_to_str `{JsonText} (value : Value) : text :=
  match value with
  | Jv.String s => s
  | Jv.Number n => num_text n
  | Jv.Bool b => str (if b then "true" else "false")
  | Jv.Null => []
  | other => value_text other
  end.

(** [u64::from_str_radix(hex, 16)] of hexadecimal digits. *)
Definition hex_value (b : byte) : option Z :=
  if is_digit b then Some (digit b)
  else if (97 <=? u8 b) && (u8 b <=? 102) then Some (u8 b - 87)
  else if (65 <=? u8 b) && (u8 b <=? 70) then Some (u8 b - 55)
  else None.
Definition is_hex (b : byte) : bool := match hex_value b with Some _ => true | None => false end.
Definition hex_number (s : text) : Z := foldl (fun acc b => acc * 16 + default 0 (hex_value b)) 0 s.

(** The bytes [encode_uuid] appends: high half first, each little-endian. *)
Definition uuid_bytes `{JsonText} (value : Value) (col : text) : DR (list byte) :=
  let hex := filter (fun b => is_hex b = true) (value_to_str value) in
  if negb (length hex =? 32)%nat then err col "invalid UUID length"
  else Ok (le_split 8 (hex_number (take 16 hex)) ++ le_split 8 (hex_number (drop 16 hex))).

(** [Ipv4Addr::from_str]: the standard library's parser, each reader giving a value and what is
    left. [read_number] takes at most [max_digits] digits of a value under [bound]. *)
Fixpoint number_digits (radix : Z) (left : nat) (acc : Z) (n : nat) (s : text) : Z * nat * text :=
  match left, s with
  | S left', b :: s' =>
      match hex_value b with
      | Some d => if d <? radix then number_digits radix left' (acc * radix + d) (S n) s' else (acc, n, s)
      | None => (acc, n, s)
      end
  | _, _ => (acc, n, s)
  end.
Definition ends_number (radix : Z) (s : text) : bool :=
  match s with
  | b :: _ => match hex_value b with Some d => negb (d <? radix) | None => true end
  | [] => true
  end.
Definition read_number (radix : Z) (max_digits : nat) (bound : Z) (zero_prefix : bool) (s : text) : option (Z * text) :=
  let '(v, n, r) := number_digits radix max_digits 0 0 s in
  if (n =? 0)%nat || negb (ends_number radix r) || (bound <=? v)
     || (negb zero_prefix && (1 <? n)%nat && bool_decide (s !! 0%nat = Some "0"%byte)) then None
  else Some (v, r).
Definition read_char (c : byte) (s : text) : option text :=
  match s with b :: r => if beq c b then Some r else None | [] => None end.
Definition read_ipv4 (s : text) : option (Z * text) :=
  let octet := read_number 10 3 256 false in
  '(a, s) ← octet s; s ← read_char "."%byte s;
  '(b, s) ← octet s; s ← read_char "."%byte s;
  '(c, s) ← octet s; s ← read_char "."%byte s;
  '(d, s) ← octet s;
  Some (((a * 256 + b) * 256 + c) * 256 + d, s).
Definition parse_ipv4 (s : text) : option Z :=
  if (15 <? length s)%nat then None
  else match read_ipv4 s with Some (v, []) => Some v | _ => None end.

(** [read_groups]: up to [left] groups, [i] read so far; an IPv4 address may end them. *)
Fixpoint read_groups (left : nat) (i : nat) (s : text) : list Z * bool * text :=
  match left with
  | O => ([], false, s)
  | S left' =>
      let sep r := if (i =? 0)%nat then Some r else read_char ":"%byte r in
      let v4 := if (0 <? left')%nat then s ← sep s; read_ipv4 s else None in
      match v4 with
      | Some (v, r) => ([v / 65536; v mod 65536], true, r)
      | None =>
          match (s ← sep s; read_number 16 4 65536 true s) with
          | Some (g, r) => let '(gs, v4, r) := read_groups left' (S i) r in (g :: gs, v4, r)
          | None => ([], false, s)
          end
      end
  end.
Definition octets (groups : list Z) : list byte := concat (map (fun g => [byte.of_Z (g / 256); byte.of_Z (g mod 256)]) groups).
Definition parse_ipv6 (s : text) : option (list byte) :=
  let '(head, head_ipv4, r) := read_groups 8 0 s in
  '(groups, r) ← (if (length head =? 8)%nat then Some (head, r)
                  else if (head_ipv4 : bool) then None
                  else
                    r ← read_char ":"%byte r; r ← read_char ":"%byte r;
                    let '(tail, _, r) := read_groups (8 - (length head + 1)) 0 r in
                    Some (head ++ replicate (8 - length head - length tail) 0 ++ tail, r));
  match r with [] => Some (octets groups) | _ => None end.

(** The bytes [encode_ipv4] and [encode_ipv6] append. *)
Definition ipv4_bytes `{JsonText} (value : Value) (col : text) : DR (list byte) :=
  let from_text := v ← ok_or (parse_ipv4 (value_to_str value)) (enc_err col (str "invalid IPv4")); Ok (le_split 4 v) in
  match value with
  | Jv.Number n =>
      match num_u64 n with
      | Some u => v ← narrow_unsigned 32 u col "IPv4"; Ok (le_split 4 v)
      | None => from_text
      end
  | _ => from_text
  end.
Definition ipv6_bytes `{JsonText} (value : Value) (col : text) : DR (list byte) :=
  ok_or (parse_ipv6 (value_to_str value)) (enc_err col (str "invalid IPv6")).

Example ipv4_one : parse_ipv4 (str "127.0.0.1") = Some 0x7F000001. Proof. reflexivity. Qed.
Example ipv4_octal : parse_ipv4 (str "127.0.0.01") = None. Proof. reflexivity. Qed.
Example ipv6_loopback : parse_ipv6 (str "::1") = Some (replicate 15 x00 ++ [x01]). Proof. reflexivity. Qed.
Example ipv6_mapped : parse_ipv6 (str "::ffff:1.2.3.4") = Some (replicate 10 x00 ++ [xff; xff; x01; x02; x03; x04]). Proof. reflexivity. Qed.
Example ipv6_full : parse_ipv6 (str "2001:db8:0:1:2:3:4:5") = Some (octets [0x2001; 0xdb8; 0; 1; 2; 3; 4; 5]). Proof. reflexivity. Qed.
Example ipv6_long : parse_ipv6 (str "1:2:3:4:5:6:7:8:9") = None. Proof. reflexivity. Qed.
Example enum_comma : enum_member_value (str "Enum8('a,b' = 1, 'c' = -2)") (str "a,b") = Some 1. Proof. reflexivity. Qed.
(** A label with an equals sign is not found. *)
Example enum_equals : enum_member_value (str "Enum8('a=b' = 1)") (str "a=b") = None. Proof. reflexivity. Qed.
Example decimal_half_up : decimal_from_text (str "-1.005") 2 = Some (-101). Proof. reflexivity. Qed.

(** ** Lemmas: decimals *)

(** The value of a run of digits. *)
Definition digits_value (s : text) : Z := foldl (fun acc b => acc * 10 + digit b) 0 s.

(** The first [n] digits of a fraction from its [i]-th, zeros past its end. *)
Fixpoint leading (frac : text) (i n : nat) : Z :=
  match n with
  | O => 0
  | S n' => frac_digit frac i * 10 ^ Z.of_nat n' + leading frac (S i) n'
  end.

(** [N / 10^k] scaled by [10^scale], halves rounded up. *)
Definition scaled_half_up (N : Z) (k : nat) (scale : Z) : Z :=
  (2 * N * 10 ^ scale + 10 ^ Z.of_nat k) / (2 * 10 ^ Z.of_nat k).

Lemma frac_digit_range frac i : Forall (fun b => is_digit b = true) frac -> 0 <= frac_digit frac i <= 9.
Proof.
  intros Hf. unfold frac_digit. destruct (frac !! i) as [b|] eqn:E; [|lia].
  pose proof (Forall_lookup_1 _ _ _ _ Hf E) as Hb. cbn in Hb. unfold is_digit, digit in *.
  apply andb_true_iff in Hb as [?%Z.leb_le ?%Z.leb_le]. lia.
Qed.

Lemma leading_nonneg frac i n : Forall (fun b => is_digit b = true) frac -> 0 <= leading frac i n.
Proof.
  intros Hf. revert i; induction n as [|n IH]; intros i; cbn [leading]; [lia|].
  pose proof (frac_digit_range frac i Hf). pose proof (IH (S i)). pose proof (Z.pow_pos_nonneg 10 (Z.of_nat n)). nia.
Qed.

Lemma checked_i128_spec z : - 2 ^ 127 <= z -> checked_i128 z = if z <? 2 ^ 127 then Some z else None.
Proof. intros Hz. unfold checked_i128, fits. by rewrite (proj2 (Z.leb_le _ _)) by lia. Qed.

(** The loop is exact until it leaves the range, and then stays out of it. *)
Lemma scale_loop_exact frac n : Forall (fun b => is_digit b = true) frac -> forall acc i, 0 <= acc < 2 ^ 127 ->
  scale_loop frac acc i n =
    (let v := acc * 10 ^ Z.of_nat n + leading frac i n in if v <? 2 ^ 127 then Some v else None).
Proof.
  intros Hf. induction n as [|n IH]; intros acc i Ha; cbv zeta.
  - cbn [scale_loop leading]. change (10 ^ Z.of_nat 0) with 1. rewrite (proj2 (Z.ltb_lt _ _)) by lia. f_equal. lia.
  - cbn [scale_loop leading]. pose proof (frac_digit_range frac i Hf) as Hd. pose proof (leading_nonneg frac (S i) n Hf) as Hl.
    assert (Hp : 1 <= 10 ^ Z.of_nat n) by (pose proof (Z.pow_pos_nonneg 10 (Z.of_nat n)); lia).
    assert (Hv : acc * 10 ^ Z.of_nat (S n) + (frac_digit frac i * 10 ^ Z.of_nat n + leading frac (S i) n) =
      (acc * 10 + frac_digit frac i) * 10 ^ Z.of_nat n + leading frac (S i) n).
    { rewrite Nat2Z.inj_succ, Z.pow_succ_r by lia. lia. }
    rewrite Hv, checked_i128_spec by lia. destruct (Z.ltb_spec (acc * 10) (2 ^ 127)).
    + cbn [mbind option_bind]. rewrite checked_i128_spec by lia.
      destruct (Z.ltb_spec (acc * 10 + frac_digit frac i) (2 ^ 127)); [by apply IH; lia|].
      rewrite (proj2 (Z.ltb_ge _ _)); [done|nia].
    + rewrite (proj2 (Z.ltb_ge _ _)); [done|nia].
Qed.

Lemma digits_value_cons b s : digits_value (b :: s) = digit b * 10 ^ Z.of_nat (length s) + digits_value s.
Proof.
  unfold digits_value. cbn [foldl length]. rewrite Z.mul_0_l, Z.add_0_l.
  assert (Hg : forall acc, foldl (fun acc b => acc * 10 + digit b) acc s =
    acc * 10 ^ Z.of_nat (length s) + foldl (fun acc b => acc * 10 + digit b) 0 s).
  { induction s as [|c s IH]; intros acc; cbn [foldl length]; [change (10 ^ Z.of_nat 0) with 1; lia|].
    rewrite IH, (IH (0 * 10 + digit c)), Nat2Z.inj_succ, Z.pow_succ_r by lia. lia. }
  apply Hg.
Qed.

Lemma leading_cons b frac n i : leading (b :: frac) (S i) n = leading frac i n.
Proof. revert i; induction n as [|n IH]; intros i; cbn [leading]; [done|]. by rewrite IH. Qed.

(** The leading digits of a fraction are its scaled integer part. *)
Lemma leading_quotient frac n :
  Forall (fun b => is_digit b = true) frac ->
  leading frac 0 n = digits_value frac * 10 ^ Z.of_nat n / 10 ^ Z.of_nat (length frac).
Proof.
  intros Hf. revert n; induction Hf as [|b frac Hb Hf IH]; intros n.
  - assert (Hz : forall i, leading [] i n = 0) by (induction n as [|n IH]; intros i; cbn [leading]; [done|by rewrite IH]).
    by rewrite Hz.
  - destruct n as [|n].
    + cbn [leading]. symmetry. apply Z.div_small. change (10 ^ Z.of_nat 0) with 1. rewrite Z.mul_1_r.
      clear IH. assert (Hb' : Forall (fun b => is_digit b = true) (b :: frac)) by by constructor.
      revert Hb'. generalize (b :: frac). intros l Hl. induction Hl as [|c l Hc Hl IH]; [done|].
      rewrite digits_value_cons. cbn [length]. rewrite Nat2Z.inj_succ, Z.pow_succ_r by lia.
      unfold is_digit, digit in *. apply andb_true_iff in Hc as [?%Z.leb_le ?%Z.leb_le]. nia.
    + cbn [leading length]. change (frac_digit (b :: frac) 0) with (digit b). rewrite leading_cons, IH, digits_value_cons.
      rewrite !Nat2Z.inj_succ, !Z.pow_succ_r by lia.
      assert (H10 : 0 < 10 ^ Z.of_nat (length frac)) by (apply Z.pow_pos_nonneg; lia).
      replace ((digit b * 10 ^ Z.of_nat (length frac) + digits_value frac) * (10 * 10 ^ Z.of_nat n))
        with (10 * (digits_value frac * 10 ^ Z.of_nat n + (digit b * 10 ^ Z.of_nat n) * 10 ^ Z.of_nat (length frac))) by lia.
      rewrite Z.div_mul_cancel_l, Z.div_add by lia. lia.
Qed.

Lemma leading_last frac i n : leading frac i (S n) = 10 * leading frac i n + frac_digit frac (i + n)%nat.
Proof.
  revert i; induction n as [|n IH]; intros i.
  - cbn [leading]. change (10 ^ Z.of_nat 0) with 1. rewrite Nat.add_0_r. lia.
  - change (leading frac i (S (S n))) with (frac_digit frac i * 10 ^ Z.of_nat (S n) + leading frac (S i) (S n)).
    rewrite IH. cbn [leading]. rewrite Nat2Z.inj_succ, Z.pow_succ_r by lia.
    replace (S i + n)%nat with (i + S n)%nat by lia. lia.
Qed.

(** Looking at the first dropped digit is rounding half up. *)
Lemma half_up_digit frac scale :
  Forall (fun b => is_digit b = true) frac -> 0 <= scale ->
  leading frac 0 (Z.to_nat scale) + (if 5 <=? frac_digit frac (Z.to_nat scale) then 1 else 0) =
    scaled_half_up (digits_value frac) (length frac) scale.
Proof.
  intros Hf Hs. pose proof (leading_last frac 0 (Z.to_nat scale)) as Hl. rewrite Nat.add_0_l in Hl.
  rewrite !leading_quotient, Nat2Z.inj_succ, Z2Nat.id, Z.pow_succ_r in Hl by (done || lia).
  rewrite leading_quotient, Z2Nat.id by done. unfold scaled_half_up.
  pose proof (frac_digit_range frac (Z.to_nat scale) Hf) as Hd. revert Hl Hd.
  assert (H10 : 0 < 10 ^ Z.of_nat (length frac)) by (apply Z.pow_pos_nonneg; lia).
  replace (digits_value frac * (10 * 10 ^ scale)) with (10 * (digits_value frac * 10 ^ scale)) by lia.
  replace (2 * digits_value frac * 10 ^ scale) with (2 * (digits_value frac * 10 ^ scale)) by lia.
  generalize (digits_value frac * 10 ^ scale) (frac_digit frac (Z.to_nat scale)). intros A d.
  revert H10. generalize (10 ^ Z.of_nat (length frac)). intros B HB Hl Hd.
  pose proof (Z.div_mod A B ltac:(lia)) as H1. pose proof (Z.mod_pos_bound A B HB) as H2.
  pose proof (Z.div_mod (10 * A) B ltac:(lia)) as H3. pose proof (Z.mod_pos_bound (10 * A) B HB) as H4.
  rewrite Hl in H3. set (q := A / B) in *. set (a := A mod B) in *.
  destruct (Z.leb_spec 5 d).
  - apply (Z.div_unique_pos _ _ _ (2 * a - B)); nia.
  - rewrite Z.add_0_r. apply (Z.div_unique_pos _ _ _ (2 * a + B)); nia.
Qed.

Lemma parse_digits_value s acc :
  Forall (fun b => is_digit b = true) s -> parse_digits acc s = Some (foldl (fun acc b => acc * 10 + digit b) acc s).
Proof. intros Hs. revert acc; induction Hs as [|b s Hb Hs IH]; intros acc; cbn [parse_digits foldl]; [done|]. by rewrite Hb. Qed.

Lemma parse_digits_none s acc : forallb is_digit s = false -> parse_digits acc s = None.
Proof. revert acc; induction s as [|b s IH]; intros acc Hs; [done|]. cbn [forallb parse_digits] in *. destruct (is_digit b); [by apply IH|done]. Qed.

Lemma digits_value_nonneg s : Forall (fun b => is_digit b = true) s -> 0 <= digits_value s.
Proof.
  induction 1 as [|b s Hb Hs IH]; [done|]. rewrite digits_value_cons. unfold is_digit, digit in *.
  apply andb_true_iff in Hb as [?%Z.leb_le ?%Z.leb_le]. pose proof (Z.pow_pos_nonneg 10 (Z.of_nat (length s))). nia.
Qed.

Lemma digits_value_app s t : digits_value (s ++ t) = digits_value s * 10 ^ Z.of_nat (length t) + digits_value t.
Proof.
  induction s as [|b s IH]; [done|]. cbn [app]. rewrite !digits_value_cons, IH, length_app, Nat2Z.inj_add, Z.pow_add_r by lia. lia.
Qed.

Lemma digits_forallb s : Forall (fun b => is_digit b = true) s -> forallb is_digit s = true.
Proof. induction 1 as [|b s Hb Hs IH]; [done|]. cbn [forallb]. by rewrite Hb. Qed.

(** The value of the integer part, where it fits. *)
Lemma int_part_value ip :
  Forall (fun b => is_digit b = true) ip ->
  match ip with [] => Some 0 | _ => parse_signed 128 ip end =
    if digits_value ip <? 2 ^ 127 then Some (digits_value ip) else None.
Proof.
  intros Hd. destruct Hd as [|b s Hb Hs]; [done|]. unfold parse_signed. rewrite !(digit_not b) by done.
  unfold parse_nat_digits. rewrite parse_digits_value by (by constructor). done.
Qed.

Lemma half_up_split ip fp scale :
  0 <= scale ->
  scaled_half_up (digits_value (ip ++ fp)) (length fp) scale =
    digits_value ip * 10 ^ scale + scaled_half_up (digits_value fp) (length fp) scale.
Proof.
  intros Hs. unfold scaled_half_up. rewrite digits_value_app.
  assert (H10 : 0 < 10 ^ Z.of_nat (length fp)) by (apply Z.pow_pos_nonneg; lia).
  rewrite <- Z.div_add_l by lia. f_equal. lia.
Qed.

Lemma signed_checked negative z :
  0 <= z < 2 ^ 127 -> (if (negative : bool) then checked_i128 (- z) else Some z) = Some (with_sign negative z).
Proof. intros Hz. destruct negative; [|done]. rewrite checked_i128_spec by lia. by rewrite (proj2 (Z.ltb_lt _ _)) by lia. Qed.

Lemma scaled_parts ip fp scale (negative : bool) :
  Forall (fun b => is_digit b = true) ip -> Forall (fun b => is_digit b = true) fp -> 0 <= scale ->
  (acc ← match ip with [] => Some 0 | _ => parse_signed 128 ip end;
   acc ← scale_loop fp acc 0 (Z.to_nat scale);
   acc ← (if 5 <=? frac_digit fp (Z.to_nat scale) then checked_i128 (acc + 1) else Some acc);
   if negative then checked_i128 (- acc) else Some acc) =
    (let r := scaled_half_up (digits_value (ip ++ fp)) (length fp) scale in
     if r <? 2 ^ 127 then Some (with_sign negative r) else None).
Proof.
  intros Hi Hf Hs. cbv zeta. rewrite half_up_split, <- half_up_digit, int_part_value by done.
  pose proof (digits_value_nonneg ip Hi) as H0. pose proof (leading_nonneg fp 0 (Z.to_nat scale) Hf) as Hl.
  assert (H10 : 1 <= 10 ^ scale) by (pose proof (Z.pow_pos_nonneg 10 scale); lia).
  set (u := if 5 <=? frac_digit fp (Z.to_nat scale) then 1 else 0).
  destruct (Z.ltb_spec (digits_value ip) (2 ^ 127)) as [Hlt|Hge].
  - cbn [mbind option_bind]. rewrite scale_loop_exact by (done || lia). cbv zeta. rewrite Z2Nat.id by done.
    set (v := digits_value ip * 10 ^ scale + leading fp 0 (Z.to_nat scale)).
    assert (Hv : 0 <= v) by (subst v; nia).
    replace (digits_value ip * 10 ^ scale + (leading fp 0 (Z.to_nat scale) + u)) with (v + u) by (subst v; lia).
    destruct (Z.ltb_spec v (2 ^ 127)) as [Hvl|Hvg].
    + cbn [mbind option_bind]. subst u. destruct (5 <=? frac_digit fp (Z.to_nat scale)).
      * rewrite checked_i128_spec by lia. destruct (Z.ltb_spec (v + 1) (2 ^ 127)); [|done]. cbn [mbind option_bind].
        apply signed_checked. lia.
      * cbn [mbind option_bind]. rewrite Z.add_0_r, (proj2 (Z.ltb_lt _ _)) by done. by apply signed_checked.
    + cbn [mbind option_bind]. rewrite (proj2 (Z.ltb_ge _ _)); [done|]. subst u. case_match; lia.
  - cbn [mbind option_bind]. rewrite (proj2 (Z.ltb_ge _ _)); [done|]. assert (0 <= u) by (subst u; case_match; lia). nia.
Qed.

(** A plain decimal literal. *)
Definition decimal_literal (sign : option bool) (ip fp : text) (dotted : bool) : text :=
  match sign with Some true => str "-" | Some false => str "+" | None => [] end ++ ip ++ (if dotted then str "." ++ fp else []).

Lemma split_digits ip fp (dotted : bool) :
  Forall (fun b => is_digit b = true) ip -> (dotted = false -> fp = []) ->
  default (ip ++ (if dotted then str "." ++ fp else []), []) (split_once "."%byte (ip ++ (if dotted then str "." ++ fp else []))) = (ip, fp).
Proof.
  intros Hi Hf. assert (Hdot : "."%byte ∉ ip) by (intros H; by apply (proj1 (Forall_forall _ _) Hi) in H).
  destruct dotted.
  - change (str ".") with ["."%byte]. by rewrite (split_once_two "."%byte ip fp).
  - rewrite Hf by done. by rewrite app_nil_r, split_once_none.
Qed.

(** A literal is scaled to the integer next to its value, or overflows. *)
Lemma literal_scaled sign ip fp dotted scale :
  Forall (fun b => is_digit b = true) ip -> Forall (fun b => is_digit b = true) fp ->
  ip ++ fp <> [] -> (dotted = false -> fp = []) -> 0 <= scale ->
  decimal_from_text (decimal_literal sign ip fp dotted) scale =
    (let r := scaled_half_up (digits_value (ip ++ fp)) (length fp) scale in
     if r <? 2 ^ 127 then Some (with_sign (default false sign) r) else None).
Proof.
  intros Hi Hf Hne Hdot Hs. rewrite <- (scaled_parts ip fp scale) by done.
  set (body := ip ++ (if dotted then str "." ++ fp else [])).
  assert (Hsign : sign_of (decimal_literal sign ip fp dotted) = (default false sign, body) /\ decimal_literal sign ip fp dotted <> []).
  { unfold decimal_literal. fold body. destruct sign as [[]|]; [done|done|]. cbn [app default].
    assert (Hb : exists b r, body = b :: r /\ (is_digit b = true \/ b = "."%byte)).
    { subst body. destruct Hi as [|b r Hb Hi]; [|by eauto]. destruct dotted; [by eauto|]. by rewrite Hdot in Hne. }
    destruct Hb as (b & r & -> & Hb). split; [|done]. unfold sign_of.
    destruct Hb as [Hb | ->]; [by rewrite !(digit_not b)|done]. }
  destruct Hsign as [Hsign Hnn]. unfold decimal_from_text. destruct (decimal_literal sign ip fp dotted) as [|c s] eqn:El; [done|].
  rewrite Hsign. subst body. rewrite split_digits by done.
  rewrite !digits_forallb by done. cbn [negb orb].
  assert (Hemp : bool_decide (ip = []) && bool_decide (fp = []) = false).
  { apply andb_false_iff. destruct ip; [right|by left]. destruct fp; [done|done]. }
  by rewrite Hemp.
Qed.

(** The guard behind it knows a literal: it is refused, not rounded as a float. *)
Lemma literal_guarded sign ip fp (dotted : bool) :
  Forall (fun b => is_digit b = true) ip -> Forall (fun b => is_digit b = true) fp -> ip ++ fp <> [] -> (dotted = false -> fp = []) ->
  let digits := unsigned_part (decimal_literal sign ip fp dotted) in
  existsb is_digit digits && forallb (fun b => is_digit b || beq b "."%byte) digits = true.
Proof.
  intros Hi Hf Hne Hdot. cbv zeta. set (body := ip ++ (if dotted then str "." ++ fp else [])).
  assert (Hall : Forall (fun b => is_digit b = true \/ b = "."%byte) body).
  { unfold body. apply Forall_app. split; [eapply Forall_impl; [exact Hi|by left]|]. destruct dotted; [|constructor].
    constructor; [by right|]. eapply Forall_impl; [exact Hf|by left]. }
  assert (Hbody : unsigned_part body = body).
  { unfold unsigned_part. destruct Hall as [|b r Hb Hr]; [done|]. cbn [drop_while].
    destruct Hb as [Hb | ->]; [by rewrite !(digit_not b)|done]. }
  assert (Hu : unsigned_part (decimal_literal sign ip fp dotted) = body).
  { unfold decimal_literal. fold body. destruct sign as [[]|]; [exact Hbody..]. }
  rewrite Hu. apply andb_true_iff. split.
  - apply existsb_exists. destruct ip as [|b ip].
    + destruct dotted; [|by rewrite Hdot in Hne]. destruct fp as [|b fp]; [done|]. apply Forall_cons in Hf as [Hb _].
      exists b. split; [|done]. right. by left.
    + apply Forall_cons in Hi as [Hb _]. exists b. split; [by left|done].
  - apply forallb_forall. intros b Hb. rewrite Forall_forall in Hall. apply list_elem_of_In, Hall in Hb as [-> | ->]; done.
Qed.

(** What a column of the backing integer gets of a value whose text is a literal. *)
Lemma backing_of_literal `{JsonText} value sign ip fp dotted scale col :
  Forall (fun b => is_digit b = true) ip -> Forall (fun b => is_digit b = true) fp ->
  ip ++ fp <> [] -> (dotted = false -> fp = []) -> 0 <= scale ->
  decimal_text value col = Ok (decimal_literal sign ip fp dotted) ->
  decimal_backing_i128 value scale col =
    (let r := scaled_half_up (digits_value (ip ++ fp)) (length fp) scale in
     if r <? 2 ^ 127 then Ok (with_sign (default false sign) r) else err col "decimal out of range").
Proof.
  intros Hi Hf Hne Hdot Hs Ht. unfold decimal_backing_i128. rewrite Ht. cbn [mbind result_bind].
  rewrite literal_scaled by done. cbv zeta. destruct (_ <? _); [done|]. by rewrite literal_guarded.
Qed.
