(* ===== verification/DynEncode.v ===== *)
(** * Dynamic rows

    Models the encoder of [src/dynamic/encode.rs]: a JSON object and the columns of a table to
    the RowBinary bytes of a row. An encoder appends to a buffer and may stop part way, so its
    meaning is the bytes it appends and the error it stopped with. Properties: integers are
    written exactly or refused, and a row that is accepted is cut by the block encoder into
    exactly one cell per column. *)

From Stdlib Require Import SpecFloat.
From S2P Require Import Prelude Text Errors WireIo ColTypes Json Columns Decode Encode RoundTrip Agree Blocks ParsedTypes Floats Calendar DynScalars.

(** ** Appending *)

(** What [fn(.., buf: &mut Vec<u8>) -> Result<(), DynamicError>] does to [buf]. *)
Definition Put : Type := list byte * option DynamicError.
Definition put (bs : list byte) : Put := (bs, None).
Definition put_err (e : DynamicError) : Put := ([], Some e).
(** [m?; k] and [buf.extend(r?)]. *)
Definition andthen (m k : Put) : Put :=
  match m with
  | (b, None) => let '(b', e) := k in (b ++ b', e)
  | (b, Some e) => (b, Some e)
  end.
Definition put_res {A} (r : DR A) (enc : A -> list byte) : Put :=
  match r with
  | Ok a => put (enc a)
  | Err e => put_err e
  end.
(** A loop of encoders. *)
Definition put_each {A} (f : A -> Put) : list A -> Put :=
  fix go l :=
    match l with
    | [] => put []
    | a :: l' => andthen (f a) (go l')
    end.

(** ** Columns *)

Record ColumnDef := mk_column {
  col_name : text;
  ty : ParsedType;
  default_kind : text;
  has_default : bool
}.

(** [ColumnDef::new], [ColumnDef::with_default_kind]. *)
Definition ColumnDef_new (name type_string : text) : ColumnDef :=
  mk_column name (pt_parse type_string) [] false.
Definition with_default_kind (name type_string kind : text) : ColumnDef :=
  let column := ColumnDef_new name type_string in
  mk_column (col_name column) (ty column) kind (negb (bool_decide (kind = []))).

(** [JSON_ARRAY_WRAPPER_KEY]. *)
Definition JSON_ARRAY_WRAPPER_KEY : text := str "_values".

(** ** Values *)

Definition unsupported (col : text) (pt : ParsedType) : DynamicError := UnsupportedType col (raw pt).

(** [wrap_root_array]. *)
Definition wrap_root_array `{JsonText} (array : Value) (col : text) : DR text :=
  body ← map_err (fun e => enc_err col (str "JSON array not serialisable: " ++ e)) (json_bytes array);
  Ok (str "{" ++ [quote] ++ JSON_ARRAY_WRAPPER_KEY ++ [quote] ++ str ":" ++ body ++ str "}").

(** The document text of the JSON arm. *)
Definition json_document `{JsonText} (value : Value) (col : text) : DR text :=
  match value with
  | Jv.Null => Ok (str "{}")
  | Jv.String [] => Ok (str "{}")
  | Jv.String s => Ok s
  | Jv.Array _ => wrap_root_array value col
  | _ => Ok (value_text value)
  end.

(** The zero bytes [write_default] and [FixedString] pad with. *)
Definition zeros (n : Z) : list byte := replicate (Z.to_nat n) x00.

(** The tag the arms dispatch on: a bare [Decimal(P, S)] is resolved by its precision. *)
Definition resolved_tag (pt : ParsedType) : TypeTag :=
  if bool_decide (base pt = str "Decimal") then decimal_tag_for_precision (default 38 (precision pt)) else tag pt.

(** [write_default]. *)
Definition write_default (pt : ParsedType) (col : text) : Put :=
  if bool_decide (base pt = str "Decimal") then
    put (zeros match decimal_tag_for_precision (default 38 (precision pt)) with
               | Tt.Decimal32 => 4 | Tt.Decimal64 => 8 | Tt.Decimal256 => 32 | _ => 16
               end)
  else match tag pt with
       | Tt.JSON => put (put_string (str "{}"))
       | Tt.Point | Tt.Variant | Tt.Dynamic | Tt.Unknown => put_err (unsupported col pt)
       | _ =>
           match fixed_byte_size pt with
           | Some size => put (zeros size)
           | None => put (put_var_uint 0)
           end
       end.

(** [FixedString]: padded, never cut. *)
Definition fixed_string `{JsonText} (value : Value) (n : Z) (col : text) : DR (list byte) :=
  let bytes := value_to_str value in
  if n <? Z.of_nat (length bytes) then
    Err (enc_err col (str "FixedString(" ++ show n ++ str ") value out of range: " ++ show (Z.of_nat (length bytes)) ++ str " bytes"))
  else Ok (bytes ++ zeros (n - Z.of_nat (length bytes))).

(** [Float32]: an overflow to infinity is refused. *)
Definition float32 (value : Value) (col : text) : DR Z :=
  wide ← as_f64 value col;
  if is_infinite (f64_as_f32 (f64_of_bits wide)) && is_finite (f64_of_bits wide) then err col "Float32 value out of range"
  else Ok (f32_bits_of_f64 wide).

(** The [try_from] of a wide value to the width of a column. *)
Definition into_range (lo hi : Z) (v : Z) (col : text) (msg : string) : DR Z :=
  ok_or (fits lo hi v) (enc_err col (str msg)).
Definition decimal `{JsonText} (value : Value) (pt : ParsedType) (col : text) (bits : Z) (msg : string) : DR Z :=
  backing ← decimal_backing_i128 value (default 0 (scale pt)) col;
  into_range (- 2 ^ (bits - 1)) (2 ^ (bits - 1)) backing col msg.

(** The scalar arms of [encode_typed]: the bytes they append. *)
Definition encode_scalar `{JsonText} (value : Value) (pt : ParsedType) (col : text) : Put :=
  let signed bits name := put_res (v ← as_i64 value col; narrow_signed bits v col name) (le_split (Z.to_nat (bits / 8))) in
  let unsigned bits name := put_res (v ← as_u64 value col; narrow_unsigned bits v col name) (le_split (Z.to_nat (bits / 8))) in
  match resolved_tag pt with
  | Tt.String => put (put_string (value_to_str value))
  | Tt.FixedString => put_res (fixed_string value (default 1 (pt_fixed_size pt)) col) id
  | Tt.Bool => put_res (as_bool value col) (fun b => le_split 1 (b2z b))
  | Tt.UInt8 => unsigned 8 "UInt8" | Tt.UInt16 => unsigned 16 "UInt16" | Tt.UInt32 => unsigned 32 "UInt32"
  | Tt.UInt64 => put_res (as_u64 value col) (le_split 8)
  | Tt.UInt128 => put_res (as_u128 value col) (le_split 16)
  | Tt.UInt256 => put_res (as_u256_le value col) id
  | Tt.Int8 => signed 8 "Int8" | Tt.Int16 => signed 16 "Int16" | Tt.Int32 => signed 32 "Int32"
  | Tt.Enum8 =>
      put_res (v ← enum_discriminant value (raw pt) col; into_range (-2 ^ 7) (2 ^ 7) v col "Enum8 value out of range") (le_split 1)
  | Tt.Enum16 =>
      put_res (v ← enum_discriminant value (raw pt) col; into_range (-2 ^ 15) (2 ^ 15) v col "Enum16 value out of range") (le_split 2)
  | Tt.Int64 => put_res (as_i64 value col) (le_split 8)
  | Tt.Int128 => put_res (as_i128 value col) (le_split 16)
  | Tt.Int256 => put_res (as_i256_le value col) id
  | Tt.Float32 => put_res (float32 value col) (le_split 4)
  | Tt.Float64 => put_res (as_f64 value col) (le_split 8)
  | Tt.Date =>
      put_res (days ← to_epoch_days value col; into_range 0 (2 ^ 16) days col "Date out of range for UInt16 days") (le_split 2)
  | Tt.Date32 => put_res (to_epoch_days value col) (le_split 4)
  | Tt.DateTime =>
      put_res (secs ← to_epoch_seconds value col; into_range 0 (2 ^ 32) secs col "DateTime out of range for UInt32 seconds")
        (le_split 4)
  | Tt.DateTime64 => put_res (datetime64_to_ticks value (default 3 (precision pt)) col) (le_split 8)
  | Tt.Decimal32 => put_res (decimal value pt col 32 "Decimal32 overflow") (le_split 4)
  | Tt.Decimal64 => put_res (decimal value pt col 64 "Decimal64 overflow") (le_split 8)
  | Tt.Decimal128 => put_res (decimal_backing_i128 value (default 0 (scale pt)) col) (le_split 16)
  | Tt.Decimal256 => put_res (decimal_backing_i128 value (default 0 (scale pt)) col) i128_to_i256_le
  | Tt.UUID => put_res (uuid_bytes value col) id
  | Tt.IPv4 => put_res (ipv4_bytes value col) id
  | Tt.IPv6 => put_res (ipv6_bytes value col) id
  | Tt.JSON => put_res (json_document value col) put_string
  | _ => put_err (unsupported col pt)
  end.

(** [encode_array], over the encoder of an item. *)
Definition encode_array (encode_item : Value -> Put) (value : Value) (col : text) : Put :=
  match value with
  | Jv.Array arr => andthen (put (put_var_uint (Z.of_nat (length arr)))) (put_each encode_item arr)
  | _ => put_err (enc_err col (str "expected array"))
  end.

(** [encode_map], over the encoder of a value: a key is written as a String or not at all. *)
Definition encode_map (encode_val : Value -> Put) (value : Value) (key : ParsedType) (col : text) : Put :=
  match value with
  | Jv.Object obj =>
      if negb (bool_decide (tag key = Tt.String)) || nullable key then put_err (unsupported col key)
      else
        andthen (put (put_var_uint (Z.of_nat (length obj))))
          (put_each (fun '(k, v) => andthen (put (put_string k)) (encode_val v)) obj)
  | _ => put_err (enc_err col (str "expected object for Map"))
  end.

(** [encode_typed], over the encoder of a nested value. *)
Definition encode_typed_with `{JsonText} (encode_nested : Value -> ParsedType -> text -> Put)
    (value : Value) (pt : ParsedType) (col : text) : Put :=
  match resolved_tag pt with
  | Tt.Array =>
      match array_element pt with
      | None => put_err (enc_err col (str "Array without element type"))
      | Some elem => encode_array (fun item => encode_nested item elem col) value col
      end
  | Tt.Map =>
      match map_types pt with
      | None => put_err (enc_err col (str "Map without key/value types"))
      | Some (key, val) => encode_map (fun v => encode_nested v val col) value key col
      end
  | _ => encode_scalar value pt col
  end.

(** [encode_value]: the value shrinks at every nested call. *)
Fixpoint encode_value `{JsonText} (value : Value) (pt : ParsedType) (col : text) {struct value} : Put :=
  match value with
  | Jv.Null => if nullable pt then put [x01] else write_default pt col
  | _ =>
      if nullable pt then andthen (put [x00]) (encode_typed_with encode_value value pt col)
      else encode_typed_with encode_value value pt col
  end.
Definition encode_typed `{JsonText} : Value -> ParsedType -> text -> Put := encode_typed_with encode_value.

(** ** Rows *)

(** [DynamicRow]: the object, the columns and the passthrough column with its bytes. *)
Record DynamicRow := mk_row {
  row_values : Object;
  row_columns : list ColumnDef;
  row_raw : option (text * list byte)
}.
Definition DynamicRow_new (row : Object) (columns : list ColumnDef) : DynamicRow := mk_row row columns None.
Definition with_raw (row : Object) (columns : list ColumnDef) (raw_json : list byte) (json_col : text) : DynamicRow :=
  mk_row row columns (Some (json_col, raw_json)).

(** [encode_column], [encode_into], [encode]. *)
Definition encode_column `{JsonText} (r : DynamicRow) (col : ColumnDef) : Put :=
  let from_row := encode_value (default Jv.Null (get (row_values r) (col_name col))) (ty col) (col_name col) in
  match row_raw r with
  | Some (name, bytes) =>
      if bool_decide (name = col_name col) then
        put ((if nullable (ty col) then [x00] else []) ++ put_string bytes)
      else from_row
  | None => from_row
  end.
Definition encode_into `{JsonText} (r : DynamicRow) (buf : list byte) : list byte * result DynamicError unit :=
  let '(bs, e) := put_each (encode_column r) (row_columns r) in
  (buf ++ bs, match e with None => Ok tt | Some e => Err e end).
Definition encode `{JsonText} (r : DynamicRow) : DR (list byte) :=
  match encode_into r [] with
  | (buf, Ok tt) => Ok buf
  | (_, Err e) => Err e
  end.

(** ** Lemmas: appending *)

Lemma put_res_ok {A} (r : DR A) enc b : put_res r enc = (b, None) -> exists a, r = Ok a /\ b = enc a.
Proof. destruct r as [a|e]; [intros [= <-]; eauto | done]. Qed.

Lemma andthen_ok m k b : andthen m k = (b, None) -> exists b1 b2, m = (b1, None) /\ k = (b2, None) /\ b = b1 ++ b2.
Proof. destruct m as [b1 [e|]]; [done|]. destruct k as [b2 e]. intros [= <- ->]. eauto. Qed.

Lemma put_each_ok {A} (f : A -> Put) l b :
  put_each f l = (b, None) -> exists cells, b = concat cells /\ Forall2 (fun a c => f a = (c, None)) l cells.
Proof.
  revert b; induction l as [|a l IH]; intros b H; cbn [put_each] in H.
  - injection H as <-. exists []. split; [done|constructor].
  - apply andthen_ok in H as (b1 & b2 & Hf & Hl & ->). apply IH in Hl as (cells & -> & Hc).
    exists (b1 :: cells). split; [done|]. by constructor.
Qed.

Lemma encode_value_eq `{JsonText} value pt col :
  encode_value value pt col =
    match value with
    | Jv.Null => if nullable pt then put [x01] else write_default pt col
    | _ => if nullable pt then andthen (put [x00]) (encode_typed value pt col) else encode_typed value pt col
    end.
Proof. by destruct value. Qed.

(** ** Lemmas: scalar cells *)

Definition leaf_tag (t : ColumnType) : TypeTag :=
  match t with
  | Ct.Decimal32 _ _ => Tt.Decimal32 | Ct.Decimal64 _ _ => Tt.Decimal64
  | Ct.Decimal128 _ _ => Tt.Decimal128 | Ct.Decimal256 _ _ => Tt.Decimal256
  | t => tag (leaf_of t)
  end.

Lemma resolved_leaf rw nul lc t :
  wf_type t -> resolved_tag (flagged rw nul lc (leaf_of t)) = leaf_tag t.
Proof.
  destruct t; intros Hwf; try reflexivity; simpl in Hwf; unfold resolved_tag, flagged, leaf_of;
    cbn [base ParsedTypes.precision]; rewrite bool_decide_eq_true_2 by done; cbn [default];
    unfold decimal_tag_for_precision, id; repeat case_match; (reflexivity || lia).
Qed.

Lemma typed_leaf `{JsonText} v rw nul lc t col :
  dyn_leaf t = true -> wf_type t ->
  encode_typed v (flagged rw nul lc (leaf_of t)) col = encode_scalar v (flagged rw nul lc (leaf_of t)) col.
Proof. intros Ht Hwf. unfold encode_typed, encode_typed_with. rewrite resolved_leaf by done. by destruct t. Qed.

Lemma ok_or_some {E A} (o : option A) (e : E) a : ok_or o e = Ok a -> o = Some a.
Proof. destruct o; [intros [= ->]; done | done]. Qed.

Lemma uuid_bytes_length `{JsonText} v col b : uuid_bytes v col = Ok b -> length b = 16%nat.
Proof. unfold uuid_bytes. case_match; [done|]. intros Hb. apply Ok_inj in Hb as <-. by rewrite length_app, !length_le_split. Qed.

Lemma ipv4_bytes_length `{JsonText} v col b : ipv4_bytes v col = Ok b -> length b = 4%nat.
Proof.
  assert (Hl : forall m : DR Z, (z ← m; Ok (le_split 4 z)) = Ok b -> length b = 4%nat).
  { intros m Hb. apply bind_Ok_inv in Hb as (z & _ & Hb). apply Ok_inj in Hb as <-. apply length_le_split. }
  unfold ipv4_bytes. destruct v as [| |n| | |]; try apply Hl. destruct (num_u64 n); apply Hl.
Qed.

Lemma octets_length gs : length (octets gs) = (2 * length gs)%nat.
Proof. unfold octets. induction gs as [|g gs IH]; [done|]. cbn [map concat length app]. rewrite IH. lia. Qed.

Lemma read_groups_length left i s gs v4 r : read_groups left i s = (gs, v4, r) -> (length gs <= left)%nat.
Proof.
  revert i s gs v4 r; induction left as [|left IH]; intros i s gs v4 r Hg; cbn [read_groups] in Hg; [by simplify_eq|].
  set (m := if (0 <? left)%nat then _ else None) in Hg. destruct m as [[v r']|] eqn:Em.
  - injection Hg as <- _ _. simpl. subst m. destruct left; [done|lia].
  - match type of Hg with match ?x with _ => _ end = _ => destruct x as [[g r']|] end; [|injection Hg as <- _ _; simpl; lia].
    destruct (read_groups left (S i) r') as [[gs' v4'] r''] eqn:Er. apply IH in Er. injection Hg as <- _ _. simpl. lia.
Qed.

Lemma ipv6_bytes_length `{JsonText} v col b : ipv6_bytes v col = Ok b -> length b = 16%nat.
Proof.
  intros Hb. apply ok_or_some in Hb. unfold parse_ipv6 in Hb.
  destruct (read_groups 8 0 _) as [[head v4] r] eqn:Eh. apply read_groups_length in Eh.
  apply bind_Some in Hb as ([groups r'] & Hg & Hb). destruct r'; [|done]. injection Hb as <-.
  rewrite octets_length. destruct (Nat.eqb_spec (length head) 8); [injection Hg as <- _; lia|]. destruct v4; [done|].
  apply bind_Some in Hg as (r1 & _ & Hg). apply bind_Some in Hg as (r2 & _ & Hg).
  destruct (read_groups (8 - (length head + 1)) 0 r2) as [[tail v4'] r3] eqn:Et. apply read_groups_length in Et.
  injection Hg as <- _. rewrite !length_app, length_replicate. lia.
Qed.

Lemma i256_length z : length (i128_to_i256_le z) = 32%nat.
Proof. unfold i128_to_i256_le. by rewrite length_app, length_le_split, length_replicate. Qed.

Lemma fixed_string_length `{JsonText} v n col b : 0 <= n -> fixed_string v n col = Ok b -> Z.of_nat (length b) = n.
Proof.
  unfold fixed_string, zeros. intros Hn. destruct (Z.ltb_spec n (Z.of_nat (length (value_to_str v)))); [done|].
  intros Hb. apply Ok_inj in Hb as <-. rewrite length_app, length_replicate. lia.
Qed.

Lemma put_string_fits s : Z.of_nat (length (put_string s)) <= MAX_STRING_SIZE -> Z.of_nat (length s) <= MAX_STRING_SIZE.
Proof. unfold put_string. rewrite length_app. lia. Qed.

(** What a scalar encoder accepts is a cell of the column's wire type. *)
Lemma scalar_cell `{JsonText} v rw nul lc t col b :
  dyn_leaf t = true -> plain_type (wire_type_of t) = true -> wf_type t ->
  encode_scalar v (flagged rw nul lc (leaf_of t)) col = (b, None) -> Z.of_nat (length b) <= MAX_STRING_SIZE ->
  plain_cell (wire_type_of t) b.
Proof.
  intros Ht Hp Hwf He Hb. unfold encode_scalar in He. rewrite resolved_leaf in He by done.
  destruct t; try discriminate Ht; cbn [leaf_tag leaf_of tag] in He; unfold plain_cell; cbn [wire_type_of fixed_size];
    try (apply put_res_ok in He as (a & He & ->); split; [done|]; rewrite length_le_split; reflexivity).
  - apply put_res_ok in He as (a & He & ->). unfold as_i256_le in He. destruct (as_i128 v col); [|done].
    apply Ok_inj in He as <-. unfold id. by rewrite i256_length.
  - apply put_res_ok in He as (a & He & ->). unfold as_u256_le in He. destruct (as_u128 v col); [|done].
    apply Ok_inj in He as <-. unfold id, u128_to_u256_le. by rewrite length_app, length_le_split, length_replicate.
  - apply put_res_ok in He as (a & He & ->). by rewrite i256_length.
  - injection He as <-. exists (value_to_str v). split; [done|]. by apply put_string_fits.
  - apply put_res_ok in He as (a & He & ->). unfold id. simpl in Hp. apply Z.ltb_lt in Hp. split; [done|].
    apply (fixed_string_length v n col a); [lia|exact He].
  - apply put_res_ok in He as (a & He & ->). split; [done|]. unfold id. by rewrite (uuid_bytes_length v col a He).
  - apply put_res_ok in He as (a & He & ->). split; [done|]. unfold id. by rewrite (ipv4_bytes_length v col a He).
  - apply put_res_ok in He as (a & He & ->). split; [done|]. unfold id. by rewrite (ipv6_bytes_length v col a He).
  - apply put_res_ok in He as (a & He & ->). exists a. split; [done|]. by apply put_string_fits.
Qed.

(** The zero value of a column the row leaves out is a cell too. *)
Lemma default_cell rw nul lc t col b :
  dyn_leaf t = true -> plain_type (wire_type_of t) = true -> wf_type t ->
  write_default (flagged rw nul lc (leaf_of t)) col = (b, None) -> plain_cell (wire_type_of t) b.
Proof.
  intros Ht Hp Hwf He. destruct t; try discriminate Ht; try (injection He as <-; split; done);
    try (simpl in Hwf; unfold write_default, flagged, leaf_of in He; cbn [base tag ParsedTypes.precision] in He;
         rewrite bool_decide_eq_true_2 in He by done; cbn [default] in He; unfold decimal_tag_for_precision, id in He;
         repeat case_match; simplify_eq; try lia; injection He as <-; split; done).
  - injection He as <-. exists []. split; [done|]. unfold MAX_STRING_SIZE. simpl. lia.
  - injection He as <-. simpl in Hp. apply Z.ltb_lt in Hp. unfold plain_cell. cbn [wire_type_of fixed_size].
    split; [done|]. unfold zeros. rewrite length_replicate. lia.
  - injection He as <-. exists (str "{}"). split; [done|]. unfold MAX_STRING_SIZE. simpl. lia.
Qed.

(** ** Lemmas: nested cells *)

(** The columns whose cells reach the wire unchanged. [LowCardinality(Nullable(T))] is not among
    them: the block encoder writes a default value there as NULL. *)
Fixpoint dyn_inner (t : ColumnType) : bool :=
  match t with
  | Ct.Nullable t | Ct.LowCardinality t => dyn_scalar t && plain_type t
  | Ct.Array t => dyn_inner t
  | Ct.Map k v => dyn_key k && dyn_inner v
  | t => dyn_scalar t && plain_type t
  end.
Definition dyn_cell (t : ColumnType) : bool := match t with Ct.NewJson => true | t => dyn_inner t end.

Lemma leaf_flags t : dyn_leaf t = true -> nullable (leaf_of t) = false.
Proof. by destruct t. Qed.

(** The value of a scalar column, null or not. *)
Lemma leaf_cell `{JsonText} v rw lc t col b :
  dyn_leaf t = true -> plain_type (wire_type_of t) = true -> wf_type t ->
  encode_value v (flagged rw false lc (leaf_of t)) col = (b, None) -> Z.of_nat (length b) <= MAX_STRING_SIZE ->
  plain_cell (wire_type_of t) b.
Proof.
  intros Ht Hp Hwf He Hb. rewrite encode_value_eq in He. cbn [flagged nullable] in He. destruct v eqn:Ev.
  1: by eapply default_cell.
  all: rewrite typed_leaf in He by done; by eapply scalar_cell.
Qed.

Lemma nullable_cell `{JsonText} v rw lc t col b :
  dyn_scalar t = true -> plain_type t = true -> wf_type t ->
  encode_value v (flagged rw true lc (leaf_of t)) col = (b, None) -> Z.of_nat (length b) <= MAX_STRING_SIZE ->
  enc_cell (Ct.Nullable t) b.
Proof.
  intros Ht Hp Hwf He Hb. assert (Hl : dyn_leaf t = true) by by destruct t.
  assert (Hw : wire_type_of t = t) by by destruct t.
  rewrite encode_value_eq in He. cbn [flagged nullable] in He. destruct v eqn:Ev.
  1: injection He as <-; left; split; [done|]; by apply plain_default.
  all: right; apply andthen_ok in He as (b1 & b2 & He1 & He & ->); injection He1 as <-; exists b2; split; [done|];
    rewrite typed_leaf in He by done; rewrite <- Hw; (eapply scalar_cell; [done|by rewrite Hw|done|exact He|]);
    rewrite length_app in Hb; lia.
Qed.

Lemma cells_small (cells : list (list byte)) c n :
  c ∈ cells -> Z.of_nat (length (concat cells)) <= n -> Z.of_nat (length c) <= n.
Proof. intros Hc Hn. apply concat_length_le in Hc. lia. Qed.

Lemma array_cell `{JsonText} (f : Value -> Put) t arr b :
  (forall v c, f v = (c, None) -> Z.of_nat (length c) <= MAX_STRING_SIZE -> enc_cell t c) ->
  andthen (put (put_var_uint (Z.of_nat (length arr)))) (put_each f arr) = (b, None) ->
  Z.of_nat (length b) <= MAX_STRING_SIZE -> enc_cell (Ct.Array t) b.
Proof.
  intros Hf He Hb. apply andthen_ok in He as (b1 & b2 & He1 & He & ->). injection He1 as <-.
  apply put_each_ok in He as (cells & -> & Hc). exists cells. rewrite (Forall2_length _ _ _ Hc). split; [done|].
  rewrite length_app in Hb. apply Forall_forall. intros c Hin.
  apply (Forall2_right _ _ _), (proj1 (Forall_forall _ _)) with (x := c) in Hc as (v & _ & Hv); [|done].
  apply (Hf v); [done|]. eapply cells_small; [exact Hin|lia].
Qed.

Lemma zip_with_split {A} (f : A -> Put) (key : A -> list byte) l pairs :
  Forall2 (fun a c => andthen (put (key a)) (f a) = (c, None)) l pairs ->
  exists vals, pairs = zip_with app (map key l) vals /\ Forall2 (fun a c => f a = (c, None)) l vals.
Proof.
  induction 1 as [|a c l pairs Hac Hl (vals & -> & Hv)]; [by exists []; split; [|constructor]|].
  apply andthen_ok in Hac as (b1 & b2 & He1 & He & ->). injection He1 as <-.
  exists (b2 :: vals). split; [done|]. by constructor.
Qed.

Lemma pair_lengths (keys vals : list (list byte)) :
  length keys = length vals ->
  (length (concat (zip_with app keys vals)) = length (concat keys) + length (concat vals))%nat.
Proof.
  revert vals; induction keys as [|k keys IH]; intros [|v vals] Hl; try done. cbn [zip_with concat].
  rewrite !length_app, IH by (simpl in Hl; lia). lia.
Qed.

Lemma key_cell k s : dyn_key k = true -> Z.of_nat (length (put_string s)) <= MAX_STRING_SIZE -> enc_cell k (put_string s).
Proof.
  intros Hk Hs. apply put_string_fits in Hs.
  assert (Hp : plain_cell Ct.String (put_string s)) by (exists s; done).
  destruct k; try discriminate Hk; [done|]. by destruct k.
Qed.

Lemma map_cell `{JsonText} (f : Value -> Put) k t (obj : Object) b :
  dyn_key k = true -> (forall v c, f v = (c, None) -> Z.of_nat (length c) <= MAX_STRING_SIZE -> enc_cell t c) ->
  andthen (put (put_var_uint (Z.of_nat (length obj))))
    (put_each (fun '(key, v) => andthen (put (put_string key)) (f v)) obj) = (b, None) ->
  Z.of_nat (length b) <= MAX_STRING_SIZE -> enc_cell (Ct.Map k t) b.
Proof.
  intros Hk Hf He Hb. apply andthen_ok in He as (b1 & b2 & He1 & He & ->). injection He1 as <-.
  apply put_each_ok in He as (pairs & -> & Hc).
  assert (Hc' : Forall2 (fun a c => andthen (put (put_string a.1)) (f a.2) = (c, None)) obj pairs).
  { eapply Forall2_impl; [exact Hc|]. by intros [key v] c. }
  apply (zip_with_split (fun a => f a.2) (fun a => put_string a.1)) in Hc' as (vals & -> & Hv).
  pose proof (Forall2_length _ _ _ Hv) as Hl. rewrite length_app in Hb.
  assert (Hlen : length (map (fun a : text * Value => put_string a.1) obj) = length vals) by by rewrite length_map.
  rewrite pair_lengths in Hb by done.
  exists (map (fun a => put_string a.1) obj), vals. split_and!; [done|by rewrite length_map| |].
  - apply Forall_forall. intros c Hin. pose proof (concat_length_le _ _ Hin).
    apply list_elem_of_fmap in Hin as ([key v] & -> & _). apply key_cell; [done|]. cbn [fst] in *. lia.
  - apply Forall_forall. intros c Hin. pose proof (concat_length_le _ _ Hin).
    apply (Forall2_right _ _ _), (proj1 (Forall_forall _ _)) with (x := c) in Hv as ([key v] & _ & Hv); [|done].
    apply (Hf v); [done|]. lia.
Qed.

Lemma map_typed `{JsonText} obj k v col b rw :
  dyn_key k = true ->
  encode_typed (Jv.Object obj) (mk_parsed rw (str "Map") Tt.Map false false None (Some (parsed_of k, parsed_of v)) None None None None) col = (b, None) ->
  andthen (put (put_var_uint (Z.of_nat (length obj))))
    (put_each (fun '(key, x) => andthen (put (put_string key)) (encode_value x (parsed_of v) col)) obj) = (b, None).
Proof. intros Hk He. destruct k; try discriminate Hk; [exact He|]. destruct k; try discriminate Hk. exact He. Qed.

(** What the encoder accepts for a column is a cell of it. *)
Lemma value_cell `{JsonText} t : dyn_inner t = true -> wf_type t -> forall v col b,
  encode_value v (parsed_of t) col = (b, None) -> Z.of_nat (length b) <= MAX_STRING_SIZE -> enc_cell t b.
Proof.
  induction t as [t Hl|t IH|t IH|t IH|t IH|ts IH|k v IHk IHv|ts IH] using Ct.column_ind; intros Ht Hwf val col b He Hb;
    try discriminate Ht.
  - assert (Hs : dyn_leaf t = true /\ plain_type t = true /\ wire_type_of t = t /\ parsed_of t = leaf_of t /\ enc_cell t b = plain_cell t b).
    { destruct t; try discriminate Ht; try (exfalso; exact Hl); apply andb_true_iff in Ht as [? ?]; done. }
    destruct Hs as (Hd & Hp & Hw & Hpo & ->). rewrite Hpo, <- (flagged_leaf t) in He.
    assert (Hc : plain_cell (wire_type_of t) b) by (eapply leaf_cell; [done|by rewrite Hw|done|exact He|done]).
    by rewrite Hw in Hc.
  - apply andb_true_iff in Ht as [Hs Hp]. by eapply nullable_cell.
  - apply andb_true_iff in Ht as [Hs Hp]. assert (Hw : wire_type_of t = t) by by destruct t.
    assert (Hpo : parsed_of (Ct.LowCardinality t) = flagged (ColTypes.type_name (Ct.LowCardinality t)) false true (leaf_of t)) by by destruct t.
    assert (Hc : plain_cell (wire_type_of t) b).
    { rewrite Hpo in He. eapply leaf_cell; [by destruct t|by rewrite Hw|done|exact He|done]. }
    rewrite Hw in Hc. by destruct t.
  - rewrite encode_value_eq in He. cbn [parsed_of nullable] in He.
    destruct val as [| | | |arr|]; try done; [injection He as <-; exists []; split; [done|constructor]|].
    apply (array_cell (fun x => encode_value x (parsed_of t) col) t arr b); [|exact He|done].
    intros v c Hv Hc. exact (IH Ht Hwf v col c Hv Hc).
  - apply andb_true_iff in Ht as [Hk Hv]. destruct Hwf as [Hwk Hwv]. rewrite encode_value_eq in He. cbn [parsed_of nullable] in He.
    destruct val as [| | | | |obj]; try done; [injection He as <-; exists [], []; split_and!; (done || constructor)|].
    eapply (map_cell (fun x => encode_value x (parsed_of v) col)); [done| |exact (map_typed _ _ _ _ _ _ Hk He)|done].
    intros x c Hx Hc. exact (IHv Hv Hwv x col c Hx Hc).
Qed.

(** ** Lemmas: rows *)

(** A column of a table as the insert and the block encoder see it. *)
Definition table_column (c : ColumnSchema) (d : ColumnDef) : Prop :=
  col_name d = name c /\ ty d = pt_parse (Encode.type_name c) /\
  Encode.type_name c = ColTypes.type_name (col_type c) /\
  wf_type (col_type c) /\ plain_zones (col_type c) /\ dyn_cell (col_type c) = true.

(** The passthrough column, where there is one, holds strings or documents. *)
Definition takes_raw (t : ColumnType) : bool :=
  match t with Ct.String | Ct.NewJson | Ct.Nullable Ct.String => true | _ => false end.
Definition raw_fits (raw : option (text * list byte)) (c : ColumnSchema) : Prop :=
  match raw with Some (n, _) => n = name c -> takes_raw (col_type c) = true | None => True end.

Lemma dyn_inner_type t : dyn_inner t = true -> dyn_type t = true.
Proof.
  induction t as [t Hl|t IH|t IH|t IH|t IH|ts IH|k v IHk IHv|ts IH] using Ct.column_ind; intros Ht; try discriminate Ht.
  - destruct t; try (exfalso; exact Hl); try discriminate Ht; done.
  - by apply andb_true_iff in Ht as [? _].
  - apply andb_true_iff in Ht as [? _]. by destruct t.
  - by apply IH.
  - apply andb_true_iff in Ht as [Hk Hv]. cbn [dyn_type]. by rewrite Hk, IHv.
Qed.

Lemma dyn_cell_type t : dyn_cell t = true -> dyn_type t = true.
Proof. destruct t; try apply dyn_inner_type; done. Qed.

Lemma column_cell `{JsonText} r c d b :
  table_column c d -> raw_fits (row_raw r) c ->
  encode_column r d = (b, None) -> Z.of_nat (length b) <= MAX_STRING_SIZE ->
  enc_cell (wire_type_of (col_type c)) b.
Proof.
  intros (Hn & Hty & Hname & Hwf & Hz & Hd) Hraw He Hb.
  assert (Hpt : ty d = parsed_of (col_type c)) by (rewrite Hty, Hname; by apply pt_parse_printed, dyn_cell_type).
  unfold encode_column in He. rewrite Hpt, Hn in He.
  assert (Hval : forall v, encode_value v (parsed_of (col_type c)) (name c) = (b, None) -> enc_cell (wire_type_of (col_type c)) b).
  { intros v Hv. destruct (decide (dyn_inner (col_type c) = true)) as [Hi|Hi].
    - assert (Hw : wire_type_of (col_type c) = col_type c) by by destruct (col_type c). rewrite Hw. by eapply value_cell.
    - destruct (col_type c); try done. change (plain_cell (wire_type_of Ct.NewJson) b).
      by apply (leaf_cell v (ColTypes.type_name Ct.NewJson) false Ct.NewJson (name c)). }
  destruct (row_raw r) as [[rn bytes]|]; [|by eapply Hval].
  case_bool_decide as E; [|by eapply Hval]. specialize (Hraw E). injection He as <-.
  destruct (col_type c) as []; try discriminate Hraw; cbn [parsed_of leaf_of nullable app] in *;
    try (exists bytes; split; [done|by apply put_string_fits]).
  match goal with u : ColumnType |- _ => destruct u; try discriminate Hraw end.
  right. exists (put_string bytes). split; [done|]. exists bytes. split; [done|].
  apply put_string_fits. cbn in Hb |- *. lia.
Qed.

(** The cells of a row, each what the encoder appended for its column. *)
Definition row_wrote `{JsonText} (r : DynamicRow) (cells : list (list byte)) : Prop :=
  Forall2 (fun d c => encode_column r d = (c, None)) (row_columns r) cells.

Lemma row_cells `{JsonText} r cols bs :
  Forall2 table_column cols (row_columns r) -> Forall (raw_fits (row_raw r)) cols ->
  encode r = Ok bs -> Z.of_nat (length bs) <= MAX_STRING_SIZE ->
  exists cells, bs = concat cells /\ row_wrote r cells /\ enc_all2 enc_cell (map (fun c => wire_type_of (col_type c)) cols) cells.
Proof.
  intros Hcols Hraw He Hb. unfold encode, encode_into in He.
  destruct (put_each (encode_column r) (row_columns r)) as [out [e|]] eqn:Ep; [done|]. injection He as <-. cbn [app] in *.
  apply put_each_ok in Ep as (cells & -> & Hc). exists cells. split; [done|]. split; [done|].
  revert cells Hc Hb. induction Hcols as [|c d cols ds Hcd Hcols IH]; intros cells Hc Hb; inversion Hc as [|? b ? cells' Hd Hc']; subst; [done|].
  apply List.Forall_cons_iff in Hraw as [Hr Hraw]. cbn [concat] in Hb. rewrite length_app in Hb.
  split; [by eapply column_cell; [..|lia]|]. apply IH; [done..|lia].
Qed.

(** A whole table of rows. *)
Lemma table_cells `{JsonText} cols defs (rows : list DynamicRow) encoded :
  Forall2 table_column cols defs ->
  Forall (fun r => row_columns r = defs /\ Forall (raw_fits (row_raw r)) cols) rows ->
  map_res encode rows = Ok encoded -> Forall (fun bs => Z.of_nat (length bs) <= MAX_STRING_SIZE) encoded ->
  exists cells, encoded = map (@concat byte) cells /\ Forall2 row_wrote rows cells /\
    Forall (enc_all2 enc_cell (map (fun c => wire_type_of (col_type c)) cols)) cells.
Proof.
  intros Hcols Hrows He Hs. apply map_res_Forall2 in He.
  induction He as [|r bs rows encoded Hr He IH]; [by exists []; split_and!; [|constructor|constructor]|].
  apply List.Forall_cons_iff in Hrows as [[Hd Hraw] Hrows]. apply List.Forall_cons_iff in Hs as [Hb Hs].
  destruct (IH Hrows Hs) as (cells & -> & Hl & Hc).
  destruct (row_cells r cols bs) as (row & -> & Hw & Hrow); [by rewrite Hd|done..|].
  exists (row :: cells). split_and!; [done|by constructor|by constructor].
Qed.

(** ** Lemmas: integers *)

(** The integer types, by sign and width. *)
Definition int_type (t : ColumnType) : option (bool * Z) :=
  match t with
  | Ct.UInt8 => Some (false, 8) | Ct.UInt16 => Some (false, 16) | Ct.UInt32 => Some (false, 32)
  | Ct.UInt64 => Some (false, 64) | Ct.UInt128 => Some (false, 128) | Ct.UInt256 => Some (false, 256)
  | Ct.Int8 => Some (true, 8) | Ct.Int16 => Some (true, 16) | Ct.Int32 => Some (true, 32)
  | Ct.Int64 => Some (true, 64) | Ct.Int128 => Some (true, 128) | Ct.Int256 => Some (true, 256)
  | _ => None
  end.
Definition int_fits (signed : bool) (bits z : Z) : bool :=
  if signed then (- 2 ^ (bits - 1) <=? z) && (z <? 2 ^ (bits - 1)) else (0 <=? z) && (z <? 2 ^ bits).
Definition int_read (signed : bool) (bits : Z) (b : list byte) : Z :=
  if signed then wrap_signed bits (le_combine b) else le_combine b.

(** A JSON number that is the integer [z], as serde_json documents its accessors: each gives [z]
    where it fits, and the float is [z] rounded, which keeps it on its side of 0 and of [2^63]. *)
Record number_is (n : Number) (z : Z) : Prop := {
  in_json : - 2 ^ 63 <= z < 2 ^ 64;
  is_u64 : num_u64 n = fits 0 (2 ^ 64) z;
  is_i64 : num_i64 n = fits (- 2 ^ 63) (2 ^ 63) z;
  is_f64 : forall bits w, num_f64 n = Some bits -> f64_whole (f64_of_bits bits) = Some w ->
    (z < 0 -> w < 0) /\ (2 ^ 63 <= z -> 2 ^ 63 <= w)
}.

Lemma fits_some lo hi z : lo <= z < hi -> fits lo hi z = Some z.
Proof. intros Hz. unfold fits. by rewrite (proj2 (Z.leb_le _ _)), (proj2 (Z.ltb_lt _ _)) by lia. Qed.
Lemma fits_none lo hi z : z < lo \/ hi <= z -> fits lo hi z = None.
Proof. intros Hz. unfold fits. destruct (Z.leb_spec lo z), (Z.ltb_spec z hi); done || lia. Qed.

Lemma as_u64_number n z col :
  number_is n z -> as_u64 (Jv.Number n) col = ok_or (fits 0 (2 ^ 64) z) (enc_err col (str "not a valid unsigned integer")).
Proof.
  intros [Hr Hu Hi Hf]. cbn [as_u64]. rewrite Hu, Hi. f_equal. destruct (Z_lt_le_dec z 0) as [Hz|Hz].
  - rewrite (fits_none 0), (fits_some (- 2 ^ 63) (2 ^ 63)) by lia. cbn [or_else mbind option_bind].
    rewrite fits_none by lia. cbn [or_else]. destruct (num_f64 n) as [bits|]; [|done]. unfold whole_f64_as_u64. cbn [mbind option_bind].
    destruct (f64_whole _) as [w|] eqn:Ew; [|done]. destruct (Hf bits w eq_refl Ew) as [Hw _]. apply fits_none. lia.
  - by rewrite fits_some by lia.
Qed.

Lemma number_i64_is n z : number_is n z -> number_i64 n = fits (- 2 ^ 63) (2 ^ 63) z.
Proof.
  intros [Hr Hu Hi Hf]. unfold number_i64. rewrite Hu, Hi. destruct (Z_lt_le_dec z (2 ^ 63)) as [Hz|Hz].
  - by rewrite fits_some by lia.
  - rewrite (fits_none (- 2 ^ 63)), (fits_some 0 (2 ^ 64)) by lia. cbn [or_else mbind option_bind].
    rewrite fits_none by lia. cbn [or_else]. destruct (num_f64 n) as [bits|]; [|done]. unfold whole_f64_as_i64. cbn [mbind option_bind].
    destruct (f64_whole _) as [w|] eqn:Ew; [|done]. destruct (Hf bits w eq_refl Ew) as [_ Hw]. apply fits_none. lia.
Qed.

Lemma as_u128_number n z col :
  number_is n z -> as_u128 (Jv.Number n) col = ok_or (fits 0 (2 ^ 128) z) (enc_err col (str "not a valid u128")).
Proof.
  intros [Hr Hu Hi Hf]. cbn [as_u128]. rewrite Hu, Hi. f_equal. destruct (Z_lt_le_dec z 0) as [Hz|Hz].
  - rewrite (fits_none 0), (fits_some (- 2 ^ 63)) by lia. done.
  - by rewrite (fits_some 0 (2 ^ 64)), (fits_some 0 (2 ^ 128)) by lia.
Qed.

Lemma as_i128_number n z col : number_is n z -> as_i128 (Jv.Number n) col = Ok z.
Proof.
  intros [Hr Hu Hi Hf]. cbn [as_i128]. rewrite Hu, Hi. destruct (Z_lt_le_dec z (2 ^ 63)) as [Hz|Hz].
  - by rewrite fits_some by lia.
  - by rewrite (fits_none (- 2 ^ 63)), fits_some by lia.
Qed.

Lemma le_read width z : int_read false (8 * Z.of_nat width) (le_split width z) = z mod 2 ^ (8 * Z.of_nat width).
Proof. apply le_split_combine_mod. Qed.

Lemma wrap_signed_small bits z : 0 < bits -> - 2 ^ (bits - 1) <= z < 2 ^ (bits - 1) -> wrap_signed bits z = z.
Proof.
  intros Hb Hz. unfold wrap_signed. assert (H2 : 2 ^ bits = 2 * 2 ^ (bits - 1)).
  { rewrite <- Z.pow_succ_r by lia. f_equal. lia. }
  rewrite Z.mod_small by lia. lia.
Qed.

Lemma wrap_signed_mod bits z : 0 < bits -> wrap_signed bits (z mod 2 ^ bits) = wrap_signed bits z.
Proof. intros Hb. unfold wrap_signed. by rewrite Zplus_mod_idemp_l. Qed.

(** A value in range is read back from its bytes. *)
Lemma int_read_back signed width z :
  (0 < width)%nat -> int_fits signed (8 * Z.of_nat width) z = true ->
  int_read signed (8 * Z.of_nat width) (le_split width z) = z.
Proof.
  intros Hw Hf. unfold int_read, int_fits in *. rewrite le_split_combine_mod.
  destruct signed; apply andb_true_iff in Hf as [H1%Z.leb_le H2%Z.ltb_lt].
  - rewrite wrap_signed_mod by lia. apply wrap_signed_small; lia.
  - by apply Z.mod_small.
Qed.

Lemma le_split_add n m z : le_split (n + m) z = le_split n z ++ le_split m (Z.shiftr z (8 * Z.of_nat n)).
Proof.
  revert z; induction n as [|n IH]; intros z; [by rewrite Z.shiftr_0_r|].
  assert (Hs : forall k w, le_split (S k) w = byte.of_Z w :: le_split k (Z.shiftr w 8)) by done.
  change (S n + m)%nat with (S (n + m)). rewrite !Hs, IH. cbn [app]. rewrite Z.shiftr_shiftr by lia. 
  by replace (8 + 8 * Z.of_nat n) with (8 * Z.of_nat (S n)) by lia.
Qed.

(** Widening is writing at the wider width. *)
Lemma i256_split z : - 2 ^ 127 <= z < 2 ^ 128 -> (z < 2 ^ 127 -> i128_to_i256_le z = le_split 32 z) /\ (0 <= z -> u128_to_u256_le z = le_split 32 z).
Proof.
  intros Hz. unfold i128_to_i256_le, u128_to_u256_le. rewrite (le_split_add 16 16). change (8 * Z.of_nat 16) with 128.
  rewrite Z.shiftr_div_pow2 by lia.
  split; intros H; [destruct (Z.ltb_spec z 0)|].
  - replace (z / 2 ^ 128) with (-1) by (apply (Z.div_unique_pos z (2 ^ 128) (-1) (z + 2 ^ 128)); lia). reflexivity.
  - rewrite Z.div_small by lia. reflexivity.
  - rewrite Z.div_small by lia. reflexivity.
Qed.

(** What every integer column does with an integer. *)
Definition written (signed : bool) (bits z : Z) (col : text) (p : Put) : Prop :=
  if int_fits signed bits z then p = put (le_split (Z.to_nat (bits / 8)) z)
  else exists msg, p = put_err (enc_err col msg).

Lemma ranged lo hi z col msg enc :
  if (lo <=? z) && (z <? hi) then put_res (ok_or (fits lo hi z) (enc_err col msg)) enc = put (enc z)
  else exists m, put_res (ok_or (fits lo hi z) (enc_err col msg)) enc = put_err (enc_err col m).
Proof. unfold fits. destruct ((lo <=? z) && (z <? hi)); [done|by exists msg]. Qed.

Lemma narrowed lo hi lo' hi' z col msg ty enc :
  lo <= lo' -> hi' <= hi ->
  if (lo' <=? z) && (z <? hi') then put_res (v ← ok_or (fits lo hi z) (enc_err col msg); narrow lo' hi' v col ty) enc = put (enc z)
  else exists m, put_res (v ← ok_or (fits lo hi z) (enc_err col msg); narrow lo' hi' v col ty) enc = put_err (enc_err col m).
Proof.
  intros Hl Hh. unfold fits, narrow. destruct (Z.leb_spec lo z), (Z.ltb_spec z hi);
    cbn [andb ok_or mbind result_bind put_res]; destruct (Z.leb_spec lo' z), (Z.ltb_spec z hi');
    cbn [andb ok_or mbind result_bind put_res]; try lia; try done; by eexists.
Qed.

Lemma number_written `{JsonText} n t signed bits z rw nul lc col :
  int_type t = Some (signed, bits) -> number_is n z ->
  written signed bits z col (encode_scalar (Jv.Number n) (flagged rw nul lc (leaf_of t)) col).
Proof.
  intros Ht Hn. pose proof (in_json n z Hn) as Hr.
  destruct t; try discriminate Ht; injection Ht as <- <-; unfold written, int_fits, encode_scalar;
    rewrite resolved_leaf by done; cbn [leaf_tag leaf_of tag];
    rewrite ?(as_u64_number n z), ?(as_u128_number n z) by done;
    unfold as_i256_le, as_u256_le; rewrite ?(as_i128_number n z), ?(as_u128_number n z) by done;
    cbn [as_i64]; rewrite ?(number_i64_is n z) by done;
    try (apply ranged); try (apply narrowed; lia).
  - by rewrite (proj2 (Z.leb_le _ _)), (proj2 (Z.ltb_lt _ _)) by lia.
  - rewrite (proj2 (Z.leb_le _ _)), (proj2 (Z.ltb_lt _ _)) by lia. cbn [andb fmap result_fmap put_res].
    by rewrite (proj1 (i256_split z ltac:(lia))) by lia.
  - destruct (Z.leb_spec 0 z) as [H0|H0].
    + rewrite (proj2 (Z.ltb_lt _ _)), fits_some by lia. cbn [andb ok_or fmap result_fmap put_res].
      by rewrite (proj2 (i256_split z ltac:(lia)) H0).
    + rewrite fits_none by lia. by eexists.
Qed.

(** Integers as a caller may give them: a JSON number, their decimal text, or a boolean for 0 and 1. *)
Definition int_value (v : Value) (z : Z) : Prop :=
  (exists n, v = Jv.Number n /\ number_is n z) \/ v = Jv.String (show z) \/ exists b, v = Jv.Bool b /\ z = b2z b.

(** What is written for one is the integer at the width of the column, which holds it. *)
Lemma int_written `{JsonText} v t signed bits z rw nul lc col b :
  int_type t = Some (signed, bits) -> int_value v z ->
  encode_scalar v (flagged rw nul lc (leaf_of t)) col = (b, None) ->
  b = le_split (Z.to_nat (bits / 8)) z /\ int_fits signed bits z = true.
Proof.
  intros Ht [(n & -> & Hn)|[-> | (x & -> & ->)]] He.
  - pose proof (number_written n t signed bits z rw nul lc col Ht Hn) as Hw. unfold written in Hw. rewrite He in Hw.
    destruct (int_fits signed bits z); [by injection Hw as ->|by destruct Hw as (msg & [=])].
  - revert He. destruct t; try discriminate Ht; injection Ht as <- <-; unfold encode_scalar; rewrite resolved_leaf by done;
      cbn [leaf_tag leaf_of tag as_u64 as_i64 as_u128 as_i128]; unfold as_i256_le, as_u256_le; cbn [as_u128 as_i128];
      rewrite trim_show, ?parse_unsigned_shown, ?parse_signed_shown; unfold int_fits;
      match goal with |- context [if ?c then Some z else None] => destruct c eqn:E end; try discriminate;
      cbn [ok_or mbind result_bind fmap result_fmap]; unfold narrow_unsigned, narrow_signed, narrow;
      try (match goal with |- context [if ?c then Ok z else _] => destruct c eqn:E'; [|discriminate] end);
      unfold put_res, put; intros [= <-];
      (split; [|first [done | rewrite !andb_true_iff, Z.leb_le, Z.ltb_lt in *; lia]]); try done;
      rewrite !andb_true_iff, Z.leb_le, Z.ltb_lt in E; destruct E as [E1 E2]; (apply i256_split; lia).
  - revert He. destruct t; try discriminate Ht; injection Ht as <- <-; unfold encode_scalar; rewrite resolved_leaf by done;
      destruct x; vm_compute; intros [= <-]; done.
Qed.

(** ** Lemmas: rendered values *)

Lemma octet_read d r :
  0 <= d < 256 ->
  read_number 10 3 256 false (show d ++ "."%byte :: r) = Some (d, "."%byte :: r) /\
  read_number 10 3 256 false (show d) = Some (d, []) /\ (length (show d) <= 3)%nat.
Proof.
  intros Hd. assert (Hall : Forall (fun d => forall r,
    read_number 10 3 256 false (show d ++ "."%byte :: r) = Some (d, "."%byte :: r) /\
    read_number 10 3 256 false (show d) = Some (d, []) /\ (length (show d) <= 3)%nat) (seqZ 0 256)).
  { let l := eval vm_compute in (seqZ 0 256) in change (seqZ 0 256) with l.
    repeat (apply List.Forall_cons; [intros q; split_and!; [reflexivity | reflexivity | vm_compute; lia]|]). apply List.Forall_nil. }
  rewrite Forall_forall in Hall. apply Hall. apply elem_of_seqZ. lia.
Qed.

Lemma parse_ipv4_text v : 0 <= v < 2 ^ 32 -> parse_ipv4 (ipv4_text v) = Some v.
Proof.
  intros Hv. unfold ipv4_text.
  assert (Ho : forall i, 0 <= i -> Z.land (Z.shiftr v i) 0xFF = v / 2 ^ i mod 256).
  { intros i Hi. rewrite Z.shiftr_div_pow2 by done. change 0xFF with (Z.ones 8). by rewrite Z.land_ones. }
  cbn [map]. rewrite !Ho by lia. set (a := v / 2 ^ 24 mod 256). set (b := v / 2 ^ 16 mod 256).
  set (c := v / 2 ^ 8 mod 256). set (d := v / 2 ^ 0 mod 256).
  assert (Hr : 0 <= a < 256 /\ 0 <= b < 256 /\ 0 <= c < 256 /\ 0 <= d < 256).
  { split_and!; apply Z.mod_pos_bound; lia. }
  destruct Hr as (Ha & Hb & Hc & Hd). cbn [join]. change (str ".") with ["."%byte]. cbn [app].
  destruct (octet_read a (show b ++ "."%byte :: show c ++ "."%byte :: show d) Ha) as (Ra & _ & La).
  destruct (octet_read b (show c ++ "."%byte :: show d) Hb) as (Rb & _ & Lb).
  destruct (octet_read c (show d) Hc) as (Rc & _ & Lc). destruct (octet_read d [] Hd) as (_ & Rd & Ld).
  unfold parse_ipv4. rewrite (proj2 (Nat.ltb_ge 15 _)) by (rewrite !length_app; cbn [length]; rewrite !length_app; cbn [length]; rewrite !length_app; cbn [length]; lia).
  unfold read_ipv4. rewrite Ra. cbn [mbind option_bind read_char]. rewrite beq_refl. cbn [mbind option_bind].
  rewrite Rb. cbn [mbind option_bind read_char]. rewrite beq_refl. cbn [mbind option_bind].
  rewrite Rc. cbn [mbind option_bind read_char]. rewrite beq_refl. cbn [mbind option_bind]. rewrite Rd. cbn [mbind option_bind].
  f_equal. subst a b c d. change (2 ^ 24) with 16777216. change (2 ^ 16) with 65536. change (2 ^ 8) with 256. change (2 ^ 0) with 1.
  change (2 ^ 32) with 4294967296 in Hv. Z.div_mod_to_equations. lia.
Qed.

(** Hexadecimal digits. *)
Lemma hex_digit_value d : 0 <= d < 16 -> hex_value (hex_digit d) = Some d.
Proof.
  intros Hd. assert (Hall : Forall (fun d => hex_value (hex_digit d) = Some d) (seqZ 0 16)).
  { let l := eval vm_compute in (seqZ 0 16) in change (seqZ 0 16) with l.
    repeat (apply List.Forall_cons; [reflexivity|]). apply List.Forall_nil. }
  rewrite Forall_forall in Hall. apply Hall, elem_of_seqZ. lia.
Qed.

Lemma hex_pad_length w z : length (hex_pad w z) = w.
Proof. revert z; induction w as [|w IH]; intros z; cbn [hex_pad]; [done|]. rewrite length_app, IH. simpl. lia. Qed.

Lemma hex_pad_hex w z : 0 <= z -> Forall (fun b => is_hex b = true) (hex_pad w z).
Proof.
  revert z; induction w as [|w IH]; intros z Hz; cbn [hex_pad]; [constructor|]. apply Forall_app.
  split; [apply IH, Z.div_pos; lia|]. constructor; [|constructor]. unfold is_hex.
  by rewrite hex_digit_value by (apply Z.mod_pos_bound; lia).
Qed.

Lemma hex_number_pad w z : 0 <= z < 16 ^ Z.of_nat w -> hex_number (hex_pad w z) = z.
Proof.
  revert z; induction w as [|w IH]; intros z Hz; [change (16 ^ Z.of_nat 0) with 1 in Hz; cbn; lia|].
  rewrite Nat2Z.inj_succ, Z.pow_succ_r in Hz by lia. cbn [hex_pad]. unfold hex_number in *. rewrite foldl_app, IH
    by (split; [apply Z.div_pos; lia|apply Z.div_lt_upper_bound; lia]).
  cbn [foldl]. rewrite hex_digit_value by (apply Z.mod_pos_bound; lia). cbn [default].
  unfold id. rewrite (Z.div_mod z 16) at 3 by lia. lia.
Qed.

Lemma filter_hex_all s : Forall (fun b => is_hex b = true) s -> filter (fun b => is_hex b = true) s = s.
Proof. induction 1 as [|b s Hb Hs IH]; [done|]. rewrite filter_cons_True by done. by rewrite IH. Qed.

Lemma filter_uuid hi lo :
  0 <= hi -> 0 <= lo -> filter (fun b => is_hex b = true) (uuid_text hi lo) = hex_pad 16 hi ++ hex_pad 16 lo.
Proof.
  intros Hhi Hlo. unfold uuid_text. set (hex := hex_pad 16 hi ++ hex_pad 16 lo).
  assert (Hall : Forall (fun b => is_hex b = true) hex) by (apply Forall_app; split; by apply hex_pad_hex).
  assert (Hlen : length hex = 32%nat) by (subst hex; by rewrite length_app, !hex_pad_length).
  assert (Hs : forall a n, filter (fun b => is_hex b = true) (slice a n hex) = slice a n hex).
  { intros a n. apply filter_hex_all. by apply Forall_take, Forall_drop. }
  cbn [join]. rewrite !filter_app, !Hs. change (filter (fun b => is_hex b = true) (str "-")) with (@nil byte). cbn [app].
  clearbody hex. clear Hall Hs. do 32 (destruct hex as [|? hex]; [discriminate Hlen|]). by destruct hex.
Qed.

Lemma uuid_reads_back `{JsonText} hi lo col :
  0 <= hi < 2 ^ 64 -> 0 <= lo < 2 ^ 64 ->
  uuid_bytes (Jv.String (uuid_text hi lo)) col = Ok (le_split 8 hi ++ le_split 8 lo).
Proof.
  intros Hhi Hlo. unfold uuid_bytes. cbn [value_to_str]. rewrite filter_uuid by lia.
  rewrite length_app, !hex_pad_length. change (16 + 16 =? 32)%nat with true. cbn [negb].
  rewrite take_app_length' by (by rewrite hex_pad_length). rewrite drop_app_length' by (by rewrite hex_pad_length).
  change (2 ^ 64) with (16 ^ Z.of_nat 16) in Hhi, Hlo. by rewrite !hex_number_pad.
Qed.

Lemma le_split_mod n z w : z mod 2 ^ (8 * Z.of_nat n) = w mod 2 ^ (8 * Z.of_nat n) -> le_split n z = le_split n w.
Proof.
  intros Hm. rewrite <- (LittleEndianList.split_le_combine (le_split n z)), <- (LittleEndianList.split_le_combine (le_split n w)).
  by rewrite !length_le_split, !le_split_combine_mod, Hm.
Qed.

Lemma split_read signed bits b :
  8 * Z.of_nat (length b) = bits -> 0 < bits -> le_split (length b) (int_read signed bits b) = b.
Proof.
  intros <- Hb. rewrite <- (LittleEndianList.split_le_combine b) at 4. apply le_split_mod.
  unfold int_read. destruct signed; [|done]. unfold wrap_signed. rewrite Zminus_mod, Z.mod_mod, <- Zminus_mod by lia. f_equal. lia.
Qed.

Lemma int_read_range signed bits b :
  8 * Z.of_nat (length b) = bits -> 0 < bits -> int_fits signed bits (int_read signed bits b) = true.
Proof.
  intros <- Hb. unfold int_fits, int_read, wrap_signed. destruct signed; apply andb_true_iff; rewrite Z.leb_le, Z.ltb_lt.
  - set (n := 8 * Z.of_nat (length b)) in *. pose proof (Z.mod_pos_bound (le_combine b + 2 ^ (n - 1)) (2 ^ n) ltac:(apply Z.pow_pos_nonneg; lia)).
    assert (H2 : 2 ^ n = 2 * 2 ^ (n - 1)) by (rewrite <- Z.pow_succ_r by lia; f_equal; lia). lia.
  - pose proof (LittleEndianList.le_combine_bound b). lia.
Qed.

(** The columns whose rendered cells an insert takes back, and the number a cell renders to. *)
Definition cell_number (t : ColumnType) : option (bool * Z) :=
  match t with
  | Ct.UInt8 => Some (false, 8) | Ct.UInt16 => Some (false, 16) | Ct.UInt32 | Ct.DateTime => Some (false, 32)
  | Ct.UInt64 => Some (false, 64)
  | Ct.Int8 | Ct.Enum8 => Some (true, 8) | Ct.Int16 | Ct.Enum16 => Some (true, 16) | Ct.Int32 => Some (true, 32)
  | Ct.Int64 | Ct.DateTime64 _ _ => Some (true, 64)
  | Ct.UInt128 => Some (false, 128) | Ct.Int128 => Some (true, 128)
  | _ => None
  end.
Definition reinserts (t : ColumnType) : bool :=
  match t with Ct.Uuid | Ct.IPv4 => true | t => match cell_number t with Some _ => true | None => false end end.

(** A JSON text denotes a value: a number by its decimal text, a string without escapes. *)
Definition denotes (json : text) (v : Value) : Prop :=
  match v with
  | Jv.Number n => exists z, json = show z /\ number_is n z
  | Jv.String s => json = quoted s
  | _ => False
  end.

Lemma render_number `{FloatText} t signed bits b :
  cell_number t = Some (signed, bits) -> fixed_size t = Some (Z.of_nat (length b)) ->
  rowbinary_to_json b t = show (int_read signed bits b) /\ 8 * Z.of_nat (length b) = bits /\ 0 < bits.
Proof.
  intros Hc Hs. unfold rowbinary_to_json.
  destruct t; try discriminate Hc; injection Hc as <- <-; injection Hs as Hs;
    cbn [rowbinary_to_json_inner]; unfold fixed_u, fixed_i, head;
    (rewrite (proj2 (Nat.leb_le _ _)) by lia); cbn [mbind result_bind];
    (rewrite take_ge by lia); (split; [reflexivity|lia]).
Qed.

(** Numbers, whatever the arm. *)
Lemma encode_number `{JsonText} t signed bits z n rw nul lc col :
  cell_number t = Some (signed, bits) -> wf_type t -> number_is n z -> int_fits signed bits z = true ->
  encode_scalar (Jv.Number n) (flagged rw nul lc (leaf_of t)) col = put (le_split (Z.to_nat (bits / 8)) z).
Proof.
  intros Hc Hwf Hn Hf. destruct (int_type t) as [[s' b']|] eqn:Et.
  { pose proof (number_written n t s' b' z rw nul lc col Et Hn) as Hw. unfold written in Hw.
    assert (E : Some (s', b') = Some (signed, bits)) by (rewrite <- Et, <- Hc; by destruct t). injection E as -> ->.
    by rewrite Hf in Hw. }
  unfold encode_scalar. rewrite resolved_leaf by done. unfold int_fits in Hf.
  destruct t; try discriminate Hc; try discriminate Et; injection Hc as <- <-; cbn [leaf_tag leaf_of tag];
    apply andb_true_iff in Hf as [H1%Z.leb_le H2%Z.ltb_lt]; pose proof (number_i64_is n z Hn) as H64; pose proof (is_i64 n z Hn) as Hi64.
  - cbn [to_epoch_seconds]. unfold epoch_number. rewrite Hi64, fits_some by lia. cbn [or_else ok_or fmap result_fmap mbind result_bind].
    unfold epoch_to_seconds, into_range. rewrite !(proj2 (Z.ltb_ge _ (Z.abs z))) by lia. by rewrite fits_some by lia.
  - cbn [datetime64_to_ticks]. unfold epoch_number. by rewrite Hi64, fits_some by lia.
  - cbn [enum_discriminant as_i64]. rewrite H64, fits_some by lia. cbn [ok_or mbind result_bind]. unfold into_range. by rewrite fits_some by lia.
  - cbn [enum_discriminant as_i64]. rewrite H64, fits_some by lia. cbn [ok_or mbind result_bind]. unfold into_range. by rewrite fits_some by lia.
Qed.

Lemma quoted_inj s t : quoted s = quoted t -> s = t.
Proof. unfold quoted. intros H. injection H as H. by apply app_inj_tail in H as [H _]. Qed.

Lemma show_not_quoted z s : show z <> quoted s.
Proof.
  unfold show, quoted. intros H. destruct (decide (0 <= z)) as [Hz|Hz].
  - destruct (show_digits z Hz) as (_ & Hall & _). unfold show in Hall. rewrite H in Hall. by inversion Hall.
  - destruct z as [|p|p]; try lia. discriminate H.
Qed.

Lemma show_inj z w : show z = show w -> z = w.
Proof.
  unfold show, str. intros H. apply (f_equal String.string_of_list_byte) in H.
  rewrite !String.string_of_list_byte_of_string in H. by apply (inj pretty) in H.
Qed.

Lemma encode_plain `{JsonText} v t col :
  dyn_leaf t = true -> wf_type t -> v <> Jv.Null ->
  encode_value v (parsed_of t) col = encode_scalar v (flagged (ColTypes.type_name t) false false (leaf_of t)) col.
Proof.
  intros Ht Hwf Hv. assert (Hp : parsed_of t = leaf_of t) by by destruct t.
  assert (Ht' : encode_typed v (leaf_of t) col = encode_scalar v (leaf_of t) col).
  { rewrite <- (flagged_leaf t). by apply typed_leaf. }
  rewrite encode_value_eq, Hp, leaf_flags, flagged_leaf, <- Ht' by done. by destruct v.
Qed.

(** Words cut from a cell. *)
Lemma word_range b : 0 <= le_combine (take 8 b) < 2 ^ 64.
Proof.
  pose proof (LittleEndianList.le_combine_bound (take 8 b)) as Hb. rewrite length_take in Hb. split; [lia|].
  eapply Z.lt_le_trans; [apply Hb|]. apply Z.pow_le_mono_r; lia.
Qed.

Lemma word_range4 b : length b = 4%nat -> 0 <= le_combine b < 2 ^ 32.
Proof. intros Hb. pose proof (LittleEndianList.le_combine_bound b) as Hr. by rewrite Hb in Hr. Qed.

Lemma split_take n b : (n <= length b)%nat -> le_split n (le_combine (take n b)) = take n b.
Proof.
  intros Hn. rewrite <- (LittleEndianList.split_le_combine (take n b)) at 2. f_equal. rewrite length_take. lia.
Qed.

Lemma concat_rows (rows : list (list (list byte))) : concat (map (@concat byte) rows) = concat (concat rows).
Proof. induction rows as [|r rows IH]; [done|]. cbn [map concat]. by rewrite IH, List.concat_app. Qed.

Lemma rendered_cell_back `{FloatText} `{JsonText} t b v col :
  reinserts t = true -> wf_type t -> fixed_size t = Some (Z.of_nat (length b)) ->
  denotes (rowbinary_to_json b t) v ->
  encode_value v (parsed_of t) col = (b, None).
Proof.
  intros Ht Hwf Hs Hv. assert (Hd : dyn_leaf t = true) by by destruct t.
  rewrite encode_plain by (done || by intros ->).
  destruct (cell_number t) as [[signed bits]|] eqn:Ec.
  - destruct (render_number t signed bits b Ec Hs) as (Hj & Hb & Hpos). rewrite Hj in Hv.
    destruct v as [| |n|s| |]; try done; [|by apply show_not_quoted in Hv].
    destruct Hv as (z & Hz & Hn). apply show_inj in Hz as <-.
    rewrite (encode_number t signed bits (int_read signed bits b)) by (done || apply int_read_range; lia).
    rewrite <- Hb at 1. rewrite Z.mul_comm, Z.div_mul, Nat2Z.id by lia. by rewrite split_read by lia.
  - destruct t; try discriminate Ht; try discriminate Ec; injection Hs as Hs.
    + unfold rowbinary_to_json in Hv. cbn [rowbinary_to_json_inner] in Hv. unfold head in Hv.
      rewrite (proj2 (Nat.leb_le 8 (length b))), (proj2 (Nat.leb_le 8 _)) in Hv by (rewrite ?length_drop; lia).
      cbn [mbind result_bind] in Hv. destruct v as [| |n|s| |]; try done; [by destruct Hv as (z & Hz%eq_sym%show_not_quoted & _)|].
      apply quoted_inj in Hv as <-. unfold encode_scalar. rewrite resolved_leaf by done. cbn [leaf_tag leaf_of tag].
      rewrite uuid_reads_back by apply word_range. cbn [put_res]. unfold id.
      rewrite (split_take 8 b), (split_take 8 (drop 8 b)) by (rewrite ?length_drop; lia).
      rewrite (take_ge (drop 8 b)) by (rewrite length_drop; lia). by rewrite take_drop.
    + unfold rowbinary_to_json in Hv. cbn [rowbinary_to_json_inner] in Hv. unfold head in Hv.
      rewrite (proj2 (Nat.leb_le 4 (length b))) in Hv by lia. cbn [mbind result_bind] in Hv.
      destruct v as [| |n|s| |]; try done; [by destruct Hv as (z & Hz%eq_sym%show_not_quoted & _)|].
      apply quoted_inj in Hv as <-. unfold encode_scalar. rewrite resolved_leaf by done. cbn [leaf_tag leaf_of tag].
      unfold ipv4_bytes. cbn [value_to_str]. rewrite take_ge, parse_ipv4_text by (lia || apply word_range4; lia).
      cbn [ok_or mbind result_bind put_res]. unfold id, put. f_equal.
      replace 4%nat with (length b) by lia. apply LittleEndianList.split_le_combine.
Qed.

(** The text of a 256-bit cell: its bytes from the highest down, in hexadecimal. *)
Definition hex_text (b : list byte) : text := concat (map (fun b => hex_pad 2 (u8 b)) (rev b)).

Lemma hex_text_hex b : Forall (fun b => is_hex b = true) (hex_text b).
Proof.
  unfold hex_text. induction (rev b) as [|x l IH]; [constructor|]. cbn [map concat]. apply Forall_app.
  split; [|exact IH]. apply hex_pad_hex. pose proof (byte.unsigned_range x). unfold u8. lia.
Qed.

Lemma hex_text_length b : length (hex_text b) = (2 * length b)%nat.
Proof.
  unfold hex_text. rewrite <- (length_rev b). induction (rev b) as [|x l IH]; [done|]. cbn [map concat].
  rewrite length_app, hex_pad_length, IH. simpl. lia.
Qed.

(** A hexadecimal digit is neither a sign nor blank. *)
Lemma hex_byte c : is_hex c = true -> beq c "+"%byte = false /\ beq c "-"%byte = false /\ visible c = true.
Proof. destruct c; vm_compute; done. Qed.

Lemma parse_hex_text s signed :
  Forall (fun b => is_hex b = true) s -> s <> [] ->
  (if (signed : bool) then parse_signed 128 (trim s) else parse_unsigned 128 (trim s)) =
    if forallb is_digit s && (digits_value s <? 2 ^ (if signed then 127 else 128)) then Some (digits_value s) else None.
Proof.
  intros Hs Hne.
  assert (Hn : parse_nat_digits s = if forallb is_digit s then Some (digits_value s) else None).
  { destruct s as [|c s]; [done|]. unfold parse_nat_digits. destruct (forallb is_digit (c :: s)) eqn:E.
    - apply parse_digits_value. apply Forall_forall. intros x Hx. rewrite forallb_forall in E. apply E. by apply list_elem_of_In.
    - apply parse_digits_none. exact E. }
  rewrite trim_tight by (apply visible_all_tight; [done|]; eapply Forall_impl; [exact Hs|]; intros x Hx; by apply hex_byte).
  destruct s as [|c s]; [done|]. apply Forall_cons in Hs as [Hc _]. destruct (hex_byte c Hc) as (Hp & Hm & _).
  destruct signed; [unfold parse_signed|unfold parse_unsigned]; rewrite Hp, ?Hm, Hn; by destruct (forallb is_digit (c :: s)).
Qed.

(** What an insert makes of the hexadecimal text: the number the text is in decimal, if it is one. *)
Lemma reinsert_hex `{JsonText} t (signed : bool) s rw nul lc col :
  int_type t = Some (signed, 256) -> Forall (fun b => is_hex b = true) s -> s <> [] ->
  encode_scalar (Jv.String s) (flagged rw nul lc (leaf_of t)) col =
    if forallb is_digit s && (digits_value s <? 2 ^ (if signed then 127 else 128)) then put (le_split 32 (digits_value s))
    else put_err (enc_err col (str (if signed then "string not parseable as i128" else "string not parseable as u128"))).
Proof.
  intros Ht Hs Hne. pose proof (parse_hex_text s signed Hs Hne) as Hp. unfold encode_scalar.
  destruct t; try discriminate Ht; injection Ht as <-; rewrite resolved_leaf by done; cbn [leaf_tag leaf_of tag];
    unfold as_i256_le, as_u256_le; cbn [as_i128 as_u128]; rewrite Hp;
    destruct (forallb is_digit s && _) eqn:E; try done; apply andb_true_iff in E as [Hd Hv%Z.ltb_lt];
    assert (H0 : 0 <= digits_value s) by (apply digits_value_nonneg, Forall_forall; intros x Hx; rewrite forallb_forall in Hd; by apply Hd, list_elem_of_In);
    cbn [ok_or fmap result_fmap put_res]; unfold put, id; do 2 f_equal; (apply i256_split; lia).
Qed.

(** ** Properties *)

(** dynamic rows cross the wire. JSON objects that the encoder accepts for the columns of a
    table become rows the block encoder takes: the block it writes is read back with one row per
    object and, in every column, the cells the encoder wrote. *)
Theorem dynamic_rows_roundtrip `{Platform} `{FloatText} `{JsonText} cols defs (rows : list DynamicRow) encoded revision tail :
  alloc_total -> Forall sendable cols -> cols <> [] -> rows <> [] ->
  Forall2 table_column cols defs ->
  Forall (fun r => row_columns r = defs /\ Forall (raw_fits (row_raw r)) cols) rows ->
  map_res encode rows = Ok encoded ->
  Forall (fun bs => Z.of_nat (length bs) <= MAX_STRING_SIZE) encoded ->
  Z.of_nat (length (concat encoded)) <= MAX_COLUMN_BYTES ->
  Z.of_nat (length cols) <= MAX_BLOCK_COLUMNS -> Z.of_nat (length rows) <= MAX_BLOCK_ROWS ->
  exists cells out, encoded = map (@concat byte) cells /\ encode_columns encoded cols revision = Ok out /\
    (Z.of_nat (length out) < 2 ^ 64 ->
     exists b, decode_block (Z.of_nat (length cols)) (Z.of_nat (length rows)) revision (out ++ tail) = Ok (b, tail) /\
       num_rows b = Z.of_nat (length rows) /\ carries cells 0 cols (zip (schema b) (columns b))).
Proof.
  intros Ha Hs Hc Hr Hcols Hrows He Hsmall Hb Hmc Hmr.
  destruct (table_cells cols defs rows encoded Hcols Hrows He Hsmall) as (cells & -> & Hl%Forall2_length & Hcells).
  destruct (block_read_back Ha cols cells revision tail) as (out & Ho & Hd); try done.
  - by destruct cells, rows.
  - by rewrite concat_rows in Hb.
  - by rewrite <- Hl.
  - exists cells, out. split_and!; [done|done|]. by rewrite <- Hl in Hd.
Qed.

(** A serde_json of one document, and the rows of a small table. *)
Definition plain_json : JsonText :=
  {| value_text := fun _ => str "{}"; json_bytes := fun _ => Ok (str "[]"); powi10 := fun n => f64_of_decimal false 1 n |}.
Definition json_int (z : Z) : Number :=
  mk_number (fits 0 (2 ^ 64) z) (fits (- 2 ^ 63) (2 ^ 63) z) (Some (f64_to_bits (f64_of_decimal (z <? 0) (Z.abs z) 0))) (show z).
Definition example_defs : list ColumnDef :=
  map (fun c => ColumnDef_new (name c) (Encode.type_name c)) example_cols.
Definition example_objects : list DynamicRow :=
  [DynamicRow_new [(str "id", Jv.Number (json_int 7)); (str "tags", Jv.Array [Jv.String (str "a"); Jv.String (str "b")])] example_defs;
   with_raw [(str "id", Jv.Null)] example_defs (str "[]") (str "doc")].
Definition example_encoded : list (list byte) :=
  [[x00; x07; x00; x02; x7b; x7d; x02; x01; x61; x01; x62]; [x01; x02; x5b; x5d; x00]].

Lemma dynamic_rows_roundtrip_witness :
  let P := roomy in let F : FloatText := fun _ => [] in let J := plain_json in
  map_res encode example_objects = Ok example_encoded /\
  exists cells out, example_encoded = map (@concat byte) cells /\ encode_columns example_encoded example_cols 54485 = Ok out /\
    (Z.of_nat (length out) < 2 ^ 64 ->
     exists b, decode_block (Z.of_nat (length example_cols)) (Z.of_nat (length example_objects)) 54485 (out ++ []) = Ok (b, []) /\
       num_rows b = Z.of_nat (length example_objects) /\ carries cells 0 example_cols (zip (schema b) (columns b))).
Proof.
  intros P F J. assert (He : map_res encode example_objects = Ok example_encoded) by (vm_compute; reflexivity).
  split; [exact He|].
  refine (@dynamic_rows_roundtrip P F J example_cols example_defs example_objects example_encoded 54485 []
    _ example_sendable _ _ _ _ He _ _ _ _).
  - intros n. reflexivity.
  - discriminate.
  - discriminate.
  - repeat constructor.
  - repeat constructor; intros H; vm_compute in H; done.
  - repeat constructor; vm_compute; discriminate.
  - vm_compute. discriminate.
  - vm_compute. discriminate.
  - vm_compute. discriminate.
Defined.

(** C21: an integer is written exactly or refused, never modulo the width: for every integer type
    and every JSON integer the encoder either appends the bytes that read back as that integer, or
    appends nothing and fails, and it fails only outside the range of the type. *)
Theorem integers_are_exact `{JsonText} t signed bits n z col :
  int_type t = Some (signed, bits) -> number_is n z ->
  if int_fits signed bits z
  then exists b, encode_value (Jv.Number n) (parsed_of t) col = (b, None) /\
         8 * Z.of_nat (length b) = bits /\ int_read signed bits b = z
  else exists msg, encode_value (Jv.Number n) (parsed_of t) col = ([], Some (enc_err col msg)).
Proof.
  intros Ht Hn. rewrite encode_plain by (by destruct t).
  pose proof (number_written n t signed bits z (ColTypes.type_name t) false false col Ht Hn) as Hw. unfold written in Hw.
  destruct (int_fits signed bits z) eqn:Ef; [|done].
  assert (Hb : 8 * Z.of_nat (Z.to_nat (bits / 8)) = bits /\ (0 < Z.to_nat (bits / 8))%nat) by (destruct t; try discriminate Ht; injection Ht as <- <-; (split; [reflexivity|vm_compute; lia])).
  destruct Hb as [Hb Hpos]. exists (le_split (Z.to_nat (bits / 8)) z). rewrite length_le_split. split_and!; [exact Hw|exact Hb|].
  rewrite <- Hb in Ef |- * at 1. by apply int_read_back.
Qed.

Lemma json_int_is z w :
  - 2 ^ 63 <= z < 2 ^ 64 ->
  f64_whole (f64_of_bits (f64_to_bits (f64_of_decimal (z <? 0) (Z.abs z) 0))) = Some w ->
  (z < 0 -> w < 0) -> (2 ^ 63 <= z -> 2 ^ 63 <= w) -> number_is (json_int z) z.
Proof. intros Hz Hw Hn Hp. split; [done|done|done|]. intros bits v [= <-] Hv. by rewrite Hw in Hv; simplify_eq. Qed.

Lemma integers_are_exact_witness :
  let J := plain_json in
  if int_fits true 8 (-128)
  then exists b, encode_value (Jv.Number (json_int (-128))) (parsed_of Ct.Int8) (str "c") = (b, None) /\
         8 * Z.of_nat (length b) = 8 /\ int_read true 8 b = -128
  else exists msg, encode_value (Jv.Number (json_int (-128))) (parsed_of Ct.Int8) (str "c") = ([], Some (enc_err (str "c") msg)).
Proof.
  intros J. refine (@integers_are_exact J Ct.Int8 true 8 (json_int (-128)) (-128) (str "c") eq_refl _).
  apply (json_int_is _ (-128)); [lia|vm_compute; reflexivity|lia|lia].
Defined.

(** The widths of the decimal columns and their scale. *)
Definition decimal_type (t : ColumnType) : option (Z * Z) :=
  match t with
  | Ct.Decimal32 _ s => Some (32, s) | Ct.Decimal64 _ s => Some (64, s)
  | Ct.Decimal128 _ s => Some (128, s) | Ct.Decimal256 _ s => Some (256, s)
  | _ => None
  end.

(** C33: a plain decimal literal is stored exactly or refused. Where the text of a JSON number, string or boolean is a literal of
    digits with an optional sign and point, a Decimal column of every width gets its value times ten to the scale, with halves
    rounded away from zero, whatever the number of digits; and where that is beyond the width of the column or 127 bits, the
    value is refused, never wrapped nor rounded through a float. *)
Theorem decimals_scale_exactly `{JsonText} t bits scale value sign ip fp dotted col :
  decimal_type t = Some (bits, scale) -> wf_type t ->
  Forall (fun b => is_digit b = true) ip -> Forall (fun b => is_digit b = true) fp ->
  ip ++ fp <> [] -> (dotted = false -> fp = []) ->
  decimal_text value col = Ok (decimal_literal sign ip fp dotted) ->
  let r := scaled_half_up (digits_value (ip ++ fp)) (length fp) scale in
  let z := with_sign (default false sign) r in
  if (r <? 2 ^ 127) && int_fits true bits z
  then encode_value value (parsed_of t) col = (le_split (Z.to_nat (bits / 8)) z, None)
  else exists msg, encode_value value (parsed_of t) col = ([], Some (enc_err col msg)).
Proof.
  intros Ht Hwf Hi Hf Hne Hdot Htext r z. assert (Hs : 0 <= scale) by (destruct t; try discriminate Ht; injection Ht as <- <-; simpl in Hwf; lia).
  pose proof (backing_of_literal value sign ip fp dotted scale col Hi Hf Hne Hdot Hs Htext) as Hb. cbv zeta in Hb. fold r z in Hb.
  assert (Hr : 0 <= r).
  { apply Z.div_pos; [|pose proof (Z.pow_pos_nonneg 10 (Z.of_nat (length fp))); lia]. pose proof (Z.pow_pos_nonneg 10 scale ltac:(lia) Hs).
    pose proof (digits_value_nonneg (ip ++ fp) ltac:(by apply Forall_app)). pose proof (Z.pow_pos_nonneg 10 (Z.of_nat (length fp))). nia. }
  rewrite encode_plain; [|by destruct t|done|by intros ->]. unfold encode_scalar. rewrite resolved_leaf by done.
  assert (Hz : - r <= z <= r) by (unfold z; destruct (default false sign); simpl; lia). unfold int_fits.
  destruct t; try discriminate Ht; injection Ht as <- <-; cbn [leaf_tag]; unfold decimal, flagged, leaf_of;
    cbn [ParsedTypes.scale default id]; rewrite Hb; destruct (Z.ltb_spec r (2 ^ 127)); cbn [andb mbind result_bind put_res err];
    try (by eexists); try (apply ranged).
  - rewrite (proj2 (Z.leb_le _ _)), (proj2 (Z.ltb_lt _ _)) by lia. done.
  - rewrite (proj2 (Z.leb_le _ _)), (proj2 (Z.ltb_lt _ _)) by lia. cbn [andb]. unfold put. f_equal. apply i256_split; lia.
Qed.

(** A literal that is stored, and one digit that is too many for its column. *)
Lemma decimals_scale_exactly_witness :
  let J := plain_json in let t := Ct.Decimal128 38 2 in
  encode_value (Jv.String (str " -12345678901234567890123456789.995 ")) (parsed_of t) (str "d") =
    (le_split 16 (-1234567890123456789012345679000), None) /\
  exists msg, encode_value (Jv.String (str "123456789.5")) (parsed_of (Ct.Decimal32 9 2)) (str "d") = ([], Some (enc_err (str "d") msg)).
Proof.
  intros J t. split.
  - refine (@decimals_scale_exactly J t 128 2 (Jv.String (str " -12345678901234567890123456789.995 ")) (Some true)
      (str "12345678901234567890123456789") (str "995") true (str "d") eq_refl _ _ _ _ _ _);
      [by vm_compute | by apply forallb_Forall | by apply forallb_Forall | done | done | reflexivity].
  - refine (@decimals_scale_exactly J (Ct.Decimal32 9 2) 32 2 (Jv.String (str "123456789.5")) None
      (str "123456789") (str "5") true (str "d") eq_refl _ _ _ _ _ _);
      [by vm_compute | by apply forallb_Forall | by apply forallb_Forall | done | done | reflexivity].
Defined.

(** C22: what was read can be inserted again, and where it cannot. Rendering a cell to JSON and encoding the value the
    text denotes gives back the cell, for the integer columns of up to 128 bits as far as a JSON number is an integer (64 bits), and for the enum,
    DateTime, DateTime64, UUID and IPv4 columns. A number beyond that, which a JSON reader keeps as a float, is refused by a
    128-bit column. A 256-bit integer is rendered in hexadecimal and taken back as decimal: it is refused, or becomes another number. *)
Theorem rendered_cells_reinsert `{FloatText} `{JsonText} t b v col :
  wf_type t -> fixed_size t = Some (Z.of_nat (length b)) ->
  let json := rowbinary_to_json b t in
  (reinserts t = true -> denotes json v -> encode_value v (parsed_of t) col = (b, None)) /\
  (forall signed n, int_type t = Some (signed, 128) -> num_u64 n = None -> num_i64 n = None ->
     exists msg, encode_value (Jv.Number n) (parsed_of t) col = ([], Some (enc_err col msg))) /\
  (forall signed, int_type t = Some (signed, 256) ->
     json = quoted (hex_text b) /\
     encode_value (Jv.String (hex_text b)) (parsed_of t) col =
       if forallb is_digit (hex_text b) && (digits_value (hex_text b) <? 2 ^ (if (signed : bool) then 127 else 128))
       then (le_split 32 (digits_value (hex_text b)), None)
       else ([], Some (enc_err col (str (if signed then "string not parseable as i128" else "string not parseable as u128"))))).
Proof.
  intros Hwf Hs json. split_and!.
  - intros Ht Hv. by apply rendered_cell_back.
  - intros signed n Ht Hu Hi. rewrite encode_plain by (done || by destruct t). unfold encode_scalar. rewrite resolved_leaf by done.
    destruct t; try discriminate Ht; cbn [leaf_tag leaf_of tag as_i128 as_u128]; rewrite Hu, Hi; by eexists.
  - intros signed Ht. assert (Hl : length b = 32%nat) by (destruct t; try discriminate Ht; injection Hs; lia). split.
    + unfold json, rowbinary_to_json. destruct t; try discriminate Ht; cbn [rowbinary_to_json_inner]; unfold head;
        (rewrite (proj2 (Nat.leb_le _ _)) by lia); cbn [mbind result_bind]; by rewrite take_ge by lia.
    + rewrite encode_plain by (done || by destruct t). rewrite (reinsert_hex t signed) by (done || apply hex_text_hex || (intros E; pose proof (hex_text_length b); rewrite E in *; simpl in *; lia)).
      by destruct (forallb is_digit _ && _).
Qed.

(** An address, and the 256-bit number 16, which comes back as 10. *)
Lemma rendered_cells_reinsert_witness :
  let F : FloatText := fun _ => [] in let J := plain_json in
  let sixteen := le_split 32 16 in
  encode_value (Jv.String (str "127.0.0.1")) (parsed_of Ct.IPv4) (str "ip") = ([x01; x00; x00; x7f], None) /\
  rowbinary_to_json sixteen Ct.UInt256 = quoted (hex_text sixteen) /\
  encode_value (Jv.String (hex_text sixteen)) (parsed_of Ct.UInt256) (str "n") = (le_split 32 10, None).
Proof.
  intros F J sixteen. split.
  - refine (proj1 (@rendered_cells_reinsert F J Ct.IPv4 [x01; x00; x00; x7f] (Jv.String (str "127.0.0.1")) (str "ip") I eq_refl) eq_refl _).
    reflexivity.
  - destruct (proj2 (proj2 (@rendered_cells_reinsert F J Ct.UInt256 sixteen Jv.Null (str "n") I eq_refl)) false eq_refl) as [Hj He].
    split; [exact Hj|]. rewrite He. vm_compute. reflexivity.
Defined.
