(* ===== verification/FloatDisplay.v ===== *)
(** * Floats as text

    [Display] of Rust's [f64], which [format_float_json] of [native/columns.rs] prints finite floats with: the shortest
    decimal that reads back as the float, without an exponent. It is the standard library's, so nothing here stands
    for a line of the crate: [Json] takes the text of a float as an argument, and this is that argument. *)

From Stdlib Require Import SpecFloat.
From S2P Require Import Prelude Text Errors WireIo ColTypes Json Floats Rounding Calendar ParsedTypes DynScalars DynEncode.

(** ** The shortest decimal

    The value [m * 2^e] is a fraction; at unit [10^j] it lies between two decimals, its neighbours. *)

#[global] Instance spec_float_eq_dec : EqDecision spec_float.
Proof. solve_decision. Defined.

Definition numerator (m : positive) (e j : Z) : Z := Z.pos m * 2 ^ Z.max 0 e * 10 ^ Z.max 0 (- j).
Definition denominator (e j : Z) : Z := 2 ^ Z.max 0 (- e) * 10 ^ Z.max 0 j.

(** The neighbour to print at this unit, where one reads back: the nearer, of two as near the greater. *)
Definition digits_at (s : bool) (m : positive) (e j : Z) : option Z :=
  let n := numerator m e j in
  let d := denominator e j in
  let reads k := bool_decide (f64_of_decimal s k j = S754_finite s m e) in
  match reads (n / d), reads (n / d + 1) with
  | true, true => Some (if 2 * (n mod d) <? d then n / d else n / d + 1)
  | true, false => Some (n / d)
  | false, true => Some (n / d + 1)
  | false, false => None
  end.

(** The coarsest unit that has one, from [j] down. *)
Fixpoint shortest_from (fuel : nat) (s : bool) (m : positive) (e j : Z) : Z * Z :=
  match fuel with
  | O => (0, j)
  | S fuel => match digits_at s m e j with
              | Some n => (n, j)
              | None => shortest_from fuel s m e (j - 1)
              end
  end.

(** A unit of twice the float or more, and the finest unit there is. *)
Definition top_unit (m : positive) (e : Z) : Z :=
  let l := Z.log2 (Z.pos m) + e + 2 in
  if 0 <=? l then (l + 2) / 3 else - (- l / 4).
Definition FINEST : Z := -1074.
Definition shortest (s : bool) (m : positive) (e : Z) : Z * Z :=
  shortest_from (Z.to_nat (top_unit m e - FINEST + 1)) s m e (top_unit m e).

(** The law of the text: it is a decimal that reads as the float, no decimal of a coarser unit does, and none of its unit is nearer. *)
Definition shortest_for (s : bool) (m : positive) (e n i : Z) : Prop :=
  (forall n' i', i < i' -> f64_of_decimal s n' i' <> S754_finite s m e) /\
  (forall n', f64_of_decimal s n' i = S754_finite s m e ->
    Z.abs (n * denominator e i - numerator m e i) <= Z.abs (n' * denominator e i - numerator m e i)).

(** The decimal [n * 10^j] written out. *)
Definition plain_decimal (n j : Z) : text :=
  if 0 <=? j then show (n * 10 ^ j)
  else show (n / 10 ^ (- j)) ++ str "." ++ pad (Z.to_nat (- j)) (n mod 10 ^ (- j)).

Definition minus (s : bool) : text := if s then str "-" else [].
Definition f64_text (bits : Z) : text :=
  match f64_of_bits bits with
  | S754_nan => str "NaN"
  | S754_infinity s => minus s ++ str "inf"
  | S754_zero s => minus s ++ str "0"
  | S754_finite s m e => let '(n, j) := shortest s m e in minus s ++ plain_decimal n j
  end.

(** The text of a float in Rust. *)
Definition rust_floats : FloatText := f64_text.

Example text_tenth : f64_text 0x3FB999999999999A = str "0.1".
Proof. vm_compute. reflexivity. Qed.
Example text_whole : f64_text 0xC002000000000000 = str "-2.25".
Proof. vm_compute. reflexivity. Qed.
Example text_third : f64_text 0x3FD5555555555555 = str "0.3333333333333333".
Proof. vm_compute. reflexivity. Qed.
Example text_halfway : f64_text 0x44B52D02C7E14AF6 = str "100000000000000000000000".
Proof. vm_compute. reflexivity. Qed.
Example text_million : f64_text 0x412E848000000000 = str "1000000".
Proof. vm_compute. reflexivity. Qed.
Example text_tie : f64_text 0x4310000000000001 = str "1125899906842624.3".
Proof. vm_compute. reflexivity. Qed.

(** ** Rounding what is exact *)

Section exact.
Context (prec emax : Z).

Lemma shr_exact p z : 0 <= z ->
  SpecFloat.iter_pos shr_1 p {| shr_m := z * 2 ^ Z.pos p; shr_r := false; shr_s := false |} = {| shr_m := z; shr_r := false; shr_s := false |}.
Proof.
  intros Hz. assert (Hp : 0 < 2 ^ Z.pos p) by (by apply Z.pow_pos_nonneg).
  assert (Hr : forall b, 0 < b -> record_of (z * b) b = {| shr_m := z; shr_r := false; shr_s := false |}).
  { intros b Hb. unfold record_of, loc_of. by rewrite Z.mod_mul, Z.div_mul by lia. }
  replace {| shr_m := z * 2 ^ Z.pos p; shr_r := false; shr_s := false |} with (record_of (z * 2 ^ Z.pos p) 1).
  - rewrite shr_halves by lia. rewrite Z.mul_1_l. by apply Hr.
  - unfold record_of, loc_of. by rewrite Z.mod_1_r, Z.div_1_r.
Qed.

Lemma log2_shifted m k : 0 <= k -> Z.log2 (Z.pos m * 2 ^ k) = Z.log2 (Z.pos m) + k.
Proof. intros Hk. rewrite Z.log2_mul_pow2; lia. Qed.

Lemma round_exact s m e k : canonical prec emax m e -> 0 <= k ->
  binary_round_aux prec emax s (Z.pos m * 2 ^ k) (e - k) loc_Exact = S754_finite s m e.
Proof.
  intros [Hc He] Hk. unfold binary_round_aux, shr_fexp, shr_record_of_loc.
  assert (Hpos : 0 < Z.pos m * 2 ^ k) by (pose proof (Z.pow_pos_nonneg 2 k); nia).
  rewrite Zdigits2_log2, log2_shifted by lia.
  replace (Z.log2 (Z.pos m) + k + 1 + (e - k)) with (Z.log2 (Z.pos m) + 1 + e) by lia. rewrite Hc.
  replace (e - (e - k)) with k by lia.
  assert (Hs : shr {| shr_m := Z.pos m * 2 ^ k; shr_r := false; shr_s := false |} (e - k) k =
    ({| shr_m := Z.pos m; shr_r := false; shr_s := false |}, e)).
  { destruct k as [|k|k]; [|cbn [shr]; rewrite shr_exact by lia; f_equal; lia|lia].
    cbn [shr]. rewrite Z.mul_1_r. f_equal. lia. }
  rewrite Hs. cbn [shr_m loc_of_shr_record round_nearest_even]. rewrite Zdigits2_log2 by lia.
  rewrite Hc, Z.sub_diag. cbn [shr shr_m]. by rewrite (proj2 (Z.leb_le _ _)).
Qed.

End exact.

(** A decimal that is the float exactly reads as it: [n * 10^-k = m * 2^e]. *)
Lemma exact_decimal s m e n k :
  canonical 53 1024 m e -> 0 < k -> 0 < n ->
  n * 2 ^ Z.max 0 (- e) = Z.pos m * 2 ^ Z.max 0 e * 10 ^ k -> f64_of_decimal s n (- k) = S754_finite s m e.
Proof.
  intros Hc Hk Hn Heq. unfold f64_of_decimal. destruct n as [|n|n]; [lia| |lia].
  rewrite (proj2 (Z.leb_gt 0 (- k))), Z.opp_involutive by lia.
  assert (Hd : 0 < 10 ^ k) by (apply Z.pow_pos_nonneg; lia). revert Heq Hd. generalize (10 ^ k). intros d Heq Hd.
  set (a := Z.max 0 (- e)) in *. set (b := Z.max 0 e) in *. assert (Ha : 0 <= a) by lia. assert (Hb : 0 <= b) by lia.
  assert (Hab : b - a = e) by lia. clearbody a b.
  assert (Hl : Z.log2 (Z.pos n) + a <= Z.log2 (Z.pos m) + b + Z.log2 d + 1).
  { rewrite <- log2_shifted, Heq, <- log2_shifted by lia. pose proof (Z.log2_mul_above (Z.pos m * 2 ^ b) d) as Hm.
    pose proof (Z.pow_pos_nonneg 2 b). lia. }
  unfold SFdiv_core_binary. rewrite !Zdigits2_log2 by lia. rewrite !Z.add_0_r.
  set (e' := Z.min _ _). assert (He' : e' <= e /\ e' <= 0).
  { destruct Hc as [Hc _]. unfold fexp, emin in *. lia. }
  clearbody e'. replace (0 - 0 - e') with (- e') by lia.
  assert (Hm' : match - e' with Z.pos _ => Z.shiftl (Z.pos n) (- e') | Z0 => Z.pos n | Z.neg _ => 0 end =
    Z.pos m * 2 ^ (e - e') * d).
  { transitivity (Z.pos n * 2 ^ (- e')).
    { destruct (- e') as [|p|p] eqn:Ep; [lia|by rewrite Z.shiftl_mul_pow2 by lia|lia]. }
    apply (Z.mul_reg_r _ _ (2 ^ a)); [pose proof (Z.pow_pos_nonneg 2 a); lia|].
    replace (Z.pos n * 2 ^ (- e') * 2 ^ a) with (Z.pos n * 2 ^ a * 2 ^ (- e')) by lia. rewrite Heq.
    replace (Z.pos m * 2 ^ (e - e') * d * 2 ^ a) with (Z.pos m * d * (2 ^ (e - e') * 2 ^ a)) by lia.
    replace (Z.pos m * 2 ^ b * d * 2 ^ (- e')) with (Z.pos m * d * (2 ^ b * 2 ^ (- e'))) by lia.
    rewrite <- !Z.pow_add_r by lia. do 2 f_equal. lia. }
  rewrite Hm'. rewrite (surjective_pairing (Z.div_eucl _ _)). change (fst (Z.div_eucl ?x ?y)) with (x / y).
  change (snd (Z.div_eucl ?x ?y)) with (x mod y). rewrite Z.div_mul, Z.mod_mul by lia.
  assert (Hloc : new_location d 0 = loc_Exact) by (unfold new_location, new_location_even, new_location_odd; by destruct (Z.even d)).
  rewrite Hloc. replace e' with (e - (e - e')) at 2 by lia. apply round_exact; [exact Hc|lia].
Qed.

(** ** Patterns *)

(** The fields of a pattern. *)
Lemma pattern_fields bits : 0 <= bits < 2 ^ 64 ->
  exists (s : bool) e m, bits = (if s then 2 ^ 63 else 0) + e * 2 ^ 52 + m /\ 0 <= e < 2 ^ 11 /\ 0 <= m < 2 ^ 52 /\
    Z.testbit bits 63 = s /\ Z.land (Z.shiftr bits 52) (2 ^ 11 - 1) = e /\ Z.land bits (2 ^ 52 - 1) = m.
Proof.
  intros Hb. exists (Z.testbit bits 63), (bits / 2 ^ 52 mod 2 ^ 11), (bits mod 2 ^ 52).
  assert (Ht : Z.b2z (Z.testbit bits 63) = bits / 2 ^ 63).
  { rewrite Z.testbit_spec' by lia. apply Z.mod_small. split; [apply Z.div_pos; lia|apply Z.div_lt_upper_bound; lia]. }
  change (2 ^ 11 - 1) with (Z.ones 11). change (2 ^ 52 - 1) with (Z.ones 52).
  rewrite !Z.land_ones, Z.shiftr_div_pow2 by lia. split_and!; try done; try (apply Z.mod_pos_bound; lia).
  change (2 ^ 63) with (2 ^ 52 * 2 ^ 11) in Ht. rewrite <- Z.div_div in Ht by lia.
  pose proof (Z.div_mod bits (2 ^ 52) ltac:(lia)). pose proof (Z.div_mod (bits / 2 ^ 52) (2 ^ 11) ltac:(lia)).
  destruct (Z.testbit bits 63); cbn [Z.b2z] in Ht; rewrite <- Ht in *; lia.
Qed.

Lemma pattern_cases bits : 0 <= bits < 2 ^ 64 -> is_finite (f64_of_bits bits) = true ->
  (exists s, f64_of_bits bits = S754_zero s) \/ exists s m e, f64_of_bits bits = S754_finite s m e /\ canonical 53 1024 m e /\ FINEST <= e.
Proof.
  intros Hb Hf. destruct (pattern_fields bits Hb) as (s & e & m & _ & He & Hm & Ht & Hle & Hlm).
  unfold f64_of_bits, of_bits in *. change (52 + 11) with 63 in *. rewrite Ht, Hle, Hlm in *.
  destruct (e =? 2 ^ 11 - 1) eqn:Ei; [by destruct (m =? 0)|]. destruct (Z.eqb_spec e 0) as [->|Hz].
  - destruct m as [|m|m]; [by left; exists s| |lia]. right. exists s, m, (-1074). split; [done|]. split; [|done].
    assert (Hl : Z.log2 (Z.pos m) < 52) by (apply Z.log2_lt_pow2; lia). unfold canonical, fexp, emin. lia.
  - destruct (m + 2 ^ 52) as [|p|p] eqn:Ep; [lia| |lia]. right. exists s, p, (e + -1074 - 1). split; [done|].
    assert (Hl : Z.log2 (Z.pos p) = 52) by (apply Z.log2_unique; [lia|change (Z.succ 52) with 53; lia]). unfold canonical, fexp, emin, FINEST in *.
    apply Z.eqb_neq in Ei. lia.
Qed.

Lemma pattern_back bits : 0 <= bits < 2 ^ 64 -> is_finite (f64_of_bits bits) = true -> f64_to_bits (f64_of_bits bits) = bits.
Proof.
  intros Hb Hf. destruct (pattern_fields bits Hb) as (s & e & m & Heq & He & Hm & Ht & Hle & Hlm).
  unfold f64_of_bits, of_bits, f64_to_bits, to_bits in *. change (52 + 11) with 63 in *. rewrite Ht, Hle, Hlm in *.
  destruct (e =? 2 ^ 11 - 1) eqn:Ei; [by destruct (m =? 0)|]. destruct (Z.eqb_spec e 0) as [->|Hz].
  - destruct m as [|m|m]; [by destruct s; lia| |lia]. rewrite (proj2 (Z.ltb_lt _ _)) by lia. by destruct s; lia.
  - destruct (m + 2 ^ 52) as [|p|p] eqn:Ep; [lia| |lia]. rewrite (proj2 (Z.ltb_ge _ _)) by lia.
    rewrite Z.shiftl_mul_pow2 by lia. by destruct s; lia.
Qed.

(** ** The search finds a decimal *)

Lemma digits_at_reads s m e j n : digits_at s m e j = Some n -> f64_of_decimal s n j = S754_finite s m e.
Proof.
  unfold digits_at. cbv zeta. do 2 case_bool_decide; [case_match| | |done]; by intros [= <-].
Qed.

(** Every float is a decimal at the finest unit. *)
Lemma exact_at_finest s m e : canonical 53 1024 m e -> FINEST <= e ->
  exists n, 0 < n /\ n * 2 ^ Z.max 0 (- e) = Z.pos m * 2 ^ Z.max 0 e * 10 ^ 1074 /\ f64_of_decimal s n FINEST = S754_finite s m e.
Proof.
  intros Hc He. unfold FINEST in *.
  assert (Hn : exists n, 0 < n /\ n * 2 ^ Z.max 0 (- e) = Z.pos m * 2 ^ Z.max 0 e * 10 ^ 1074).
  { exists (Z.pos m * 2 ^ Z.max 0 e * (5 ^ 1074 * 2 ^ (1074 - Z.max 0 (- e)))).
    assert (H5 : 0 < 5 ^ 1074) by (apply Z.pow_pos_nonneg; lia). assert (H10 : 10 ^ 1074 = 5 ^ 1074 * 2 ^ 1074) by (by rewrite <- Z.pow_mul_l).
    rewrite H10. revert H5. generalize (5 ^ 1074). intros f H5. clear H10.
    pose proof (Z.pow_pos_nonneg 2 (Z.max 0 e)). pose proof (Z.pow_pos_nonneg 2 (1074 - Z.max 0 (- e))). split; [nia|].
    replace 1074 with (1074 - Z.max 0 (- e) + Z.max 0 (- e)) at 2 by lia. rewrite Z.pow_add_r by lia. lia. }
  destruct Hn as (n & Hpos & Hn). exists n. split_and!; [done|done|]. by apply (exact_decimal s m e n 1074).
Qed.

(** A decimal that reads as the float has a neighbour of the float on its side, at its unit, that does: reading is monotone, and
    the float itself is a decimal. *)
Lemma toward_the_float s m e n i : canonical 53 1024 m e -> FINEST <= e ->
  f64_of_decimal s n i = S754_finite s m e ->
  let lo := numerator m e i / denominator e i in
  if n <=? lo then f64_of_decimal s lo i = S754_finite s m e else f64_of_decimal s (lo + 1) i = S754_finite s m e.
Proof.
  intros Hc He Hr lo. destruct (exact_at_finest s m e Hc He) as (n0 & Hn0 & Heq & Hr0).
  assert (Hn : 0 < n) by (destruct n as [|n|n]; [discriminate Hr|lia|discriminate Hr]).
  assert (Hd : 0 < denominator e i) by (unfold denominator; apply Z.mul_pos_pos; apply Z.pow_pos_nonneg; lia).
  pose proof (Z.div_mod (numerator m e i) (denominator e i) ltac:(lia)) as Hdm. pose proof (Z.mod_pos_bound (numerator m e i) _ Hd) as Hm.
  fold lo in Hdm. unfold numerator, denominator in Hdm, Hm, Hd.
  assert (H2 : 0 < 2 ^ Z.max 0 (- e)) by (apply Z.pow_pos_nonneg; lia). pose proof (below_pos FINEST) as Hb0.
  assert (Hex : above n0 FINEST * 2 ^ Z.max 0 (- e) = Z.pos m * 2 ^ Z.max 0 e * below FINEST).
  { unfold above, below. change (Z.max 0 FINEST) with 0. change (Z.max 0 (- FINEST)) with 1074. rewrite Z.pow_0_r, Z.mul_1_r. exact Heq. }
  assert (Hord : forall k, (k * (2 ^ Z.max 0 (- e) * 10 ^ Z.max 0 i) <= Z.pos m * 2 ^ Z.max 0 e * 10 ^ Z.max 0 (- i) ->
      above k i * below FINEST <= above n0 FINEST * below i) /\
    (Z.pos m * 2 ^ Z.max 0 e * 10 ^ Z.max 0 (- i) <= k * (2 ^ Z.max 0 (- e) * 10 ^ Z.max 0 i) ->
      above n0 FINEST * below i <= above k i * below FINEST)).
  { intros k. fold (below i). unfold above at 1 4. revert Hex H2 Hb0. generalize (above n0 FINEST) (below FINEST) (below i).
    generalize (2 ^ Z.max 0 (- e)) (2 ^ Z.max 0 e) (10 ^ Z.max 0 i). intros a b t x w y Hex H2 Hb0. split; intros Hle.
    - apply (Z.mul_le_mono_pos_r _ _ a H2). replace (x * y * a) with (x * a * y) by lia. rewrite Hex.
      pose proof (Z.mul_le_mono_nonneg_r _ _ w ltac:(lia) Hle). lia.
    - apply (Z.mul_le_mono_pos_r _ _ a H2). replace (x * y * a) with (x * a * y) by lia. rewrite Hex.
      pose proof (Z.mul_le_mono_nonneg_r _ _ w ltac:(lia) Hle). lia. }
  assert (Hl0 : 0 <= lo).
  { unfold lo. apply Z.div_pos; unfold numerator, denominator; [|lia]. repeat apply Z.mul_nonneg_nonneg; (lia || apply Z.pow_nonneg; lia). }
  assert (Hmono : forall k k', k <= k' -> above k i * below i <= above k' i * below i).
  { intros k k' Hk. apply Z.mul_le_mono_nonneg_r; [pose proof (below_pos i); lia|]. unfold above.
    pose proof (Z.pow_pos_nonneg 10 (Z.max 0 i)). nia. }
  destruct (Z.leb_spec n lo) as [Hle|Hgt].
  - by apply (decimal_between s m e n i lo i n0 FINEST); [done|lia|done|apply Hmono|apply Hord; nia|..].
  - by apply (decimal_between s m e n0 FINEST (lo + 1) i n i); [done|lia|done|apply Hord; nia|apply Hmono; lia|..].
Qed.

Lemma neighbour_reads s m e n i : canonical 53 1024 m e -> FINEST <= e ->
  f64_of_decimal s n i = S754_finite s m e -> is_Some (digits_at s m e i).
Proof.
  intros Hc He Hr. pose proof (toward_the_float s m e n i Hc He Hr) as Ht. cbv zeta in Ht. unfold digits_at. cbv zeta.
  destruct (n <=? _); do 2 case_bool_decide; eauto; done.
Qed.

(** What is printed at a unit is as near to the float as any decimal of that unit that reads as it. *)
Lemma digits_nearest s m e n i k : canonical 53 1024 m e -> FINEST <= e ->
  digits_at s m e i = Some k -> f64_of_decimal s n i = S754_finite s m e ->
  Z.abs (k * denominator e i - numerator m e i) <= Z.abs (n * denominator e i - numerator m e i).
Proof.
  intros Hc He Hk Hr. pose proof (toward_the_float s m e n i Hc He Hr) as Ht. cbv zeta in Ht. unfold digits_at in Hk. cbv zeta in Hk.
  assert (Hd : 0 < denominator e i) by (unfold denominator; apply Z.mul_pos_pos; apply Z.pow_pos_nonneg; lia).
  pose proof (Z.div_mod (numerator m e i) (denominator e i) ltac:(lia)) as Hdm. pose proof (Z.mod_pos_bound (numerator m e i) _ Hd) as Hm.
  set (lo := numerator m e i / denominator e i) in *. set (d := denominator e i) in *. set (r := numerator m e i mod d) in *.
  rewrite Hdm. clear Hdm.
  destruct (Z.leb_spec n lo) as [Hle|Hgt]; do 2 case_bool_decide; try done;
    (destruct (Z.ltb_spec (2 * r) d) as [Hlt|Hge] || idtac); injection Hk as <-; nia.
Qed.

Lemma twice_rounds_apart a b w M pk p2a p2e pv v :
  2 * (v * p2e * b) <= a * p2a -> M * pk = v * pv -> 2 * (a * w) - b * pk <= 2 * (b * pk) * M -> p2e * w = pv * p2a ->
  0 < pk -> 0 < p2a -> 0 < w -> 0 < b -> 0 < v -> 0 < pv -> False.
Proof.
  intros Hbig Hv Hlow Hpe Hpk H2 Hw Hb Hvp Hpv.
  assert (Hcore : 2 * (b * (M * pk)) <= a * w).
  { apply (Z.mul_le_mono_pos_r _ _ p2a H2). rewrite Hv. replace (2 * (b * (v * pv)) * p2a) with (2 * b * v * (pv * p2a)) by lia.
    rewrite <- Hpe. pose proof (Z.mul_le_mono_nonneg_r _ _ w ltac:(lia) Hbig). lia. }
  assert (HM : 1 <= M) by (assert (0 < v * pv) by nia; nia). assert (0 < b * pk) by nia. nia.
Qed.

(** A decimal of twice the float or more does not read as it. *)
Lemma too_big s m e n i : FINEST <= e -> 0 < n ->
  2 * (Z.pos m * 2 ^ Z.max 0 e * below i) <= above n i * 2 ^ Z.max 0 (- e) -> f64_of_decimal s n i <> S754_finite s m e.
Proof.
  intros He Hn Hbig. destruct (decimal_rounds s n i Hn) as (k & Hu & ->). fold (rounded (above n i) (below i) k).
  pose proof (above_pos n i Hn) as Ha. pose proof (below_pos i) as Hb. destruct (rounded_range _ _ _ Ha Hb Hu) as [Hg Hz].
  destruct (make_float_cases s _ k (proj1 Hu) Hg Hz) as [[_ ->]|[(v & e' & -> & _ & _ & Hv)|[-> _]]]; [done| |done]. intros [= -> ->].
  assert (Hp : forall z, 0 <= z -> 0 < 2 ^ z) by (intros; by apply Z.pow_pos_nonneg). unfold FINEST in He.
  destruct (rne_spec (above n i * 2 ^ 1074) (below i * 2 ^ k)) as ([Hlow _] & _); [apply Z.mul_pos_pos; [done|apply Hp, Hu]|].
  eapply (twice_rounds_apart _ _ _ _ _ _ _ _ _ Hbig Hv Hlow); [|apply Hp; (apply Hu || lia)..|done|done|apply Hp; lia].
  rewrite <- !Z.pow_add_r by lia. f_equal. lia.
Qed.

(** At the top unit and above, every decimal is that big. *)
Lemma top_power l i : (if 0 <=? l then (l + 2) / 3 else - (- l / 4)) <= i -> 2 ^ Z.max 0 l * below i <= 10 ^ Z.max 0 i * 2 ^ Z.max 0 (- l).
Proof.
  intros Hi. assert (H10 : forall z, 0 <= z -> 1 <= 10 ^ z) by (intros z Hz; pose proof (Z.pow_pos_nonneg 10 z); lia).
  assert (H2 : forall z, 0 <= z -> 1 <= 2 ^ z) by (intros z Hz; pose proof (Z.pow_pos_nonneg 2 z); lia). unfold below.
  destruct (Z.leb_spec 0 l).
  - pose proof (Z.div_mod (l + 2) 3 ltac:(lia)). pose proof (Z.mod_pos_bound (l + 2) 3 ltac:(lia)). set (q := (l + 2) / 3) in *.
    rewrite (Z.max_r 0 l), (Z.max_l 0 (- l)), (Z.max_r 0 i), (Z.max_l 0 (- i)) by lia. rewrite !Z.pow_0_r, !Z.mul_1_r.
    transitivity (2 ^ (3 * i)); [apply Z.pow_le_mono_r; lia|]. rewrite Z.pow_mul_r by lia. apply Z.pow_le_mono_l. lia.
  - pose proof (Z.div_mod (- l) 4 ltac:(lia)). pose proof (Z.mod_pos_bound (- l) 4 ltac:(lia)). set (q := - l / 4) in *.
    rewrite (Z.max_l 0 l), (Z.max_r 0 (- l)) by lia. rewrite Z.pow_0_r, Z.mul_1_l. destruct (Z_le_gt_dec 0 i).
    + rewrite (Z.max_l 0 (- i)), Z.pow_0_r by lia. specialize (H10 (Z.max 0 i) ltac:(lia)). specialize (H2 (- l) ltac:(lia)). nia.
    + rewrite (Z.max_l 0 i), (Z.max_r 0 (- i)), Z.pow_0_r, Z.mul_1_l by lia.
      transitivity (2 ^ (4 * - i)); [|apply Z.pow_le_mono_r; lia]. rewrite (Z.pow_mul_r 2 4) by lia. apply Z.pow_le_mono_l. lia.
Qed.

Lemma above_top m e i n : 0 < n -> top_unit m e <= i -> 2 * (Z.pos m * 2 ^ Z.max 0 e * below i) <= above n i * 2 ^ Z.max 0 (- e).
Proof.
  intros Hn Hi. apply top_power in Hi. set (l := Z.log2 (Z.pos m) + e + 2) in *. pose proof (Z.log2_nonneg (Z.pos m)) as HL.
  assert (Hp : forall z, 0 < 2 ^ Z.max 0 z) by (intros; apply Z.pow_pos_nonneg; lia).
  assert (Hm : 2 * Z.pos m <= 2 ^ (Z.log2 (Z.pos m) + 2)).
  { pose proof (Z.log2_spec (Z.pos m) ltac:(lia)) as [_ Hm]. rewrite <- Z.add_1_r, Z.pow_add_r in Hm by lia. rewrite Z.pow_add_r by lia.
    change (2 ^ 2) with 4. change (2 ^ 1) with 2 in Hm. lia. }
  assert (Hl : 2 ^ (Z.log2 (Z.pos m) + 2) * 2 ^ Z.max 0 e * 2 ^ Z.max 0 (- l) = 2 ^ Z.max 0 l * 2 ^ Z.max 0 (- e)).
  { rewrite <- !Z.pow_add_r by lia. f_equal. lia. }
  pose proof (Hp e) as He. pose proof (Hp (- e)) as He'. pose proof (Hp (- l)) as Hl'. pose proof (below_pos i) as Hb.
  assert (H10 : 0 < 10 ^ Z.max 0 i) by (apply Z.pow_pos_nonneg; lia). unfold above. revert Hi Hm Hl He He' Hl' Hb H10.
  generalize (2 ^ Z.max 0 e) (2 ^ Z.max 0 (- e)) (2 ^ Z.max 0 (- l)) (2 ^ Z.max 0 l) (below i) (10 ^ Z.max 0 i).
  generalize (2 ^ (Z.log2 (Z.pos m) + 2)). clear -Hn. intros M pe pe' pl' pl b t Hi Hm Hl He He' Hl' Hb H10.
  apply (Z.mul_le_mono_pos_r _ _ pl' Hl').
  assert (H1 : 2 * Z.pos m * (pe * pl' * b) <= M * (pe * pl' * b)) by (apply Z.mul_le_mono_nonneg_r; [|exact Hm]; repeat apply Z.mul_nonneg_nonneg; lia).
  assert (H2 : M * (pe * pl' * b) = pl * b * pe') by (rewrite <- (Z.mul_shuffle0 pl), <- Hl; lia).
  assert (H3 : pl * b * pe' <= t * pl' * pe') by (apply Z.mul_le_mono_nonneg_r; lia).
  assert (H4 : 1 * (t * pl' * pe') <= n * (t * pl' * pe')) by (apply Z.mul_le_mono_nonneg_r; [|lia]; repeat apply Z.mul_nonneg_nonneg; lia).
  lia.
Qed.

Lemma shortest_from_finds fuel s m e j k : j - Z.of_nat fuel < k <= j -> is_Some (digits_at s m e k) ->
  exists n i, shortest_from fuel s m e j = (n, i) /\ digits_at s m e i = Some n /\ k <= i <= j /\
    forall i', i < i' <= j -> digits_at s m e i' = None.
Proof.
  revert j; induction fuel as [|fuel IH]; intros j Hk Hs; [lia|]. cbn [shortest_from].
  destruct (digits_at s m e j) as [n|] eqn:Ed.
  { exists n, j. split_and!; [done|done|lia|lia|]. intros i' Hi'. lia. }
  destruct (decide (k = j)) as [->|Hne]; [rewrite Ed in Hs; by destruct Hs|].
  destruct (IH (j - 1)) as (n & i & Hf & Hd & Hi & Hall); [lia|done|]. exists n, i. split_and!; [done|done|lia|lia|].
  intros i' Hi'. destruct (decide (i' = j)) as [->|]; [done|]. apply Hall. lia.
Qed.

Lemma shortest_found s m e : canonical 53 1024 m e -> FINEST <= e ->
  exists n i, shortest s m e = (n, i) /\ digits_at s m e i = Some n /\ shortest_for s m e n i.
Proof.
  intros Hc He. assert (Hlow : FINEST <= top_unit m e).
  { pose proof (Z.log2_nonneg (Z.pos m)). unfold FINEST, top_unit in *. cbv zeta. set (l := _ + e + 2) in *.
    pose proof (Z.div_mod (l + 2) 3 ltac:(lia)). pose proof (Z.mod_pos_bound (l + 2) 3 ltac:(lia)). pose proof (Z.div_mod (- l) 4 ltac:(lia)).
    pose proof (Z.mod_pos_bound (- l) 4 ltac:(lia)). destruct (Z.leb_spec 0 l); lia. }
  destruct (shortest_from_finds (Z.to_nat (top_unit m e - FINEST + 1)) s m e (top_unit m e) FINEST) as (n & i & Hf & Hd & Hi & Hall); [lia| |].
  { destruct (exact_at_finest s m e Hc He) as (n & _ & _ & Hr). by eapply neighbour_reads. }
  exists n, i. split_and!; [done|done|]. split; [|intros n' Hr; by apply (digits_nearest s)]. intros n' i' Hi' Hr. destruct (Z_le_gt_dec i' (top_unit m e)).
  - apply (neighbour_reads _ _ _ _ _ Hc He) in Hr. rewrite Hall in Hr by lia. by destruct Hr.
  - assert (0 < n') by (destruct n' as [|n'|n']; [discriminate Hr|lia|discriminate Hr]).
    revert Hr. apply too_big; [done|done|]. apply above_top; [done|lia].
Qed.

(** ** The text reads back *)

Definition no_digit_first (r : text) : Prop := match r with b :: _ => is_digit b = false | [] => True end.

Lemma take_digits_all ds acc n z r :
  parse_digits acc ds = Some z -> no_digit_first r -> take_digits acc n (ds ++ r) = (z, (n + length ds)%nat, r).
Proof.
  revert acc n; induction ds as [|b ds IH]; intros acc n Hp Hr.
  - injection Hp as ->. rewrite Nat.add_0_r. destruct r as [|b r]; [done|]. cbn [app take_digits]. by rewrite Hr.
  - cbn [parse_digits] in Hp. cbn [app take_digits]. destruct (is_digit b); [|done]. rewrite (IH _ (S n) Hp Hr).
    do 2 f_equal. simpl. lia.
Qed.

Lemma decimal_first n j : 0 <= n -> exists b r, plain_decimal n j = b :: r /\ is_digit b = true.
Proof.
  intros Hn. assert (Hs : forall z r, 0 <= z -> exists b r', show z ++ r = b :: r' /\ is_digit b = true).
  { intros z r Hz. destruct (show_digits z Hz) as (Hne & Hd & _). destruct (show z) as [|b s]; [done|].
    apply Forall_cons in Hd as [Hb _]. by exists b, (s ++ r). }
  unfold plain_decimal. destruct (Z.leb_spec 0 j).
  - destruct (Hs (n * 10 ^ j) []) as (b & r & Hb); [pose proof (Z.pow_nonneg 10 j); nia|]. exists b, r. by rewrite app_nil_r in Hb.
  - apply Hs. apply Z.div_pos; [done|]. apply Z.pow_pos_nonneg; lia.
Qed.

Lemma sign_read s t b r : t = b :: r -> is_digit b = true -> sign_of (minus s ++ t) = (s, t).
Proof. intros -> Hb. apply is_digit_not_sign in Hb as [Hp Hm]. destruct s; [done|]. cbn [minus app sign_of]. by rewrite Hm, Hp. Qed.

Lemma decimal_read s n j : 0 < n -> parse_f64 (minus s ++ plain_decimal n j) = Some (f64_of_decimal s n j).
Proof.
  intros Hn. destruct (decimal_first n j) as (b & r & Ht & Hb); [lia|].
  unfold parse_f64. rewrite (sign_read s _ b r Ht Hb). clear b r Ht Hb. unfold plain_decimal.
  destruct (Z.leb_spec 0 j) as [Hj|Hj].
  - pose proof (Z.pow_pos_nonneg 10 j) as Hp. destruct (show_digits (n * 10 ^ j)) as (Hne & _ & Hd); [nia|].
    rewrite <- (app_nil_r (show _)), (take_digits_all _ 0 0 _ [] Hd I). cbn [Nat.add].
    destruct (Nat.eqb_spec (length (show (n * 10 ^ j)) + 0) 0) as [E|_]; [destruct (show (n * 10 ^ j)); [done|simpl in E; lia]|].
    cbn [parse_exponent mbind option_bind]. f_equal. unfold f64_of_decimal. destruct n as [|n|n]; [lia| |lia].
    rewrite (proj2 (Z.leb_le 0 j)) by done. destruct (Z.pos n * 10 ^ j) as [|q|q] eqn:Eq; [nia| |nia]. cbn [Z.leb Z.compare].
    change (0 - Z.of_nat 0) with 0. cbn [Z.leb Z.compare]. by rewrite Z.pow_0_r, Z.mul_1_r.
  - set (k := - j). assert (Hk : 0 < k) by lia. assert (Hp : 0 < 10 ^ k) by (apply Z.pow_pos_nonneg; lia).
    destruct (show_digits (n / 10 ^ k)) as (Hne & _ & Hd); [apply Z.div_pos; lia|].
    rewrite (take_digits_all _ 0 0 _ _ Hd) by done. change (str "." ++ ?r) with ("."%byte :: r).
    pose proof (parse_digits_pad (Z.to_nat k) (n mod 10 ^ k) (n / 10 ^ k)) as Hf. rewrite Z2Nat.id in Hf by lia.
    specialize (Hf (Z.mod_pos_bound _ _ Hp)). rewrite Z.mul_comm, <- Z.div_mod in Hf by lia.
    pose proof (take_digits_all _ _ 0 _ [] Hf I) as Hfrac. rewrite app_nil_r in Hfrac. rewrite pad_length in Hfrac.
    cbv beta iota. change (beq "."%byte "."%byte) with true. cbv iota. rewrite Hfrac. cbn [Nat.add].
    destruct (Nat.eqb_spec (length (show (n / 10 ^ k)) + Z.to_nat k) 0) as [Ez|_].
    { lia. }
    cbn [parse_exponent mbind option_bind]. do 2 f_equal. lia.
Qed.

Lemma f64_of_zero s j : f64_of_decimal s 0 j = S754_zero s.
Proof. done. Qed.

Lemma digits_at_pos s m e j n : digits_at s m e j = Some n -> 0 < n.
Proof.
  intros Hd. destruct (Z_lt_le_dec 0 n) as [|Hn]; [done|]. apply digits_at_reads in Hd.
  unfold f64_of_decimal in Hd. by destruct n; try lia.
Qed.

(** Every finite float, both zeros and the subnormals among them, is read from its text. *)
Lemma f64_text_reads bits : 0 <= bits < 2 ^ 64 -> is_finite (f64_of_bits bits) = true ->
  parse_f64_bits (f64_text bits) = Some bits.
Proof.
  intros Hb Hf. pose proof (pattern_back bits Hb Hf) as Hback.
  assert (Hp : parse_f64 (f64_text bits) = Some (f64_of_bits bits)).
  { unfold f64_text. destruct (pattern_cases bits Hb Hf) as [[s ->]|(s & m & e & -> & Hc & He)]; [by destruct s|].
    destruct (shortest_found s m e Hc He) as (n & i & -> & Hd & _). rewrite decimal_read by (by eapply digits_at_pos).
    f_equal. by apply digits_at_reads. }
  unfold parse_f64_bits. rewrite Hp. cbn [mbind option_bind]. rewrite Hback. f_equal.
  destruct (f64_of_bits bits); try discriminate Hf; lia.
Qed.

(** ** Single precision, through double *)

Lemma fields_pattern (s : bool) e m : 0 <= e < 2 ^ 11 -> 0 <= m < 2 ^ 52 ->
  let bits := (if s then 2 ^ 63 else 0) + e * 2 ^ 52 + m in
  0 <= bits < 2 ^ 64 /\ Z.testbit bits 63 = s /\ Z.land (Z.shiftr bits 52) (2 ^ 11 - 1) = e /\ Z.land bits (2 ^ 52 - 1) = m.
Proof.
  intros He Hm bits. assert (Hb : 0 <= bits < 2 ^ 64) by (unfold bits; destruct s; lia).
  destruct (pattern_fields bits Hb) as (s' & e' & m' & Heq & He' & Hm' & -> & -> & ->). unfold bits in Heq.
  assert (s' = s) as -> by (destruct s, s'; done || lia). split_and!; (done || lia).
Qed.

Lemma finite_pattern bits : 0 <= bits < 2 ^ 64 -> is_finite (f64_of_bits bits) = f64_is_finite bits.
Proof.
  intros Hb. destruct (pattern_fields bits Hb) as (s & e & m & _ & He & Hm & Ht & Hle & Hlm).
  unfold f64_is_finite, f64_of_bits, of_bits. change (52 + 11) with 63. change 0x7FF with (2 ^ 11 - 1). rewrite Ht, Hle, Hlm.
  destruct (e =? 2 ^ 11 - 1); [by destruct (m =? 0)|]. destruct (if e =? 0 then m else m + 2 ^ 52) eqn:Em; try done.
Qed.

(** A float of single precision that double precision holds with [k] bits to spare comes back. *)
Lemma narrow_exact s m e k p : canonical 24 128 m e -> 0 <= k -> Z.pos p = Z.pos m * 2 ^ k ->
  f64_as_f32 (S754_finite s p (e - k)) = S754_finite s m e.
Proof.
  intros Hc Hk Hp. unfold f64_as_f32, binary_round. rewrite digits2_log2, Hp, log2_shifted by done.
  replace (Z.log2 (Z.pos m) + k + 1 + (e - k)) with (Z.log2 (Z.pos m) + 1 + e) by lia. rewrite (proj1 Hc).
  unfold shl_align. replace (e - (e - k)) with k by lia.
  destruct k as [|k|k]; [|rewrite Hp; by apply round_exact|lia]. rewrite Hp. by apply round_exact.
Qed.

Lemma f32_fields bits : 0 <= bits < 2 ^ 32 ->
  exists (s : bool) e m, bits = (if s then 2 ^ 31 else 0) + e * 2 ^ 23 + m /\ 0 <= e < 2 ^ 8 /\ 0 <= m < 2 ^ 23 /\
    Z.shiftl (Z.shiftr bits 31) 63 = (if s then 2 ^ 63 else 0) /\ Z.land (Z.shiftr bits 23) 0xFF = e /\ Z.land bits 0x7FFFFF = m.
Proof.
  intros Hb. assert (Hs : bits / 2 ^ 31 = 0 \/ bits / 2 ^ 31 = 1).
  { assert (0 <= bits / 2 ^ 31 < 2); [|lia]. split; [apply Z.div_pos; lia|apply Z.div_lt_upper_bound; lia]. }
  exists (bits / 2 ^ 31 =? 1), (bits / 2 ^ 23 mod 2 ^ 8), (bits mod 2 ^ 23).
  change 0xFF with (Z.ones 8). change 0x7FFFFF with (Z.ones 23).
  rewrite !Z.land_ones, !Z.shiftr_div_pow2, Z.shiftl_mul_pow2 by lia. split_and!; try done; try (apply Z.mod_pos_bound; lia).
  - assert (Hd : bits / 2 ^ 23 / 2 ^ 8 = bits / 2 ^ 31) by (rewrite Z.div_div by lia; done).
    pose proof (Z.div_mod bits (2 ^ 23) ltac:(lia)). pose proof (Z.div_mod (bits / 2 ^ 23) (2 ^ 8) ltac:(lia)).
    destruct (Z.eqb_spec (bits / 2 ^ 31) 1); lia.
  - destruct Hs as [-> | ->]; done.
Qed.

Lemma normal_pattern (s : bool) e m p : 0 < e < 2 ^ 11 - 1 -> 0 <= m < 2 ^ 52 -> m + 2 ^ 52 = Z.pos p ->
  f64_of_bits ((if s then 2 ^ 63 else 0) + e * 2 ^ 52 + m) = S754_finite s p (e - 1075).
Proof.
  intros He Hm Hp. destruct (fields_pattern s e m) as (_ & Ht & Hle & Hlm); [lia|done|].
  unfold f64_of_bits, of_bits. change (52 + 11) with 63. rewrite Ht, Hle, Hlm.
  rewrite (proj2 (Z.eqb_neq e (2 ^ 11 - 1))), (proj2 (Z.eqb_neq e 0)), Hp by lia. f_equal. lia.
Qed.

(** A normal or subnormal single, widened: [p] is its mantissa with [k] bits to spare. *)
Lemma wide_value (s : bool) e wide_e wide_m v k :
  canonical 24 128 v e -> 0 <= k -> 0 < wide_e < 2 ^ 11 - 1 -> 0 <= wide_m < 2 ^ 52 ->
  wide_m + 2 ^ 52 = Z.pos v * 2 ^ k -> wide_e - 1075 = e - k ->
  let bits := (if s then 2 ^ 63 else 0) + wide_e * 2 ^ 52 + wide_m in
  0 <= bits < 2 ^ 64 /\ f64_as_f32 (f64_of_bits bits) = S754_finite s v e.
Proof.
  intros Hc Hk He Hm Hv Hek bits. split; [unfold bits; destruct s; lia|].
  destruct (wide_m + 2 ^ 52) as [|p|p] eqn:Ep; [lia| |lia]. unfold bits. rewrite (normal_pattern s wide_e wide_m p He Hm Ep), Hek.
  by apply narrow_exact.
Qed.

(** Widened and narrowed again, a finite single is itself. *)
Lemma widen_back bits : 0 <= bits < 2 ^ 32 -> f64_is_finite (f32_to_f64 bits) = true ->
  0 <= f32_to_f64 bits < 2 ^ 64 /\
  is_finite (f64_as_f32 (f64_of_bits (f32_to_f64 bits))) = true /\ f32_to_bits (f64_as_f32 (f64_of_bits (f32_to_f64 bits))) = bits.
Proof.
  intros Hb. destruct (f32_fields bits Hb) as (s & e & m & -> & He & Hm & Hs & Hle & Hlm).
  unfold f32_to_f64. cbv zeta. rewrite Hs, Hle, Hlm.
  destruct (Z.eqb_spec e 0xFF) as [->|Hinf]; [|intros _; destruct (Z.eqb_spec e 0) as [->|Hz]].
  - rewrite !Z.shiftl_mul_pow2 by lia. destruct (fields_pattern s 0x7FF (m * 2 ^ 29)) as (_ & _ & He' & _); [lia|lia|]. unfold f64_is_finite.
    change 0x7FF with (2 ^ 11 - 1) at 2. by rewrite He'.
  - destruct (Z.eqb_spec m 0) as [->|Hm0]; [by destruct s|]. destruct m as [|m|m]; [lia| |lia].
    assert (Hl : 0 <= Z.log2 (Z.pos m) < 23) by (split; [apply Z.log2_nonneg|apply Z.log2_lt_pow2; lia]).
    pose proof (Z.log2_spec (Z.pos m) ltac:(lia)) as [Hlo Hhi]. set (k := Z.log2 (Z.pos m)) in *.
    assert (Hsplit : 2 ^ k * 2 ^ (52 - k) = 2 ^ 52) by (rewrite <- Z.pow_add_r by lia; f_equal; lia).
    rewrite Z.pow_succ_r in Hhi by lia. assert (Hp : 0 < 2 ^ (52 - k)) by (apply Z.pow_pos_nonneg; lia).
    rewrite !Z.shiftl_mul_pow2 by lia.
    destruct (wide_value s (-149) (k - 149 + 1023) ((Z.pos m - 2 ^ k) * 2 ^ (52 - k)) m (52 - k)) as [Hr Hv];
      [unfold canonical, fexp, emin; fold k; lia|lia|lia|nia|lia|lia|].
    rewrite Hv. split; [exact Hr|]. split; [done|]. unfold f32_to_bits, to_bits. rewrite (proj2 (Z.ltb_lt _ _)) by lia. by destruct s; lia.
  - rewrite !Z.shiftl_mul_pow2 by lia. destruct (m + 2 ^ 23) as [|v|v] eqn:Ev; [lia| |lia]. assert (Hl : Z.log2 (Z.pos v) = 23) by (apply Z.log2_unique; [lia|change (Z.succ 23) with 24; lia]).
    destruct (wide_value s (e - 150) (e - 127 + 1023) (m * 2 ^ 29) v 29) as [Hr Hv];
      [unfold canonical, fexp, emin; lia|lia|lia|lia|lia|lia|].
    rewrite Hv. split; [exact Hr|]. split; [done|]. unfold f32_to_bits, to_bits. rewrite (proj2 (Z.ltb_ge _ _)) by lia.
    rewrite Z.shiftl_mul_pow2 by lia. by destruct s; lia.
Qed.

(** ** The text is tight *)

Lemma decimal_visible n j : 0 <= n -> Forall (fun b => visible b = true) (plain_decimal n j).
Proof.
  assert (Hd : forall l, Forall (fun b => is_digit b = true) l -> Forall (fun b => visible b = true) l).
  { intros l Hl. eapply Forall_impl; [exact Hl|]. intros b. apply digit_visible. }
  intros Hn. unfold plain_decimal. destruct (Z.leb_spec 0 j).
  - apply Hd, show_digits. pose proof (Z.pow_nonneg 10 j). nia.
  - assert (Hp : 0 < 10 ^ (- j)) by (apply Z.pow_pos_nonneg; lia).
    apply Forall_app. split; [apply Hd, show_digits, Z.div_pos; lia|]. apply Forall_cons. split; [done|].
    apply Hd, pad_digits. by apply Z.mod_pos_bound.
Qed.

Lemma f64_text_tight bits : 0 <= bits < 2 ^ 64 -> is_finite (f64_of_bits bits) = true -> trim (f64_text bits) = f64_text bits.
Proof.
  intros Hb Hf. apply trim_tight. unfold f64_text.
  destruct (pattern_cases bits Hb Hf) as [[s ->]|(s & m & e & -> & Hc & He)].
  { apply visible_all_tight; [by destruct s|]. destruct s; by repeat constructor. }
  destruct (shortest_found s m e Hc He) as (n & i & -> & Hd & _). apply digits_at_pos in Hd.
  destruct (decimal_first n i) as (b & r & Ht & _); [lia|]. apply visible_all_tight; [rewrite Ht; by destruct s|].
  apply Forall_app. split; [destruct s; by repeat constructor|]. apply decimal_visible. lia.
Qed.

(** ** Properties *)

(** The pattern a float cell is rendered from, in double precision. *)
Definition rendered_bits (t : ColumnType) (b : list byte) : option Z :=
  match t with
  | Ct.Float64 => Some (le_combine b)
  | Ct.Float32 => Some (f32_to_f64 (le_combine b))
  | _ => None
  end.

(** What a float column gets of a value that is this double. *)
Lemma double_encoded `{JsonText} t b bits v col :
  rendered_bits t b = Some bits -> fixed_size t = Some (Z.of_nat (length b)) -> f64_is_finite bits = true ->
  as_f64 v col = Ok bits -> v <> Jv.Null -> encode_value v (parsed_of t) col = (b, None).
Proof.
  intros Ht Hs Ef Ha Hnn. assert (Hrange : 0 <= le_combine b < 2 ^ (8 * Z.of_nat (length b))) by apply LittleEndianList.le_combine_bound.
  destruct t; try discriminate Ht; injection Ht as <-; injection Hs as Hs; rewrite encode_plain by done;
    unfold encode_scalar; rewrite resolved_leaf by done; cbn [leaf_tag leaf_of tag].
  - unfold float32. rewrite Ha. cbn [mbind result_bind].
    assert (Hr : 0 <= le_combine b < 2 ^ 32) by (by rewrite <- Hs in Hrange).
    destruct (widen_back (le_combine b) Hr Ef) as (_ & Hf32 & Hback).
    unfold f32_bits_of_f64. cbv zeta. destruct (f64_as_f32 _) eqn:E32; try discriminate Hf32;
      cbn [is_infinite andb put_res]; rewrite Z.add_0_r, Hback; unfold put; f_equal;
      (replace 4%nat with (length b) by lia); apply LittleEndianList.split_le_combine.
  - rewrite Ha. cbn [put_res]. unfold put. f_equal. replace 8%nat with (length b) by lia.
    apply LittleEndianList.split_le_combine.
Qed.

(** C23: floats survive their text. A finite Float64 or Float32 cell is rendered to JSON as the shortest decimal that reads back
    as its value in double precision: no decimal of fewer places (or more trailing zeros) reads as it, and none of as many that does is
    nearer to it. Encoding that text as a string gives back the cell, bit by bit. Encoding a JSON number gives back the cell if the
    JSON reader made that very double of it (which serde_json promises only with a feature the crate does not ask for); a Float64
    column stores the double the reader made, whichever it is. A cell that is not finite is rendered as null. *)
Theorem floats_survive_text `{JsonText} t b bits col :
  rendered_bits t b = Some bits -> fixed_size t = Some (Z.of_nat (length b)) ->
  let json := @rowbinary_to_json rust_floats b t in
  if f64_is_finite bits
  then json = f64_text bits /\ parse_f64_bits json = Some bits /\
    (forall s m e, f64_of_bits bits = S754_finite s m e -> exists n i, json = minus s ++ plain_decimal n i /\ shortest_for s m e n i) /\
    encode_value (Jv.String json) (parsed_of t) col = (b, None) /\
    (forall n, num_f64 n = Some bits -> encode_value (Jv.Number n) (parsed_of t) col = (b, None)) /\
    (forall n x, t = Ct.Float64 -> num_f64 n = Some x -> encode_value (Jv.Number n) (parsed_of t) col = (le_split 8 x, None))
  else json = str "null".
Proof.
  intros Ht Hs json.
  assert (Hj : json = if f64_is_finite bits then f64_text bits else str "null").
  { unfold json, rowbinary_to_json. destruct t; try discriminate Ht; injection Ht as <-; injection Hs as Hs;
      cbn [rowbinary_to_json_inner]; unfold head; (rewrite (proj2 (Nat.leb_le _ _)) by lia); cbn [mbind result_bind];
      (rewrite take_ge by lia); done. }
  assert (Hrange : 0 <= le_combine b < 2 ^ (8 * Z.of_nat (length b))) by apply LittleEndianList.le_combine_bound.
  destruct (f64_is_finite bits) eqn:Ef; [|exact Hj].
  assert (Hb : 0 <= bits < 2 ^ 64).
  { destruct t; try discriminate Ht; injection Ht as <-; injection Hs as Hs; rewrite <- Hs in Hrange; [|exact Hrange].
    by apply widen_back. }
  assert (Hfin : is_finite (f64_of_bits bits) = true) by by rewrite finite_pattern.
  pose proof (f64_text_reads bits Hb Hfin) as Hp. rewrite Hj. split_and!; [done|done| | | |].
  - intros s m e He. unfold f64_text. rewrite He. destruct (pattern_cases bits Hb Hfin) as [[s' Hz]|(s' & m' & e' & He' & Hc & Hle)]; [congruence|].
    assert (s' = s /\ m' = m /\ e' = e) as (-> & -> & ->) by (split_and!; congruence).
    destruct (shortest_found s m e Hc Hle) as (n & i & -> & _ & Hall). by exists n, i.
  - apply (double_encoded t b bits); [done|done|done| |done]. cbn [as_f64]. by rewrite f64_text_tight, Hp.
  - intros n Hn. apply (double_encoded t b bits); [done|done|done| |done]. cbn [as_f64]. by rewrite Hn.
  - intros n x -> Hn. rewrite encode_plain by done. unfold encode_scalar. rewrite resolved_leaf by done.
    cbn [leaf_tag leaf_of tag as_f64]. by rewrite Hn.
Qed.

(** The single nearest to 0.1, as its exact double; the third clause is of a number read as the double next to it. *)
Lemma floats_survive_text_witness :
  let J := plain_json in let b := [xcd; xcc; xcc; x3d] in let bits := f32_to_f64 0x3DCCCCCD in
  let json := @rowbinary_to_json rust_floats b Ct.Float32 in
  json = str "0.10000000149011612" /\
  (if f64_is_finite bits
   then json = f64_text bits /\ parse_f64_bits json = Some bits /\
    (forall s m e, f64_of_bits bits = S754_finite s m e -> exists n i, json = minus s ++ plain_decimal n i /\ shortest_for s m e n i) /\
    encode_value (Jv.String json) (parsed_of Ct.Float32) (str "f") = (b, None) /\
    (forall n, num_f64 n = Some bits -> encode_value (Jv.Number n) (parsed_of Ct.Float32) (str "f") = (b, None)) /\
    (forall n x, Ct.Float32 = Ct.Float64 -> num_f64 n = Some x -> encode_value (Jv.Number n) (parsed_of Ct.Float32) (str "f") = (le_split 8 x, None))
   else json = str "null") /\
  encode_value (Jv.Number (mk_number None None (Some 0x3FB999999999999B) (str "0.1"))) (parsed_of Ct.Float64) (str "f") =
    (le_split 8 0x3FB999999999999B, None).
Proof.
  intros J b bits json. split; [vm_compute; reflexivity|]. split.
  - refine (@floats_survive_text J Ct.Float32 b bits (str "f") _ _); reflexivity.
  - destruct (@floats_survive_text J Ct.Float64 (le_split 8 0x3FB999999999999A) 0x3FB999999999999A (str "f") eq_refl eq_refl)
      as (_ & _ & _ & _ & _ & Hany).
    by apply Hany.
Defined.
