(* ===== verification/Unified.v ===== *)
(** * One client over both transports

    Models [src/unified.rs]: the reader of a [FORMAT Native] HTTP body, the flattened result
    set, and the dispatch. What upstream's HTTP client answers is an argument; the TCP side is
    [Cursor]. Property: the two transports read the same blocks from the same payload. *)

From S2P Require Import Prelude Errors WireIo ColTypes Json Columns Decode Protocol Packets.

(** ** The HTTP body *)

Definition bad_field (what : string) (found expected : Z) : Error :=
  BadResponse (str "native over http: block info " ++ str what ++ str " " ++ show found ++
    str " (expected " ++ show expected ++ str ")").

(** [finish_block_info]. *)
Definition finish_block_info : Read unit :=
  _ ← read_u8;
  field2 ← read_var_uint;
  if negb (field2 =? 2) then rd_fail (bad_field "field id" field2 2)
  else
    _ ← read_i32_le;
    terminator ← read_var_uint;
    if negb (terminator =? 0) then rd_fail (bad_field "terminator" terminator 0) else mret tt.

(** ** The dispatch *)

Inductive Transport := HttpTransport | TcpTransport.

(** [UnifiedClient] over the two clients. *)
Inductive UnifiedClient (http tcp : Type) := Http (client : http) | Tcp (client : tcp).
Arguments Http {http tcp} client.
Arguments Tcp {http tcp} client.
Definition transport {http tcp} (c : UnifiedClient http tcp) : Transport :=
  match c with Http _ => HttpTransport | Tcp _ => TcpTransport end.
Definition as_http {http tcp} (c : UnifiedClient http tcp) : option http :=
  match c with Http client => Some client | Tcp _ => None end.
Definition as_tcp {http tcp} (c : UnifiedClient http tcp) : option tcp :=
  match c with Tcp client => Some client | Http _ => None end.

(** [execute] and [ping]: what each client makes of the statement, and an upstream error converted. HTTP has no ping
    frame. *)
Definition execute {http tcp} (execute_raw : http -> text -> result UpstreamError unit)
    (execute_tcp : tcp -> text -> Result unit) (c : UnifiedClient http tcp) (sql : text) : Result unit :=
  match c with
  | Http client => map_err from_upstream (execute_raw client sql)
  | Tcp client => execute_tcp client sql
  end.
Definition ping {http tcp} (execute_raw : http -> text -> result UpstreamError unit)
    (ping_tcp : tcp -> Result unit) (c : UnifiedClient http tcp) : Result unit :=
  match c with
  | Http client => map_err from_upstream (execute_raw client (str "SELECT 1"))
  | Tcp client => ping_tcp client
  end.

(** ** Streams of blocks *)

(** One turn of [decode_native_stream], and the loop: a turn that goes round has read a block
    info, so the length of the body and one is fuel enough. *)
Section unified.
Context `{Platform} `{FloatText}.

Definition native_turn (blocks : list DecodedBlock) : Read (list DecodedBlock + list DecodedBlock) :=
  probe ← read_var_uint_or_eof;
  match probe with
  | None => mret (inr blocks)
  | Some field1 =>
      if negb (field1 =? 1) then rd_fail (bad_field "field id" field1 1)
      else
        _ ← finish_block_info;
        num_columns ← read_var_uint;
        num_rows ← read_var_uint;
        block ← decode_block num_columns num_rows DBMS_TCP_PROTOCOL_VERSION;
        mret (inl (blocks ++ [block]))
  end.
Definition decode_native_stream : Read (list DecodedBlock) := rd_loop eof native_turn [].

(** ** Result sets *)

(** [Columns]: its blocks as the server sent them. *)
Record ResultSet := mk_result_set { blocks : list DecodedBlock }.

(** [Columns::get], [rows], [is_empty]; a count saturates at [usize::MAX]. *)
Definition get_column {T} `{FromColumn T} (c : ResultSet) (name : text) : Result (list T) :=
  fold_res (fun values block => vs ← column_as block name; Ok (values ++ vs)) [] (blocks c).
Definition count_rows (c : ResultSet) : Z :=
  foldr Z.add 0 (map (fun b => Z.min (num_rows b) (2 ^ 64 - 1)) (blocks c)).
Definition is_empty (c : ResultSet) : bool := count_rows c =? 0.

(** ** The query *)

(** The settings of the HTTP arm of [fetch_columns]. *)
Definition JSON_AS_STRING : text := str "output_format_native_write_json_as_string".
Definition CLIENT_PROTOCOL_VERSION : text := str "client_protocol_version".
Definition http_settings : list (text * text) :=
  [(JSON_AS_STRING, str "1"); (CLIENT_PROTOCOL_VERSION, show DBMS_TCP_PROTOCOL_VERSION)].

(** [fetch_columns]: the body upstream's [fetch_bytes] delivers, and the blocks of the TCP query. *)
Definition fetch_columns {http tcp} (fetch_bytes : http -> text -> list (text * text) -> Result (list byte))
    (fetch_blocks : tcp -> text -> Result (list DecodedBlock)) (c : UnifiedClient http tcp) (sql : text)
    : Result ResultSet :=
  blocks ← match c with
           | Http client => body ← fetch_bytes client sql http_settings; fst <$> decode_native_stream body
           | Tcp client => fetch_blocks client sql
           end;
  Ok (mk_result_set blocks).

(** ** Lemmas *)

(** A block as both transports carry it: info, counts and columns. *)
Definition read_body : Read DecodedBlock :=
  _ ← read_block_info;
  num_columns ← read_var_uint;
  num_rows ← read_var_uint;
  decode_block num_columns num_rows DBMS_TCP_PROTOCOL_VERSION.

Lemma framed_read_body : framed read_body.
Proof. unfold read_body. framed_auto. Qed.

Lemma or_eof_byte b bs :
  read_var_uint_or_eof (b :: bs) = match read_var_uint (b :: bs) with Ok (v, rest) => Ok (Some v, rest) | Err e => Err e end.
Proof. exact (read_var_uint_or_eof_spec (b :: bs)). Qed.

(** The fields of a block info, read by either reader. *)
Lemma info_same bs rest :
  read_block_info bs = Ok (tt, rest) <->
  exists mid, read_var_uint bs = Ok (1, mid) /\ finish_block_info mid = Ok (tt, rest).
Proof.
  unfold read_block_info, finish_block_info. rewrite rd_bind_eq. destruct (read_var_uint bs) as [[f m]|e]; [|split; [done|by intros (? & ? & _)]].
  destruct (Z.eqb_spec f 1) as [->|Hf]; cbn [negb].
  - split.
    + intros Hr. exists m. split; [done|]. revert Hr. rewrite !rd_bind_eq. destruct (read_u8 m) as [[u m1]|]; [|done].
      rewrite !rd_bind_eq. destruct (read_var_uint m1) as [[f2 m2]|]; [|done]. destruct (negb (f2 =? 2)); [done|].
      rewrite !rd_bind_eq. destruct (read_i32_le m2) as [[i m3]|]; [|done]. rewrite !rd_bind_eq.
      destruct (read_var_uint m3) as [[t m4]|]; [|done]. by destruct (negb (t =? 0)).
    + intros (mid & [= <-] & Hr). revert Hr. rewrite !rd_bind_eq. destruct (read_u8 m) as [[u m1]|]; [|done].
      rewrite !rd_bind_eq. destruct (read_var_uint m1) as [[f2 m2]|]; [|done]. destruct (negb (f2 =? 2)); [done|].
      rewrite !rd_bind_eq. destruct (read_i32_le m2) as [[i m3]|]; [|done]. rewrite !rd_bind_eq.
      destruct (read_var_uint m3) as [[t m4]|]; [|done]. by destruct (negb (t =? 0)).
  - split; [done|]. intros (mid & [= -> _] & _). done.
Qed.

(** A turn at a byte reads the body of one block. *)
Lemma turn_body blocks b bs blocks' rest :
  native_turn blocks (b :: bs) = Ok (inl blocks', rest) <->
  exists block, read_body (b :: bs) = Ok (block, rest) /\ blocks' = blocks ++ [block].
Proof.
  unfold native_turn, read_body. rewrite !rd_bind_eq, or_eof_byte. split.
  - destruct (read_var_uint (b :: bs)) as [[f m]|e] eqn:Ev; [|done]. destruct (Z.eqb_spec f 1) as [->|]; cbn [negb]; [|done].
    intros Hr. apply rd_bind_ok in Hr as ([] & m1 & Hi & Hr). apply rd_bind_ok in Hr as (nc & m2 & Hnc & Hr).
    apply rd_bind_ok in Hr as (nr & m3 & Hnr & Hr). apply rd_bind_ok in Hr as (block & m4 & Hd & Hr).
    apply rd_ret_ok in Hr as [Hb <-]. injection Hb as <-. exists block. split; [|done].
    rewrite (proj2 (info_same (b :: bs) m1)) by by exists m. rewrite rd_bind_eq, Hnc. by rewrite rd_bind_eq, Hnr.
  - intros (block & Hr & ->). destruct (read_block_info (b :: bs)) as [[[] m1]|] eqn:Ei; [|done].
    apply info_same in Ei as (m & -> & Hi). cbn [negb Z.eqb Pos.eqb]. rewrite rd_bind_eq, Hi.
    rewrite rd_bind_eq in Hr; rewrite rd_bind_eq. destruct (read_var_uint m1) as [[nc m2]|]; [|done].
    rewrite rd_bind_eq in Hr; rewrite rd_bind_eq. destruct (read_var_uint m2) as [[nr m3]|]; [|done].
    by rewrite rd_bind_eq, Hr.
Qed.

Lemma turn_stops blocks bs blocks' rest :
  native_turn blocks bs = Ok (inr blocks', rest) <-> bs = [] /\ rest = [] /\ blocks' = blocks.
Proof.
  split.
  - destruct bs as [|b bs]; [by intros [= <- <-]|]. unfold native_turn. rewrite rd_bind_eq, or_eof_byte.
    destruct (read_var_uint (b :: bs)) as [[f m]|e]; [|done]. destruct (negb (f =? 1)); [done|].
    intros Hr. repeat (apply rd_bind_ok in Hr as (? & ? & _ & Hr)). by apply rd_ret_ok in Hr as [? _].
  - by intros (-> & -> & ->).
Qed.

Lemma read_body_shorter bs block rest : read_body bs = Ok (block, rest) -> (length rest < length bs)%nat.
Proof.
  intros Hr. destruct bs as [|b bs]; [done|]. destruct (framed_read_body _ _ _ Hr) as (used & -> & Hu).
  rewrite length_app. destruct used; [|simpl; lia]. specialize (Hu []). done.
Qed.

(** A body that is read is blocks end to end. *)
Lemma native_loop_splits fuel acc bs out rest :
  rd_loop_fuel eof native_turn fuel acc bs = Ok (out, rest) ->
  rest = [] /\ exists bodies got, bs = concat bodies /\ out = acc ++ got /\ Forall2 (fun body b => reads read_body body b) bodies got.
Proof.
  revert acc bs; induction fuel as [|fuel IH]; intros acc bs Hr; [done|]. cbn [rd_loop_fuel] in Hr.
  apply rd_bind_ok in Hr as ([acc'|out'] & mid & Ht & Hr).
  - destruct bs as [|b bs]; [done|]. apply turn_body in Ht as (block & Hb & ->).
    apply IH in Hr as (-> & bodies & got & -> & -> & Hall). split; [done|].
    destruct (framed_read_body _ _ _ Hb) as (used & -> & Hu). exists (used :: bodies), (block :: got).
    split_and!; [done|by rewrite <- app_assoc|]. by constructor.
  - apply rd_ret_ok in Hr as [<- <-]. apply turn_stops in Ht as (-> & -> & ->). split; [done|].
    exists [], []. split_and!; [done|by rewrite app_nil_r|constructor].
Qed.

Lemma native_loop_joins bodies got : Forall2 (fun body b => reads read_body body b) bodies got ->
  forall fuel acc, (length (concat bodies) < fuel)%nat ->
  rd_loop_fuel eof native_turn fuel acc (concat bodies) = Ok (acc ++ got, []).
Proof.
  induction 1 as [|body b bodies got Hb Hall IH]; intros [|fuel] acc Hf; try lia; cbn [rd_loop_fuel concat] in *.
  - rewrite rd_bind_eq, (proj2 (turn_stops acc [] acc [])) by done. unfold mret, rd_ret. by rewrite app_nil_r.
  - pose proof (read_body_shorter _ _ _ (Hb (concat bodies))) as Hlt. rewrite length_app in Hlt, Hf. specialize (Hb (concat bodies)).
    destruct body as [|x body]; [simpl in Hlt; lia|]. rewrite rd_bind_eq.
    rewrite <- app_comm_cons, (proj2 (turn_body acc x (body ++ concat bodies) (acc ++ [b]) (concat bodies))) by (by exists b).
    rewrite IH by lia. by rewrite <- app_assoc.
Qed.

(** The [Data] packet of the native protocol around a block. *)
Definition data_packet (body : list byte) : list byte := put_var_uint (server_id Sid.Data) ++ put_string [] ++ body.

Lemma header_of_packet tail (Ha : alloc_total) :
  read_data_packet DBMS_TCP_PROTOCOL_VERSION (put_string [] ++ tail) =
  (_ ← read_block_info; num_columns ← read_var_uint;
   if READER_MAX_BLOCK_COLUMNS <? num_columns then rd_fail (too_many_columns num_columns)
   else num_rows ← read_var_uint;
     if num_rows =? 0 then
       cols ← read_empty_data_block_schema num_columns DBMS_TCP_PROTOCOL_VERSION;
       mret (Sp.Data (Some []) num_columns num_rows cols)
     else block ← decode_block num_columns num_rows DBMS_TCP_PROTOCOL_VERSION; mret (Sp.DataBlock block)) tail.
Proof.
  unfold read_data_packet, read_data_block_header.
  change (since DBMS_MIN_REVISION_WITH_TEMPORARY_TABLES DBMS_TCP_PROTOCOL_VERSION) with true.
  change (since DBMS_MIN_REVISION_WITH_BLOCK_INFO DBMS_TCP_PROTOCOL_VERSION) with true. cbv iota.
  rewrite !rd_bind_eq, (reads_utf8_string [] Ha) by done. cbn [mret rd_ret].
  rewrite !rd_bind_eq. destruct (read_block_info tail) as [[[] m]|]; [|done].
  rewrite !rd_bind_eq. destruct (read_var_uint m) as [[nc m1]|]; [|done].
  destruct (READER_MAX_BLOCK_COLUMNS <? nc); [done|]. rewrite !rd_bind_eq.
  by destruct (read_var_uint m1) as [[n m2]|].
Qed.

(** What the TCP reader takes as a data block: rows, and columns within its own cap. *)
Definition portable (b : DecodedBlock) : Prop :=
  num_rows b <> 0 /\ Z.of_nat (length (columns b)) <= READER_MAX_BLOCK_COLUMNS.

(** Read off either transport, such a block is the same block. *)
Lemma packet_is_body body b (Ha : alloc_total) : portable b ->
  reads (read_packet DBMS_TCP_PROTOCOL_VERSION) (data_packet body) (Sp.DataBlock b) <-> reads read_body body b.
Proof.
  intros [Hn Hcap]. unfold reads. split; intros Hr tail; specialize (Hr tail); revert Hr.
  - unfold data_packet, read_packet. rewrite <- !app_assoc, rd_bind_eq, (reads_u64_var 1) by (unfold u64; lia).
    change (from_u64 1) with (Ok (E := Error) Sid.Data). unfold rd_lift. rewrite rd_bind_eq, header_of_packet by done.
    unfold read_body. intros Hr. apply rd_bind_ok in Hr as ([] & m & Hi & Hr). rewrite rd_bind_eq, Hi.
    apply rd_bind_ok in Hr as (nc & m1 & Hc & Hr). rewrite rd_bind_eq, Hc.
    destruct (READER_MAX_BLOCK_COLUMNS <? nc); [done|].
    apply rd_bind_ok in Hr as (n & m2 & Hm & Hr). rewrite rd_bind_eq, Hm.
    destruct (n =? 0); [by apply rd_bind_ok in Hr as (? & ? & _ & [= ?])|].
    apply rd_bind_ok in Hr as (b' & m3 & Hd & Hr). by injection Hr as -> ->.
  - unfold data_packet, read_packet. rewrite <- !app_assoc, rd_bind_eq, (reads_u64_var 1) by (unfold u64; lia).
    change (from_u64 1) with (Ok (E := Error) Sid.Data). unfold rd_lift. rewrite rd_bind_eq, header_of_packet by done.
    unfold read_body. intros Hr. apply rd_bind_ok in Hr as ([] & m & Hi & Hr). rewrite rd_bind_eq, Hi.
    apply rd_bind_ok in Hr as (nc & m1 & Hc & Hr). rewrite rd_bind_eq, Hc.
    apply rd_bind_ok in Hr as (n & m2 & Hm & Hr).
    pose proof (read_var_uint_bounds _ _ _ Hc) as Hnc.
    destruct (yields_decode_block nc n DBMS_TCP_PROTOCOL_VERSION ltac:(apply Hnc) _ _ _ Hr) as (Hb & _ & Hcols & _).
    rewrite (proj2 (Z.ltb_ge _ nc)) by congruence.
    rewrite rd_bind_eq, Hm, (proj2 (Z.eqb_neq n 0)) by congruence. by rewrite rd_bind_eq, Hr.
Qed.

(** Past the reader's column cap the transports part: a block the HTTP body carries is refused over TCP. *)
Lemma wide_block_refused body b (Ha : alloc_total) : reads read_body body b ->
  READER_MAX_BLOCK_COLUMNS < Z.of_nat (length (columns b)) ->
  forall tail, exists n, read_packet DBMS_TCP_PROTOCOL_VERSION (data_packet body ++ tail) = Err (too_many_columns n).
Proof.
  intros Hr Hwide tail. specialize (Hr tail). revert Hr.
  unfold data_packet, read_packet. rewrite <- !app_assoc, rd_bind_eq, (reads_u64_var 1) by (unfold u64; lia).
  change (from_u64 1) with (Ok (E := Error) Sid.Data). unfold rd_lift. rewrite rd_bind_eq, header_of_packet by done.
  unfold read_body. intros Hr. apply rd_bind_ok in Hr as ([] & m & Hi & Hr). rewrite rd_bind_eq, Hi.
  apply rd_bind_ok in Hr as (nc & m1 & Hc & Hr). rewrite rd_bind_eq, Hc.
  apply rd_bind_ok in Hr as (n & m2 & Hm & Hr). pose proof (read_var_uint_bounds _ _ _ Hc) as Hnc.
  destruct (yields_decode_block nc n DBMS_TCP_PROTOCOL_VERSION ltac:(apply Hnc) _ _ _ Hr) as (_ & _ & Hcols & _).
  rewrite (proj2 (Z.ltb_lt _ nc)) by congruence. by exists nc.
Qed.

(** [get] is the columns of the blocks end to end, and fails where the first of them does. *)
Lemma get_column_blocks {T} `{FromColumn T} c1 c2 name :
  get_column (mk_result_set (c1 ++ c2)) name =
  (v1 ← get_column (mk_result_set c1) name; v2 ← get_column (mk_result_set c2) name; Ok (v1 ++ v2)).
Proof.
  unfold get_column. cbn [blocks]. rewrite fold_res_app. destruct (fold_res _ [] c1) as [v1|e]; [|done]. cbn [mbind result_bind].
  assert (Hacc : forall l acc more, fold_res (fun values block => vs ← column_as block name; Ok (values ++ vs)) (acc ++ more) l =
    (v ← fold_res (fun values block => vs ← column_as block name; Ok (values ++ vs)) more l; Ok (acc ++ v))).
  { induction l as [|b l IH]; intros acc more; cbn [fold_res]; [done|]. destruct (column_as b name) as [vs|e]; [|done].
    cbn [mbind result_bind]. by rewrite <- app_assoc, IH. }
  rewrite <- (app_nil_r v1) at 1. by rewrite Hacc.
Qed.

(** ** Properties *)

(** C8: what one transport reads the other reads. An HTTP body decodes to a list of blocks with
    rows and at most 16384 columns exactly when it is those blocks' bytes end to end, each of which, behind the [Data]
    packet id and an empty table name, is the packet the TCP reader takes for that block; and the
    body is read to its last byte or not at all. *)
Theorem transports_read_alike s got (Ha : alloc_total) (Hn : Forall portable got) :
  (fst <$> decode_native_stream s = Ok got <->
   exists bodies, s = concat bodies /\
     Forall2 (fun body b => reads (read_packet DBMS_TCP_PROTOCOL_VERSION) (data_packet body) (Sp.DataBlock b)) bodies got) /\
  (forall rest, decode_native_stream s = Ok (got, rest) -> rest = []).
Proof.
  assert (Hb : forall bodies, Forall2 (fun body b => reads (read_packet DBMS_TCP_PROTOCOL_VERSION) (data_packet body) (Sp.DataBlock b)) bodies got <->
    Forall2 (fun body b => reads read_body body b) bodies got).
  { intros bodies. clear s. revert bodies. induction Hn as [|b got Hb Hn IH]; intros [|body bodies];
      (split; intros Hall; inversion_clear Hall; constructor); try (by apply IH); by apply packet_is_body. }
  setoid_rewrite Hb. unfold decode_native_stream, rd_loop. split; [split|].
  - destruct (rd_loop_fuel _ _ _ _ s) as [[out rest]|] eqn:Hr; [|done]. intros [= <-].
    apply native_loop_splits in Hr as (_ & bodies & got & -> & -> & Hall). by exists bodies.
  - intros (bodies & -> & Hall). by rewrite (native_loop_joins _ _ Hall) by lia.
  - intros rest Hr. by apply native_loop_splits in Hr as [-> _].
Qed.

End unified.

Definition block_bytes (values : list byte) : list byte :=
  [x01; x00; x02; xff; xff; xff; xff; x00; x01; x02] ++ put_string (str "n") ++ put_string (str "UInt8") ++ [x00] ++ values.
Definition block_read (values : list Z) : DecodedBlock :=
  {| columns := [Dc.UInt8 values]; schema := [(str "n", str "UInt8")]; num_rows := 2 |}.

Lemma transports_read_alike_witness :
  exists bodies, block_bytes [x2a; x2b] ++ block_bytes [x2c; x2d] = concat bodies /\
    Forall2 (fun body b => reads (@read_packet roomy no_floats DBMS_TCP_PROTOCOL_VERSION) (data_packet body) (Sp.DataBlock b))
      bodies [block_read [42; 43]; block_read [44; 45]].
Proof.
  refine (proj1 (proj1 (@transports_read_alike roomy no_floats (block_bytes [x2a; x2b] ++ block_bytes [x2c; x2d])
    [block_read [42; 43]; block_read [44; 45]] _ _)) _).
  - done.
  - repeat constructor; vm_compute; discriminate.
  - vm_compute. reflexivity.
Defined.

Example empty_body : fst <$> @decode_native_stream roomy no_floats [] = Ok [].
Proof. reflexivity. Qed.

Example columns_flatten :
  let c := {| blocks := [block_read [42; 43]; {| columns := []; schema := []; num_rows := 0 |}; block_read [44; 45]] |} in
  @get_column _ from_column_u8 c (str "n") = Ok [42; 43; 44; 45] /\
  (exists why, @get_column _ from_column_u64 c (str "n") = Err (SchemaMismatch why)) /\ count_rows c = 4.
Proof. split_and!; [reflexivity|by eexists|reflexivity]. Qed.
