(* ===== verification/DynSchema.v ===== *)
(** * The schema of a dynamic insert

    Models [src/dynamic/schema.rs]: the columns of a table as [system.columns] lists them, the
    index over their names and the cache with its freshness window. Upstream's identifier
    escaper and its HTTP query are arguments. Properties: the index finds what a search of the
    columns finds, and the cache answers exactly what was last learnt and is still fresh. *)

From S2P Require Import Prelude Text Errors ColTypes ParsedTypes DynScalars DynEncode.

(** ** Schemas *)

Record DynamicSchema := {
  table : text;
  schema_columns : list ColumnDef;
  column_index : gmap text nat
}.

(** [from_columns]: collected into a map, so a later column of the same name wins. *)
Fixpoint index_columns (i : nat) (columns : list ColumnDef) (index : gmap text nat) : gmap text nat :=
  match columns with
  | [] => index
  | c :: columns' => index_columns (S i) columns' (<[col_name c := i]> index)
  end.
Definition from_columns (table : text) (columns : list ColumnDef) : DynamicSchema :=
  {| table := table; schema_columns := columns; column_index := index_columns 0 columns ∅ |}.

(** [column], [required_columns], [optional_columns], [len], [is_empty], [has_json_columns]. *)
Definition column (s : DynamicSchema) (name : text) : option ColumnDef :=
  i ← column_index s !! name; schema_columns s !! i.
Definition required_columns (s : DynamicSchema) : list ColumnDef :=
  List.filter (fun c => negb (has_default c)) (schema_columns s).
Definition optional_columns (s : DynamicSchema) : list ColumnDef := List.filter has_default (schema_columns s).
Definition schema_len (s : DynamicSchema) : nat := length (schema_columns s).
Definition schema_is_empty (s : DynamicSchema) : bool := (schema_len s =? 0)%nat.
Definition has_json_columns (s : DynamicSchema) : bool :=
  existsb (fun c => bool_decide (tag (ty c) = Tt.JSON)) (schema_columns s).

(** ** [system.columns] *)

(** Upstream's [sql_escape_identifier]: the identifier between backticks. *)
Class SqlEscape := sql_escape_identifier : text -> text.

(** [quote_literal], [system_columns_sql]. *)
Definition quote_literal `{SqlEscape} (value : text) : text :=
  let escaped := sql_escape_identifier value in
  str "'" ++ slice 1 (length escaped - 2) escaped ++ str "'".
Definition system_columns_sql `{SqlEscape} (database table : text) : text :=
  str "SELECT name, type AS col_type, default_kind FROM system.columns WHERE database = " ++ quote_literal database ++
  str " AND table = " ++ quote_literal table ++ str " ORDER BY position".

(** [schema_from_system_columns]. *)
Definition SysColumn : Type := text * text * text.
Definition schema_from_system_columns (full_table : text) (rows : list SysColumn) : DR DynamicSchema :=
  let columns := map (fun '(name, col_type, default_kind) => with_default_kind name col_type default_kind) rows in
  if bool_decide (columns = []) then Err (EmptySchema full_table) else Ok (from_columns full_table columns).

(** [fetch_dynamic_schema], over upstream's [fetch_all]. *)
Definition full_name (database table : text) : text := database ++ str "." ++ table.
Definition fetch_dynamic_schema `{SqlEscape} (fetch_all : text -> result UpstreamError (list SysColumn))
    (database table : text) : DR DynamicSchema :=
  match fetch_all (system_columns_sql database table) with
  | Err source => Err (SchemaFetch (full_name database table) source)
  | Ok rows => schema_from_system_columns (full_name database table) rows
  end.

(** ** The cache *)

Record CacheEntry := {
  schema : DynamicSchema;
  fetched_at : Z
}.
Record DynamicSchemaCache := {
  inner : gmap text CacheEntry;
  ttl : Z
}.

(** [new], [get], [insert], [invalidate], [invalidate_all], at the time [now]. *)
Definition cache_new (ttl : Z) : DynamicSchemaCache := {| inner := ∅; ttl := ttl |}.
Definition cache_get (now : Z) (table : text) (c : DynamicSchemaCache) : option DynamicSchema :=
  e ← inner c !! table; if now - fetched_at e <? ttl c then Some (schema e) else None.
Definition cache_insert (now : Z) (table : text) (s : DynamicSchema) (c : DynamicSchemaCache) : DynamicSchemaCache :=
  {| inner := <[table := {| schema := s; fetched_at := now |}]> (inner c); ttl := ttl c |}.
Definition invalidate (table : text) (c : DynamicSchemaCache) : DynamicSchemaCache :=
  {| inner := delete table (inner c); ttl := ttl c |}.
Definition invalidate_all (c : DynamicSchemaCache) : DynamicSchemaCache := {| inner := ∅; ttl := ttl c |}.

(** ** A reference cache

    What was done to a cache, latest first, and what is then known of a table. *)

Inductive CacheOp :=
| Learnt (now : Z) (table : text) (s : DynamicSchema)
| Forgot (table : text)
| ForgotAll.

Definition cache_step (op : CacheOp) (c : DynamicSchemaCache) : DynamicSchemaCache :=
  match op with
  | Learnt now table s => cache_insert now table s c
  | Forgot table => invalidate table c
  | ForgotAll => invalidate_all c
  end.
Definition cache_after (ttl : Z) (history : list CacheOp) : DynamicSchemaCache := foldr cache_step (cache_new ttl) history.

Fixpoint last_learnt (table : text) (history : list CacheOp) : option (Z * DynamicSchema) :=
  match history with
  | [] => None
  | Learnt now t s :: history' => if bool_decide (t = table) then Some (now, s) else last_learnt table history'
  | Forgot t :: history' => if bool_decide (t = table) then None else last_learnt table history'
  | ForgotAll :: _ => None
  end.

(** ** Lemmas *)

Lemma cache_holds ttl table history :
  (fun e => (fetched_at e, schema e)) <$> inner (cache_after ttl history) !! table = last_learnt table history.
Proof.
  unfold cache_after. induction history as [|[now t s|t|] history IH]; simpl; [by rewrite lookup_empty|..|by rewrite lookup_empty];
    case_bool_decide as E; subst.
  - by rewrite lookup_insert_eq.
  - by rewrite lookup_insert_ne.
  - by rewrite lookup_delete_eq.
  - by rewrite lookup_delete_ne.
Qed.

Lemma cache_ttl ttl history : DynSchema.ttl (cache_after ttl history) = ttl.
Proof. induction history as [|[] history IH]; done. Qed.

(** The index points at the last column of a name. *)
Lemma index_finds i columns index name j :
  index_columns i columns index !! name = Some j ->
  (index !! name = Some j /\ Forall (fun c => col_name c <> name) columns) \/
  exists l c r, columns = l ++ c :: r /\ j = (i + length l)%nat /\ col_name c = name /\ Forall (fun c => col_name c <> name) r.
Proof.
  revert i index; induction columns as [|c columns IH]; intros i index Hj; cbn [index_columns] in Hj; [by left|].
  apply IH in Hj as [[Hj Hn]|(l & c' & r & -> & -> & Hc & Hr)].
  - destruct (decide (col_name c = name)) as [<-|Hne].
    + rewrite lookup_insert_eq in Hj. injection Hj as <-. right. exists [], c, columns. split_and!; [done|simpl; lia|done|done].
    + rewrite lookup_insert_ne in Hj by done. left. split; [done|by constructor].
  - right. exists (c :: l), c', r. split_and!; [done|simpl; lia|done|done].
Qed.

Lemma index_total i columns index name :
  index_columns i columns index !! name = None -> index !! name = None /\ Forall (fun c => col_name c <> name) columns.
Proof.
  revert i index; induction columns as [|c columns IH]; intros i index Hj; cbn [index_columns] in Hj; [done|].
  apply IH in Hj as [Hj Hn]. apply lookup_insert_None in Hj as [Hj Hne]. split; [done|by constructor].
Qed.

Lemma find_last (P : ColumnDef -> bool) l c r : P c = true -> Forall (fun x => P x = false) r ->
  List.find P (rev (l ++ c :: r)) = Some c.
Proof.
  intros Hc Hr. rewrite rev_app_distr. cbn [rev]. rewrite <- app_assoc.
  assert (E : forall r' l', Forall (fun x => P x = false) r' -> List.find P (r' ++ l') = List.find P l').
  { induction r' as [|x r' IH]; intros l' Hall; [done|]. apply Forall_cons in Hall as [Hx Hall]. cbn [app List.find].
    rewrite Hx. by apply IH. }
  rewrite E by by apply Forall_rev. cbn [app List.find]. by rewrite Hc.
Qed.

(** [column] is the last column of that name. *)
Lemma column_is_last table columns name :
  column (from_columns table columns) name = List.find (fun c => bool_decide (col_name c = name)) (rev columns).
Proof.
  unfold column, from_columns. cbn [column_index schema_columns].
  destruct (index_columns 0 columns ∅ !! name) as [j|] eqn:E; cbn [mbind option_bind].
  - apply index_finds in E as [[E _]|(l & c & r & -> & -> & Hc & Hr)]; [by rewrite lookup_empty in E|].
    cbn [Nat.add]. rewrite list_lookup_middle by done. symmetry. apply find_last; [by apply bool_decide_eq_true|].
    eapply Forall_impl; [exact Hr|]. intros x Hx. by apply bool_decide_eq_false.
  - apply index_total in E as [_ Hn]. symmetry. destruct (List.find _ _) as [c|] eqn:Ef; [|done].
    apply List.find_some in Ef as [Hin Hc]. apply bool_decide_eq_true in Hc.
    apply List.in_rev, list_elem_of_In in Hin. by destruct (proj1 (Forall_forall _ _) Hn c Hin).
Qed.

Lemma split_columns s c : c ∈ schema_columns s <-> c ∈ required_columns s \/ c ∈ optional_columns s.
Proof.
  unfold required_columns, optional_columns. rewrite !list_elem_of_In, !List.filter_In.
  destruct (has_default c); simpl; intuition congruence.
Qed.

(** ** Properties *)

(** the schema cache answers exactly what was last learnt about a table and is still fresh:
    after any history of inserts and invalidations, of this table and others, [get] returns a schema
    just when the last thing that touched the table was its insertion, less than the
    window ago; and the columns of that schema are looked up as a search would find them. *)
Theorem cache_answers_what_is_fresh window history now tbl :
  cache_get now tbl (cache_after window history) =
    match last_learnt tbl history with
    | Some (at_, s) => if now - at_ <? window then Some s else None
    | None => None
    end /\
  forall columns name, column (from_columns tbl columns) name =
    List.find (fun c => bool_decide (col_name c = name)) (rev columns).
Proof.
  split; [|intros; apply column_is_last]. unfold cache_get. rewrite cache_ttl, <- (cache_holds window).
  by destruct (inner (cache_after window history) !! tbl) as [e|].
Qed.
