(* ===== verification/InsertWire.v ===== *)
(** * What an INSERT session puts on the wire

    The session of [Borrowers] seen from the server: every operation that reports success has
    written its packet whole, directly after what was on the wire before. These are the laws the
    dynamic inserts rely on. *)

From S2P Require Import Prelude Text Errors WireIo ColTypes Json Columns Decode Encode Protocol Packets Requests Actor ActorRules Sessions Connection Borrowers.

(** The packets of an INSERT: its Query and the empty block behind it, and the end. *)
Definition opening (h : ServerHello) (quota sql : text) (settings : list (text * text)) : list byte :=
  fst (send_query (revision h) [] sql settings [] (client_info_for (spawn h None quota []) [])) ++ send_empty_block (revision h).

(** The connection with [w] on its wire and [l] replied. *)
Definition stands (h : ServerHello) (quota : text) (l : list Reply) (w : list byte) (c : Actor) : Prop :=
  hello c = h /\ actor_quota_key c = quota /\ replies c = l /\ wire c = w.

Section session.
Context (h : ServerHello) (quota : text).
#[local] Abbreviation stands := (stands h quota).

Lemma stands_poison l w c : stands l w c -> stands l w (set_poisoned c).
Proof. done. Qed.
Lemma stands_inbox l w ms c : stands l w c -> stands l w (set_inbox ms c).
Proof. done. Qed.
#[local] Hint Resolve stands_poison stands_inbox : core.

(** After an operation: the replies are [l], and if it went well [w] is on the wire. *)
Definition went {A} (l : list Reply) (w : list byte) (r : Result A) (c : Actor) : Prop :=
  hello c = h /\ actor_quota_key c = quota /\ replies c = l /\ (match r with Ok _ => wire c = w | Err _ => True end).

Lemma went_ok {A} l w (a : A) c : stands l w c -> went l w (Ok a) c.
Proof. intros (? & ? & ? & ?). done. Qed.
Lemma went_err {A} l w w' e c : stands l w c -> went l w' (Err e : Result A) c.
Proof. intros (? & ? & ? & ?). done. Qed.

Lemma went_stands {A} l w (a : A) c : went l w (Ok a) c -> stands l w c.
Proof. by intros (? & ? & ? & ?). Qed.

Lemma wrote l w bs c (r : Result unit) : stands l w c -> went l (w ++ bs) r (put_wire bs c).
Proof. intros (? & ? & ? & ?). unfold went. cbn. split_and!; try done. destruct r; [congruence|done]. Qed.
Lemma tore l w w' bs c e : stands l w c -> went l w' (Err e : Result unit) (put_wire bs c).
Proof. intros (? & ? & ? & ?). done. Qed.

Lemma write_went l w x : holds any (stands l w) (write x) (went l (w ++ fst x)).
Proof. apply holds_write; [auto|intros; by apply wrote|intros; by eapply tore]. Qed.
Lemma bounded_went l w x : holds any (stands l w) (bounded_io x) (went l (w ++ fst x)).
Proof. apply holds_bounded_io; [auto|intros; by apply wrote|intros; by eapply tore]. Qed.

Lemma went_impl {A} l w P (m : Act (Result A)) :
  holds any (stands l w) m (fun _ => stands l w) -> P = stands l w -> holds any P m (went l w).
Proof. intros Hm ->. eapply holds_impl; [exact Hm|done|]. intros [a|e] c Hc; [by apply went_ok|by eapply went_err]. Qed.

(** Opening. *)
Lemma begin_went l w sql settings :
  holds any (stands l w) (do_begin_insert [] sql settings []) (went l (w ++ opening h quota sql settings)).
Proof.
  unfold do_begin_insert.
  apply (holds_bind any _ (went l (w ++ opening h quota sql settings))).
  - unfold issue_query, opening. apply (holds_bind any _ (fun info c => info = client_info_for (spawn h None quota []) [] /\ stands l w c)).
    { apply holds_gets. intros c (Hh & Hq & Hr & Hw). split; [|done]. unfold client_info_for, spawn. cbn. by rewrite Hh, Hq. }
    intros info. apply holds_pure. intros ->. apply (holds_bind any _ (fun rev c => rev = revision h /\ stands l w c)).
    { apply holds_gets. intros c Hc. split; [|done]. by destruct Hc as [-> _]. }
    intros rev. apply holds_pure. intros ->. eapply holds_bind; [apply write_went|]. intros [[]|e].
    + rewrite app_assoc. eapply holds_pre; [apply write_went|]. intros c. apply went_stands.
    + apply holds_ret. by intros c (? & ? & ? & _).
  - intros [[]|e].
    + apply (holds_pre any _ (stands l (w ++ opening h quota sql settings))); [|intros c; apply went_stands].
      apply went_impl; [|done]. apply silent_loop. unfold begin_turn, on_idle, torn.
      apply silent_bind; [by apply silent_next_packet; auto|]. intros ev.
      repeat match goal with
      | |- silent _ _ (match ?x with _ => _ end) => destruct x
      | |- silent _ _ (mret _) => by apply silent_ret
      | |- silent _ _ poison => by apply silent_poison
      | |- silent _ _ idle_timed_out => by apply silent_idle
      | |- silent _ _ (_ ≫= _) => apply silent_bind; [|intros ?]
      end.
    + apply (holds_bind any _ (fun _ c => went l (w ++ opening h quota sql settings) (Err e : Result (list (text * text))) c)).
      { apply holds_modify. by intros c (? & ? & ? & _). }
      intros []. by apply holds_ret.
Qed.

(** A command of the handle: the one reply, and the wire behind it. *)
Definition answered {A} (wrap : Result A -> Reply) (l : list Reply) (w : list byte) (c : Actor) : Prop :=
  exists r, went (l ++ [wrap r]) w r c.

Lemma reply_answered {A} (wrap : Result A -> Reply) l w r :
  holds any (went l w r) (reply (wrap r)) (fun _ => answered wrap l w).
Proof. apply holds_modify. intros c (? & ? & <- & ?). by exists r. Qed.

Lemma refused_answered {A} (wrap : Result A -> Reply) l w w' e :
  holds any (stands l w) (reply (wrap (Err e))) (fun _ => answered wrap l w').
Proof. apply holds_modify. intros c (? & ? & <- & ?). by exists (Err e). Qed.

Lemma went_state {A} l w (r : Result A) (c : Actor) st : went l w r c -> went l w r (set_state st c).
Proof. done. Qed.

Lemma begin_answered l w sql settings :
  holds any (stands l w) (handle (Cmd.BeginInsert [] sql settings [])) (fun _ => answered ToInsert l (w ++ opening h quota sql settings)).
Proof.
  unfold handle. apply (holds_bind any _ (fun _ => stands l w)); [by apply holds_gets|]. intros b. cbn [continues_insert negb].
  destruct (b && true); [apply (refused_answered ToInsert)|]. apply (holds_bind any _ (fun _ => stands l w)); [by apply holds_gets|].
  intros [|]; cbn [dispatch]; [|apply (refused_answered ToInsert)].
  eapply holds_bind; [apply begin_went|]. intros r.
  apply (holds_bind any _ (fun _ => went l (w ++ opening h quota sql settings) r)); [|intros []; apply reply_answered].
  destruct r; [by apply holds_modify|by apply holds_ret].
Qed.

(** A block. *)
Lemma block_answered l w column_bytes nc n :
  holds any (stands l w) (handle (Cmd.SendInsertBlock column_bytes nc n))
    (fun _ => answered ToCaller l (w ++ send_data_block (revision h) [] column_bytes nc n)).
Proof.
  unfold handle. apply (holds_bind any _ (fun _ => stands l w)); [by apply holds_gets|]. intros b. cbn [continues_insert negb].
  rewrite andb_false_r. apply (holds_bind any _ (fun _ => stands l w)); [by apply holds_gets|].
  intros [|]; cbn [dispatch]; [apply (refused_answered ToCaller)|]. unfold do_send_insert_block. cbv zeta.
  destruct (_ <? _); [apply (refused_answered ToCaller)|].
  set (Done := answered ToCaller l (w ++ send_data_block (revision h) [] column_bytes nc n)).
  apply (holds_bind any _ (fun (go : bool) c => if go then stands l w c else Done c)).
  - apply holds_loop. unfold queued_turn. cbv zeta.
    assert (Hfin : forall e, holds any (stands l w)
      (_ ← modify (set_state Idle); _ ← reply (ToCaller (Err e)); mret (Some false))
      (fun (r : option bool) c => match r with Some go => if go then stands l w c else Done c | None => stands l w c end)).
    { intros e. apply (holds_bind any _ (fun _ => stands l w)); [by apply holds_modify|]. intros [].
      apply (holds_bind any _ (fun _ => Done)); [apply (refused_answered ToCaller)|]. intros []. by apply holds_ret. }
    apply (holds_bind any _ (fun _ => stands l w)); [apply holds_try_recv; auto|].
    intros [[[p|e]|]|]; [destruct p; first [apply Hfin | by apply holds_ret]| | |by apply holds_ret].
    all: apply (holds_bind any _ (fun _ => stands l w)); [by apply holds_modify|intros []; apply Hfin].
  - intros [|]; [|by apply holds_ret].
    apply (holds_bind any _ (fun rev c => rev = revision h /\ stands l w c)).
    { apply holds_gets. intros c Hc. split; [|done]. by destruct Hc as [-> _]. }
    intros rev. apply holds_pure. intros ->. eapply holds_bind; [apply bounded_went|]. intros r. cbn [wr fst].
    apply (holds_bind any _ (fun _ => went l (w ++ send_data_block (revision h) [] column_bytes nc n) r)).
    + destruct r; cbn [is_ok]; [by apply holds_ret|].
      eapply holds_bind; [by apply (holds_modify any _ (fun _ => went l (w ++ send_data_block (revision h) [] column_bytes nc n) (Err e : Result unit)))|].
      intros []. by apply holds_modify.
    + intros []. apply reply_answered.
Qed.

(** The end. *)
Lemma finish_answered l w :
  holds any (stands l w) (handle Cmd.FinishInsert) (fun _ => answered ToCaller l (w ++ send_empty_block (revision h))).
Proof.
  unfold handle. apply (holds_bind any _ (fun _ => stands l w)); [by apply holds_gets|]. intros b. cbn [continues_insert negb].
  rewrite andb_false_r. apply (holds_bind any _ (fun _ => stands l w)); [by apply holds_gets|].
  intros [|]; cbn [dispatch]; [apply (refused_answered ToCaller)|].
  eapply holds_bind.
  - unfold do_finish_insert. apply (holds_bind any _ (fun rev c => rev = revision h /\ stands l w c)).
    { apply holds_gets. intros c Hc. split; [|done]. by destruct Hc as [-> _]. }
    intros rev. apply holds_pure. intros ->. eapply holds_bind; [apply bounded_went|]. cbn [wr fst]. intros [[]|e].
    + apply (holds_pre any _ (stands l (w ++ send_empty_block (revision h)))); [|intros c; apply went_stands].
      apply went_impl; [|done]. apply silent_drain; auto.
    + apply (holds_bind any _ (fun _ => went l (w ++ send_empty_block (revision h)) (Err e : Result unit))); [by apply holds_modify|].
      intros []. by apply holds_ret.
  - intros r. apply (holds_bind any _ (fun _ => went l (w ++ send_empty_block (revision h)) r)); [|intros []; apply reply_answered].
    apply holds_modify. intros c Hc. by apply went_state.
Qed.

(** A call gives its caller the reply to its own command. *)
Lemma call_answered {A} (wrap : Result A -> Reply) cmd l w w' :
  holds any (stands l w) (handle cmd) (fun _ => answered wrap l w') ->
  holds any (stands l w) (call cmd) (fun x c => exists r l', x = Some (wrap r) /\ went l' w' r c).
Proof.
  intros Hh. unfold call. apply (holds_bind any _ (fun n c => n = length l /\ stands l w c)).
  { apply holds_gets. intros c Hc. split; [|done]. by destruct Hc as (_ & _ & -> & _). }
  intros n. apply holds_pure. intros ->. eapply holds_bind; [exact Hh|]. intros []. apply holds_gets.
  intros c (r & Hr). exists r, (l ++ [wrap r]). split; [|done]. destruct Hr as (_ & _ & -> & _).
  by rewrite list_lookup_middle.
Qed.

(** The wire after an operation that went well. *)
Definition lands {A} (w : list byte) (r : Result A) (c : Actor) : Prop :=
  match r with Ok _ => exists l, stands l w c | Err _ => True end.

Lemma went_lands {A} l w (r : Result A) c : went l w r c -> lands w r c.
Proof. intros (? & ? & ? & ?). destruct r; [by exists l|done]. Qed.

Lemma checked_lands {A} w (r : Result A) : holds any (lands w r) (checked r) (lands w).
Proof.
  destruct r as [a|e]; [by apply holds_ret|]. cbn [checked].
  apply (holds_bind any _ (fun _ _ => True)); [apply anything|]. intros []. by apply holds_ret.
Qed.

Lemma caller_lands cmd dropped l w w' :
  holds any (stands l w) (handle cmd) (fun _ => answered ToCaller l w') ->
  holds any (stands l w) (r ← call cmd; mret (to_caller dropped r)) (lands w').
Proof.
  intros Hh. eapply holds_bind; [by apply (call_answered ToCaller)|]. intros x. apply holds_ret.
  intros c (r & l' & -> & Hr). cbn [to_caller]. by eapply went_lands.
Qed.

(** ** The laws of a session *)

Lemma insert_native_lands l w sql settings :
  holds any (stands l w) (insert_native [] sql settings)
    (fun r c => lands (w ++ opening h quota sql settings) r c /\ match r with Ok s => server_revision s = revision h | Err _ => True end).
Proof.
  unfold insert_native. apply (holds_bind any _ (lands (w ++ opening h quota sql settings))).
  - unfold begin_insert. eapply holds_bind; [apply (call_answered ToInsert), begin_answered|]. intros x c s c' s' r Hs (r0 & l' & -> & Hr) Hm.
    cbv [mbind act_bind drop_guard disarm mret act_ret] in Hm. simplify_eq. split; [by eapply went_lands|apply any_script].
  - intros [cols|e]; cbn [lands].
    + apply (holds_bind any _ (fun rev c => rev = revision h /\ exists l, stands l (w ++ opening h quota sql settings) c)).
      { apply holds_gets. intros c (l' & Hc). split; [by destruct Hc as [-> _]|by exists l']. }
      intros rev. apply holds_pure. intros ->. by apply holds_ret.
    + apply (holds_bind any _ (fun _ _ => True)); [apply anything|]. intros []. by apply holds_ret.
Qed.

(** A block that is over the cap is refused. *)
Lemma big_block_refused column_bytes nc n c s c' s' :
  MAX_INSERT_BLOCK_BYTES < Z.of_nat (length column_bytes) ->
  handle (Cmd.SendInsertBlock column_bytes nc n) c s = (c', s', Some tt) ->
  exists e, replies c' = replies c ++ [ToCaller (Err e)].
Proof.
  intros Hbig Hh. unfold handle in Hh. cbv [mbind act_bind gets] in Hh. cbn [continues_insert negb] in Hh.
  rewrite andb_false_r in Hh. destruct (state c); cbn [dispatch] in Hh.
  - injection Hh as <- _. by eexists.
  - unfold do_send_insert_block in Hh. cbv zeta in Hh. rewrite (proj2 (Z.ltb_lt _ _) Hbig) in Hh.
    injection Hh as <- _. by eexists.
Qed.

Lemma send_block_capped column_bytes nc n c s c' s' :
  send_block column_bytes nc n c s = (c', s', Some (Ok tt)) -> Z.of_nat (length column_bytes) <= MAX_INSERT_BLOCK_BYTES.
Proof.
  intros Hr. destruct (Z.le_gt_cases (Z.of_nat (length column_bytes)) MAX_INSERT_BLOCK_BYTES) as [|Hbig]; [done|exfalso].
  unfold send_block, send_insert_block, call in Hr. cbv [mbind act_bind gets] in Hr.
  destruct (handle _ c s) as [[c1 s1] [[]|]] eqn:Eh; [|done].
  destruct (big_block_refused _ _ _ _ _ _ _ Hbig Eh) as (e & Hrep). rewrite Hrep, list_lookup_middle in Hr by done.
  cbv [mret act_ret checked to_caller mbind act_bind] in Hr. by destruct e.
Qed.

Lemma send_block_lands w column_bytes nc n :
  holds any (fun c => exists l, stands l w c) (send_block column_bytes nc n)
    (lands (w ++ send_data_block (revision h) [] column_bytes nc n)).
Proof.
  intros c s c' s' r Hs (l & Hc) Hr. revert c s c' s' r Hs Hc Hr.
  change (holds any (stands l w) (send_block column_bytes nc n) (lands (w ++ send_data_block (revision h) [] column_bytes nc n))).
  unfold send_block. eapply holds_bind; [|intros r; apply checked_lands].
  apply caller_lands, block_answered.
Qed.

Lemma finish_lands w s :
  holds any (fun c => exists l, stands l w c) (end_session Finished s)
    (fun r c => exists r', r = Some r' /\ lands (w ++ send_empty_block (revision h)) r' c).
Proof.
  intros c0 s0 c' s' r Hs (l & Hc) Hr. revert c0 s0 c' s' r Hs Hc Hr.
  change (holds any (stands l w) (end_session Finished s) (fun r c => exists r', r = Some r' /\ lands (w ++ send_empty_block (revision h)) r' c)).
  cbn [end_session]. apply (holds_bind any _ (fun x c => settled (fst x) = true /\ lands (w ++ send_empty_block (revision h)) (snd x) c)).
  - unfold finish. eapply holds_bind; [apply caller_lands, finish_answered|]. intros r.
    eapply holds_bind; [apply checked_lands|]. intros r'. by apply holds_ret.
  - intros [s1 r]. apply holds_pure. cbn [fst snd]. intros Hset. unfold drop_session. rewrite Hset.
    apply (holds_bind any _ (fun _ => lands (w ++ send_empty_block (revision h)) r)); [by apply holds_ret|].
    intros []. apply holds_ret. by exists r.
Qed.

End session.
