(* ===== verification/DynInsert.v ===== *)
(** * Dynamic inserts

    Models [src/dynamic/insert.rs]: rows are encoded against the schema of their table, buffered,
    and sent through one of two sinks, an HTTP request or an INSERT session on a pooled connection
    ([Borrowers]). The HTTP client is upstream's and an interface here. Properties: the rows that
    were accepted are exactly the rows that are sent, and a failure is classified by its cause. *)

From S2P Require Import Prelude Text Errors WireIo ColTypes Json Columns Decode Encode Protocol Packets Requests Actor ActorRules Sessions Connection Borrowers InsertWire Unified RoundTrip Agree Blocks ParsedTypes Ext DynScalars DynEncode DynSchema.

(** ** Interfaces *)

(** Upstream's HTTP client: the rows of a query, and the outcome of a formatted insert of a body
    under extra settings, at a time. *)
Class HttpClient := {
  fetch_all : Z -> text -> result UpstreamError (list SysColumn);
  insert_formatted : Z -> list (text * text) -> text -> list byte -> result UpstreamError unit
}.

Definition JSON_AS_STRING_SETTING : text := str "input_format_binary_read_json_as_string".
Definition BLOCK_FLUSH_BYTES : Z := 2 ^ 20.
Definition DEFAULT_TCP_INSERT_BLOCK_ROWS : Z := 1000000.

(** [escape_ident]. *)
Definition escape_ident `{SqlEscape} (name : text) : text := sql_escape_identifier name.

(** ** Blocks of rows *)

Record RowBlock := {
  rows : list (list byte);
  spare : list (list byte);
  bytes : Z
}.
Definition empty_block : RowBlock := {| rows := []; spare := []; bytes := 0 |}.

(** [is_empty], [push], [is_full], [recycle]. *)
Definition block_is_empty (b : RowBlock) : bool := (length (rows b) =? 0)%nat.
Definition push `{JsonText} (row : DynamicRow) (b : RowBlock) : RowBlock * DR unit :=
  let left := removelast (spare b) in
  let '(buf, r) := encode_into row [] in
  match r with
  | Err e => ({| rows := rows b; spare := left ++ [buf]; bytes := bytes b |}, Err e)
  | Ok _ => ({| rows := rows b ++ [buf]; spare := left; bytes := bytes b + Z.of_nat (length buf) |}, Ok tt)
  end.
Definition is_full (row_cap : Z) (b : RowBlock) : bool :=
  (BLOCK_FLUSH_BYTES <=? bytes b) || (row_cap <=? Z.of_nat (length (rows b))).
Definition recycle_rows (b : RowBlock) : RowBlock := {| rows := []; spare := spare b ++ rows b; bytes := 0 |}.

(** ** Errors *)

(** [SCHEMA_DRIFT_CODES], and the texts looked for in an error without a code. *)
Definition SCHEMA_DRIFT_CODES : list Z := [6; 8; 16; 26; 27; 41; 44; 47; 53; 117].
Definition drift_texts : list text :=
  [str "UNKNOWN_IDENTIFIER"; str "NO_SUCH_COLUMN"; str "THERE_IS_NO_COLUMN"; str "TYPE_MISMATCH"; str "ILLEGAL_COLUMN";
   str "CANNOT_PARSE"; str "cannot parse"; str "INCORRECT_DATA"; str "incorrect data"].

(** [is_transport_failure], [classify_error]. *)
Definition is_transport_failure (e : Error) : bool := is_retriable_transport e.
Definition error_code (e : Error) : option Z :=
  match e with
  | ServerException code _ _ _ => Some code
  | BadResponse body => exc_code <$> parse_body body
  | _ => None
  end.
Definition says_drift (msg : text) : bool := existsb (contains msg) drift_texts.
Definition classify_error `{ForeignText} (full_table : text) (err : Error) : DynamicError :=
  if is_transport_failure err then Errors.Transport full_table err
  else
    let msg := error_text err in
    let mismatch := match error_code err with
                    | Some code => bool_decide (code ∈ SCHEMA_DRIFT_CODES)
                    | None => says_drift msg
                    end in
    if mismatch then DynSchemaMismatch full_table msg else EncodingError [] msg.

(** ** The insert *)

(** [Backend]: the schema cache of the HTTP one is shared and kept beside the insert; the TCP one
    has the settings its client sends. *)
Inductive Backend := BackHttp | BackTcp (settings : list (text * text)).

Inductive OpenSink :=
| SinkHttp (settings : list (text * text)) (sql : text) (body : list byte)
| SinkTcp (session : TcpInsertSession) (native : list ColumnSchema) (block : RowBlock).

Record Active := {
  active_columns : list ColumnDef;
  sink : OpenSink
}.

Record DynamicInsert := {
  backend : Backend;
  ins_database : text;
  ins_table : text;
  ins_schema : option DynamicSchema;
  active : option Active;
  rows_written : Z
}.

(** [http], [tcp], [full_table]. *)
Definition insert_http (database table : text) : DynamicInsert :=
  {| backend := BackHttp; ins_database := database; ins_table := table; ins_schema := None; active := None; rows_written := 0 |}.
Definition insert_tcp (settings : list (text * text)) (database table : text) (schema : DynamicSchema) : DynamicInsert :=
  {| backend := BackTcp settings; ins_database := database; ins_table := table; ins_schema := Some schema; active := None;
     rows_written := 0 |}.
Definition full_table (i : DynamicInsert) : text := full_name (ins_database i) (ins_table i).

Definition set_schema (s : option DynamicSchema) (i : DynamicInsert) : DynamicInsert :=
  {| backend := backend i; ins_database := ins_database i; ins_table := ins_table i; ins_schema := s; active := active i;
     rows_written := rows_written i |}.
Definition set_active (a : option Active) (i : DynamicInsert) : DynamicInsert :=
  {| backend := backend i; ins_database := ins_database i; ins_table := ins_table i; ins_schema := ins_schema i; active := a;
     rows_written := rows_written i |}.
Definition count_row (i : DynamicInsert) : DynamicInsert :=
  {| backend := backend i; ins_database := ins_database i; ins_table := ins_table i; ins_schema := ins_schema i;
     active := active i; rows_written := rows_written i + 1 |}.

(** An operation: over the insert, the shared cache and the connection, with [?] for its bind. *)
Definition Dyn (A : Type) : Type := DynamicInsert -> DynamicSchemaCache -> Act (DynamicInsert * DynamicSchemaCache * DR A).

#[global] Instance dyn_ret : MRet Dyn := fun A a i c => mret (i, c, Ok a).
#[global] Instance dyn_bind : MBind Dyn := fun A B f m i c =>
  x ← m i c;
  let '(i', c', r) := x in
  match r with
  | Ok a => f a i' c'
  | Err e => mret (i', c', Err e)
  end.
Definition dyn_get : Dyn DynamicInsert := fun i c => mret (i, c, Ok i).
Definition dyn_set (f : DynamicInsert -> DynamicInsert) : Dyn unit := fun i c => mret (f i, c, Ok tt).
Definition dyn_lift {A} (r : DR A) : Dyn A := fun i c => mret (i, c, r).

(** [Map::contains_key], [select_columns]. *)
Definition contains_key (row : Object) (name : text) : bool :=
  match get row name with Some _ => true | None => false end.
Definition select_columns (row : Object) (raw_names : list text) (schema : DynamicSchema) : list ColumnDef :=
  List.filter (fun c => contains_key row (col_name c) || bool_decide (col_name c ∈ raw_names) || negb (has_default c))
    (schema_columns schema).

Section insert.
Context `{JsonText} `{SqlEscape} `{HttpClient} `{ForeignText}.

(** [ensure_schema]. *)
Definition ensure_schema (now : Z) : Dyn unit := fun i cache =>
  match ins_schema i with
  | Some _ => mret (i, cache, Ok tt)
  | None =>
      match backend i with
      | BackHttp =>
          match cache_get now (full_table i) cache with
          | Some cached => mret (set_schema (Some cached) i, cache, Ok tt)
          | None =>
              match fetch_dynamic_schema (fetch_all now) (ins_database i) (ins_table i) with
              | Ok fetched => mret (set_schema (Some fetched) i, cache_insert now (full_table i) fetched cache, Ok tt)
              | Err e => mret (i, cache, Err e)
              end
          end
      | BackTcp _ => mret (i, cache, Ok tt)
      end
  end.

(** The statement of [ensure_active]. *)
Definition insert_sql (i : DynamicInsert) (columns : list ColumnDef) (format : string) : text :=
  str "INSERT INTO " ++ escape_ident (ins_database i) ++ str "." ++ escape_ident (ins_table i) ++ str " (" ++
  join (str ", ") (map (fun c => escape_ident (col_name c)) columns) ++ str ") FORMAT " ++ str format.

(** [client.insert_native]: what the pool answers, and the session on the connection it gives. *)
Definition open_session (pooled : result PoolError unit) (sql : text) (settings : list (text * text))
    : Act (Result TcpInsertSession) :=
  match pooled with
  | Ok _ => insert_native [] sql settings
  | Err e => mret (Err (map_pool_error e))
  end.

(** [ensure_active]. *)
Definition ensure_active (pooled : result PoolError unit) (row : Object) (raw_names : list text) : Dyn unit := fun i cache =>
  match active i with
  | Some _ => mret (i, cache, Ok tt)
  | None =>
      match ins_schema i with
      | None => mret (i, cache, err [] "schema not available after fetch")
      | Some schema =>
          let columns := select_columns row raw_names schema in
          if bool_decide (columns = []) then mret (i, cache, err [] "no columns to insert for this row")
          else
            match backend i with
            | BackHttp =>
                let settings := if has_json_columns schema then [(JSON_AS_STRING_SETTING, str "1")] else [] in
                let sink := SinkHttp settings (insert_sql i columns "RowBinary") [] in
                mret (set_active (Some {| active_columns := columns; sink := sink |}) i, cache, Ok tt)
            | BackTcp settings =>
                match from_headers (map (fun c => (col_name c, raw (ty c))) columns) with
                | Err e => mret (i, cache, Err (classify_error (full_table i) e))
                | Ok native =>
                    r ← open_session pooled (insert_sql i columns "Native") settings;
                    match r with
                    | Err e => mret (i, cache, Err (classify_error (full_table i) e))
                    | Ok session =>
                        let sink := SinkTcp session native empty_block in
                        mret (set_active (Some {| active_columns := columns; sink := sink |}) i, cache, Ok tt)
                    end
                end
            end
      end
  end.

(** [send_block]. *)
Definition send_rows (session : TcpInsertSession) (native : list ColumnSchema) (block : RowBlock) (full_table : text)
    : Act (RowBlock * DR unit) :=
  if block_is_empty block then mret (block, Ok tt)
  else
    match encode_columns (rows block) native (server_revision session) with
    | Err e => mret (block, Err (classify_error full_table e))
    | Ok encoded =>
        r ← send_block encoded (Z.of_nat (length native)) (Z.of_nat (length (rows block)));
        mret (recycle_rows block, map_err (classify_error full_table) r)
    end.

(** What [write] does with an open sink. *)
Definition write_sink (full_table : text) (row : DynamicRow) (s : OpenSink) : Act (OpenSink * DR unit) :=
  match s with
  | SinkHttp settings sql body =>
      match encode row with
      | Ok encoded => mret (SinkHttp settings sql (body ++ encoded), Ok tt)
      | Err e => mret (s, Err e)
      end
  | SinkTcp session native block =>
      let '(block, r) := push row block in
      match r with
      | Err e => mret (SinkTcp session native block, Err e)
      | Ok _ =>
          if is_full DEFAULT_TCP_INSERT_BLOCK_ROWS block then
            x ← send_rows session native block full_table;
            let '(block, r) := x in mret (SinkTcp session native block, r)
          else mret (SinkTcp session native block, Ok tt)
      end
  end.

(** The row [write] hands to the sink. *)
Definition dynamic_row (row : Object) (passthrough : option (text * list byte)) (columns : list ColumnDef) : DynamicRow :=
  match passthrough with
  | Some (json_col, raw_bytes) => with_raw row columns raw_bytes json_col
  | None => DynamicRow_new row columns
  end.

(** [write], [write_map], [write_map_with_raw]. *)
Definition put_row (row : Object) (passthrough : option (text * list byte)) : Dyn unit := fun i cache =>
  match active i with
  | None => mret (i, cache, err [] "insert sink not initialised")
  | Some a =>
      x ← write_sink (full_table i) (dynamic_row row passthrough (active_columns a)) (sink a);
      let '(sink, r) := x in
      mret (set_active (Some {| active_columns := active_columns a; sink := sink |}) i, cache, r)
  end.
Definition write (now : Z) (pooled : result PoolError unit) (row : Object) (raw_names : list text)
    (passthrough : option (text * list byte)) : Dyn unit :=
  _ ← ensure_schema now; _ ← ensure_active pooled row raw_names; _ ← put_row row passthrough; dyn_set count_row.
Definition write_map (now : Z) (pooled : result PoolError unit) (row : Object) : Dyn unit := write now pooled row [] None.
Definition write_map_with_raw (now : Z) (pooled : result PoolError unit) (row : Object) (passthrough : text * list byte)
    : Dyn unit :=
  write now pooled row [fst passthrough] (Some passthrough).

(** [invalidate_schema]. *)
Definition invalidate_schema (i : DynamicInsert) (cache : DynamicSchemaCache) : DynamicInsert * DynamicSchemaCache :=
  match backend i with
  | BackHttp => (set_schema None i, invalidate (full_table i) cache)
  | BackTcp _ => (i, cache)
  end.

(** The sink is closed: [end] by its outcome. *)
Definition close_sink (now : Z) (full_table : text) (s : OpenSink) : Act (DR unit) :=
  match s with
  | SinkHttp settings sql body =>
      mret (map_err (fun e => classify_error full_table (from_upstream e)) (insert_formatted now settings sql body))
  | SinkTcp session native block =>
      x ← send_rows session native block full_table;
      let '(_, r) := x in
      match r with
      | Ok _ =>
          r ← end_session Finished session;
          mret (map_err (classify_error full_table) (default (Ok tt) r))
      | Err e => _ ← end_session Aborted session; mret (Err e)
      end
  end.

(** [end]. *)
Definition finish_rows (now : Z) : Dyn Z := fun i cache =>
  outcome ← match active i with
            | None => mret (Ok tt)
            | Some a => close_sink now (full_table i) (sink a)
            end;
  let i' := set_active None i in
  match outcome with
  | Ok _ => mret (i', cache, Ok (rows_written i))
  | Err e =>
      let '(i', cache) := match e with DynSchemaMismatch _ _ => invalidate_schema i' cache | _ => (i', cache) end in
      mret (i', cache, Err e)
  end.

(** A caller's rows, one call after the other: the time, the map and the raw column of each. *)
Definition Call : Type := Z * Object * option (text * list byte).
Definition write_call (pooled : result PoolError unit) (x : Call) : Dyn unit :=
  match x with
  | (now, row, None) => write_map now pooled row
  | (now, row, Some passthrough) => write_map_with_raw now pooled row passthrough
  end.
Fixpoint write_calls (pooled : result PoolError unit) (calls : list Call) (i : DynamicInsert) (cache : DynamicSchemaCache)
    : Act (DynamicInsert * DynamicSchemaCache * list (DR unit)) :=
  match calls with
  | [] => mret (i, cache, [])
  | x :: calls' =>
      y ← write_call pooled x i cache;
      let '(i', cache', r) := y in
      z ← write_calls pooled calls' i' cache';
      let '(i'', cache'', rs) := z in mret (i'', cache'', r :: rs)
  end.

(** Dropped without [end]: an open session is dropped with it. *)
Definition drop_insert (i : DynamicInsert) : Act unit :=
  match active i with
  | Some a => match sink a with SinkTcp session _ _ => drop_session session | SinkHttp _ _ _ => mret tt end
  | None => mret tt
  end.

(** [UnifiedClient::dynamic_insert], over the blocks the TCP client reads; the HTTP client resolves
    its schema later. *)
Definition system_rows (columns : ResultSet) : Result (list SysColumn) :=
  names ← @get_column _ from_column_string columns (str "name");
  types ← @get_column _ from_column_string columns (str "col_type");
  kinds ← @get_column _ from_column_string columns (str "default_kind");
  Ok (zip (zip names types) kinds).
Definition dynamic_insert (now : Z) (fetch_columns : text -> Result ResultSet) (c : UnifiedClient unit (list (text * text)))
    (database table : text) (cache : DynamicSchemaCache) : Result (DynamicInsert * DynamicSchemaCache) :=
  match c with
  | Http _ => Ok (insert_http database table, cache)
  | Tcp settings =>
      let full := full_name database table in
      match cache_get now full cache with
      | Some cached => Ok (insert_tcp settings database table cached, cache)
      | None =>
          columns ← fetch_columns (system_columns_sql database table);
          rows ← system_rows columns;
          fetched ← map_err Dynamic (schema_from_system_columns full rows);
          Ok (insert_tcp settings database table fetched, cache_insert now full fetched cache)
      end
  end.

(** ** What was accepted *)

Definition call_row (columns : list ColumnDef) (x : Call) : DynamicRow := dynamic_row (snd (fst x)) (snd x) columns.
Definition call_names (x : Call) : list text := match snd x with Some (json_col, _) => [json_col] | None => [] end.
(** The bytes of the rows that encode, in order. *)
Definition accepted (columns : list ColumnDef) (calls : list Call) : list (list byte) :=
  omap (fun x => match encode (call_row columns x) with Ok b => Some b | Err _ => None end) calls.
(** Every call succeeded, or its row does not encode. *)
Definition only_bad_rows (columns : list ColumnDef) (calls : list Call) (results : list (DR unit)) : Prop :=
  Forall2 (fun x r => r = Ok tt \/ exists e, encode (call_row columns x) = Err e) calls results.

(** ** Lemmas: a run of writes

    Against any sink whose state [Carries] the rows it was given. *)

Section run.
Context (pooled : result PoolError unit) (columns : list ColumnDef) (full : text).
Context (Carries : list (list byte) -> OpenSink -> Actor -> Prop).

Definition carries_on : Prop := forall acc s row, row_columns row = columns ->
  holds any (Carries acc s) (write_sink full row s)
    (fun x c => match snd x with
                | Ok _ => exists b, encode row = Ok b /\ Carries (acc ++ [b]) (fst x) c
                | Err _ => (exists e, encode row = Err e) -> Carries acc (fst x) c
                end).

(** An open insert that was given [acc]. *)
Definition opened (acc : list (list byte)) (i : DynamicInsert) (c : Actor) : Prop :=
  full_table i = full /\ (exists schema, ins_schema i = Some schema) /\ rows_written i = Z.of_nat (length acc) /\
  exists s, active i = Some {| active_columns := columns; sink := s |} /\ Carries acc s c.

Lemma call_row_columns x : row_columns (call_row columns x) = columns.
Proof. destruct x as [[now row] [[nm bs]|]]; done. Qed.

Lemma write_call_eq x i cache c s : (exists schema, ins_schema i = Some schema) -> (exists a, active i = Some a) ->
  write_call pooled x i cache c s = (_ ← put_row (snd (fst x)) (snd x); dyn_set count_row) i cache c s.
Proof.
  intros (sc & Hs) (a & Ha). destruct x as [[now row] [pt|]]; unfold write_call, write_map, write_map_with_raw, write;
    unfold mbind at 1, dyn_bind at 1, ensure_schema; rewrite Hs; cbv [mbind act_bind mret act_ret]; cbn [fst snd];
    unfold dyn_bind at 1, ensure_active; rewrite Ha; reflexivity.
Qed.

Lemma one_carried x acc i cache : carries_on ->
  holds any (opened acc i) (write_call pooled x i cache)
    (fun y c => let '(i', cache', r) := y in
       cache' = cache /\ (r = Ok tt -> exists b, encode (call_row columns x) = Ok b /\ opened (acc ++ [b]) i' c) /\
       (r <> Ok tt -> (exists e, encode (call_row columns x) = Err e) -> opened acc i' c)).
Proof.
  intros Hon c s c' s' [[i' cache'] r] Hs (Hf & Hsc & Hn & snk & Ha & Hc) Hr. split; [|apply any_script].
  rewrite write_call_eq in Hr by eauto. cbv [mbind dyn_bind act_bind] in Hr. unfold put_row in Hr. rewrite Ha, Hf in Hr.
  cbv [mbind act_bind] in Hr. cbn [active_columns sink] in Hr.
  destruct (write_sink full (dynamic_row (snd (fst x)) (snd x) columns) snk c s) as [[c1 s1] [[snk' r1]|]] eqn:E; [|done].
  destruct (Hon acc snk _ (call_row_columns x) _ _ _ _ _ Hs Hc E) as [Hw _]. cbn [fst snd] in Hw.
  destruct r1 as [[]|e]; cbv [mret act_ret dyn_set] in Hr; injection Hr as <- <- <- <- <-; (split; [done|]); split; try done.
  - intros _. destruct Hw as (b & Hb & Hw). exists b. split; [done|]. split_and!; [done|done| |by exists snk'].
    cbn [rows_written count_row set_active]. rewrite Hn, length_app. simpl. lia.
  - intros _ He. split_and!; [done|done|done|]. exists snk'. split; [done|by apply Hw].
Qed.

Lemma all_carried calls : carries_on -> forall acc i cache,
  holds any (opened acc i) (write_calls pooled calls i cache)
    (fun y c => let '(i', cache', rs) := y in
       only_bad_rows columns calls rs -> cache' = cache /\ opened (acc ++ accepted columns calls) i' c).
Proof.
  intros Hon. induction calls as [|x calls IH]; intros acc i cache; cbn [write_calls].
  { apply holds_ret. intros c Hc _. by rewrite app_nil_r. }
  intros c s c' s' [[i' cache'] rs] Hs Hi Hr. split; [|apply any_script]. cbv [mbind act_bind] in Hr.
  destruct (write_call pooled x i cache c s) as [[c1 s1] [[[i1 cache1] r]|]] eqn:E1; [|done].
  destruct (write_calls pooled calls i1 cache1 c1 s1) as [[c2 s2] [[[i2 cache2] rs2]|]] eqn:E2; [|done].
  cbv [mret act_ret] in Hr. injection Hr as <- <- <- <- <-.
  destruct (one_carried x acc i cache Hon _ _ _ _ _ Hs Hi E1) as [(-> & Hok & Hbad) _].
  assert (Hsplit : (r = Ok tt /\ exists b, encode (call_row columns x) = Ok b /\ opened (acc ++ [b]) i1 c1) \/
    ((exists e, encode (call_row columns x) = Err e) /\ opened acc i1 c1) \/
    (r <> Ok tt /\ ~ exists e, encode (call_row columns x) = Err e)).
  { destruct r as [[]|e]; [left; by split; auto|]. right. destruct (encode (call_row columns x)) as [b|e'] eqn:Ee.
    - right. split; [done|]. by intros [? ?].
    - left. split; [by exists e'|]. apply Hbad; [done|by exists e']. }
  unfold accepted. cbn [omap list_omap]. fold (accepted columns calls). intros Hall. inversion_clear Hall as [|? ? ? ? Hx Hall'].
  destruct Hsplit as [(-> & b & -> & Hi1)|[([e He] & Hi1)|[Hr Hne]]]; [| |by destruct Hx].
  - destruct (IH _ _ _ _ _ _ _ _ (any_script s1) Hi1 E2) as [Hgo _]. rewrite <- app_assoc in Hgo. by apply Hgo.
  - destruct (IH _ _ _ _ _ _ _ _ (any_script s1) Hi1 E2) as [Hgo _]. rewrite He. by apply Hgo.
Qed.

(** The first call opens the insert and then does what every call does. *)
Lemma write_call_opens x i cache c s : (exists schema, ins_schema i = Some schema) ->
  write_call pooled x i cache c s =
  (_ ← ensure_active pooled (snd (fst x)) (call_names x); write_call pooled x) i cache c s.
Proof.
  intros (sc & Hs).
  assert (E : forall j d s0, ins_schema j <> None -> write_call pooled x j cache d s0 =
    (_ ← ensure_active pooled (snd (fst x)) (call_names x); _ ← put_row (snd (fst x)) (snd x); dyn_set count_row) j cache d s0).
  { intros j d s0 Hj. destruct (ins_schema j) as [sc'|] eqn:Ej; [|done].
    destruct x as [[now row] [[nm raw]|]]; unfold write_call, write_map, write_map_with_raw, write;
      unfold mbind at 1, dyn_bind at 1, ensure_schema; by rewrite Ej. }
  rewrite E by congruence. unfold mbind, dyn_bind. cbv [mbind act_bind].
  destruct (ensure_active pooled (snd (fst x)) (call_names x) i cache c s) as [[c1 s1] [[[i1 cache1] [[]|e]]|]] eqn:Ea; try done.
  assert (Hk : ins_schema i1 = Some sc /\ cache1 = cache /\ exists a, active i1 = Some a).
  { revert Ea. unfold ensure_active. destruct (active i) as [a|] eqn:Ei; [intros [= <- <- <- <-]; eauto|]. rewrite Hs.
    destruct (bool_decide _); [done|]. destruct (backend i); [intros [= <- <- <- <-]; cbn; eauto|].
    destruct (from_headers _); [|done]. cbv [mbind act_bind]. destruct (open_session _ _ _ c s) as [[c2 s2] [[ses|e]|]]; try done.
    intros [= <- <- <- <-]. cbn. eauto. }
  destruct Hk as (Hk & -> & Ha). rewrite (write_call_eq x i1 cache c1 s1) by eauto. reflexivity.
Qed.

End run.

(** ** Lemmas: the sinks *)

Lemma push_spec row b b' r : push row b = (b', r) ->
  match r with
  | Ok _ => exists e, encode row = Ok e /\ rows b' = rows b ++ [e]
  | Err _ => rows b' = rows b /\ bytes b' = bytes b
  end.
Proof.
  unfold push, encode. destruct (encode_into row []) as [buf [[]|e]]; intros [= <- <-]; cbn; eauto.
Qed.

Definition packet (h : ServerHello) (native : list ColumnSchema) (b : list (list byte) * list byte) : list byte :=
  send_data_block (revision h) [] (snd b) (Z.of_nat (length native)) (Z.of_nat (length (fst b))).
(** A block that was sent: rows within the cap, and their encoding, within the cap of a packet. *)
Definition sent_block (h : ServerHello) (native : list ColumnSchema) (b : list (list byte) * list byte) : Prop :=
  (0 < length (fst b))%nat /\ Z.of_nat (length (fst b)) <= DEFAULT_TCP_INSERT_BLOCK_ROWS /\
  encode_columns (fst b) native (revision h) = Ok (snd b) /\ Z.of_nat (length (snd b)) <= MAX_INSERT_BLOCK_BYTES.

Section tcp.
Context (h : ServerHello) (quota : text) (native : list ColumnSchema) (w : list byte).

Definition tcp_carries (acc : list (list byte)) (s : OpenSink) (c : Actor) : Prop :=
  exists session block sent, s = SinkTcp session native block /\ server_revision session = revision h /\
    acc = concat (map fst sent) ++ rows block /\ Forall (sent_block h native) sent /\
    Z.of_nat (length (rows block)) < DEFAULT_TCP_INSERT_BLOCK_ROWS /\
    exists l, stands h quota l (w ++ concat (map (packet h native) sent)) c.

(** [send_rows] on a block of at most the cap. *)
Lemma send_rows_lands session block full w1 : server_revision session = revision h ->
  Z.of_nat (length (rows block)) <= DEFAULT_TCP_INSERT_BLOCK_ROWS ->
  holds any (fun c => exists l, stands h quota l w1 c) (send_rows session native block full)
    (fun x c => snd x = Ok tt -> rows (fst x) = [] /\ exists sent, concat (map fst sent) = rows block /\
       Forall (sent_block h native) sent /\ exists l, stands h quota l (w1 ++ concat (map (packet h native) sent)) c).
Proof.
  intros Hrev Hcap. unfold send_rows, block_is_empty. destruct (rows block) as [|r0 rs] eqn:Er; cbn [length Nat.eqb].
  - apply holds_ret. intros c Hc _. split; [done|]. exists []. split_and!; [done|done|]. by rewrite app_nil_r.
  - rewrite Hrev. destruct (encode_columns (r0 :: rs) native (revision h)) as [body|e] eqn:Ee; [|by apply holds_ret].
    apply (holds_bind any _ (fun r c => lands h quota (w1 ++ send_data_block (revision h) [] body (Z.of_nat (length native)) (Z.of_nat (length (r0 :: rs)))) r c /\
      (r = Ok tt -> Z.of_nat (length body) <= MAX_INSERT_BLOCK_BYTES))).
    { intros c sc c' s' r Hs Hc Hr. destruct (send_block_lands h quota w1 _ _ _ _ _ _ _ _ Hs Hc Hr) as [Hl Hs'].
      split; [split; [exact Hl|]|exact Hs']. intros ->. by eapply send_block_capped. }
    intros [[]|e]; apply holds_ret; [|done].
    intros c [Hc Hbytes] _. split; [done|]. exists [(r0 :: rs, body)]. split_and!.
    + simpl. by rewrite app_nil_r.
    + constructor; [|done]. split_and!; [simpl; lia|exact Hcap|exact Ee|by apply Hbytes].
    + cbn [map concat]. unfold packet. cbn [fst snd length]. by rewrite app_nil_r.
Qed.

Lemma tcp_carries_on columns full : carries_on columns full tcp_carries.
Proof.
  intros acc s row Hrow c sc c' s' [snk r] Hs (session & block & sent & -> & Hrev & -> & Hsent & Hcap & l & Hc) Hr.
  split; [|apply any_script]. cbn [write_sink] in Hr. destruct (push row block) as [b1 r1] eqn:Ep. apply push_spec in Ep.
  destruct r1 as [[]|e]; cbn [fst snd] in *.
  - destruct Ep as (enc & Henc & Hrows). destruct (is_full DEFAULT_TCP_INSERT_BLOCK_ROWS b1) eqn:Ef.
    + cbv [mbind act_bind] in Hr. destruct (send_rows session native b1 full c sc) as [[c1 s1] [[b2 r2]|]] eqn:Es; [|done].
      injection Hr as <- <- <- <-. assert (Hb1 : Z.of_nat (length (rows b1)) <= DEFAULT_TCP_INSERT_BLOCK_ROWS).
      { rewrite Hrows, length_app. simpl. lia. }
      destruct (send_rows_lands session b1 full _ Hrev Hb1 _ _ _ _ _ Hs (ex_intro _ l Hc) Es) as [Hland _]. cbn [fst snd] in Hland.
      destruct r2 as [[]|e]; [|intros (e' & He'); congruence].
      destruct (Hland eq_refl) as (Hemp & more & Hmore & Hok & l' & Hst). exists enc. split; [done|].
      exists session, b2, (sent ++ more). split_and!; [done|done| |by apply Forall_app| |].
      * rewrite map_app, List.concat_app, Hmore, Hrows, Hemp. by rewrite app_nil_r, app_assoc.
      * rewrite Hemp. vm_compute. reflexivity.
      * exists l'. by rewrite map_app, List.concat_app, app_assoc.
    + cbv [mret act_ret] in Hr. injection Hr as <- <- <- <-. exists enc. split; [done|]. exists session, b1, sent.
      split_and!; [done|done|by rewrite Hrows, app_assoc|done| |by exists l].
      unfold is_full in Ef. by apply orb_false_iff in Ef as [_ Ef%Z.leb_gt].
  - cbv [mret act_ret] in Hr. injection Hr as <- <- <- <-. intros _. destruct Ep as [Hrows _].
    exists session, b1, sent. rewrite Hrows. split_and!; try done. by exists l.
Qed.

Lemma tcp_closes now full acc s :
  holds any (tcp_carries acc s) (close_sink now full s)
    (fun r c => r = Ok tt -> exists sent, concat (map fst sent) = acc /\ Forall (sent_block h native) sent /\
       exists l, stands h quota l (w ++ concat (map (packet h native) sent) ++ send_empty_block (revision h)) c).
Proof.
  intros c sc c' s' r Hs (session & block & sent & -> & Hrev & -> & Hsent & Hcap & l & Hc) Hr.
  split; [|apply any_script]. cbn [close_sink] in Hr. cbv [mbind act_bind] in Hr.
  destruct (send_rows session native block full c sc) as [[c1 s1] [[b2 r2]|]] eqn:Es; [|done].
  destruct (send_rows_lands session block full _ Hrev ltac:(lia) _ _ _ _ _ Hs (ex_intro _ l Hc) Es) as [Hland _].
  destruct r2 as [[]|e]; [|by destruct (end_session Aborted session c1 s1) as [[? ?] [?|]]; [injection Hr as _ _ <-|]].
  destruct (Hland eq_refl) as (_ & more & Hmore & Hok & Hst). cbn [fst] in *.
  destruct (end_session Finished session c1 s1) as [[c2 s2] [r3|]] eqn:Ee; [|done]. injection Hr as <- <- <-.
  destruct (finish_lands h quota _ session _ _ _ _ _ (any_script s1) Hst Ee) as [(r4 & -> & Hfin) _].
  intros Hr. exists (sent ++ more). split_and!; [by rewrite map_app, List.concat_app, Hmore|by apply Forall_app|].
  destruct r4 as [[]|e]; [|done]. destruct Hfin as (l' & Hfin). exists l'.
  by rewrite map_app, List.concat_app, !app_assoc in *.
Qed.

End tcp.

(** An insert opened over TCP leaves its schema cached. *)
Lemma dynamic_insert_caches now fetch settings database table cache i cache' : 0 < ttl cache ->
  dynamic_insert now fetch (Tcp settings) database table cache = Ok (i, cache') ->
  exists schema, i = insert_tcp settings database table schema /\
    cache_get now (full_name database table) cache' = Some schema.
Proof.
  intros Ht. unfold dynamic_insert. destruct (cache_get now (full_name database table) cache) as [cached|] eqn:Ec.
  - intros [= <- <-]. by exists cached.
  - destruct (fetch _) as [columns|]; [|done]. cbn [mbind result_bind]. destruct (system_rows columns) as [rows|]; [|done].
    cbn [mbind result_bind]. destruct (schema_from_system_columns _ rows) as [schema|]; [|done]. intros [= <- <-].
    exists schema. split; [done|]. unfold cache_get, cache_insert. cbn [inner DynSchema.ttl].
    rewrite lookup_insert_eq. cbn [mbind option_bind fetched_at]. by rewrite Z.sub_diag, (proj2 (Z.ltb_lt _ _)).
Qed.

Definition http_carries (settings : list (text * text)) (sql : text) (acc : list (list byte)) (s : OpenSink) (c : Actor) : Prop :=
  s = SinkHttp settings sql (concat acc).

Lemma http_carries_on columns full settings sql : carries_on columns full (http_carries settings sql).
Proof.
  intros acc s row Hrow c sc c' s' [snk r] Hs -> Hr. split; [|apply any_script]. cbn [write_sink] in Hr.
  destruct (encode row) as [enc|e]; cbv [mret act_ret] in Hr; injection Hr as <- <- <- <-; cbn [fst snd]; [|done].
  exists enc. split; [done|]. unfold http_carries. rewrite List.concat_app. cbn [concat]. by rewrite app_nil_r.
Qed.

Lemma tcp_opens h quota l w pooled x schema settings database table cache :
  let i := insert_tcp settings database table schema in
  let columns := select_columns (snd (fst x)) (call_names x) schema in
  holds any (stands h quota l w) (ensure_active pooled (snd (fst x)) (call_names x) i cache)
    (fun y c => let '(i', cache', r) := y in r = Ok tt ->
       exists native, from_headers (map (fun c => (col_name c, raw (ty c))) columns) = Ok native /\
         opened columns (full_name database table)
           (tcp_carries h quota native (w ++ opening h quota (insert_sql i columns "Native") settings)) [] i' c).
Proof.
  intros i columns c s c' s' [[i' cache'] r] Hs Hc Hr. split; [|apply any_script]. intros ->. revert Hr.
  unfold ensure_active. cbn [active i insert_tcp ins_schema backend]. fold columns. destruct (bool_decide _); [done|].
  destruct (from_headers _) as [native|e] eqn:Eh; [|done]. cbv [mbind act_bind].
  destruct (open_session pooled _ settings c s) as [[c1 s1] [[session|e]|]] eqn:Eo; try done.
  cbv [mret act_ret]. intros [= <- <- <- <-]. exists native. split; [done|].
  unfold open_session in Eo. destruct pooled as [[]|e]; [|done].
  destruct (insert_native_lands h quota l w _ settings _ _ _ _ _ Hs Hc Eo) as [[(l' & Hl) Hrev] _].
  split_and!; [done|by exists schema|done|]. eexists. split; [reflexivity|]. exists session, empty_block, [].
  split_and!; [done|done|done|done|vm_compute; reflexivity|]. exists l'. by rewrite app_nil_r.
Qed.

(** A first call that succeeded opened the insert, was written and was followed by the rest. *)
Lemma first_call pooled x calls i cache c s c1 s1 i1 cache1 results : (exists schema, ins_schema i = Some schema) ->
  write_calls pooled (x :: calls) i cache c s = (c1, s1, Some (i1, cache1, Ok tt :: results)) ->
  exists c0 s0 i0 cache0 c' s' i' cache',
    ensure_active pooled (snd (fst x)) (call_names x) i cache c s = (c0, s0, Some (i0, cache0, Ok tt)) /\
    write_call pooled x i0 cache0 c0 s0 = (c', s', Some (i', cache', Ok tt)) /\
    write_calls pooled calls i' cache' c' s' = (c1, s1, Some (i1, cache1, results)).
Proof.
  intros Hs Hr. cbn [write_calls] in Hr. cbv [mbind act_bind] in Hr. rewrite write_call_opens in Hr by done.
  unfold mbind, dyn_bind in Hr. cbv [mbind act_bind mret act_ret] in Hr.
  destruct (ensure_active _ _ _ i cache c s) as [[c0 s0] [[[i0 cache0] [[]|e]]|]]; [| |done].
  - destruct (write_call pooled x i0 cache0 c0 s0) as [[c' s'] [[[i' cache'] r]|]] eqn:Ex; [|done].
    destruct (write_calls pooled calls i' cache' c' s') as [[c2 s2] [[[i2 cache2] rs]|]] eqn:Er; [|done].
    injection Hr as <- <- <- <- -> <-. by eexists _, _, _, _, _, _, _, _.
  - by destruct (write_calls pooled calls i0 cache0 c0 s0) as [[? ?] [[[? ?] ?]|]].
Qed.

(** What an HTTP insert knows of its table: the fresh cached schema, else what the server answers. *)
Definition known (now : Z) (database table : text) (cache : DynamicSchemaCache) : DR DynamicSchema :=
  match cache_get now (full_name database table) cache with
  | Some cached => Ok cached
  | None => fetch_dynamic_schema (fetch_all now) database table
  end.

Lemma http_knows pooled x calls schema database table cache c s :
  let asked := fst (fst x) in
  known asked database table cache = Ok schema ->
  write_calls pooled (x :: calls) (insert_http database table) cache c s =
  write_calls pooled (x :: calls) (set_schema (Some schema) (insert_http database table))
    (match cache_get asked (full_name database table) cache with
     | Some _ => cache
     | None => cache_insert asked (full_name database table) schema cache
     end) c s.
Proof.
  intros asked Hk. cbn [write_calls]. cbv [mbind act_bind].
  assert (E : forall i' cache', ensure_schema asked (insert_http database table) cache c s = (c, s, Some (i', cache', Ok tt)) ->
    (exists sc, ins_schema i' = Some sc) ->
    write_call pooled x (insert_http database table) cache c s = write_call pooled x i' cache' c s).
  { intros i' cache' He (sc & Hs). destruct x as [[now row] [[nm raw]|]]; cbn [fst] in asked; subst asked;
      unfold write_call, write_map, write_map_with_raw, write; unfold mbind at 1, dyn_bind at 1; cbv [mbind act_bind];
      rewrite He; symmetry; unfold dyn_bind at 1; cbv [mbind act_bind]; unfold ensure_schema; by rewrite Hs. }
  rewrite (E (set_schema (Some schema) (insert_http database table)) (match cache_get asked (full_name database table) cache with
     | Some _ => cache
     | None => cache_insert asked (full_name database table) schema cache
     end)); [done| |by eexists].
  unfold ensure_schema, known in *. cbn [ins_schema insert_http backend]. unfold full_table. cbn [ins_database ins_table insert_http].
  destruct (cache_get asked (full_name database table) cache) as [cached|]; [by injection Hk as ->|].
  by rewrite Hk.
Qed.

Lemma open_at_end now i cache c s c' s' i' cache' n columns full Carries acc :
  opened columns full Carries acc i c -> finish_rows now i cache c s = (c', s', Some (i', cache', Ok n)) ->
  n = Z.of_nat (length acc) /\ exists snk, Carries acc snk c /\ close_sink now full snk c s = (c', s', Some (Ok tt)).
Proof.
  intros (Hf & _ & Hn & snk & Ha & Hc) Hr. unfold finish_rows in Hr. rewrite Ha, Hf in Hr. cbv [mbind act_bind] in Hr. cbn [sink] in Hr.
  destruct (close_sink now full snk c s) as [[c1 s1] [[[]|e]|]] eqn:E; [| |done].
  - injection Hr as <- <- _ _ <-. split; [done|]. by exists snk.
  - destruct e; try done. by destruct (invalidate_schema _ _).
Qed.

End insert.

(** A block past the byte cap is refused where it stands, and the session goes on. *)
Lemma send_rows_refused `{ForeignText} session native block full c s body :
  state c = InsertActive -> rows block <> [] ->
  encode_columns (rows block) native (server_revision session) = Ok body ->
  MAX_INSERT_BLOCK_BYTES < Z.of_nat (length body) ->
  send_rows session native block full c s =
    (set_poisoned (put_reply (ToCaller (Err (block_too_big (Z.of_nat (length body))))) c), s,
     Some (recycle_rows block, Err (classify_error full (block_too_big (Z.of_nat (length body)))))).
Proof.
  intros Hst Hne Henc Hbig. unfold send_rows, block_is_empty. destruct (rows block) as [|r0 rs] eqn:Er; [done|].
  cbn [length Nat.eqb]. rewrite Henc. unfold send_block, send_insert_block, call, handle. cbv [mbind act_bind gets].
  cbn [continues_insert negb]. rewrite andb_false_r, Hst. cbn [dispatch]. unfold do_send_insert_block. cbv zeta.
  rewrite (proj2 (Z.ltb_lt _ _)) by done. cbv [reply modify mret act_ret]. cbn [replies put_reply].
  rewrite list_lookup_middle by done. reflexivity.
Qed.

(** Such a session still ends well. *)
Lemma end_refused session r c :
  settled session = false -> state c = InsertActive -> inbox c = [Rm.Packet Sp.EndOfStream] ->
  exists c', end_session Finished session (set_poisoned (put_reply r c)) [Ev.WriteOk; Ev.Arrives] = (c', [], Some (Some (Ok tt))) /\
    wire c' = wire c ++ send_empty_block (revision (hello c)).
Proof.
  intros Hset Hst Hin. cbn [end_session]. unfold finish, finish_insert, call, handle. cbv [mbind act_bind gets].
  cbn [continues_insert negb]. rewrite andb_false_r. cbn [state set_poisoned put_reply]. rewrite Hst. cbn [dispatch].
  unfold do_finish_insert. cbv [mbind act_bind gets bounded_io await]. cbn [await_loop wr fst snd]. unfold drain_to_end_of_stream, act_loop.
  cbn [length act_loop_fuel]. unfold drain_turn, next_packet. cbv [mbind act_bind await]. cbn [await_loop].
  unfold recv. cbn [inbox put_wire set_poisoned put_reply]. rewrite Hin. cbn [received].
  cbv [mret act_ret modify reply checked]. cbn [replies put_reply set_state set_inbox put_wire set_poisoned].
  rewrite list_lookup_middle by done. cbn [to_caller]. unfold drop_session. cbn [settled settle].
  eexists. split; reflexivity.
Qed.

Lemma drift_not_retriable code : code ∈ SCHEMA_DRIFT_CODES -> is_retriable_code code = false.
Proof.
  intros Hin. unfold SCHEMA_DRIFT_CODES in Hin.
  repeat (apply elem_of_cons in Hin as [-> | Hin]; [reflexivity|]). by apply not_elem_of_nil in Hin.
Qed.

(** A TCP insert from its first call to its end. *)
Lemma tcp_insert_sent `{JsonText} `{SqlEscape} `{HttpClient} `{ForeignText}
    h quota l w pooled x calls schema settings database table cache now c s c1 s1 i1 cache1 results c2 s2 i2 cache2 n :
  let i := insert_tcp settings database table schema in
  let columns := select_columns (snd (fst x)) (call_names x) schema in
  stands h quota l w c ->
  write_calls pooled (x :: calls) i cache c s = (c1, s1, Some (i1, cache1, Ok tt :: results)) ->
  only_bad_rows columns calls results ->
  finish_rows now i1 cache1 c1 s1 = (c2, s2, Some (i2, cache2, Ok n)) ->
  exists native sent,
    from_headers (map (fun c => (col_name c, raw (ty c))) columns) = Ok native /\
    concat (map fst sent) = accepted columns (x :: calls) /\ n = Z.of_nat (length (accepted columns (x :: calls))) /\
    Forall (sent_block h native) sent /\
    wire c2 = w ++ opening h quota (insert_sql i columns "Native") settings ++
              concat (map (packet h native) sent) ++ send_empty_block (revision h).
Proof.
  intros i columns Hc Hr Hbad Hend.
  apply first_call in Hr as (c0 & s0 & i0 & cache0 & c' & s' & i' & cache' & Eo & Ex & Er); [|by eexists].
  destruct (tcp_opens h quota l w pooled x schema settings database table cache _ _ _ _ _ (any_script s) Hc Eo) as [Hopen _].
  destruct (Hopen eq_refl) as (native & Hnat & Hi0). clear Hopen.
  pose proof (tcp_carries_on h quota native (w ++ opening h quota (insert_sql i columns "Native") settings) columns
    (full_name database table)) as Hon.
  destruct (one_carried pooled columns _ _ x [] i0 cache0 Hon _ _ _ _ _ (any_script s0) Hi0 Ex) as [(_ & Hok & _) _].
  destruct (Hok eq_refl) as (b & Hb & Hi'). clear Hok.
  destruct (all_carried pooled columns _ _ calls Hon _ _ _ _ _ _ _ _ (any_script s') Hi' Er) as [Hall _].
  destruct (Hall Hbad) as [_ Hi'']. assert (Hacc : accepted columns (x :: calls) = b :: accepted columns calls).
  { unfold accepted. cbn [omap list_omap]. by rewrite Hb. }
  destruct (open_at_end _ _ _ _ _ _ _ _ _ _ _ _ _ _ Hi'' Hend) as (Hn & snk & Hsnk & Hclose).
  destruct (tcp_closes h quota native _ now _ _ snk _ _ _ _ _ (any_script s1) Hsnk Hclose) as [Hdone _].
  destruct (Hdone eq_refl) as (sent & Hcat & Hsent & l' & Hst). exists native, sent. rewrite Hacc.
  split_and!; [done|exact Hcat|exact Hn|done|]. destruct Hst as (_ & _ & _ & ->). by rewrite <- !app_assoc.
Qed.

(** ** Properties *)

(** C5: over the native protocol, the rows that were accepted are the rows that are sent. When the
    first call of an insert succeeded, every later one succeeded or had a row that does not encode, and [end]
    reports success, then the wire carries the INSERT query, the accepted rows in order cut into
    blocks of at least one row, at most the row cap and at most 512 MiB, each block encoded whole for the columns
    chosen by the first row, and the closing empty block, nothing else; and the count
    returned is the number of those rows. *)
Theorem tcp_rows_are_sent `{JsonText} `{SqlEscape} `{HttpClient} `{ForeignText}
    h quota l w pooled x calls schema settings database table cache now c s c1 s1 i1 cache1 results c2 s2 i2 cache2 n :
  let i := insert_tcp settings database table schema in
  let columns := select_columns (snd (fst x)) (call_names x) schema in
  stands h quota l w c ->
  write_calls pooled (x :: calls) i cache c s = (c1, s1, Some (i1, cache1, Ok tt :: results)) ->
  only_bad_rows columns calls results ->
  finish_rows now i1 cache1 c1 s1 = (c2, s2, Some (i2, cache2, Ok n)) ->
  exists native sent,
    from_headers (map (fun c => (col_name c, raw (ty c))) columns) = Ok native /\
    concat (map fst sent) = accepted columns (x :: calls) /\ n = Z.of_nat (length (accepted columns (x :: calls))) /\
    Forall (sent_block h native) sent /\
    wire c2 = w ++ opening h quota (insert_sql i columns "Native") settings ++
              concat (map (packet h native) sent) ++ send_empty_block (revision h).
Proof. apply tcp_insert_sent. Qed.

(** C19: over HTTP likewise: the body of the one request is the accepted rows end to end, for the
    columns the schema and the first row give, the schema being the cached one while it is fresh and
    else what the server answers, which is then cached. *)
Theorem http_rows_are_sent `{JsonText} `{SqlEscape} `{HttpClient} `{ForeignText}
    pooled x calls schema database table cache now c s c1 s1 i1 cache1 results c2 s2 i2 cache2 n :
  let i := insert_http database table in
  let full := full_name database table in
  let asked := fst (fst x) in
  let columns := select_columns (snd (fst x)) (call_names x) schema in
  known asked database table cache = Ok schema ->
  write_calls pooled (x :: calls) i cache c s = (c1, s1, Some (i1, cache1, Ok tt :: results)) ->
  only_bad_rows columns calls results ->
  finish_rows now i1 cache1 c1 s1 = (c2, s2, Some (i2, cache2, Ok n)) ->
  cache1 = match cache_get asked full cache with Some _ => cache | None => cache_insert asked full schema cache end /\
  n = Z.of_nat (length (accepted columns (x :: calls))) /\
  exists settings,
    insert_formatted now settings (insert_sql i columns "RowBinary") (concat (accepted columns (x :: calls))) = Ok tt.
Proof.
  intros i full asked columns Hk Hr Hbad Hend. unfold i in Hr. rewrite (http_knows pooled x calls schema database table cache c s Hk) in Hr.
  apply first_call in Hr as (c0 & s0 & i0 & cache0 & c' & s' & i' & cache' & Eo & Ex & Er); [|by eexists].
  revert Eo. unfold ensure_active. cbn [active set_schema i insert_http ins_schema backend]. fold columns.
  destruct (bool_decide _); [done|]. intros [= <- <- <- <-].
  set (settings := if has_json_columns schema then _ else _) in *. set (sql := insert_sql _ columns "RowBinary") in *.
  pose proof (http_carries_on columns full settings sql) as Hon.
  assert (Hi0 : opened columns full (http_carries settings sql) []
    (set_active (Some {| active_columns := columns; sink := SinkHttp settings sql [] |}) (set_schema (Some schema) i)) c).
  { split_and!; [done|by exists schema|done|]. eexists. by split. }
  destruct (one_carried pooled columns _ _ x [] _ _ Hon _ _ _ _ _ (any_script s) Hi0 Ex) as [(-> & Hok & _) _].
  destruct (Hok eq_refl) as (b & Hb & Hi'). clear Hok.
  destruct (all_carried pooled columns _ _ calls Hon _ _ _ _ _ _ _ _ (any_script s') Hi' Er) as [Hall _].
  destruct (Hall Hbad) as [-> Hi'']. assert (Hacc : accepted columns (x :: calls) = b :: accepted columns calls).
  { unfold accepted. cbn [omap list_omap]. by rewrite Hb. }
  destruct (open_at_end _ _ _ _ _ _ _ _ _ _ _ _ _ _ Hi'' Hend) as (Hn & snk & -> & Hclose). rewrite Hacc.
  split_and!; [done|done|]. exists settings. cbn [close_sink] in Hclose. injection Hclose as _ _ Hclose.
  by destruct (insert_formatted now settings sql _) as [[]|].
Qed.

(** C16: a failed insert is blamed on its cause. An error worth retrying on another connection is
    reported as a transport failure; any other is retriable exactly when it says the schema has drifted, by its
    code where it carries one and by its text where it does not; and the drift codes are
    recognised alike in a native exception and in the body an HTTP server prints. *)
Theorem failures_are_classified `{ForeignText} full e code kind message name version :
  printed code kind message name version ->
  (is_retriable_transport e = true -> classify_error full e = Errors.Transport full e) /\
  (dynamic_is_retriable (classify_error full e) = true <->
     is_retriable_transport e = true \/
     match error_code e with Some c => c ∈ SCHEMA_DRIFT_CODES | None => says_drift (error_text e) = true end) /\
  (forall native, native = ServerException code (Some name) message None -> code ∈ SCHEMA_DRIFT_CODES ->
     classify_error full native = DynSchemaMismatch full (error_text native) /\
     let http := from_upstream (UpBadResponse (exception_body code kind message None (Some name) version)) in
     classify_error full http = DynSchemaMismatch full (error_text http)).
Proof.
  intros Hp. split_and!.
  - intros Hr. unfold classify_error, is_transport_failure. by rewrite Hr.
  - unfold classify_error, is_transport_failure. destruct (is_retriable_transport e); [by split; [left|]|].
    destruct (error_code e) as [c|].
    + case_bool_decide; cbn; (split; [intros|]); intuition congruence.
    + destruct (says_drift (error_text e)); cbn; (split; [intros|]); intuition congruence.
  - intros native -> Hin. cbn [from_upstream]. unfold classify_error, is_transport_failure.
    assert (Hnr : is_retriable_code code = false) by exact (drift_not_retriable code Hin).
    unfold is_retriable_transport. cbn [is_retriable]. rewrite Hnr. cbn [error_code].
    rewrite (parse_printed _ _ _ _ _ Hp). cbn [fmap option_fmap option_map exc_code].
    by rewrite bool_decide_eq_true_2.
Qed.

Definition texts : ForeignText := {| io_kind_text := fun _ => str "io"; upstream_text := fun _ => [] |}.

Lemma failures_are_classified_witness :
  let T := texts in let native := ServerException 47 (Some (str "UNKNOWN_IDENTIFIER"))
    (str "Missing columns: 'nope' (maybe you meant: 'note').") None in
  classify_error (str "db.t") native = DynSchemaMismatch (str "db.t") (error_text native).
Proof.
  intros T native.
  refine (proj1 (proj2 (proj2 (@failures_are_classified T (str "db.t") TimedOut 47 (str "DB::")
    (str "Missing columns: 'nope' (maybe you meant: 'note').") (str "UNKNOWN_IDENTIFIER") (str "26.2.4.23 (official build)")
    missing_columns_printed)) native eq_refl _)).
  by apply (bool_decide_eq_true_1 _).
Defined.

(** C17: an overloaded server is not recognised over HTTP. A rejection with a code worth retrying,
    too many parts or a memory limit, is a transport failure when the native protocol
    carries it; the same rejection printed in an HTTP body is reported as an encoding error, which is
    not retriable, so a caller gives up rows nothing was wrong with. *)
Theorem http_overload_is_terminal `{ForeignText} full code kind message name version :
  printed code kind message name version -> is_retriable_code code = true ->
  let native := ServerException code (Some name) message None in
  let http := from_upstream (UpBadResponse (exception_body code kind message None (Some name) version)) in
  dynamic_is_retriable (classify_error full native) = true /\
  classify_error full http = EncodingError [] (error_text http) /\ dynamic_is_retriable (classify_error full http) = false.
Proof.
  intros Hp Hr native http. assert (Hc : classify_error full http = EncodingError [] (error_text http)).
  { unfold classify_error, is_transport_failure, http. cbn [from_upstream is_retriable_transport is_retriable error_code].
    unfold is_retriable_transport. cbn [is_retriable]. rewrite (parse_printed _ _ _ _ _ Hp).
    cbn [fmap option_fmap option_map exc_code]. rewrite bool_decide_eq_false_2; [done|].
    intros Hin%drift_not_retriable. congruence. }
  split_and!; [|exact Hc|by rewrite Hc]. unfold classify_error, is_transport_failure, is_retriable_transport, native.
  cbn [is_retriable]. by rewrite Hr.
Qed.

Lemma too_many_parts_printed :
  printed 252 (str "DB::") (str "Too many parts (3000 with average size of 1.00 MiB).") (str "TOO_MANY_PARTS") (str "26.2.4.23").
Proof.
  split; [lia | by left | by apply tightb_tight | by apply tightb_tight | reflexivity | done | reflexivity | reflexivity
    | by apply tightb_tight].
Qed.

Lemma http_overload_is_terminal_witness :
  let T := texts in
  dynamic_is_retriable (classify_error (str "db.t") (from_upstream (UpBadResponse (exception_body 252 (str "DB::")
    (str "Too many parts (3000 with average size of 1.00 MiB).") None (Some (str "TOO_MANY_PARTS")) (str "26.2.4.23"))))) = false.
Proof.
  intros T. refine (proj2 (proj2 (@http_overload_is_terminal T (str "db.t") 252 (str "DB::")
    (str "Too many parts (3000 with average size of 1.00 MiB).") (str "TOO_MANY_PARTS") (str "26.2.4.23")
    too_many_parts_printed _))).
  reflexivity.
Defined.

(** C20: a schema that drifted is forgotten. When an HTTP insert ends in a schema mismatch its table's cached schema is
    gone, at any time, and the next insert on the table asks the server again; any other end, and any end
    over the native protocol, leaves the cache as it was. *)
Theorem drift_forgets_the_schema `{JsonText} `{SqlEscape} `{HttpClient} `{ForeignText}
    now i cache c s c' s' i' cache' r :
  finish_rows now i cache c s = (c', s', Some (i', cache', r)) ->
  match backend i, r with
  | BackHttp, Err (DynSchemaMismatch _ _) =>
      (forall later, cache_get later (full_table i) cache' = None) /\
      (forall t, t <> full_table i -> inner cache' !! t = inner cache !! t) /\
      forall later d sc, ensure_schema later (insert_http (ins_database i) (ins_table i)) cache' d sc =
        match fetch_dynamic_schema (fetch_all later) (ins_database i) (ins_table i) with
        | Ok fetched => (d, sc, Some (set_schema (Some fetched) (insert_http (ins_database i) (ins_table i)),
                           cache_insert later (full_table i) fetched cache', Ok tt))
        | Err e => (d, sc, Some (insert_http (ins_database i) (ins_table i), cache', Err e))
        end
  | _, _ => cache' = cache
  end.
Proof.
  intros Hr. unfold finish_rows in Hr. cbv [mbind act_bind] in Hr.
  match type of Hr with (let (_, _) := ?out in _) = _ => destruct out as [[c1 s1] [[[]|e]|]] end; [| |done].
  { injection Hr as _ _ _ <- <-. by destruct (backend i). }
  unfold invalidate_schema in Hr. cbn [backend set_active] in Hr.
  destruct e; try (injection Hr as _ _ _ <- <-; by destruct (backend i)).
  destruct (backend i); injection Hr as _ _ _ <- <-; [|done].
  assert (Hnone : forall later, cache_get later (full_table i) (invalidate (full_table i) cache) = None).
  { intros later. unfold cache_get, invalidate. cbn [inner]. by rewrite lookup_delete_eq. }
  split_and!; [exact Hnone| |].
  - intros t Ht. cbn [inner invalidate]. by rewrite lookup_delete_ne.
  - intros later d sc. unfold ensure_schema. cbn [ins_schema insert_http backend]. unfold full_table in *.
    cbn [ins_database ins_table insert_http]. rewrite Hnone. by destruct (fetch_dynamic_schema _ _ _).
Qed.

(** A table of one column, and rows of which the second does not encode. *)
Definition quoting : SqlEscape := fun s => str "`" ++ s ++ str "`".
Definition http_example : HttpClient :=
  {| fetch_all := fun _ _ => Ok [(str "id", str "UInt8", [])]; insert_formatted := fun _ _ _ _ => Ok tt |}.
Definition http_drifted : HttpClient :=
  {| fetch_all := fun _ _ => Ok [(str "id", str "UInt8", [])];
     insert_formatted := fun _ _ _ _ => Err (UpBadResponse (str "47")) |}.
Definition table_example : DynamicSchema := from_columns (str "db.t") [with_default_kind (str "id") (str "UInt8") []].
Definition one (z : Z) : Call := (7, [(str "id", Jv.Number (json_int z))], None).
Definition connection_example : Actor :=
  fresh [Rm.Packet (Sp.Data None 1 0 [(str "id", str "UInt8")]); Rm.Packet Sp.EndOfStream].
Definition script_example : list Event :=
  [Ev.WriteOk; Ev.WriteOk; Ev.Arrives; Ev.Nothing; Ev.WriteOk; Ev.WriteOk; Ev.Arrives].

(** What a run of actions left behind, and the value where there is one. *)
Definition run_value {A} (d : A) (x : Actor * list Event * option A) : A := default d (snd x).
Definition written_example :=
  @write_calls plain_json quoting http_example texts (Ok tt) [one 1; one 300; one 2]
    (insert_tcp [] (str "db") (str "t") table_example) (cache_new 60) connection_example script_example.
Definition ended_example :=
  let '(i, cache, _) := run_value (insert_tcp [] [] [] table_example, cache_new 60, []) written_example in
  @finish_rows http_example texts 8 i cache (fst (fst written_example)) (snd (fst written_example)).

Lemma tcp_rows_are_sent_witness :
  exists native sent,
    from_headers [(str "id", str "UInt8")] = Ok native /\
    concat (map fst sent) = [[x01]; [x02]] /\ 2 = Z.of_nat (length [[x01]; [x02]]) /\
    Forall (sent_block hello_example native) sent /\
    wire (fst (fst ended_example)) =
      [] ++ opening hello_example [] (str "INSERT INTO `db`.`t` (`id`) FORMAT Native") [] ++
      concat (map (packet hello_example native) sent) ++ send_empty_block (revision hello_example).
Proof.
  refine (@tcp_rows_are_sent plain_json quoting http_example texts hello_example [] [] [] (Ok tt) (one 1) [one 300; one 2]
    table_example [] (str "db") (str "t") (cache_new 60) 8 connection_example script_example
    (fst (fst written_example)) (snd (fst written_example)) _ _
    [Err (enc_err (str "id") (str "UInt8 value out of range")); Ok tt]
    (fst (fst ended_example)) (snd (fst ended_example)) _ _ 2 _ _ _ _).
  - done.
  - vm_compute. reflexivity.
  - constructor; [right; eexists; vm_compute; reflexivity|]. constructor; [by left|constructor].
  - vm_compute. reflexivity.
Defined.

Definition http_written_example :=
  @write_calls plain_json quoting http_example texts (Ok tt) [one 1; one 300; one 2] (insert_http (str "db") (str "t"))
    (cache_new 60) connection_example [].
Definition http_ended_example :=
  let '(i, cache, _) := run_value (insert_http [] [], cache_new 60, []) http_written_example in
  @finish_rows http_example texts 8 i cache connection_example [].

Lemma http_rows_are_sent_witness :
  exists settings, @insert_formatted http_example 8 settings (str "INSERT INTO `db`.`t` (`id`) FORMAT RowBinary") [x01; x02] = Ok tt.
Proof.
  refine (proj2 (proj2 (@http_rows_are_sent plain_json quoting http_example texts (Ok tt) (one 1) [one 300; one 2]
    table_example (str "db") (str "t") (cache_new 60) 8 connection_example [] connection_example [] _ _
    [Err (enc_err (str "id") (str "UInt8 value out of range")); Ok tt] connection_example [] _ _ 2 _ _ _ _))).
  - reflexivity.
  - vm_compute. reflexivity.
  - constructor; [right; eexists; vm_compute; reflexivity|]. constructor; [by left|constructor].
  - vm_compute. reflexivity.
Defined.

Definition drifted_insert : DynamicInsert :=
  set_active (Some {| active_columns := []; sink := SinkHttp [] (str "INSERT") [x01] |})
    (set_schema (Some table_example) (insert_http (str "db") (str "t"))).

Lemma drift_forgets_the_schema_witness :
  let cache := cache_insert 3 (str "db.t") table_example (cache_new 60) in
  cache_get 8 (str "db.t") cache = Some table_example /\
  forall later, cache_get later (str "db.t")
    (snd (fst (run_value (drifted_insert, cache, Ok 0) (@finish_rows http_drifted texts 8 drifted_insert cache (fresh []) [])))) = None.
Proof.
  intros cache. split; [reflexivity|].
  refine (proj1 (@drift_forgets_the_schema plain_json quoting http_drifted texts 8 drifted_insert cache (fresh []) []
    (fresh []) [] _ _ (Err (DynSchemaMismatch (str "db.t") (str "bad response: 47"))) _)).
  vm_compute. reflexivity.
Defined.

(** C18: a block that is refused for its size takes counted rows with it. When a row brings the buffered
    block past the byte cap of the connection, the call fails for that row; the rows that
    were buffered before it, already counted, are dropped as well, and yet the insert still ends in success
    with their number, having sent none of them. *)
Theorem refused_block_loses_rows `{JsonText} `{SqlEscape} `{HttpClient} `{ForeignText}
    pooled x i cache columns session native block b body c s now :
  (exists schema, ins_schema i = Some schema) ->
  active i = Some {| active_columns := columns; sink := SinkTcp session native block |} ->
  settled session = false -> state c = InsertActive -> inbox c = [Rm.Packet Sp.EndOfStream] ->
  encode (call_row columns x) = Ok b -> BLOCK_FLUSH_BYTES <= bytes block + Z.of_nat (length b) ->
  encode_columns (rows block ++ [b]) native (server_revision session) = Ok body ->
  MAX_INSERT_BLOCK_BYTES < Z.of_nat (length body) ->
  exists c1 i1 e c2 i2,
    write_call pooled x i cache c s = (c1, s, Some (i1, cache, Err e)) /\ rows_written i1 = rows_written i /\
    finish_rows now i1 cache c1 [Ev.WriteOk; Ev.Arrives] = (c2, [], Some (i2, cache, Ok (rows_written i))) /\
    wire c2 = wire c ++ send_empty_block (revision (hello c)).
Proof.
  intros Hs Ha Hset Hst Hin He Hfull Henc Hbig. rewrite write_call_eq by eauto.
  unfold mbind, dyn_bind, put_row. rewrite Ha. cbn [active_columns sink write_sink].
  destruct (push (dynamic_row (snd (fst x)) (snd x) columns) block) as [b1 r1] eqn:Ep.
  assert (Hb1 : r1 = Ok tt /\ rows b1 = rows block ++ [b] /\ bytes b1 = bytes block + Z.of_nat (length b)).
  { revert Ep He. unfold push, encode, call_row. destruct (encode_into _ []) as [buf [[]|e]]; [|by intros _ [=]].
    by intros [= <- <-] [= ->]. }
  destruct Hb1 as (-> & Hrows & Hbytes).
  assert (Hf : is_full DEFAULT_TCP_INSERT_BLOCK_ROWS b1 = true).
  { unfold is_full. rewrite Hbytes. by rewrite (proj2 (Z.leb_le _ _)) by done. }
  rewrite Hf. cbv [mbind act_bind]. rewrite (send_rows_refused session native b1 _ c s body) by (done || (rewrite Hrows; first [done | by destruct (rows block)])).
  cbv [mret act_ret].
  destruct (end_refused session (ToCaller (Err (block_too_big (Z.of_nat (length body))))) c Hset Hst Hin) as (c2 & Hend & Hwire).
  do 5 eexists. split; [reflexivity|]. split; [reflexivity|].
  unfold finish_rows. cbn [active set_active sink close_sink]. unfold send_rows. cbn [block_is_empty rows recycle_rows length Nat.eqb].
  cbv [mbind act_bind mret act_ret]. unfold block_is_empty. cbn [rows recycle_rows length Nat.eqb]. rewrite Hend.
  split; [reflexivity|exact Hwire].
Qed.

(** A table of one String column, a short row buffered and counted, and a row of [n] bytes. *)
Definition text_defs : list ColumnDef := [with_default_kind (str "s") (str "String") []].
Definition text_native : list ColumnSchema := [{| name := str "s"; type_name := str "String"; col_type := Ct.String |}].
Definition text_call (s : text) : Call := (9, [(str "s", Jv.String s)], None).
Definition text_session : TcpInsertSession := {| settled := false; server_columns := []; server_revision := 54484 |}.
Definition text_insert : DynamicInsert :=
  {| backend := BackTcp []; ins_database := str "db"; ins_table := str "t"; ins_schema := Some (from_columns (str "db.t") text_defs);
     active := Some {| active_columns := text_defs;
       sink := SinkTcp text_session text_native {| rows := [[x01; x61]]; spare := []; bytes := 2 |} |};
     rows_written := 1 |}.

Lemma text_row `{JsonText} s : encode (call_row text_defs (text_call s)) = Ok (put_string s).
Proof.
  unfold encode, encode_into. change (call_row text_defs (text_call s)) with (mk_row [(str "s", Jv.String s)] text_defs None).
  cbn [row_columns put_each text_defs]. unfold encode_column. cbn [row_raw row_values].
  change (get [(str "s", Jv.String s)] (col_name (with_default_kind (str "s") (str "String") []))) with (Some (Jv.String s)).
  change (ty (with_default_kind (str "s") (str "String") [])) with (parsed_of Ct.String).
  cbn [default]. rewrite encode_plain by done. unfold encode_scalar. rewrite resolved_leaf by done.
  cbn [leaf_tag leaf_of tag value_to_str andthen put app]. by rewrite app_nil_r.
Qed.

Lemma text_block s revision : Z.of_nat (length s) <= MAX_STRING_SIZE ->
  exists body, encode_columns [[x01; x61]; put_string s] text_native revision = Ok body /\ (length s <= length body)%nat.
Proof.
  intros Hs. pose proof (rows_cut text_native [[[x01; x61]]; [put_string s]]) as Hcut.
  cbn [map concat] in Hcut. rewrite !app_nil_r in Hcut. unfold encode_columns. cbn [text_native]. fold text_native. cbv zeta.
  rewrite Hcut; cycle 1.
  - repeat constructor; [by exists (str "a")|by exists s].
  - assert (Hp : (length (put_string s) <= 10 + length s)%nat).
    { unfold put_string. rewrite length_app. pose proof (encode_var_uint_length (Z.of_nat (length s))). unfold put_var_uint. lia. }
    cbn [app concat length]. rewrite app_nil_r. unfold MAX_STRING_SIZE in Hs. set (n := length (put_string s)) in *. clearbody n. lia.
  - cbn [mbind result_bind write_fields text_native]. eexists. split; [reflexivity|].
    change (nth_cells 0 [[[x01; x61]]; [put_string s]]) with [[x01; x61]; put_string s].
    cbn [concat]. unfold put_string at 3. rewrite !length_app. lia.
Qed.

Lemma refused_block_loses_rows_witness :
  let J := plain_json in let Q := quoting in let C := http_example in let T := texts in
  exists n, let c := set_state InsertActive (fresh [Rm.Packet Sp.EndOfStream]) in
  exists c1 i1 e c2 i2,
    write_call (Ok tt) (text_call (replicate n x61)) text_insert (cache_new 60) c [] = (c1, [], Some (i1, cache_new 60, Err e)) /\
    rows_written i1 = 1 /\
    finish_rows 9 i1 (cache_new 60) c1 [Ev.WriteOk; Ev.Arrives] = (c2, [], Some (i2, cache_new 60, Ok 1)) /\
    wire c2 = [] ++ send_empty_block (revision hello_example).
Proof.
  intros J Q C T. assert (Hn : exists n, MAX_INSERT_BLOCK_BYTES < Z.of_nat n <= MAX_STRING_SIZE).
  { exists (Z.to_nat MAX_STRING_SIZE). rewrite Z2Nat.id; [split; [reflexivity|discriminate]|discriminate]. }
  destruct Hn as (n & Hlo & Hhi). exists n. intros c.
  destruct (text_block (replicate n x61) 54484) as (body & Hbody & Hlen); [by rewrite length_replicate|].
  rewrite length_replicate in Hlen.
  refine (@refused_block_loses_rows J Q C T (Ok tt) (text_call (replicate n x61)) text_insert (cache_new 60) text_defs text_session
    text_native {| rows := [[x01; x61]]; spare := []; bytes := 2 |} (put_string (replicate n x61)) body c [] 9 _ _ _ _ _ _ _ _ _).
  - by exists (from_columns (str "db.t") text_defs).
  - reflexivity.
  - reflexivity.
  - reflexivity.
  - reflexivity.
  - apply text_row.
  - cbn [bytes]. unfold put_string. rewrite length_app, length_replicate. unfold BLOCK_FLUSH_BYTES. unfold MAX_INSERT_BLOCK_BYTES in Hlo.
    clear Hlen. lia.
  - exact Hbody.
  - lia.
Defined.
