(* ===== verification/Caching.v ===== *)
(** * Several inserts over one schema cache

    [DynamicSchemaCache] is shared by every insert that is given it ([src/dynamic/insert.rs], [src/unified.rs]), and the query
    for a schema is an await: between the miss and the insertion other inserts look, learn and invalidate, and the
    table may change. Models the shared cache with its callers as a step relation over the operations of [DynSchema]; a step is
    what runs between two awaits. Properties: a schema that is used is one the server gave, within the window, and an invalidation
    that meets no answer in transit is final. *)

From S2P Require Import Prelude Text Errors ColTypes ParsedTypes DynScalars DynEncode Actor Unified DynSchema DynInsert.

(** ** The halves of [ensure_schema] and [dynamic_insert] around their await *)

Section halves.
Context `{SqlEscape}.

(** The answer arrives: it becomes a schema, which the cache learns. *)
Definition arrive (now : Z) (database table : text) (r : result UpstreamError (list SysColumn)) (cache : DynamicSchemaCache)
    : DynamicSchemaCache * DR DynamicSchema :=
  match fetch_dynamic_schema (fun _ => r) database table with
  | Ok fetched => (cache_insert now (full_name database table) fetched cache, Ok fetched)
  | Err e => (cache, Err e)
  end.

(** Without a turn of anyone else in between they are [ensure_schema]. *)
Lemma ensure_schema_halves `{JsonText} `{HttpClient} `{ForeignText} now i cache c s :
  ins_schema i = None -> backend i = BackHttp ->
  ensure_schema now i cache c s =
    match cache_get now (full_table i) cache with
    | Some cached => (c, s, Some (set_schema (Some cached) i, cache, Ok tt))
    | None =>
        let '(cache', r) := arrive now (ins_database i) (ins_table i)
                              (fetch_all now (system_columns_sql (ins_database i) (ins_table i))) cache in
        (c, s, Some (match r with Ok fetched => set_schema (Some fetched) i | Err _ => i end, cache', (fun _ => tt) <$> r))
    end.
Proof.
  intros Hs Hb. unfold ensure_schema, arrive, full_table. rewrite Hs, Hb. destruct (cache_get _ _ _); [done|].
  unfold fetch_dynamic_schema. by destruct (fetch_all _ _) as [rows|e]; [destruct (schema_from_system_columns _ rows)|].
Qed.

(** And [dynamic_insert], whose answer is the columns of a result set. *)
Lemma dynamic_insert_halves now fetch settings database table cache columns listed :
  cache_get now (full_name database table) cache = None ->
  fetch (system_columns_sql database table) = Ok columns -> system_rows columns = Ok listed ->
  dynamic_insert now fetch (Tcp settings) database table cache =
    match arrive now database table (Ok listed) cache with
    | (cache', Ok fetched) => Ok (insert_tcp settings database table fetched, cache')
    | (_, Err e) => Err (Dynamic e)
    end.
Proof.
  intros Hg Hf Hr. unfold dynamic_insert, arrive, fetch_dynamic_schema. rewrite Hg, Hf. cbn [mbind result_bind]. rewrite Hr.
  cbn [mbind result_bind]. by destruct (schema_from_system_columns _ listed).
Qed.
End halves.

(** ** State *)

(** Where an insert is: before it looks, waiting for the server, with the answer the server gave at a time in
    transit, with a schema since a time, or over. *)
Inductive Phase :=
| Looking
| Asking
| Answered (at_ : Z) (listed : list SysColumn)
| Refused (e : UpstreamError)
| Holding (s : DynamicSchema) (since : Z)
| Gone.
Record Caller := { of_database : text; of_table : text; phase : Phase }.
Definition full_of (c : Caller) : text := full_name (of_database c) (of_table c).
Definition at_phase (p : Phase) (c : Caller) : Caller :=
  {| of_database := of_database c; of_table := of_table c; phase := p |}.

(** What the server answered, a ghost: when, for the table of which name, and what. *)
Record Answer := { answered_at : Z; about : text; listing : list SysColumn }.

(** The clock, what [system.columns] lists for a query, the cache and its users. *)
Record World := {
  clock : Z;
  server : text -> list SysColumn;
  cache : DynamicSchemaCache;
  callers : list Caller;
  answers : list Answer
}.

Definition with_cache (f : DynamicSchemaCache -> DynamicSchemaCache) (w : World) : World :=
  {| clock := clock w; server := server w; cache := f (cache w); callers := callers w; answers := answers w |}.
Definition with_caller (k : nat) (c : Caller) (w : World) : World :=
  {| clock := clock w; server := server w; cache := cache w; callers := <[k := c]> (callers w); answers := answers w |}.

(** ** Steps *)

Section caching.
Context `{SqlEscape}.

(** The server answers the query of [c] from the table as it stands. *)
Definition listed_now (w : World) (c : Caller) : list SysColumn :=
  server w (system_columns_sql (of_database c) (of_table c)).
Definition record_answer (c : Caller) (w : World) : World :=
  {| clock := clock w; server := server w; cache := cache w; callers := callers w;
     answers := {| answered_at := clock w; about := full_of c; listing := listed_now w c |} :: answers w |}.

(** An insert looks in the cache. *)
Definition look (w : World) (c : Caller) : Phase :=
  match cache_get (clock w) (full_of c) (cache w) with
  | Some cached => Holding cached (clock w)
  | None => Asking
  end.
(** The answer is in. *)
Definition take_answer (k : nat) (c : Caller) (r : result UpstreamError (list SysColumn)) (w : World) : World :=
  let '(learnt, got) := arrive (clock w) (of_database c) (of_table c) r (cache w) in
  with_cache (fun _ => learnt)
    (with_caller k (at_phase match got with Ok s => Holding s (clock w) | Err _ => Gone end c) w).

Inductive moves (patience : Z) : World -> World -> Prop :=
| passes w d : 0 <= d ->
    moves patience w {| clock := clock w + d; server := server w; cache := cache w; callers := callers w; answers := answers w |}
| table_changes w new :
    moves patience w {| clock := clock w; server := new; cache := cache w; callers := callers w; answers := answers w |}
| begins w database table :
    moves patience w {| clock := clock w; server := server w; cache := cache w;
      callers := callers w ++ [{| of_database := database; of_table := table; phase := Looking |}]; answers := answers w |}
| looks w k c : callers w !! k = Some c -> phase c = Looking -> moves patience w (with_caller k (at_phase (look w c) c) w)
| server_answers w k c : callers w !! k = Some c -> phase c = Asking ->
    moves patience w (with_caller k (at_phase (Answered (clock w) (listed_now w c)) c) (record_answer c w))
| server_refuses w k c e : callers w !! k = Some c -> phase c = Asking -> moves patience w (with_caller k (at_phase (Refused e) c) w)
| arrives w k c at_ rows : callers w !! k = Some c -> phase c = Answered at_ rows -> clock w - at_ <= patience ->
    moves patience w (take_answer k c (Ok rows) w)
| arrives_refused w k c e : callers w !! k = Some c -> phase c = Refused e -> moves patience w (take_answer k c (Err e) w)
| forgets_own w k c : callers w !! k = Some c ->
    moves patience w (with_cache (invalidate (full_of c)) (with_caller k (at_phase Looking c) w))
| ends_drifted w k c : callers w !! k = Some c ->
    moves patience w (with_cache (invalidate (full_of c)) (with_caller k (at_phase Gone c) w))
| ends w k c : callers w !! k = Some c -> moves patience w (with_caller k (at_phase Gone c) w)
| forgets w name : moves patience w (with_cache (invalidate name) w)
| forgets_all w : moves patience w (with_cache invalidate_all w).

Inductive later (patience : Z) (w : World) : World -> Prop :=
| now_ : later patience w w
| next_turn w' w'' : later patience w w' -> moves patience w' w'' -> later patience w w''.

(** A fresh cache nobody uses yet. *)
Definition start (now window : Z) (listing : text -> list SysColumn) : World :=
  {| clock := now; server := listing; cache := cache_new window; callers := []; answers := [] |}.

End caching.

(** ** The invariant

    [good] says of which time an answer must be; every answer from [t0] on is. *)

(** The server gave [s] for the table called [full], at a time. *)
Definition gave (w : World) (full : text) (s : DynamicSchema) (at_ : Z) : Prop :=
  exists a, a ∈ answers w /\ about a = full /\ answered_at a = at_ /\ schema_from_system_columns full (listing a) = Ok s.

Section invariant.
Context `{SqlEscape} (patience window t0 : Z) (good : text -> Z -> Prop).
Hypothesis good_later : forall full at_, t0 <= at_ -> good full at_.

Definition entries_ok (w : World) (c : DynamicSchemaCache) : Prop :=
  ttl c = window /\
  forall full e, inner c !! full = Some e ->
    exists at_, gave w full (schema e) at_ /\ good full at_ /\ at_ <= fetched_at e <= at_ + patience.
Definition caller_ok (w : World) (c : Caller) : Prop :=
  match phase c with
  | Answered at_ rows =>
      good (full_of c) at_ /\ exists a, a ∈ answers w /\ about a = full_of c /\ answered_at a = at_ /\ listing a = rows
  | Holding s since =>
      since <= clock w /\
      exists at_, gave w (full_of c) s at_ /\ at_ <= since <= at_ + Z.max window 0 + patience /\ (t0 < since -> good (full_of c) at_)
  | _ => True
  end.
Record honest (w : World) : Prop := {
  clock_ok : t0 <= clock w;
  answers_past : Forall (fun a => answered_at a <= clock w) (answers w);
  cache_ok : entries_ok w (cache w);
  callers_ok : Forall (caller_ok w) (callers w)
}.

(** Time passes and answers are added. *)
Definition onward (w w' : World) : Prop := clock w <= clock w' /\ forall a, a ∈ answers w -> a ∈ answers w'.

Lemma gave_onward w w' full s at_ : onward w w' -> gave w full s at_ -> gave w' full s at_.
Proof. intros [_ Hin] (a & Ha & Hr). exists a. auto. Qed.

Lemma entries_onward w w' c : onward w w' -> entries_ok w c -> entries_ok w' c.
Proof.
  intros Ho [Ht He]. split; [exact Ht|]. intros full e Hl. destruct (He full e Hl) as (at_ & Hg & Hr).
  exists at_. split; [by eapply gave_onward|done].
Qed.

Lemma caller_onward w w' c : onward w w' -> caller_ok w c -> caller_ok w' c.
Proof.
  intros Ho Hc. destruct Ho as [Ht Hin] eqn:E. unfold caller_ok in *. destruct (phase c); try done.
  - destruct Hc as (Hg & a & Ha & Hr). split; [done|]. exists a. auto.
  - destruct Hc as (Hs & at_ & Hg & Hr). split; [lia|]. exists at_. split; [by eapply gave_onward|done].
Qed.

Lemma entries_invalidate w name c : entries_ok w c -> entries_ok w (invalidate name c).
Proof.
  intros [Ht He]. split; [exact Ht|]. intros full e Hl. cbn [inner invalidate] in Hl.
  apply lookup_delete_Some in Hl as [_ Hl]. by apply He.
Qed.

Lemma entries_none w c : entries_ok w c -> entries_ok w (invalidate_all c).
Proof. intros [Ht _]. split; [exact Ht|]. intros full e Hl. cbn [inner invalidate_all] in Hl. by rewrite lookup_empty in Hl. Qed.

Lemma entries_learn w full s at_ c :
  entries_ok w c -> gave w full s at_ -> good full at_ -> at_ <= clock w <= at_ + patience ->
  entries_ok w (cache_insert (clock w) full s c).
Proof.
  intros [Ht He] Hg Hgood Hr. split; [exact Ht|]. intros full' e Hl. cbn [inner cache_insert] in Hl.
  apply lookup_insert_Some in Hl as [[<- <-]|[_ Hl]]; [|by apply He]. by exists at_.
Qed.

Lemma gave_past w full s at_ : honest w -> gave w full s at_ -> at_ <= clock w.
Proof. intros Hw (a & Ha & _ & <- & _). pose proof (answers_past w Hw) as Hp. rewrite Forall_forall in Hp. by apply Hp. Qed.

(** What a look in the cache finds. *)
Lemma look_ok w c : honest w -> caller_ok w (at_phase (look w c) c).
Proof.
  intros Hw. pose proof Hw as [_ _ [Ht He] _]. unfold look, cache_get. destruct (inner (cache w) !! full_of c) as [e|] eqn:El; [|exact I].
  destruct (He _ _ El) as (at_ & Hg & Hgood & Hr). cbn [mbind option_bind]. rewrite Ht.
  destruct (Z.ltb_spec (clock w - fetched_at e) window) as [Hf|]; [|exact I]. unfold caller_ok. cbn [at_phase phase].
  pose proof (gave_past _ _ _ _ Hw Hg). split; [lia|]. exists at_. split_and!; [exact Hg|lia|lia|by intros _].
Qed.

(** Only a caller and the cache change. *)
Lemma honest_move w k c f :
  honest w -> caller_ok w c -> (entries_ok w (cache w) -> entries_ok w (f (cache w))) ->
  honest (with_cache f (with_caller k c w)).
Proof.
  intros [Ht Ha Hc Hcs] Hk Hf. split; [exact Ht|exact Ha|by apply Hf|]. by apply Forall_insert.
Qed.

Lemma honest_cache w f : honest w -> (entries_ok w (cache w) -> entries_ok w (f (cache w))) -> honest (with_cache f w).
Proof. intros [Ht Ha Hc Hcs] Hf. split; [exact Ht|exact Ha|by apply Hf|exact Hcs]. Qed.

Lemma honest_turn w w' : moves patience w w' -> honest w -> honest w'.
Proof.
  intros Hturn Hw. pose proof Hw as [Ht Ha Hc Hcs]. rewrite Forall_forall in Ha.
  destruct Hturn as [w d Hd|w new|w db tbl|w k c Hk Hp|w k c Hk Hp|w k c e Hk Hp|w k c at_ rows Hk Hp Hl|w k c e Hk Hp|
    w k c Hk|w k c Hk|w k c Hk|w name|w].
  - assert (Ho : onward w {| clock := clock w + d; server := server w; cache := cache w; callers := callers w; answers := answers w |})
      by (split; [simpl; lia|done]).
    split; cbn; [lia| |by eapply entries_onward|eapply Forall_impl; [exact Hcs|intros c; by apply caller_onward]].
    rewrite Forall_forall. intros a Hin. specialize (Ha a Hin). lia.
  - by split; [..|rewrite Forall_forall| |].
  - split; cbn; [done|by rewrite Forall_forall|done|]. apply Forall_app. split; [exact Hcs|]. by constructor; [|constructor].
  - by apply (honest_move w k _ (fun x => x)); [|apply look_ok|].
  - set (w1 := record_answer c w). assert (Ho : onward w w1) by (split; [done|intros a Hin; by right]).
    split; cbn; [done| |by apply (entries_onward w)|].
    + constructor; [done|]. by rewrite Forall_forall.
    + apply Forall_insert; [eapply Forall_impl; [exact Hcs|intros c'; by apply (caller_onward w)]|].
      unfold caller_ok. cbn [at_phase phase]. split; [by apply good_later|]. eexists. split; [by left|done].
  - by apply (honest_move w k _ (fun x => x)).
  - rewrite Forall_forall in Hcs. pose proof (Hcs c (list_elem_of_lookup_2 _ _ _ Hk)) as Hok. unfold caller_ok in Hok.
    rewrite Hp in Hok. destruct Hok as (Hgood & a & Hin & Hab & Hat & Hli). specialize (Ha a Hin).
    unfold take_answer, arrive, fetch_dynamic_schema. change (full_name _ _) with (full_of c).
    destruct (schema_from_system_columns (full_of c) rows) as [s|e] eqn:Es; [|by apply (honest_move w k _ (fun _ => cache w))].
    assert (Hgave : gave w (full_of c) s at_) by (exists a; by rewrite Hli).
    apply (honest_move w k _ (fun _ => cache_insert (clock w) (full_of c) s (cache w))); [exact Hw| |].
    + unfold caller_ok. cbn [at_phase phase]. split; [lia|]. exists at_. split_and!; [exact Hgave|lia|lia|done].
    + intros He. eapply entries_learn; [exact He|exact Hgave|done|lia].
  - by apply (honest_move w k _ (fun _ => cache w)).
  - apply (honest_move w k _ (invalidate (full_of c))); [done..|]. apply entries_invalidate.
  - apply (honest_move w k _ (invalidate (full_of c))); [done..|]. apply entries_invalidate.
  - by apply (honest_move w k _ (fun x => x)).
  - apply honest_cache; [done|]. apply entries_invalidate.
  - apply honest_cache; [done|]. apply entries_none.
Qed.

Lemma honest_later w w' : later patience w w' -> honest w -> honest w'.
Proof. induction 1 as [|w' w'' _ IH Ht]; [done|]. intros Hw. eapply honest_turn; [exact Ht|by apply IH]. Qed.

End invariant.

(** ** From the start, and from an invalidation *)

Section lives.
Context `{SqlEscape} (patience window : Z).

Lemma start_honest now listing : honest patience window now (fun _ _ => True) (start now window listing).
Proof.
  split; cbn; [lia|constructor| |constructor]. split; [done|]. intros full e He. cbn in He. by rewrite lookup_empty in He.
Qed.

(** No answer for the table is in transit. *)
Definition quiet (full : text) (w : World) : Prop :=
  forall c at_ rows, c ∈ callers w -> full_of c = full -> phase c <> Answered at_ rows.

Lemma forgotten_honest t0 full w :
  honest patience window t0 (fun _ _ => True) w -> quiet full w ->
  honest patience window (clock w) (fun name at_ => name = full -> clock w <= at_) (with_cache (invalidate full) w).
Proof.
  intros [Ht Ha [Hw He] Hc] Hq. rewrite Forall_forall in Hc. split; cbn; [lia|exact Ha| |].
  - split; [exact Hw|]. intros name e Hl. cbn [inner invalidate] in Hl. apply lookup_delete_Some in Hl as [Hne Hl].
    destruct (He name e Hl) as (at_ & Hg & _ & Hr). exists at_. split_and!; [exact Hg|congruence|lia|lia].
  - rewrite Forall_forall. intros c Hin. specialize (Hc c Hin). unfold caller_ok in *. destruct (phase c) eqn:Ep; try done.
    + destruct Hc as (_ & Hex). split; [|exact Hex]. intros Hf. by destruct (Hq c _ _ Hin Hf Ep).
    + destruct Hc as (Hs & at_ & Hg & Hr & _). split; [exact Hs|]. exists at_. split_and!; [exact Hg|lia|lia|cbn; lia].
Qed.

End lives.

(** *** A small table and its readers *)

Definition one_column : list SysColumn := [(str "id", str "UInt8", [])].
Definition reader (p : Phase) : Caller := {| of_database := str "db"; of_table := str "t"; phase := p |}.
Definition seen (now : Z) : Answer := {| answered_at := now; about := str "db.t"; listing := one_column |}.
Definition small_world (now : Z) (c : DynamicSchemaCache) (callers : list Caller) (answers : list Answer) : World :=
  {| clock := now; server := fun _ => one_column; cache := c; callers := callers; answers := answers |}.
Definition one_schema : DynamicSchema := from_columns (str "db.t") [with_default_kind (str "id") (str "UInt8") []].
Definition learnt (now : Z) : DynamicSchemaCache := cache_insert now (str "db.t") one_schema (cache_new 60).

(** A reader joins, misses and asks; the answer is on its way. *)
Lemma asked_life now c others ans :
  cache_get now (str "db.t") c = None ->
  later (H := quoting) 5 (small_world now c others ans)
    (small_world now c (others ++ [reader (Answered now one_column)]) (seen now :: ans)).
Proof.
  intros Hmiss. assert (Hk : forall p, (others ++ [reader p]) !! length others = Some (reader p)) by (intros p; by rewrite list_lookup_middle).
  assert (Hi : forall p q, <[length others := reader q]> (others ++ [reader p]) = others ++ [reader q])
    by (intros p q; by rewrite insert_app_r_alt, Nat.sub_diag by lia).
  eapply next_turn; [eapply next_turn; [eapply next_turn; [apply now_|]|]|].
  - apply (begins (H := quoting) 5 _ (str "db") (str "t")).
  - pose proof (looks (H := quoting) 5 (small_world now c (others ++ [reader Looking]) ans) _ _ (Hk Looking) eq_refl) as Hl.
    unfold look in Hl. change (full_of (reader Looking)) with (str "db.t") in Hl. cbn [small_world clock cache] in Hl.
    rewrite Hmiss in Hl. unfold with_caller in Hl. cbn [small_world clock server cache callers answers] in Hl.
    change (at_phase Asking (reader Looking)) with (reader Asking) in Hl. rewrite Hi in Hl. exact Hl.
  - pose proof (server_answers (H := quoting) 5 (small_world now c (others ++ [reader Asking]) ans) _ _ (Hk Asking) eq_refl) as Hl.
    unfold with_caller, record_answer in Hl. cbn [small_world clock server cache callers answers] in Hl.
    change (at_phase _ (reader Asking)) with (reader (Answered now one_column)) in Hl. rewrite Hi in Hl. exact Hl.
Qed.

Lemma passing now now' c cs ans : now <= now' -> moves (H := quoting) 5 (small_world now c cs ans) (small_world now' c cs ans).
Proof.
  intros Hn. pose proof (passes (H := quoting) 5 (small_world now c cs ans) (now' - now) ltac:(lia)) as Hp.
  cbn [small_world clock server cache callers answers] in Hp. by replace (now + (now' - now)) with now' in Hp by lia.
Qed.

Lemma arriving now asked c others ans : now - asked <= 5 ->
  moves (H := quoting) 5 (small_world now c (others ++ [reader (Answered asked one_column)]) ans)
    (small_world now (cache_insert now (str "db.t") one_schema c) (others ++ [reader (Holding one_schema now)]) ans).
Proof.
  intros Hn. assert (Hk : (others ++ [reader (Answered asked one_column)]) !! length others = Some (reader (Answered asked one_column)))
    by by rewrite list_lookup_middle.
  pose proof (arrives (H := quoting) 5 (small_world now c (others ++ [reader (Answered asked one_column)]) ans) _ _ _ _ Hk eq_refl Hn) as Ht.
  unfold take_answer in Ht. change (@arrive quoting _ _ _ _ _) with (cache_insert now (str "db.t") one_schema c, @Ok DynamicError _ one_schema) in Ht.
  unfold with_cache, with_caller in Ht. cbn [small_world clock server cache callers answers] in Ht.
  change (at_phase (Holding one_schema now) (reader (Answered asked one_column))) with (reader (Holding one_schema now)) in Ht.
  by rewrite insert_app_r_alt, Nat.sub_diag in Ht by lia.
Qed.

Lemma first_asked : later (H := quoting) 5 (start 0 60 (fun _ => one_column))
  (small_world 0 (cache_new 60) [reader (Answered 0 one_column)] [seen 0]).
Proof. exact (asked_life 0 (cache_new 60) [] [] eq_refl). Qed.

Lemma forgotten_then_learnt : later (H := quoting) 5
  (with_cache (invalidate (str "db.t")) (small_world 3 (learnt 3) [reader (Holding one_schema 3)] [seen 0]))
  (small_world 4 (learnt 4) [reader (Holding one_schema 3); reader (Holding one_schema 4)] [seen 4; seen 0]).
Proof.
  set (c := invalidate (str "db.t") (learnt 3)). assert (Ec : cache_insert 4 (str "db.t") one_schema c = learnt 4) by reflexivity.
  rewrite <- Ec. eapply next_turn; [|apply (arriving 4 4 c [reader (Holding one_schema 3)]); lia].
  change (with_cache _ _) with (small_world 3 c [reader (Holding one_schema 3)] [seen 0]).
  assert (Hp : later (H := quoting) 5 (small_world 3 c [reader (Holding one_schema 3)] [seen 0])
    (small_world 4 c [reader (Holding one_schema 3)] [seen 0])) by (eapply next_turn; [apply now_|by apply passing]).
  pose proof (asked_life 4 c [reader (Holding one_schema 3)] [seen 0] eq_refl) as Ha.
  induction Ha as [|w1 w2 _ IH Ht]; [exact Hp|]. eapply next_turn; [exact IH|exact Ht].
Qed.

(** An invalidation that meets an answer in transit is undone by it: the schema of before comes back into the cache,
    dated anew, and the next insert uses it. *)
Lemma stale_answer_returns :
  let w := small_world 1 (cache_new 60) [reader (Answered 0 one_column)] [seen 0] in
  later (H := quoting) 5 (start 0 60 (fun _ => one_column)) w /\
  exists w', later (H := quoting) 5 (with_cache (invalidate (str "db.t")) w) w' /\
    reader (Holding one_schema 2) ∈ callers w' /\ cache_get 61 (str "db.t") (cache w') = Some one_schema /\
    forall a, a ∈ answers w' -> answered_at a < clock w.
Proof.
  intros w. split; [eapply next_turn; [exact first_asked|by apply passing]|].
  exists (small_world 2 (learnt 2) [reader (Holding one_schema 2)] [seen 0]). split_and!.
  - eapply next_turn; [eapply next_turn; [apply now_|]|by apply (arriving 2 0 (cache_new 60) [])].
    change (with_cache (invalidate (str "db.t")) w) with (small_world 1 (cache_new 60) [reader (Answered 0 one_column)] [seen 0]).
    by apply passing.
  - by left.
  - reflexivity.
  - intros a Ha. apply list_elem_of_singleton in Ha as ->. done.
Qed.

(** The key of the cache does not tell all tables apart. *)
Lemma cache_keys_collide : full_name (str "a.b") (str "c") = full_name (str "a") (str "b.c").
Proof. reflexivity. Qed.

(** ** Properties *)

(** C35: inserts that share a cache use schemas the server gave. However inserts begin, look, ask, learn, invalidate,
    end or are dropped, while the table changes and time passes: a schema in use was listed by
    the server for a table of that name, at most the window and one query before it was taken; and after
    an invalidation that meets no answer in transit every schema taken was listed after it. *)
Theorem shared_cache_is_honest `{SqlEscape} patience window now listing w :
  later patience (start now window listing) w ->
  (forall c s since, c ∈ callers w -> phase c = Holding s since ->
     exists at_, gave w (full_of c) s at_ /\ at_ <= since <= at_ + Z.max window 0 + patience) /\
  (forall full w', quiet full w -> later patience (with_cache (invalidate full) w) w' ->
     forall c s since, c ∈ callers w' -> full_of c = full -> phase c = Holding s since -> clock w < since ->
       exists at_, gave w' full s at_ /\ clock w <= at_ <= since).
Proof.
  intros Hl. pose proof (honest_later patience window now (fun _ _ => True) (fun _ _ _ => I) _ _ Hl (start_honest patience window now listing)) as Hw.
  split.
  - intros c s since Hin Hp. pose proof (callers_ok _ _ _ _ _ Hw) as Hc. rewrite Forall_forall in Hc. specialize (Hc c Hin).
    unfold caller_ok in Hc. rewrite Hp in Hc. destruct Hc as (_ & at_ & Hg & Hr & _). by exists at_.
  - intros full w' Hq Hl' c s since Hin <- Hp Hlt. apply (forgotten_honest patience window now) in Hq; [|exact Hw].
    pose proof (honest_later patience window (clock w) (fun name at_ => name = full_of c -> clock w <= at_)
      (fun name at_ Hat _ => Hat) _ _ Hl' Hq) as Hw'.
    pose proof (callers_ok _ _ _ _ _ Hw') as Hc. rewrite Forall_forall in Hc. specialize (Hc c Hin).
    unfold caller_ok in Hc. rewrite Hp in Hc. destruct Hc as (_ & at_ & Hg & Hr & Hgood). exists at_.
    split; [exact Hg|]. specialize (Hgood Hlt eq_refl). lia.
Qed.

(** One reader has learnt the schema; it is forgotten; the next one asks again. *)
Lemma shared_cache_is_honest_witness :
  let w := small_world 3 (learnt 3) [reader (Holding one_schema 3)] [seen 0] in
  let w' := small_world 4 (learnt 4) [reader (Holding one_schema 3); reader (Holding one_schema 4)] [seen 4; seen 0] in
  (exists at_, gave w (str "db.t") one_schema at_ /\ at_ <= 3 <= at_ + Z.max 60 0 + 5) /\
  (exists at_, gave w' (str "db.t") one_schema at_ /\ 3 <= at_ <= 4).
Proof.
  intros w w'.
  assert (Hw : later (H := quoting) 5 (start 0 60 (fun _ => one_column)) w).
  { eapply next_turn; [eapply next_turn; [exact first_asked|apply (passing 0 3); lia]|apply (arriving 3 0 (cache_new 60) []); lia]. }
  split.
  - refine (proj1 (@shared_cache_is_honest quoting 5 60 0 (fun _ => one_column) w Hw) (reader (Holding one_schema 3)) one_schema 3 _ eq_refl).
    by left.
  - refine (proj2 (@shared_cache_is_honest quoting 5 60 0 (fun _ => one_column) w Hw) (str "db.t") w' _ _
      (reader (Holding one_schema 4)) one_schema 4 _ eq_refl eq_refl _).
    + intros c at_ rows Hc _ Hp. apply list_elem_of_singleton in Hc as ->. discriminate Hp.
    + apply forgotten_then_learnt.
    + right. by left.
    + reflexivity.
Defined.
