(* ===== verification/Delivery.v ===== *)
(** * A dynamic insert, as the server reads it

    The whole way of JSON objects over the native protocol: [DynInsert] through [DynEncode], [Encode], the session and
    the wire, and back through the reader of a block packet. The server is taken to read the client's Data packets in the layout
    [reader.rs] reads the server's, up to the empty one. *)

From S2P Require Import Prelude Text Errors WireIo ColTypes Json Columns Decode Encode Protocol Packets Requests Exchange Actor ActorRules Sessions Connection Borrowers InsertWire Unified RoundTrip Agree Blocks ParsedTypes Ext DynScalars DynEncode DynSchema DynInsert.

(** ** The server's side *)

Section server.
Context `{Platform} `{FloatText}.

Definition not_data (id : Z) : Error := BadResponse (str "packet " ++ show id ++ str " inside an INSERT").

(** One Data packet of an INSERT: a block, or [None] for the empty one that ends it. *)
Definition read_client_block (rev : Z) : Read (option DecodedBlock) :=
  id ← read_var_uint;
  if negb (id =? client_id Cid.Data) then rd_fail (not_data id)
  else
    '(_, num_columns, num_rows) ← read_data_block_header rev;
    if num_rows =? 0 then _ ← read_empty_data_block_schema num_columns rev; mret None
    else block ← decode_block num_columns num_rows rev; mret (Some block).

(** The blocks of an INSERT, at most [fuel] packets. *)
Fixpoint read_insert (fuel : nat) (rev : Z) : Read (list DecodedBlock) :=
  match fuel with
  | O => rd_fail (not_data 0)
  | S fuel' =>
      b ← read_client_block rev;
      match b with
      | None => mret []
      | Some block => blocks ← read_insert fuel' rev; mret (block :: blocks)
      end
  end.

(** ** Packets read *)

Hypothesis Halloc : alloc_total.

Lemma block_reads rev nc n (body : list byte) p :
  0 <= nc <= READER_MAX_BLOCK_COLUMNS -> u64 n ->
  forall tail, (if n =? 0 then _ ← read_empty_data_block_schema nc rev; mret None
   else block ← decode_block nc n rev; mret (Some block)) (body ++ tail) = Ok (p, tail) ->
  read_client_block rev (send_data_block rev [] body nc n ++ tail) = Ok (p, tail).
Proof.
  intros Hnc Hn tail Hbody. rewrite data_packet_frame, <- app_assoc. unfold read_client_block.
  rewrite rd_bind_eq, (reads_varint (client_id Cid.Data)) by (unfold u64; simpl; lia).
  cbn [client_id]. rewrite Z.eqb_refl. cbn [negb]. rewrite rd_bind_eq, frame_body, <- app_assoc.
  assert (Ht : sent_text []) by (split; [vm_compute; discriminate|reflexivity]).
  rewrite (reads_header Halloc rev [] nc n Ht Hnc Hn). exact Hbody.
Qed.

Lemma end_reads rev tail : read_client_block rev (send_empty_block rev ++ tail) = Ok (None, tail).
Proof. apply block_reads; [unfold READER_MAX_BLOCK_COLUMNS; lia|unfold u64; lia|reflexivity]. Qed.

(** A block that was sent and the rows' cells it stands for. *)
Definition holds_rows (cols : list ColumnSchema) (cells : list (list (list byte))) (b : DecodedBlock) : Prop :=
  Decode.num_rows b = Z.of_nat (length cells) /\ carries cells 0 cols (zip (Decode.schema b) (Decode.columns b)).

Lemma sent_block_read h cols cells body tail :
  Forall sendable cols -> cols <> [] -> Z.of_nat (length cols) <= READER_MAX_BLOCK_COLUMNS ->
  sent_block h cols (map (@concat byte) cells, body) ->
  Forall (enc_all2 enc_cell (map (fun c => wire_type_of (col_type c)) cols)) cells ->
  Z.of_nat (length (concat (concat cells))) <= MAX_COLUMN_BYTES ->
  exists b, read_client_block (revision h) (packet h cols (map (@concat byte) cells, body) ++ tail) = Ok (Some b, tail) /\
    holds_rows cols cells b.
Proof.
  intros Hs Hc Hn (Hpos & Hcap & Henc & Hbytes) Hcells Hsize. unfold packet. cbn [fst snd] in *. rewrite length_map in *.
  unfold READER_MAX_BLOCK_COLUMNS, DEFAULT_TCP_INSERT_BLOCK_ROWS, MAX_INSERT_BLOCK_BYTES in *.
  destruct (block_read_back Halloc cols cells (revision h) tail) as (out & Hout & Hdec); try done.
  { by destruct cells; simpl in Hpos; [lia|]. }
  { unfold MAX_BLOCK_COLUMNS. lia. }
  { unfold MAX_BLOCK_ROWS. lia. }
  rewrite Henc in Hout. injection Hout as <-. destruct (Hdec ltac:(lia)) as (b & Hb & Hrows).
  exists b. split; [|exact Hrows]. apply block_reads; [unfold READER_MAX_BLOCK_COLUMNS; lia|unfold u64; lia|].
  rewrite (proj2 (Z.eqb_neq _ _)) by lia. by rewrite rd_bind_eq, Hb.
Qed.

(** The rows of the blocks sent, cut again at the cells. *)
Lemma cut_cells (sent : list (list (list byte) * list byte)) (cells : list (list (list byte))) :
  concat (map fst sent) = map (@concat byte) cells ->
  exists parts, concat parts = cells /\ map fst sent = map (map (@concat byte)) parts.
Proof.
  revert cells; induction sent as [|[rows body] sent IH]; intros cells Heq; cbn [map concat fst] in *.
  - exists []. split; [|done]. symmetry in Heq. by apply map_eq_nil in Heq.
  - symmetry in Heq. apply map_eq_app in Heq as (part & rest & -> & <- & Hrest).
    destruct (IH rest (eq_sym Hrest)) as (parts & <- & ->). by exists (part :: parts).
Qed.

Lemma insert_reads h cols (parts : list (list (list (list byte)))) (sent : list (list (list byte) * list byte)) tail :
  Forall sendable cols -> cols <> [] -> Z.of_nat (length cols) <= READER_MAX_BLOCK_COLUMNS ->
  map fst sent = map (map (@concat byte)) parts -> Forall (sent_block h cols) sent ->
  Forall (enc_all2 enc_cell (map (fun c => wire_type_of (col_type c)) cols)) (concat parts) ->
  Z.of_nat (length (concat (concat (concat parts)))) <= MAX_COLUMN_BYTES ->
  exists blocks,
    (forall fuel, (length sent < fuel)%nat ->
       read_insert fuel (revision h) (concat (map (packet h cols) sent) ++ send_empty_block (revision h) ++ tail) = Ok (blocks, tail)) /\
    Forall2 (holds_rows cols) parts blocks.
Proof.
  intros Hs Hc Hn. revert sent; induction parts as [|part parts IH]; intros sent Heq Hsent Hcells Hsize; cbn [map] in Heq.
  - apply map_eq_nil in Heq as ->. exists []. split; [|constructor]. intros [|fuel] Hf; [lia|].
    cbn [read_insert map concat app]. by rewrite rd_bind_eq, end_reads.
  - destruct sent as [|[rows body] sent]; [done|]. cbn [map fst] in Heq. injection Heq as -> Heq.
    apply Forall_cons in Hsent as [Hb Hsent]. cbn [concat] in Hcells, Hsize. apply Forall_app in Hcells as [Hcp Hcells].
    rewrite !List.concat_app, length_app in Hsize.
    destruct (IH sent Heq Hsent Hcells ltac:(lia)) as (blocks & Hread & Hall).
    destruct (sent_block_read h cols part body (concat (map (packet h cols) sent) ++ send_empty_block (revision h) ++ tail)
      Hs Hc Hn Hb Hcp ltac:(lia)) as (b & Hrb & Hbr).
    exists (b :: blocks). split; [|by constructor]. intros [|fuel] Hf; [lia|]. cbn [length] in Hf.
    cbn [read_insert map concat]. rewrite <- app_assoc, rd_bind_eq, Hrb. by rewrite rd_bind_eq, (Hread fuel ltac:(lia)).
Qed.

End server.

(** ** The columns of the table, as the insert asks for them *)

Lemma raw_printed t : wf_type t -> plain_zones t -> dyn_type t = true -> raw (parsed_of t) = ColTypes.type_name t.
Proof.
  intros _ _ Ht. destruct t as []; try discriminate Ht; try done; by destruct t.
Qed.

Lemma table_header c d : table_column c d -> sendable c -> from_header (col_name d, raw (ty d)) = Ok c.
Proof.
  intros (Hn & Hty & Hname & Hwf & Hz & Hd) Hs. pose proof (type_parses c Hs) as Hp. unfold from_header.
  rewrite Hn, Hty, Hname, (pt_parse_printed _ Hwf Hz (dyn_cell_type _ Hd)), (raw_printed _ Hwf Hz (dyn_cell_type _ Hd)).
  assert (Ht : parse (ColTypes.type_name (col_type c)) = Some (col_type c)).
  { unfold wire_type_name in Hp. rewrite Hname in Hp. destruct (col_type c); try done. }
  rewrite Ht. cbn. rewrite <- Hname. by destruct c.
Qed.

Lemma table_headers cols defs :
  Forall2 table_column cols defs -> Forall sendable cols ->
  from_headers (map (fun d => (col_name d, raw (ty d))) defs) = Ok cols.
Proof.
  intros Hcols. induction Hcols as [|c d cols defs Hcd Hcols IH]; intros Hs; [done|]. apply Forall_cons in Hs as [Hc Hs].
  unfold from_headers. cbn [map map_res]. rewrite (table_header c d Hcd Hc). cbn. unfold from_headers in IH. by rewrite (IH Hs).
Qed.

(** The calls that were accepted, and their bytes. *)
Definition accepted_calls `{JsonText} (columns : list ColumnDef) (calls : list Call) : list Call :=
  omap (fun x => match encode (call_row columns x) with Ok _ => Some x | Err _ => None end) calls.

Lemma accepted_rows `{JsonText} columns calls :
  incl (accepted_calls columns calls) calls /\
  map_res encode (map (call_row columns) (accepted_calls columns calls)) = Ok (accepted columns calls).
Proof.
  unfold accepted, accepted_calls. induction calls as [|x calls [Hin Hxs]]; [by split; [intros ? []|]|]. cbn [omap list_omap].
  destruct (encode (call_row columns x)) as [b|e] eqn:Eb.
  - split; [intros y [->|Hy]; [by left|right; by apply Hin]|]. cbn [map map_res]. rewrite Eb. cbn. by rewrite Hxs.
  - split; [intros y Hy; right; by apply Hin|done].
Qed.

Lemma sent_fewer h cols (sent : list (list (list byte) * list byte)) :
  Forall (sent_block h cols) sent -> (length sent <= length (concat (map fst sent)))%nat.
Proof.
  induction 1 as [|b sent Hb Hsent IH]; [done|]. destruct Hb as (Hpos & _). cbn [map concat length]. rewrite length_app. lia.
Qed.

Lemma call_fits columns cols x :
  Forall (raw_fits (snd x)) cols ->
  row_columns (call_row columns x) = columns /\ Forall (raw_fits (row_raw (call_row columns x))) cols.
Proof. destruct x as [[now row] [[n b]|]]; cbn; intros Hf; split; (done || exact Hf). Qed.

Lemma raw_rows columns cols (xs calls : list Call) :
  incl xs calls -> Forall (fun y : Call => Forall (raw_fits (snd y)) cols) calls ->
  Forall (fun r => row_columns r = columns /\ Forall (raw_fits (row_raw r)) cols) (map (call_row columns) xs).
Proof.
  intros Hin Hraw. apply Forall_map. rewrite Forall_forall in Hraw |- *. intros y Hy. apply call_fits, Hraw.
  rewrite list_elem_of_In in Hy |- *. by apply Hin.
Qed.

(** ** The whole way *)

Lemma insert_delivered `{Platform} `{FloatText} `{JsonText} `{SqlEscape} `{HttpClient} `{ForeignText}
    h quota l w pooled x calls schema settings database table cache now c s c1 s1 i1 cache1 results c2 s2 i2 cache2 n cols tail :
  let i := insert_tcp settings database table schema in
  let columns := select_columns (snd (fst x)) (call_names x) schema in
  alloc_total -> stands h quota l w c ->
  write_calls pooled (x :: calls) i cache c s = (c1, s1, Some (i1, cache1, Ok tt :: results)) ->
  only_bad_rows columns calls results ->
  finish_rows now i1 cache1 c1 s1 = (c2, s2, Some (i2, cache2, Ok n)) ->
  Forall2 table_column cols columns -> Forall sendable cols -> cols <> [] ->
  Z.of_nat (length cols) <= READER_MAX_BLOCK_COLUMNS ->
  Forall (fun y : Call => Forall (raw_fits (snd y)) cols) (x :: calls) ->
  Forall (fun bs => Z.of_nat (length bs) <= MAX_STRING_SIZE) (accepted columns (x :: calls)) ->
  Z.of_nat (length (concat (accepted columns (x :: calls)))) <= MAX_COLUMN_BYTES ->
  exists payload cells parts blocks,
    wire c2 = w ++ opening h quota (insert_sql i columns "Native") settings ++ payload /\
    accepted columns (x :: calls) = map (@concat byte) cells /\
    concat parts = cells /\ n = Z.of_nat (length cells) /\
    read_insert (S (length cells)) (revision h) (payload ++ tail) = Ok (blocks, tail) /\
    Forall2 (holds_rows cols) parts blocks /\
    Forall2 row_wrote (map (call_row columns) (accepted_calls columns (x :: calls))) cells.
Proof.
  intros i columns Ha Hc Hr Hbad Hend Hcols Hs Hne Hlen Hraw Hsmall Hsize.
  destruct (tcp_insert_sent h quota l w pooled x calls schema settings database table cache now
    c s c1 s1 i1 cache1 results c2 s2 i2 cache2 n Hc Hr Hbad Hend) as (native & sent & Hnat & Hcat & Hn & Hsent & Hwire).
  fold i columns in Hnat, Hcat, Hn, Hwire. rewrite (table_headers cols columns Hcols Hs) in Hnat. injection Hnat as <-.
  destruct (accepted_rows columns (x :: calls)) as [Hin Hxs].
  destruct (table_cells cols columns _ _ Hcols (raw_rows columns cols _ _ Hin Hraw) Hxs Hsmall)
    as (cells & Hcells & Hwrote & Htyped).
  rewrite Hcells in *. destruct (cut_cells sent cells Hcat) as (parts & Hparts & Hcut).
  pose proof (sent_fewer h cols sent Hsent) as Hfew. rewrite Hcat, length_map in Hfew.
  rewrite concat_rows in Hsize. rewrite <- Hparts in Htyped, Hsize.
  destruct (insert_reads Ha h cols parts sent tail Hs Hne Hlen Hcut Hsent Htyped Hsize) as (blocks & Hread & Hblocks).
  exists (concat (map (packet h cols) sent) ++ send_empty_block (revision h)), cells, parts, blocks.
  split_and!; [exact Hwire|done|done|by rewrite length_map in Hn| |done|done]. rewrite <- app_assoc. apply Hread. lia.
Qed.

(** ** Properties *)

(** C3: the server reads the objects that were written. When the first call of an insert over TCP succeeded, every later
    one succeeded or had a row that does not encode, and [end] reports [n] rows, then what follows the INSERT query on
    the wire is read, packet by packet to the empty block, as blocks that hold in every column the cells of the
    accepted objects, in order, [n] rows in all, and nothing is left over. *)
Theorem dynamic_insert_is_delivered `{Platform} `{FloatText} `{JsonText} `{SqlEscape} `{HttpClient} `{ForeignText}
    h quota l w pooled x calls schema settings database table cache now c s c1 s1 i1 cache1 results c2 s2 i2 cache2 n cols tail :
  let i := insert_tcp settings database table schema in
  let columns := select_columns (snd (fst x)) (call_names x) schema in
  alloc_total -> stands h quota l w c ->
  write_calls pooled (x :: calls) i cache c s = (c1, s1, Some (i1, cache1, Ok tt :: results)) ->
  only_bad_rows columns calls results ->
  finish_rows now i1 cache1 c1 s1 = (c2, s2, Some (i2, cache2, Ok n)) ->
  Forall2 table_column cols columns -> Forall sendable cols -> cols <> [] ->
  Z.of_nat (length cols) <= READER_MAX_BLOCK_COLUMNS ->
  Forall (fun y : Call => Forall (raw_fits (snd y)) cols) (x :: calls) ->
  Forall (fun bs => Z.of_nat (length bs) <= MAX_STRING_SIZE) (accepted columns (x :: calls)) ->
  Z.of_nat (length (concat (accepted columns (x :: calls)))) <= MAX_COLUMN_BYTES ->
  exists payload cells parts blocks,
    wire c2 = w ++ opening h quota (insert_sql i columns "Native") settings ++ payload /\
    accepted columns (x :: calls) = map (@concat byte) cells /\
    concat parts = cells /\ n = Z.of_nat (length cells) /\
    read_insert (S (length cells)) (revision h) (payload ++ tail) = Ok (blocks, tail) /\
    Forall2 (holds_rows cols) parts blocks.
Proof.
  intros i columns Ha Hc Hr Hbad Hend Hcols Hs Hne Hlen Hraw Hsmall Hsize.
  destruct (insert_delivered h quota l w pooled x calls schema settings database table cache now c s c1 s1 i1 cache1
    results c2 s2 i2 cache2 n cols tail Ha Hc Hr Hbad Hend Hcols Hs Hne Hlen Hraw Hsmall Hsize)
    as (payload & cells & parts & blocks & ? & ? & ? & ? & ? & ? & _).
  by exists payload, cells, parts, blocks.
Qed.

(** ** Example: the rows 1 and 2, the 300 between them refused *)

Definition u8_column : ColumnSchema := {| name := str "id"; Encode.type_name := str "UInt8"; col_type := Ct.UInt8 |}.

Lemma dynamic_insert_is_delivered_witness :
  let P := roomy in let F : FloatText := fun _ => [] in
  exists payload cells parts blocks,
    wire (fst (fst ended_example)) =
      [] ++ opening hello_example [] (str "INSERT INTO `db`.`t` (`id`) FORMAT Native") [] ++ payload /\
    [[x01]; [x02]] = map (@concat byte) cells /\ concat parts = cells /\ 2 = Z.of_nat (length cells) /\
    read_insert (S (length cells)) (revision hello_example) (payload ++ []) = Ok (blocks, []) /\
    Forall2 (holds_rows [u8_column]) parts blocks.
Proof.
  intros P F.
  refine (@dynamic_insert_is_delivered P F plain_json quoting http_example texts hello_example [] [] [] (Ok tt) (one 1) [one 300; one 2]
    table_example [] (str "db") (str "t") (cache_new 60) 8 connection_example script_example
    (fst (fst written_example)) (snd (fst written_example)) _ _
    [Err (enc_err (str "id") (str "UInt8 value out of range")); Ok tt]
    (fst (fst ended_example)) (snd (fst ended_example)) _ _ 2 [u8_column] [] _ _ _ _ _ _ _ _ _ _ _ _).
  - intros n. reflexivity.
  - done.
  - vm_compute. reflexivity.
  - constructor; [right; eexists; vm_compute; reflexivity|]. constructor; [by left|constructor].
  - vm_compute. reflexivity.
  - repeat constructor.
  - constructor; [|constructor]. split; try reflexivity; try (split; [reflexivity|]); vm_compute; try discriminate; lia.
  - discriminate.
  - vm_compute. discriminate.
  - repeat constructor.
  - repeat (apply Forall_cons; split; [vm_compute; discriminate|]). constructor.
  - vm_compute. discriminate.
Defined.
