(* ===== verification/ReadBack.v ===== *)
(** * Values inserted as JSON, read back as typed values

    The last step of a dynamic insert's way: [Delivery] shows that the server's blocks hold the cells of the accepted
    objects; here the cells are the values. [scalar_read] and [typed_read] list the typed reads of [native/decode.rs] the
    property is about and the JSON each is for. [ReadsBack] is what the encoder of [dynamic/encode.rs] and such a read owe
    each other at a column type; its instances show that every read of the list keeps it ([typed_read_back]). *)

From S2P Require Import Prelude Text Errors WireIo ColTypes Json Floats Rounding Columns Decode Encode Protocol Packets Requests Exchange Actor ActorRules Sessions Connection Borrowers InsertWire Unified RoundTrip Agree Blocks ParsedTypes Ext DynScalars DynEncode DynSchema DynInsert Delivery.

(** ** JSON values and the values of a caller *)

(** A 256-bit integer is read as its thirty-two bytes, and a boolean as whether an integer is nonzero. *)
Definition block_value (v : Value) (b : list byte) : Prop := exists z, int_value v z /\ b = le_split 32 z.
Definition bool_value (v : Value) (x : bool) : Prop := exists z, int_value v z /\ x = negb (z =? 0).
(** The double the JSON reader made of a number; for a Float32 column, rounded to single precision. *)
Definition float_value (v : Value) (bits : Z) : Prop :=
  exists n, v = Jv.Number n /\ num_f64 n = Some bits /\ 0 <= bits < 2 ^ 64.
Definition single_value (v : Value) (bits : Z) : Prop :=
  exists wide, float_value v wide /\ bits = f32_bits_of_f64 wide.
Definition bytes_value (v : Value) (s : list byte) : Prop := v = Jv.String s.
Definition text_value (v : Value) (s : text) : Prop := v = Jv.String s /\ utf8_valid s = true.
Definition optional {T} (means : Value -> T -> Prop) (v : Value) (o : option T) : Prop :=
  match o with None => v = Jv.Null | Some x => means v x end.

(** The typed reads of [native/decode.rs] and the values they are for: [scalar_read t read means] says that [read] reads a
    column of type [t], and what JSON value means what it returns. *)
Inductive scalar_read : ColumnType -> forall T, FromColumn T -> (Value -> T -> Prop) -> Prop :=
| reads_u8 : scalar_read Ct.UInt8 Z from_column_u8 int_value
| reads_u16 : scalar_read Ct.UInt16 Z from_column_u16 int_value
| reads_u32 : scalar_read Ct.UInt32 Z from_column_u32 int_value
| reads_u64 : scalar_read Ct.UInt64 Z from_column_u64 int_value
| reads_u128 : scalar_read Ct.UInt128 Z from_column_u128 int_value
| reads_u256 : scalar_read Ct.UInt256 (list byte) from_column_256 block_value
| reads_i8 : scalar_read Ct.Int8 Z from_column_i8 int_value
| reads_i16 : scalar_read Ct.Int16 Z from_column_i16 int_value
| reads_i32 : scalar_read Ct.Int32 Z from_column_i32 int_value
| reads_i64 : scalar_read Ct.Int64 Z from_column_i64 int_value
| reads_i128 : scalar_read Ct.Int128 Z from_column_i128 int_value
| reads_i256 : scalar_read Ct.Int256 (list byte) from_column_256 block_value
| reads_bool : scalar_read Ct.UInt8 bool from_column_bool bool_value
| reads_f32 : scalar_read Ct.Float32 Z from_column_f32 single_value
| reads_f64 : scalar_read Ct.Float64 Z from_column_f64 float_value
| reads_bytes : scalar_read Ct.String (list byte) from_column_bytes bytes_value
| reads_text : scalar_read Ct.String text from_column_string text_value.

Inductive typed_read : ColumnType -> forall T, FromColumn T -> (Value -> T -> Prop) -> Prop :=
| read_plain t T read means : scalar_read t T read means -> typed_read t T read means
| read_option t T read means :
    scalar_read t T read means -> typed_read (Ct.Nullable t) (option T) (@from_column_option T read) (optional means).

(** ** The contract

    Wherever the cells of a decoded column are what the encoder wrote for some values, the typed read returns
    what those values mean. *)
Class ReadsBack `{JsonText} (t : ColumnType) {T} (read : FromColumn T) (means : Value -> T -> Prop) : Prop := {
  declared_as_is : wire_type_of t = t;
  reads_back : forall n c nm ty col cells vs xs,
    has_type t n c -> blank_nulls (Z.to_nat n) t c -> column_cells (Z.to_nat n) c = Some cells ->
    Forall (fun b => Z.of_nat (length b) < 2 ^ 64) cells ->
    Forall2 (fun v b => encode_value v (parsed_of t) col = (b, None)) vs cells ->
    Forall2 means vs xs ->
    @from_column T read c nm ty = Ok xs
}.

(** A scalar type whose typed read is cell by cell: [cell] is the cell of a value, [fits] what a column can hold. *)
Class CellReads `{JsonText} (t : ColumnType) {T} (read : FromColumn T) (means : Value -> T -> Prop)
    (cell : T -> list byte) (fits : T -> Prop) : Prop := {
  cr_type : dyn_leaf t = true /\ wf_type t /\ wire_type_of t = t;
  cr_read n c : has_type t n c ->
    exists xs, (forall nm ty, @from_column T read c nm ty = Ok xs) /\
      column_cells (Z.to_nat n) c = Some (map cell xs) /\ Forall fits xs;
  cr_write v x rw nul lc col b : means v x ->
    encode_scalar v (flagged rw nul lc (leaf_of t)) col = (b, None) -> b = cell x /\ fits x;
  cr_inj x y : Z.of_nat (length (cell x)) < 2 ^ 64 -> fits x -> fits y -> cell x = cell y -> x = y;
  cr_null x : ~ means Jv.Null x
}.

Section contract.
Context `{JsonText} {t : ColumnType} {T : Type} {read : FromColumn T} {means : Value -> T -> Prop}.
Context {cell : T -> list byte} {fits : T -> Prop} `{!CellReads t read means cell fits}.

Lemma cell_is v x rw nul lc col y :
  means v x -> encode_typed v (flagged rw nul lc (leaf_of t)) col = (cell y, None) -> fits y ->
  Z.of_nat (length (cell y)) < 2 ^ 64 -> y = x.
Proof.
  intros Hv He Hy Hb. destruct cr_type as (Hl & Hwf & _). rewrite typed_leaf in He by done.
  destruct (cr_write _ _ _ _ _ _ _ Hv He) as [Hc Hx]. by apply cr_inj.
Qed.

Lemma plain_cell_is v x col y :
  means v x -> encode_value v (parsed_of t) col = (cell y, None) -> fits y ->
  Z.of_nat (length (cell y)) < 2 ^ 64 -> y = x.
Proof.
  intros Hv He Hy Hb. destruct cr_type as (Hl & Hwf & _).
  rewrite encode_plain, <- typed_leaf in He by (done || by intros ->; eapply cr_null). by eapply cell_is.
Qed.

Lemma nullable_cell_is v x col flag y :
  optional means v x ->
  encode_value v (parsed_of (Ct.Nullable t)) col = (Columns.nullable_cell flag (cell y), None) -> fits y ->
  Z.of_nat (length (Columns.nullable_cell flag (cell y))) < 2 ^ 64 -> (if u8 flag =? 0 then Some y else None) = x.
Proof.
  intros Hv He Hy Hb. rewrite encode_value_eq in He. cbn [parsed_of flagged nullable] in He.
  unfold Columns.nullable_cell in He, Hb. destruct x as [x|]; cbn [optional] in Hv.
  - assert (Hn : andthen (put [x00]) (encode_typed v (flagged (ColTypes.type_name (Ct.Nullable t)) true false (leaf_of t)) col) =
      (if negb (u8 flag =? 0) then [x01] else x00 :: cell y, None)) by (destruct v; (exact He || by apply cr_null in Hv)).
    apply andthen_ok in Hn as (b1 & b2 & [= <-] & Ht & Heq). destruct (u8 flag =? 0); [|discriminate Heq].
    injection Heq as <-. f_equal. eapply cell_is; [exact Hv|exact Ht|done|]. cbn [negb length] in Hb. lia.
  - subst v. cbn in He. by destruct (u8 flag =? 0).
Qed.

(** A column of the type itself. *)
#[export] Instance cells_read_back : ReadsBack t read means.
Proof.
  split; [apply cr_type|]. intros n c nm ty col cells vs xs Hc _ Hcells Hs Hvs Hxs.
  destruct (cr_read n c Hc) as (ys & Hr & Hcy & Hy). rewrite Hr. f_equal. rewrite Hcy in Hcells. injection Hcells as <-.
  clear Hr Hcy Hc. revert vs xs Hs Hvs Hxs. induction Hy as [|y ys Hy Hys IH]; intros vs xs Hs Hvs Hxs;
    inversion Hvs as [|v b vs' bs He Hvs']; subst; inversion Hxs as [|? x ? xs' Hv Hxs']; subst; [done|].
  apply Forall_cons in Hs as [Hb Hs]. f_equal; [by eapply plain_cell_is|by eapply IH].
Qed.

(** The Nullable column over it, as options. *)
#[export] Instance nullable_reads_back : ReadsBack (Ct.Nullable t) (@from_column_option T read) (optional means).
Proof.
  split; [done|]. intros n c nm ty col cells vs xs (mask & child & -> & _ & Hc) _ Hcells Hs Hvs Hxs.
  destruct (cr_read n child Hc) as (ys & Hr & Hcy & Hy).
  cbn [column_cells] in Hcells. rewrite Hcy in Hcells. injection Hcells as <-.
  unfold from_column at 1, from_column_option. rewrite Hr. cbn [mbind result_bind]. f_equal. clear Hr Hcy Hc.
  revert mask vs xs Hs Hvs Hxs. induction Hy as [|y ys Hy Hys IH]; intros [|flag mask] vs xs Hs Hvs Hxs; cbn [map zip_with] in *;
    inversion Hvs as [|v b vs' bs He Hvs']; subst; inversion Hxs as [|? x ? xs' Hv Hxs']; subst; try done.
  apply Forall_cons in Hs as [Hb Hs]. f_equal; [by eapply nullable_cell_is|by eapply IH].
Qed.

End contract.

(** ** Where the contract is kept *)

Section instances.
Context `{JsonText}.

Definition in_width (signed : bool) (width : nat) (z : Z) : Prop := int_fits signed (8 * Z.of_nat width) z = true.

Lemma null_no_integer z : ~ int_value Jv.Null z.
Proof. by intros [(n & [=] & _)|[[=]|(x & [=] & _)]]. Qed.

Lemma in_range (signed : bool) bits (v : list Z) n :
  (if signed then sints bits n v else uints bits n v) -> Forall (fun z => int_fits signed bits z = true) v.
Proof.
  unfold int_fits. destruct signed; intros [_ Hv]; (eapply Forall_impl; [exact Hv|]); intros z Hz; cbn beta in Hz;
    apply andb_true_iff; (split; [apply Z.leb_le|apply Z.ltb_lt]); lia.
Qed.

(** The integers of at most sixteen bytes, by the variant [C] they are decoded to. *)
Lemma int_cells (signed : bool) width t (read : FromColumn Z) (C : list Z -> DecodedColumn) :
  let bits := 8 * Z.of_nat width in
  int_type t = Some (signed, bits) -> (0 < width)%nat ->
  (forall n c, has_type t n c -> exists v, c = C v /\ (if signed then sints bits n v else uints bits n v)) ->
  (forall n v, column_cells n (C v) = Some (map (put_le width) v)) ->
  (forall v nm ty, read (C v) nm ty = Ok v) ->
  CellReads t read int_value (put_le width) (in_width signed width).
Proof.
  intros bits Ht Hw Hc Hcells Hr. split.
  - by destruct t.
  - intros n c Hty. destruct (Hc n c Hty) as (v & -> & Hv). exists v. split_and!; [apply Hr|apply Hcells|by eapply in_range].
  - intros v x rw nul lc col b Hv He. destruct (int_written v t signed bits x rw nul lc col b Ht Hv He) as [-> Hf].
    split; [|done]. unfold put_le, bits. f_equal. rewrite Z.mul_comm, Z.div_mul by lia. apply Nat2Z.id.
  - intros x y _ Hx Hy Heq. rewrite <- (int_read_back signed width x Hw Hx), <- (int_read_back signed width y Hw Hy).
    unfold put_le in Heq. by rewrite Heq.
  - apply null_no_integer.
Qed.

(** A 256-bit integer is its cell. *)
Lemma block_cells (signed : bool) t (C : list (list byte) -> DecodedColumn) :
  int_type t = Some (signed, 256) ->
  (forall n c, has_type t n c -> exists v, c = C v) -> (forall n v, column_cells n (C v) = Some v) ->
  (forall v nm ty, from_column_256 (C v) nm ty = Ok v) ->
  CellReads t from_column_256 block_value id (fun _ => True).
Proof.
  intros Ht Hc Hcells Hr. split; [by destruct t| | |done|].
  - intros n c Hty. destruct (Hc n c Hty) as (v & ->). exists v. rewrite map_id. split_and!; [apply Hr|apply Hcells|by apply Forall_true].
  - intros v x rw nul lc col b (z & Hv & ->) He. split; [|done]. by destruct (int_written v t signed 256 z rw nul lc col b Ht Hv He) as [-> _].
  - intros x (z & Hz & _). by eapply null_no_integer.
Qed.

#[local] Ltac int_column C := apply (int_cells _ _ _ _ C); (done || lia).

#[export] Instance u8_cells : CellReads Ct.UInt8 from_column_u8 int_value (put_le 1) (in_width false 1).
Proof. int_column Dc.UInt8. Qed.
#[export] Instance u16_cells : CellReads Ct.UInt16 from_column_u16 int_value (put_le 2) (in_width false 2).
Proof. int_column Dc.UInt16. Qed.
#[export] Instance u32_cells : CellReads Ct.UInt32 from_column_u32 int_value (put_le 4) (in_width false 4).
Proof. int_column Dc.UInt32. Qed.
#[export] Instance u64_cells : CellReads Ct.UInt64 from_column_u64 int_value (put_le 8) (in_width false 8).
Proof. int_column Dc.UInt64. Qed.
#[export] Instance u128_cells : CellReads Ct.UInt128 from_column_u128 int_value (put_le 16) (in_width false 16).
Proof. int_column Dc.UInt128. Qed.
#[export] Instance i8_cells : CellReads Ct.Int8 from_column_i8 int_value (put_le 1) (in_width true 1).
Proof. int_column Dc.Int8. Qed.
#[export] Instance i16_cells : CellReads Ct.Int16 from_column_i16 int_value (put_le 2) (in_width true 2).
Proof. int_column Dc.Int16. Qed.
#[export] Instance i32_cells : CellReads Ct.Int32 from_column_i32 int_value (put_le 4) (in_width true 4).
Proof. int_column Dc.Int32. Qed.
#[export] Instance i64_cells : CellReads Ct.Int64 from_column_i64 int_value (put_le 8) (in_width true 8).
Proof. int_column Dc.Int64. Qed.
#[export] Instance i128_cells : CellReads Ct.Int128 from_column_i128 int_value (put_le 16) (in_width true 16).
Proof. int_column Dc.Int128. Qed.
#[export] Instance u256_cells : CellReads Ct.UInt256 from_column_256 block_value id (fun _ => True).
Proof. apply (block_cells false _ Dc.UInt256); [done|intros n c (v & -> & _); by eexists|done|done]. Qed.
#[export] Instance i256_cells : CellReads Ct.Int256 from_column_256 block_value id (fun _ => True).
Proof. apply (block_cells true _ Dc.Int256); [done|intros n c (v & -> & _); by eexists|done|done]. Qed.

#[export] Instance f64_cells : CellReads Ct.Float64 from_column_f64 float_value (put_le 8) (in_width false 8).
Proof.
  split; [done| | | |].
  - intros n c (v & -> & Hv). exists v. split_and!; [done|done|]. by apply (in_range false 64 v n).
  - intros v x rw nul lc col b (j & -> & Hj & Hx) He. unfold encode_scalar in He. rewrite resolved_leaf in He by done.
    cbn [leaf_tag leaf_of tag as_f64] in He. rewrite Hj in He. injection He as <-. split; [done|]. unfold in_width, int_fits.
    by rewrite (proj2 (Z.leb_le _ _)), (proj2 (Z.ltb_lt _ _)) by lia.
  - intros x y _ Hx Hy Heq. unfold put_le in Heq.
    rewrite <- (int_read_back false 8 x), <- (int_read_back false 8 y) by (lia || done). by rewrite Heq.
  - by intros x (j & [=] & _).
Qed.

#[export] Instance f32_cells : CellReads Ct.Float32 from_column_f32 single_value (put_le 4) (in_width false 4).
Proof.
  split; [done| | | |].
  - intros n c (v & -> & Hv). exists v. split_and!; [done|done|]. by apply (in_range false 32 v n).
  - intros v x rw nul lc col b (wide & (j & -> & Hj & _) & ->) He. unfold encode_scalar in He. rewrite resolved_leaf in He by done.
    cbn [leaf_tag leaf_of tag] in He. unfold float32 in He. cbn [as_f64] in He. rewrite Hj in He. cbn [ok_or mbind result_bind] in He.
    destruct (_ && _); [discriminate He|]. injection He as <-. split; [done|]. pose proof (single_range wide). unfold in_width, int_fits.
    by rewrite (proj2 (Z.leb_le _ _)), (proj2 (Z.ltb_lt _ _)) by lia.
  - intros x y _ Hx Hy Heq. unfold put_le in Heq.
    rewrite <- (int_read_back false 4 x), <- (int_read_back false 4 y) by (lia || done). by rewrite Heq.
  - by intros x (wide & (j & [=] & _) & _).
Qed.

Lemma put_string_inj x y : Z.of_nat (length (put_string x)) < 2 ^ 64 -> put_string x = put_string y -> x = y.
Proof.
  intros Hx Heq. pose proof (f_equal length Heq) as Hl. unfold put_string in *. rewrite !length_app in *.
  assert (Hy : Z.of_nat (length y) < 2 ^ 64) by lia.
  assert (Hr : forall z, 0 <= z < 2 ^ 64 -> reads read_var_uint (encode_var_uint z) z) by exact reads_var_uint.
  pose proof (Hr (Z.of_nat (length x)) ltac:(lia) x) as H1. pose proof (Hr (Z.of_nat (length y)) ltac:(lia) y) as H2.
  unfold put_var_uint in Heq. rewrite Heq, H2 in H1. by injection H1 as _ ->.
Qed.

#[export] Instance bytes_cells : CellReads Ct.String from_column_bytes bytes_value put_string (fun _ => True).
Proof.
  split; [done| | | |by intros x [=]].
  - intros n c (v & -> & _). exists v. split_and!; [done|done|]. by apply Forall_true.
  - intros v x rw nul lc col b -> He. unfold encode_scalar in He. rewrite resolved_leaf in He by done.
    by injection He as <-.
  - intros x y Hx _ _ Heq. by apply put_string_inj.
Qed.

(** A [String] is bytes that are text. *)
Lemma map_utf8 (vs : list (list byte)) : Forall (fun s => utf8_valid s = true) vs -> map_res utf8_text vs = Ok vs.
Proof. intros Hu. apply map_res_Forall2. induction Hu as [|s vs Hs Hu IH]; constructor; [|done]. unfold utf8_text. by rewrite Hs. Qed.

#[export] Instance text_reads_back : ReadsBack Ct.String from_column_string text_value.
Proof.
  split; [done|]. intros n c nm ty col cells vs xs Hc Hn Hcells Hs Hvs Hxs.
  pose proof (reads_back (read := from_column_bytes) (means := bytes_value) n c nm ty col cells vs xs Hc Hn Hcells Hs Hvs) as Hb.
  destruct Hc as (v & -> & _). unfold from_column, from_column_bytes, from_column_string in *.
  assert (Hbytes : Forall2 bytes_value vs xs) by (eapply Forall2_impl; [exact Hxs|]; by intros ? ? [? _]).
  specialize (Hb Hbytes). injection Hb as ->. apply map_utf8. clear -Hxs. induction Hxs as [|? s ? ? [_ Hu]]; by constructor.
Qed.

(** The values under the flags of a Nullable column that are text where they are not null, and blank where they are. *)
Lemma slots_are_text mask (values : list (list byte)) :
  Forall2 (null_slot Ct.String) mask (map put_string values) ->
  Forall (fun o : option (list byte) => match o with Some s => utf8_valid s = true | None => True end)
    (zip_with (fun is_null v => if u8 is_null =? 0 then Some v else None) mask values) ->
  Forall (fun s => utf8_valid s = true) values.
Proof.
  revert mask; induction values as [|v values IH]; intros [|flag mask] Hs Hz; inversion Hs as [|? ? ? ? Hf Hs']; subst; [constructor|].
  cbn [zip_with] in Hz. apply Forall_cons in Hz as [Hv Hz]. constructor; [|by eapply IH].
  destruct (Z.eqb_spec (u8 flag) 0) as [_|Hne]; [exact Hv|]. apply Hf in Hne. change (rb_write_default Ct.String) with (put_string []) in Hne.
  symmetry in Hne. apply put_string_inj in Hne as <-; [reflexivity|vm_compute; reflexivity].
Qed.

#[export] Instance text_option_reads_back : ReadsBack (Ct.Nullable Ct.String) (@from_column_option text from_column_string) (optional text_value).
Proof.
  split; [done|]. intros n c nm ty col cells vs xs Hc Hn Hcells Hs Hvs Hxs.
  pose proof (reads_back (read := @from_column_option (list byte) from_column_bytes) (means := optional bytes_value)
    n c nm ty col cells vs xs Hc Hn Hcells Hs Hvs) as Hb.
  assert (Hbytes : Forall2 (optional bytes_value) vs xs) by (eapply Forall2_impl; [exact Hxs|]; intros ? [s|]; [by intros [? _]|done]).
  specialize (Hb Hbytes). destruct Hc as (mask & child & -> & _ & (values & -> & _)).
  destruct Hn as (slots & [= <-] & Hslots). unfold from_column, from_column_option in *. cbn [from_column from_column_bytes mbind result_bind] in Hb.
  injection Hb as Hb. unfold from_column, from_column_string. rewrite map_utf8; [by rewrite <- Hb|].
  apply (slots_are_text mask); [done|]. rewrite Hb. clear -Hxs. induction Hxs as [|? [s|] ? ? Hv]; constructor; (done || apply Hv).
Qed.

(** A [bool] is whether an integer is nonzero. *)
Lemma mapped_reads_back t {T U} (read : FromColumn T) (read' : FromColumn U) (f : T -> U) (means : Value -> T -> Prop) (means' : Value -> U -> Prop) :
  ReadsBack t read means ->
  (forall c nm ty xs, read c nm ty = Ok xs -> read' c nm ty = Ok (map f xs)) ->
  (forall v y, means' v y -> exists x, means v x /\ y = f x) -> ReadsBack t read' means'.
Proof.
  intros Hrb Hf Hm. split; [apply Hrb|]. intros n c nm ty col cells vs ys Hc Hn Hcells Hs Hvs Hys.
  assert (Hxs : exists xs, Forall2 means vs xs /\ ys = map f xs).
  { clear -Hm Hys. induction Hys as [|v y vs ys Hv Hys (xs & Hxs & ->)]; [by exists []|].
    destruct (Hm v y Hv) as (x & Hx & ->). exists (x :: xs). by split; [constructor|]. }
  destruct Hxs as (xs & Hxs & ->). apply Hf. by eapply (reads_back (read := read)).
Qed.

Lemma bool_read c nm ty xs : from_column_u8 c nm ty = Ok xs -> from_column_bool c nm ty = Ok (map (fun z => negb (z =? 0)) xs).
Proof. destruct c; try discriminate. by intros [= <-]. Qed.

#[export] Instance bool_reads_back : ReadsBack Ct.UInt8 from_column_bool bool_value.
Proof. by eapply (mapped_reads_back _ from_column_u8 _ (fun z => negb (z =? 0)) int_value); [apply _|apply bool_read|]. Qed.

#[export] Instance bool_option_reads_back : ReadsBack (Ct.Nullable Ct.UInt8) (@from_column_option bool from_column_bool) (optional bool_value).
Proof.
  eapply (mapped_reads_back _ (@from_column_option Z from_column_u8) _ (fmap (fun z => negb (z =? 0))) (optional int_value)); [apply _| |].
  - intros c nm ty xs Hr. assert (Hc : exists mask child, c = Dc.Nullable mask child) by (destruct c; try discriminate Hr; eauto).
    destruct Hc as (mask & child & ->). unfold from_column_option, from_column in *. apply bind_Ok_inv in Hr as (zs & Hz & [= <-]). rewrite (bool_read _ _ _ _ Hz).
    cbn [mbind result_bind]. f_equal. clear Hz. revert zs; induction mask as [|m mask IH]; intros [|z zs]; try done. cbn [zip_with map].
    rewrite IH. f_equal. by destruct (u8 m =? 0).
  - intros v [y|]; [intros (z & Hz & ->); by exists (Some z)|intros ->; by exists None].
Qed.

(** Every typed read of the relation keeps the contract. *)
Lemma scalar_read_back t T (read : FromColumn T) means : scalar_read t T read means ->
  ReadsBack t read means /\ ReadsBack (Ct.Nullable t) (@from_column_option T read) (optional means).
Proof. intros []; split; apply _. Qed.

Lemma typed_read_back t T (read : FromColumn T) means : typed_read t T read means -> ReadsBack t read means.
Proof. intros [t' T' read' means' Hr|t' T' read' means' Hr]; apply (scalar_read_back _ _ _ _ Hr). Qed.

End instances.

(** ** The blocks of an insert are typed *)

Section typed.
Context `{Platform} `{FloatText}.

Definition well_typed (b : DecodedBlock) : Prop := Forall (announced (Decode.num_rows b)) (zip (Decode.schema b) (Decode.columns b)).

Lemma decode_block_typed nc n rev : 0 <= n -> yields (decode_block nc n rev) well_typed.
Proof.
  intros Hn. unfold decode_block. cbv zeta. destruct (_ <? _); [apply yields_fail|]. destruct (_ <? _); [apply yields_fail|].
  do 2 (apply yields_bind_; intros ?). eapply yields_bind; [apply yields_repeat, yields_block_column, Hn|].
  intros cols [_ Hcols]. apply yields_ret. unfold well_typed. cbn [Decode.schema Decode.columns Decode.num_rows].
  induction Hcols as [|[hdr c] cols Hc Hcols IH]; [constructor|]. cbn [map zip_with fst snd]. by constructor.
Qed.

Lemma read_insert_typed fuel rev : yields (read_insert fuel rev) (Forall well_typed).
Proof.
  induction fuel as [|fuel IH]; [apply yields_fail|]. cbn [read_insert].
  apply (yields_bind (fun b => match b with Some b => well_typed b | None => True end)).
  - unfold read_client_block. apply yields_bind_; intros id. destruct (negb _); [apply yields_fail|].
    eapply yields_bind; [apply yields_data_block_header|]. intros [[tbl nc] n] [_ Hn]. destruct (_ =? _).
    + apply yields_bind_; intros ?. by apply yields_ret.
    + eapply yields_bind; [apply decode_block_typed; lia|]. intros b Hb. by apply yields_ret.
  - intros [b|] Hb; [|by apply yields_ret, Forall_nil]. eapply yields_bind; [exact IH|]. intros bs Hbs.
    apply yields_ret. by constructor.
Qed.

(** ** A column found by its name *)

Lemma carries_column rows cols i entries j col :
  carries rows i cols entries -> cols !! j = Some col ->
  exists c, entries !! j = Some ((name col, wire_type_name col), c) /\
    column_cells (length rows) c = Some (nth_cells (i + j) rows) /\ blank_nulls (length rows) (wire_type_of (col_type col)) c.
Proof.
  revert i entries j; induction cols as [|col' cols IH]; intros i [|[hdr c] entries] j Hc Hj; try done.
  destruct Hc as (-> & Hcells & Hblank & Hc). destruct j as [|j].
  - injection Hj as ->. exists c. by rewrite Nat.add_0_r.
  - rewrite Nat.add_succ_r. exact (IH (S i) entries j Hc Hj).
Qed.

Lemma position_of_first nm sch j ty :
  sch !! j = Some (nm, ty) -> (forall k e, (k < j)%nat -> sch !! k = Some e -> e.1 <> nm) -> position_of nm sch = Some j.
Proof.
  revert j; induction sch as [|[m t] sch IH]; intros j Hj Hk; [done|]. cbn [position_of]. destruct j as [|j].
  - injection Hj as -> ->. by rewrite bool_decide_eq_true_2.
  - rewrite bool_decide_eq_false_2 by exact (Hk 0%nat (m, t) ltac:(lia) eq_refl).
    rewrite (IH j Hj); [done|]. intros k e Hlt. exact (Hk (S k) e ltac:(lia)).
Qed.

Lemma column_as_found {T} `{FromColumn T} cols cells b j col :
  NoDup (map name cols) -> cols !! j = Some col -> wire_type_of (col_type col) = col_type col -> sendable col ->
  holds_rows cols cells b -> well_typed b ->
  exists c, column_as b (name col) = from_column c (name col) (wire_type_name col) /\
    has_type (col_type col) (Z.of_nat (length cells)) c /\ blank_nulls (length cells) (col_type col) c /\
    column_cells (length cells) c = Some (nth_cells j cells).
Proof.
  intros Hnd Hj Hw Hsend [Hn Hc] Ht. destruct (carries_column _ _ _ _ _ _ Hc Hj) as (c & He & Hcells & Hblank). exists c.
  pose proof (Forall_lookup_1 _ _ _ _ Ht He) as (t & Hp & Hty). cbn [fst snd] in Hp, Hty.
  rewrite (type_parses col Hsend), Hw in Hp. injection Hp as <-. rewrite Hn in Hty.
  apply lookup_zip_with_Some in He as (hdr & c' & [= <- <-] & Hs & Hcol).
  assert (Hpos : position_of (name col) (Decode.schema b) = Some j).
  { eapply position_of_first; [exact Hs|]. intros k e Hlt Hk Heq.
    assert (exists colk, cols !! k = Some colk) as [colk Hck].
    { apply lookup_lt_is_Some_2. apply lookup_lt_Some in Hj. lia. }
    destruct (carries_column _ _ _ _ _ _ Hc Hck) as (ck & Hek & _).
    apply lookup_zip_with_Some in Hek as (? & ? & [= <- <-] & Hsk & _). rewrite Hk in Hsk. injection Hsk as ->. cbn [fst] in Heq.
    assert (k = j); [|lia]. eapply NoDup_lookup; [exact Hnd| |]; rewrite list_lookup_fmap, ?Hck, ?Hj; simpl; [by rewrite Heq|done]. }
  rewrite Hw in Hblank. split; [|split_and!; [done|done|by rewrite Nat.add_0_l in Hcells]]. unfold column_as. rewrite Hpos. cbn [ok_or mbind result_bind].
  rewrite Hcol, Hs. by destruct (Decode.schema b).
Qed.

End typed.

(** ** The values of the accepted objects *)

Section values.
Context `{Platform} `{FloatText} `{JsonText}.

(** What the accepted calls have under a name. *)
Definition sent_values (columns : list ColumnDef) (nm : text) (calls : list Call) : list Value :=
  map (fun x => default Jv.Null (get (snd (fst x)) nm)) (accepted_calls columns calls).

Lemma value_written columns x row j d nm t :
  row_wrote (call_row columns x) row -> columns !! j = Some d -> col_name d = nm -> ty d = parsed_of t ->
  nm ∉ call_names x -> encode_value (default Jv.Null (get (snd (fst x)) nm)) (parsed_of t) nm = (row !!! j, None).
Proof.
  intros Hr Hj <- <- Hnm. unfold row_wrote in Hr. rewrite call_row_columns in Hr.
  destruct (Forall2_lookup_l _ _ _ _ _ Hr Hj) as (b & Hb & He). rewrite (list_lookup_total_correct _ _ _ Hb), <- He.
  destruct x as [[now obj] [[n raw]|]]; [|done]. unfold encode_column. cbn [call_row dynamic_row with_raw row_raw row_values fst snd].
  rewrite bool_decide_eq_false_2; [done|]. intros ->. apply Hnm. by left.
Qed.

Lemma values_written columns calls cells j d nm t :
  Forall2 row_wrote (map (call_row columns) (accepted_calls columns calls)) cells ->
  columns !! j = Some d -> col_name d = nm -> ty d = parsed_of t -> Forall (fun x => nm ∉ call_names x) calls ->
  Forall2 (fun v b => encode_value v (parsed_of t) nm = (b, None)) (sent_values columns nm calls) (nth_cells j cells).
Proof.
  intros Hw Hj Hn Ht Hnm. unfold sent_values. pose proof (proj1 (accepted_rows columns calls)) as Hin. revert cells Hw Hin.
  induction (accepted_calls columns calls) as [|x xs IH]; intros cells Hw Hin; inversion Hw as [|? row ? cells' Hr Hw']; subst; [constructor|].
  cbn [map nth_cells]. constructor; [|apply IH; [done|intros y Hy; apply Hin; by right]].
  eapply value_written; [exact Hr|exact Hj|done|exact Ht|]. rewrite Forall_forall in Hnm. apply Hnm, list_elem_of_In, Hin. by left.
Qed.

(** Blocks that hold the cells of values read as what the values mean. *)
Lemma blocks_read_back {T} (read : FromColumn T) (means : Value -> T -> Prop) cols parts blocks j col vs xs :
  ReadsBack (col_type col) read means ->
  NoDup (map name cols) -> cols !! j = Some col -> sendable col ->
  Forall2 (holds_rows cols) parts blocks -> Forall well_typed blocks ->
  Forall2 (fun v b => encode_value v (parsed_of (col_type col)) (name col) = (b, None)) vs (nth_cells j (concat parts)) ->
  Forall (fun b => Z.of_nat (length b) < 2 ^ 64) (nth_cells j (concat parts)) ->
  Forall2 means vs xs ->
  exists reads, Forall2 (fun b r => @column_as T read b (name col) = Ok r) blocks reads /\ concat reads = xs.
Proof.
  intros Hrb Hnd Hj Hs Hparts. revert vs xs. induction Hparts as [|part b parts blocks Hp Hparts IH]; intros vs xs Ht Hvs Hsmall Hxs.
  { exists []. split; [constructor|]. inversion Hvs; subst. by inversion Hxs. }
  apply Forall_cons in Ht as [Hbt Ht]. cbn [concat] in Hvs, Hsmall. unfold nth_cells in Hvs, Hsmall. rewrite map_app in Hvs, Hsmall.
  apply Forall2_app_inv_r in Hvs as (vs1 & vs2 & Hv1 & Hv2 & ->). apply Forall2_app_inv_l in Hxs as (xs1 & xs2 & Hx1 & Hx2 & ->).
  apply Forall_app in Hsmall as [Hs1 Hs2]. destruct (IH vs2 xs2 Ht Hv2 Hs2 Hx2) as (reads & Hreads & <-).
  destruct (column_as_found (H1 := read) cols part b j col Hnd Hj declared_as_is Hs Hp Hbt) as (c & Hc & Hty & Hblank & Hcells).
  exists (xs1 :: reads). split; [|done]. constructor; [|done]. rewrite Hc.
  eapply reads_back; [exact Hty|by rewrite Nat2Z.id|by rewrite Nat2Z.id|exact Hs1|exact Hv1|exact Hx1].
Qed.

End values.

Lemma nth_cells_small j (cells : list (list (list byte))) :
  Forall (fun bs => Z.of_nat (length bs) <= MAX_STRING_SIZE) (map (@concat byte) cells) ->
  Forall (fun b => Z.of_nat (length b) < 2 ^ 64) (nth_cells j cells).
Proof.
  intros Hs. apply (proj1 (Forall_map _ _ _)) in Hs. apply Forall_map. eapply Forall_impl; [exact Hs|]. cbn beta. intros row Hr.
  assert (Hl : (length (row !!! j) <= length (concat row))%nat).
  { destruct (row !! j) as [b|] eqn:Eb.
    - rewrite (list_lookup_total_correct _ _ _ Eb). by eapply concat_length_le, list_elem_of_lookup_2.
    - rewrite list_lookup_total_alt, Eb. simpl. lia. }
  unfold MAX_STRING_SIZE in *. lia.
Qed.

(** ** Properties *)

(** C4: what is inserted as JSON is read back as the values it meant. Take an insert over TCP that ended well and a column
    of its table whose values no call passed through raw: an integer of any width, Float32, Float64 or String column, or a Nullable
    over one of them. If the JSON under the column's name means [xs] in the objects that were accepted,
    and the names of the columns are distinct, then the typed reads of that column, block by block, give exactly [xs] in
    order: [scalar_read] lists the reads and says what JSON means what they return, and a null is [None] of the optional ones. *)
Theorem inserted_values_are_read `{Platform} `{FloatText} `{JsonText} `{SqlEscape} `{HttpClient} `{ForeignText}
    h quota l w pooled x calls schema settings database table cache now c s c1 s1 i1 cache1 results c2 s2 i2 cache2 n cols tail
    j col {T} (read : FromColumn T) (means : Value -> T -> Prop) (xs : list T) :
  typed_read (col_type col) T read means ->
  let i := insert_tcp settings database table schema in
  let columns := select_columns (snd (fst x)) (call_names x) schema in
  alloc_total -> stands h quota l w c ->
  write_calls pooled (x :: calls) i cache c s = (c1, s1, Some (i1, cache1, Ok tt :: results)) ->
  only_bad_rows columns calls results ->
  finish_rows now i1 cache1 c1 s1 = (c2, s2, Some (i2, cache2, Ok n)) ->
  Forall2 table_column cols columns -> Forall sendable cols -> cols <> [] ->
  Z.of_nat (length cols) <= READER_MAX_BLOCK_COLUMNS ->
  Forall (fun y : Call => Forall (raw_fits (snd y)) cols) (x :: calls) ->
  Forall (fun bs => Z.of_nat (length bs) <= MAX_STRING_SIZE) (accepted columns (x :: calls)) ->
  Z.of_nat (length (concat (accepted columns (x :: calls)))) <= MAX_COLUMN_BYTES ->
  NoDup (map name cols) -> cols !! j = Some col ->
  Forall (fun y => name col ∉ call_names y) (x :: calls) ->
  Forall2 means (sent_values columns (name col) (x :: calls)) xs ->
  exists payload blocks reads,
    wire c2 = w ++ opening h quota (insert_sql i columns "Native") settings ++ payload /\
    read_insert (S (Z.to_nat n)) (revision h) (payload ++ tail) = Ok (blocks, tail) /\
    Forall2 (fun b r => @column_as T read b (name col) = Ok r) blocks reads /\ concat reads = xs.
Proof.
  intros Hread i columns Ha Hc Hr Hbad Hend Hcols Hs Hne Hlen Hraw Hsmall Hsize Hnd Hj Hnm Hxs. apply typed_read_back in Hread.
  destruct (insert_delivered h quota l w pooled x calls schema settings database table cache now c s c1 s1 i1 cache1
    results c2 s2 i2 cache2 n cols tail Ha Hc Hr Hbad Hend Hcols Hs Hne Hlen Hraw Hsmall Hsize)
    as (payload & cells & parts & blocks & Hwire & Hcells & Hparts & Hn & Hserver & Hblocks & Hwrote).
  fold i columns in Hwire, Hcells, Hwrote. rewrite Hcells in Hsmall.
  destruct (Forall2_lookup_l _ _ _ _ _ Hcols Hj) as (d & Hd & Hdn & Hty & Htn & Hwf & Hz & Hdyn).
  rewrite Htn, (pt_parse_printed _ Hwf Hz (dyn_cell_type _ Hdyn)) in Hty.
  pose proof (values_written columns (x :: calls) cells j d _ _ Hwrote Hd Hdn Hty Hnm) as Hvs. rewrite <- Hparts in Hvs.
  destruct (blocks_read_back read means cols parts blocks j col (sent_values columns (name col) (x :: calls)) xs Hread
    Hnd Hj) as (reads & Hreads & Hxs'); try done.
  - by eapply Forall_lookup_1.
  - eapply read_insert_typed, Hserver.
  - rewrite Hparts. by apply nth_cells_small.
  - exists payload, blocks, reads. split_and!; [done| |done|done]. by rewrite Hn, Nat2Z.id.
Qed.

(** Two objects and a refused one between them: a number, and a note that the second leaves out. *)
Definition note_column : ColumnSchema :=
  {| name := str "note"; type_name := str "Nullable(String)"; col_type := Ct.Nullable Ct.String |}.
Definition noted_table : DynamicSchema :=
  from_columns (str "db.t") [with_default_kind (str "id") (str "UInt8") []; with_default_kind (str "note") (str "Nullable(String)") []].
Definition noted (z : Z) (note : Value) : Call := (7, [(str "id", Jv.Number (json_int z)); (str "note", note)], None).
Definition noted_calls : list Call := [noted 300 Jv.Null; noted 2 Jv.Null].
Definition noted_connection : Actor :=
  fresh [Rm.Packet (Sp.Data None 2 0 [(str "id", str "UInt8"); (str "note", str "Nullable(String)")]); Rm.Packet Sp.EndOfStream].
Definition noted_written :=
  @write_calls plain_json quoting http_example texts (Ok tt) (noted 1 (Jv.String (str "hi")) :: noted_calls)
    (insert_tcp [] (str "db") (str "t") noted_table) (cache_new 60) noted_connection script_example.
Definition noted_ended :=
  let '(i, cache, _) := run_value (insert_tcp [] [] [] noted_table, cache_new 60, []) noted_written in
  @finish_rows http_example texts 8 i cache (fst (fst noted_written)) (snd (fst noted_written)).

(** The notes are read as options of text: the one that was given, and none. *)
Lemma inserted_values_are_read_witness :
  let P := roomy in let F : FloatText := fun _ => [] in
  exists payload blocks reads,
    wire (fst (fst noted_ended)) =
      [] ++ opening hello_example [] (str "INSERT INTO `db`.`t` (`id`, `note`) FORMAT Native") [] ++ payload /\
    read_insert (S (Z.to_nat 2)) (revision hello_example) (payload ++ []) = Ok (blocks, []) /\
    Forall2 (fun b r => @column_as (option text) (@from_column_option text from_column_string) b (str "note") = Ok r) blocks reads /\
    concat reads = [Some (str "hi"); None].
Proof.
  intros P F.
  refine (@inserted_values_are_read P F plain_json quoting http_example texts hello_example [] [] [] (Ok tt)
    (noted 1 (Jv.String (str "hi"))) noted_calls noted_table [] (str "db") (str "t") (cache_new 60) 8 noted_connection script_example
    (fst (fst noted_written)) (snd (fst noted_written)) _ _
    [Err (enc_err (str "id") (str "UInt8 value out of range")); Ok tt]
    (fst (fst noted_ended)) (snd (fst noted_ended)) _ _ 2 [u8_column; note_column] [] 1 note_column (option text)
    (@from_column_option text from_column_string) (optional text_value) [Some (str "hi"); None]
    (read_option _ _ _ _ reads_text) _ _ _ _ _ _ _ _ _ _ _ _ _ _ _ _).
  - intros n. reflexivity.
  - done.
  - vm_compute. reflexivity.
  - constructor; [right; eexists; vm_compute; reflexivity|]. constructor; [by left|constructor].
  - vm_compute. reflexivity.
  - repeat constructor.
  - repeat (apply Forall_cons; split; [split; try reflexivity; try (split; [reflexivity|]); vm_compute; try discriminate; lia|]). constructor.
  - discriminate.
  - vm_compute. discriminate.
  - repeat constructor.
  - repeat (apply Forall_cons; split; [vm_compute; discriminate|]). constructor.
  - vm_compute. discriminate.
  - apply NoDup_cons; split; [|apply NoDup_singleton]. intros Hin%list_elem_of_singleton. discriminate Hin.
  - reflexivity.
  - repeat constructor; apply not_elem_of_nil.
  - change (Forall2 (optional text_value) [Jv.String (str "hi"); Jv.Null] [Some (str "hi"); None]). repeat constructor.
Defined.
